(** * A shallow embedding of the market-making-game matching engine

    The development follows the C++ sources:
    - [mmg/types.h]      identifiers, enums and plain structs;
    - [mmg/engine.h]     [RiskLimits], the [Engine] state and its result structs;
    - [order_book.cpp]   the per-instrument limit order book;
    - [engine.cpp]       the engine facade, the position ledger, settlement and
                         the risk gate.

    Conventions of the embedding.
    - [Price] and [Quantity] are [int64_t]; they are modelled by [Z].  The
      sums, differences, products, negations and absolute values the engine
      computes on them wrap around modulo [2^64], as the compiled program
      does: [i64] brings a result back into [-2^63 .. 2^63 - 1].  This
      covers the position ledger ([update_position]), the risk gate
      ([check_risk]), the mid-point of [get_mark_price] and the level totals
      of [get_snapshot].  Two places are written without [i64]: in
      [match_order] the quantity left of an order and its filled quantity
      stay between 0 and the quantity of the order, which is an [int64_t];
      in [settle_instrument] the difference of the settlement value and the
      strike is an [int64_t] whenever the two have the same sign, as prices
      do.  Integer division [/] truncates toward zero and is [Z.quot]; the
      quotient by 0 and that of [-2^63] by [-1], which C++ leaves undefined,
      are those of [Z.quot], the latter wrapped.
    - [uint64_t] counters and order ids wrap around: [u64 (n + 1)].  User and
      instrument ids ([uint32_t]) are only compared and used as map keys; they
      are modelled by [N].
    - [double] is kept abstract behind the interface [DoubleOps]; [ieee] is the
      IEEE-754 binary64 instance on Rocq's primitive floats.
    - [std::shared_ptr<Order>] is a handle into a store of [Order] objects
      ([World.heap]); every alias of an order reads and writes the same cell.
    - [std::chrono::steady_clock::now()] reads an external clock; the [n]-th
      read of an execution returns [clock n]. *)

From Stdlib Require Import ZArith NArith Lia String Bool.
From Stdlib Require Import Floats.PrimFloat Numbers.Cyclic.Int63.Uint63.
From stdpp Require Import gmap list sorting.

#[local] Open Scope Z_scope.

(** ** Scalar types ([mmg/types.h]) *)

Abbreviation UserId := N (only parsing).
Abbreviation InstrumentId := N (only parsing).
Abbreviation OrderId := N (only parsing).
Abbreviation Price := Z (only parsing).
Abbreviation Quantity := Z (only parsing).
Abbreviation Timestamp := Z (only parsing).

(** A handle to a shared [Order] object. *)
Abbreviation ptr := nat (only parsing).

(** Wrap-around of an unsigned 64-bit counter. *)
Definition u64 (n : N) : N := (n mod 2 ^ 64)%N.

(** Wrap-around of a signed 64-bit result (two's complement). *)
Definition i64 (z : Z) : Z := (z + 2 ^ 63) mod 2 ^ 64 - 2 ^ 63.

Inductive Side := BUY | SELL.
Inductive TimeInForce := GFD | IOC.
Inductive InstrumentType := SCALAR | CALL | PUT.
Inductive OrderStatus := PENDING | PARTIAL | FILLED | CANCELLED | REJECTED.

#[global] Instance Side_eq_dec : EqDecision Side.
Proof. solve_decision. Defined.
#[global] Instance TimeInForce_eq_dec : EqDecision TimeInForce.
Proof. solve_decision. Defined.
#[global] Instance InstrumentType_eq_dec : EqDecision InstrumentType.
Proof. solve_decision. Defined.
#[global] Instance OrderStatus_eq_dec : EqDecision OrderStatus.
Proof. solve_decision. Defined.

(** ** The [double] interface

    The operations the engine applies to [double] values: the conversion
    [static_cast<double>(int64_t)] (also implicit in [double * Quantity]),
    the four arithmetic operations, unary minus and [operator<] (through
    [std::max]).  The literals [0.0] and [100.0] are [d_of_int 0] and
    [d_of_int 100]. *)
Class DoubleOps (D : Type) := {
  d_of_int : Z -> D;
  d_add : D -> D -> D;
  d_sub : D -> D -> D;
  d_mul : D -> D -> D;
  d_div : D -> D -> D;
  d_neg : D -> D;
  d_ltb : D -> D -> bool
}.

(** [std::max(a, b)] is [(a < b) ? b : a]. *)
Definition d_max {D} `{DoubleOps D} (a b : D) : D := if d_ltb a b then b else a.

(** IEEE-754 binary64.  The conversion rounds to nearest even and is odd
    ([of (-z) = - of z]); [-2^63] is not a [uint63] and is built from [2^62]. *)
Definition ieee_of_int (z : Z) : float :=
  if z =? - 2 ^ 63 then
    PrimFloat.opp (PrimFloat.mul (PrimFloat.of_uint63 (Uint63.of_Z (2 ^ 62)))
                                 (PrimFloat.of_uint63 (Uint63.of_Z 2)))
  else if z <? 0 then PrimFloat.opp (PrimFloat.of_uint63 (Uint63.of_Z (- z)))
  else PrimFloat.of_uint63 (Uint63.of_Z z).

#[global] Instance ieee : DoubleOps float := {|
  d_of_int := ieee_of_int;
  d_add := PrimFloat.add;
  d_sub := PrimFloat.sub;
  d_mul := PrimFloat.mul;
  d_div := PrimFloat.div;
  d_neg := PrimFloat.opp;
  d_ltb := PrimFloat.ltb
|}.

(** ** Structs of [mmg/types.h] *)

Module InstrumentSpec.
Record t (D : Type) := mk {
    id : InstrumentId;
    symbol : string;
    type : InstrumentType;
    reference_id : InstrumentId;
    strike : Price;
    tick_size : Price;
    lot_size : Quantity;
    tick_value : D;
    is_halted : bool
  }.
Arguments mk {D}. Arguments id {D}. Arguments symbol {D}.
Arguments type {D}. Arguments reference_id {D}. Arguments strike {D}.
Arguments tick_size {D}. Arguments lot_size {D}. Arguments tick_value {D}.
Arguments is_halted {D}.

Definition set_is_halted {D} (h : bool) (s : t D) : t D :=
    mk (id s) (symbol s) (type s) (reference_id s) (strike s) (tick_size s)
       (lot_size s) (tick_value s) h.
End InstrumentSpec.

Module OrderRequest.
Record t := mk {
    user_id : UserId;
    instrument_id : InstrumentId;
    side : Side;
    price : Price;
    quantity : Quantity;
    tif : TimeInForce;
    post_only : bool
  }.
End OrderRequest.

Module Fill.
Record t := mk {
    order_id : OrderId;
    user_id : UserId;
    instrument_id : InstrumentId;
    side : Side;
    price : Price;
    quantity : Quantity;
    timestamp : Timestamp
  }.
End Fill.

Module Position.
Record t (D : Type) := mk {
    instrument_id : InstrumentId;
    net_qty : Quantity;
    vwap : Price;
    realized_pnl : D;
    unrealized_pnl : D
  }.
Arguments mk {D}. Arguments instrument_id {D}. Arguments net_qty {D}.
Arguments vwap {D}. Arguments realized_pnl {D}. Arguments unrealized_pnl {D}.

  (** The default constructor [Position()]. *)
Definition init {D} `{DoubleOps D} : t D :=
    mk 0%N 0 0 (d_of_int 0) (d_of_int 0).
End Position.

Module PriceLevel.
Record t := mk { price : Price; size : Quantity }.
End PriceLevel.

Module MarketSnapshot.
Record t := mk {
    instrument_id : InstrumentId;
    bids : list PriceLevel.t;
    asks : list PriceLevel.t;
    last_price : Price;
    timestamp : Timestamp
  }.
End MarketSnapshot.

(** [Order] is declared in [mmg/order_book.h]; its fields are the ones the
    engine, the book and the bindings read and write. *)
Module Order.
Record t := mk {
    id : OrderId;
    user_id : UserId;
    instrument_id : InstrumentId;
    side : Side;
    price : Price;
    quantity : Quantity;
    filled_quantity : Quantity;
    status : OrderStatus;
    tif : TimeInForce;
    post_only : bool;
    timestamp : Timestamp
  }.

Definition set_filled_quantity (q : Quantity) (o : t) : t :=
    mk (id o) (user_id o) (instrument_id o) (side o) (price o) (quantity o)
       q (status o) (tif o) (post_only o) (timestamp o).

Definition set_status (s : OrderStatus) (o : t) : t :=
    mk (id o) (user_id o) (instrument_id o) (side o) (price o) (quantity o)
       (filled_quantity o) s (tif o) (post_only o) (timestamp o).

  (** What a read through a handle that designates no object yields in the
      model; a [shared_ptr] held by the book or the engine always designates
      an object, so no execution reads it. *)
Definition null : t := mk 0%N 0%N 0%N BUY 0 0 0 PENDING GFD false 0.
End Order.

(** ** Structs of [mmg/engine.h] *)

Module RiskLimits.
Record t (D : Type) := mk {
    max_position : Quantity;
    max_notional : D;
    max_orders_per_sec : N
  }.
Arguments mk {D}. Arguments max_position {D}. Arguments max_notional {D}.
Arguments max_orders_per_sec {D}.
End RiskLimits.

Module OrderResult.
Record t := mk {
    order_id : OrderId;
    success : bool;
    error_message : string;
    fills : list Fill.t
  }.
End OrderResult.

Module Stats.
Record t := mk {
    total_orders : N;
    total_fills : N;
    total_cancels : N;
    total_rejects : N
  }.
Definition zero : t := mk 0 0 0 0.
Definition incr_orders (s : t) : t :=
    mk (u64 (total_orders s + 1)) (total_fills s) (total_cancels s) (total_rejects s).
Definition incr_fills (s : t) : t :=
    mk (total_orders s) (u64 (total_fills s + 1)) (total_cancels s) (total_rejects s).
Definition incr_cancels (s : t) : t :=
    mk (total_orders s) (total_fills s) (u64 (total_cancels s + 1)) (total_rejects s).
Definition incr_rejects (s : t) : t :=
    mk (total_orders s) (total_fills s) (total_cancels s) (u64 (total_rejects s + 1)).
End Stats.

Module TradeRecord.
Record t := mk {
    buy_order_id : OrderId;
    sell_order_id : OrderId;
    buyer_id : UserId;
    seller_id : UserId;
    instrument_id : InstrumentId;
    price : Price;
    quantity : Quantity;
    timestamp : Timestamp
  }.
End TradeRecord.

(** ** The world outside the engine object

    [heap] holds every [Order] object ever allocated by [make_shared]; a
    handle is an index into it.  [reads] counts the reads of the steady
    clock made so far. *)
Module World.
Record t := mk { heap : list Order.t; reads : nat }.
Definition init : t := mk [] 0.
End World.

(** [*p] and [*p = o]. *)
Definition deref (w : World.t) (p : ptr) : Order.t :=
  default Order.null (World.heap w !! p).
Definition store (w : World.t) (p : ptr) (o : Order.t) : World.t :=
  World.mk (<[p := o]> (World.heap w)) (World.reads w).
(** [std::make_shared<Order>()] followed by the initialisation of the fields. *)
Definition make_shared (w : World.t) (o : Order.t) : ptr * World.t :=
  (length (World.heap w), World.mk (World.heap w ++ [o]) (World.reads w)).

(** ** Price levels

    [std::map<Price, std::list<std::shared_ptr<Order>>, Compare>] is kept as
    the list of its entries in iteration order, so [*m.begin()] is the head.
    [before] is the map's comparator: [a < b] for [asks_] (ascending) and
    [a > b] for [bids_] (descending). *)
Abbreviation Levels := (list (Price * list ptr)) (only parsing).

Definition asks_before (a b : Price) : bool := a <? b.
Definition bids_before (a b : Price) : bool := b <? a.

(** [m[price].push_back(order)]. *)
Fixpoint level_push (before : Price -> Price -> bool) (price : Price)
    (order : ptr) (m : Levels) : Levels :=
  match m with
  | [] => [(price, [order])]
  | (p, l) :: rest =>
      if price =? p then (p, l ++ [order]) :: rest
      else if before price p then (price, [order]) :: m
      else (p, l) :: level_push before price order rest
  end.

(** [it = m.find(price); if (it != m.end()) { it->second.remove(order);
    if (it->second.empty()) m.erase(it); }]. *)
Fixpoint level_remove (price : Price) (order : ptr) (m : Levels) : Levels :=
  match m with
  | [] => []
  | (p, l) :: rest =>
      if price =? p then
        match filter (fun q => q <> order) l with
        | [] => rest
        | l' => (p, l') :: rest
        end
      else (p, l) :: level_remove price order rest
  end.

(** ** The order book ([order_book.cpp]) *)
Module OrderBook.

Record t := mk {
  instrument_id_ : InstrumentId;
  bids_ : Levels;
  asks_ : Levels;
  orders_ : gmap OrderId ptr;
  last_price_ : Price
}.

Definition init (instrument_id : InstrumentId) : t := mk instrument_id [] [] ∅ 0.

Definition set_bids_ (x : Levels) (b : t) : t :=
  mk (instrument_id_ b) x (asks_ b) (orders_ b) (last_price_ b).
Definition set_asks_ (x : Levels) (b : t) : t :=
  mk (instrument_id_ b) (bids_ b) x (orders_ b) (last_price_ b).
Definition set_orders_ (x : gmap OrderId ptr) (b : t) : t :=
  mk (instrument_id_ b) (bids_ b) (asks_ b) x (last_price_ b).
Definition set_last_price_ (x : Price) (b : t) : t :=
  mk (instrument_id_ b) (bids_ b) (asks_ b) (orders_ b) x.

(** The side of the book an incoming order of side [s] matches against:
    [asks_] for a BUY, [bids_] for a SELL. *)
Definition opposite (s : Side) (b : t) : Levels :=
  match s with BUY => asks_ b | SELL => bids_ b end.
Definition set_opposite (s : Side) (x : Levels) (b : t) : t :=
  match s with BUY => set_asks_ x b | SELL => set_bids_ x b end.

(** The test that ends matching: [order->price < price] for a BUY,
    [order->price > price] for a SELL. *)
Definition no_cross (s : Side) (order_price level_price : Price) : bool :=
  match s with
  | BUY => order_price <? level_price
  | SELL => level_price <? order_price
  end.

Section WithClock.
Variable clock : nat -> Timestamp.

Definition now (w : World.t) : Timestamp * World.t :=
  (clock (World.reads w), World.mk (World.heap w) (S (World.reads w))).

Definition create_fill (b : t) (w : World.t) (aggressor passive : ptr)
    (price : Price) (quantity : Quantity) : Fill.t * World.t :=
  let a := deref w aggressor in
  let '(ts, w) := now w in
  (Fill.mk (Order.id a) (Order.user_id a) (instrument_id_ b) (Order.side a)
           price quantity ts, w).

(** The loop guard [order->filled_quantity < order->quantity]. *)
Definition unfilled (w : World.t) (order : ptr) : bool :=
  Order.filled_quantity (deref w order) <? Order.quantity (deref w order).

(** The body of the inner loop of [match_order]: one match of [order]
    against [passive_order], the front of the level at [price].  Returns the
    two fills and whether the passive order was fully filled (and so popped
    from the level and erased from [orders_]). *)
Definition match_one (price : Price) (order passive_order : ptr)
    (w : World.t) (b : t) : World.t * t * bool * Fill.t * Fill.t :=
  let match_qty :=
    Z.min (Order.quantity (deref w order) - Order.filled_quantity (deref w order))
          (Order.quantity (deref w passive_order)
           - Order.filled_quantity (deref w passive_order)) in
  let '(f1, w) := create_fill b w order passive_order price match_qty in
  let '(f2, w) := create_fill b w passive_order order price match_qty in
  let w := store w order
             (Order.set_filled_quantity
                (Order.filled_quantity (deref w order) + match_qty)
                (deref w order)) in
  let w := store w passive_order
             (Order.set_filled_quantity
                (Order.filled_quantity (deref w passive_order) + match_qty)
                (deref w passive_order)) in
  let b := set_last_price_ price b in
  if Order.quantity (deref w passive_order)
     <=? Order.filled_quantity (deref w passive_order)
  then
    let w := store w passive_order
               (Order.set_status FILLED (deref w passive_order)) in
    let b := set_orders_ (delete (Order.id (deref w passive_order)) (orders_ b)) b in
    (w, b, true, f1, f2)
  else
    let w := store w passive_order
               (Order.set_status PARTIAL (deref w passive_order)) in
    (w, b, false, f1, f2).

(** The inner loop of [match_order]:
    [while (!orders_at_level.empty() && order->filled_quantity < order->quantity)].
    [lvl] is [orders_at_level]; [b] carries [orders_] and [last_price_].  One
    unit of [fuel] is spent per execution of the loop body; [None] means the
    fuel ran out. *)
Fixpoint match_level (fuel : nat) (price : Price) (order : ptr)
    (w : World.t) (b : t) (lvl : list ptr) (fills : list Fill.t)
    : option (World.t * t * list ptr * list Fill.t) :=
  match lvl with
  | [] => Some (w, b, lvl, fills)
  | passive_order :: rest =>
      if negb (unfilled w order) then Some (w, b, lvl, fills)
      else
        match fuel with
        | O => None
        | S fuel =>
            let '(w, b, popped, f1, f2) := match_one price order passive_order w b in
            let fills := fills ++ [f1; f2] in
            if popped then match_level fuel price order w b rest fills
            else match_level fuel price order w b lvl fills
        end
  end.

(** The outer loop of [match_order].  The source writes it twice, once per
    side, with [asks_]/[bids_] and [<]/[>] exchanged; [s] selects the copy.
    One unit of [fuel] is spent per price level entered. *)
Fixpoint match_levels (fuel : nat) (s : Side) (order : ptr)
    (w : World.t) (b : t) (fills : list Fill.t)
    : option (World.t * t * list Fill.t) :=
  if negb (unfilled w order) then Some (w, b, fills)
  else
    match opposite s b with
    | [] => Some (w, b, fills)
    | (price, orders_at_level) :: rest =>
        if no_cross s (Order.price (deref w order)) price then Some (w, b, fills)
        else if Order.post_only (deref w order) then
          Some (store w order (Order.set_status REJECTED (deref w order)), b, fills)
        else
          match fuel with
          | O => None
          | S fuel =>
              match match_level (length orders_at_level) price order w b
                                orders_at_level fills with
              | None => None
              | Some (w, b, lvl, fills) =>
                  let b := match lvl with
                           | [] => set_opposite s rest b
                           | _ => set_opposite s ((price, lvl) :: rest) b
                           end in
                  match_levels fuel s order w b fills
              end
          end
    end.

(** [match_order]: both loops with the fuel that always suffices (lemmas
    [match_level_total] and [match_levels_total]). *)
Definition match_order (w : World.t) (b : t) (order : ptr)
    : World.t * t * list Fill.t :=
  let s := Order.side (deref w order) in
  default (w, b, []) (match_levels (length (opposite s b)) s order w b []).

Definition add_to_book (w : World.t) (b : t) (order : ptr) : t :=
  match Order.side (deref w order) with
  | BUY => set_bids_ (level_push bids_before (Order.price (deref w order)) order (bids_ b)) b
  | SELL => set_asks_ (level_push asks_before (Order.price (deref w order)) order (asks_ b)) b
  end.

Definition add_order (w : World.t) (b : t) (order : ptr)
    : World.t * t * list Fill.t :=
  let b := set_orders_ (<[Order.id (deref w order) := order]> (orders_ b)) b in
  let '(w, b, fills) := match_order w b order in
  if decide (Order.status (deref w order) = REJECTED) then
    (w, set_orders_ (delete (Order.id (deref w order)) (orders_ b)) b, fills)
  else if unfilled w order && negb (bool_decide (Order.tif (deref w order) = IOC)) then
    let b := add_to_book w b order in
    let w := store w order
               (Order.set_status
                  (if 0 <? Order.filled_quantity (deref w order) then PARTIAL else PENDING)
                  (deref w order)) in
    (w, b, fills)
  else if Order.quantity (deref w order) <=? Order.filled_quantity (deref w order) then
    (store w order (Order.set_status FILLED (deref w order)), b, fills)
  else
    (store w order (Order.set_status CANCELLED (deref w order)), b, fills).

Definition cancel_order (w : World.t) (b : t) (order_id : OrderId)
    : World.t * t * bool :=
  match orders_ b !! order_id with
  | None => (w, b, false)
  | Some order =>
      let b := match Order.side (deref w order) with
               | BUY => set_bids_ (level_remove (Order.price (deref w order)) order (bids_ b)) b
               | SELL => set_asks_ (level_remove (Order.price (deref w order)) order (asks_ b)) b
               end in
      let w := store w order (Order.set_status CANCELLED (deref w order)) in
      (w, set_orders_ (delete order_id (orders_ b)) b, true)
  end.

(** One side of [get_snapshot]; [depth] is what is left of [depth - count]. *)
Fixpoint snapshot_side (w : World.t) (depth : nat) (m : Levels) : list PriceLevel.t :=
  match m with
  | [] => []
  | (price, orders) :: rest =>
      match depth with
      | O => []
      | S d =>
          let total_size :=
            foldl (fun acc order =>
                     i64 (acc + i64 (Order.quantity (deref w order)
                                     - Order.filled_quantity (deref w order))))
                  0 orders in
          if 0 <? total_size
          then PriceLevel.mk price total_size :: snapshot_side w d rest
          else snapshot_side w depth rest
      end
  end.

Definition get_snapshot (w : World.t) (b : t) (depth : nat)
    : MarketSnapshot.t * World.t :=
  let '(ts, w') := now w in
  (MarketSnapshot.mk (instrument_id_ b) (snapshot_side w depth (bids_ b))
                     (snapshot_side w depth (asks_ b)) (last_price_ b) ts, w').

Definition get_best_bid (b : t) : Price :=
  match bids_ b with [] => 0 | (price, _) :: _ => price end.
Definition get_best_ask (b : t) : Price :=
  match asks_ b with [] => 0 | (price, _) :: _ => price end.
Definition get_last_price (b : t) : Price := last_price_ b.

End WithClock.
End OrderBook.

(** Modelled from the spec: the default argument of [OrderBook::get_snapshot]
    is declared in [mmg/order_book.h]; the spec gives it as 10 levels per side. *)
Definition default_depth : nat := 10.

(** The order in which a [std::map] keyed by an unsigned id is iterated. *)
Definition key_le {A : Type} (a b : N * A) : Prop := (a.1 <= b.1)%N.
#[global] Instance key_le_dec {A : Type} (a b : N * A) : Decision (key_le a b) :=
  decide (a.1 <= b.1)%N.

(** ** The engine ([engine.cpp]) *)
Module Engine.
Section Engine.
Context {D : Type} `{!DoubleOps D}.
Variable clock : nat -> Timestamp.

Record t := mk {
  next_order_id_ : OrderId;
  instruments_ : gmap InstrumentId (InstrumentSpec.t D);
  order_books_ : gmap InstrumentId OrderBook.t;
  positions_ : gmap UserId (gmap InstrumentId (Position.t D));
  risk_limits_ : gmap UserId (RiskLimits.t D);
  active_orders_ : gmap OrderId ptr;
  user_orders_ : gmap UserId (gset OrderId);
  trade_history_ : list TradeRecord.t;
  fill_history_ : list Fill.t;
  stats_ : Stats.t
}.

(** [Engine::Engine() : next_order_id_(1) { stats_ = {}; }]. *)
Definition init : t := mk 1%N ∅ ∅ ∅ ∅ ∅ ∅ [] [] Stats.zero.

Definition set_next_order_id_ (x : OrderId) (e : t) : t :=
  mk x (instruments_ e) (order_books_ e) (positions_ e) (risk_limits_ e)
     (active_orders_ e) (user_orders_ e) (trade_history_ e) (fill_history_ e) (stats_ e).
Definition set_instruments_ (x : gmap InstrumentId (InstrumentSpec.t D)) (e : t) : t :=
  mk (next_order_id_ e) x (order_books_ e) (positions_ e) (risk_limits_ e)
     (active_orders_ e) (user_orders_ e) (trade_history_ e) (fill_history_ e) (stats_ e).
Definition set_order_books_ (x : gmap InstrumentId OrderBook.t) (e : t) : t :=
  mk (next_order_id_ e) (instruments_ e) x (positions_ e) (risk_limits_ e)
     (active_orders_ e) (user_orders_ e) (trade_history_ e) (fill_history_ e) (stats_ e).
Definition set_positions_ (x : gmap UserId (gmap InstrumentId (Position.t D))) (e : t) : t :=
  mk (next_order_id_ e) (instruments_ e) (order_books_ e) x (risk_limits_ e)
     (active_orders_ e) (user_orders_ e) (trade_history_ e) (fill_history_ e) (stats_ e).
Definition set_risk_limits_ (x : gmap UserId (RiskLimits.t D)) (e : t) : t :=
  mk (next_order_id_ e) (instruments_ e) (order_books_ e) (positions_ e) x
     (active_orders_ e) (user_orders_ e) (trade_history_ e) (fill_history_ e) (stats_ e).
Definition set_active_orders_ (x : gmap OrderId ptr) (e : t) : t :=
  mk (next_order_id_ e) (instruments_ e) (order_books_ e) (positions_ e) (risk_limits_ e)
     x (user_orders_ e) (trade_history_ e) (fill_history_ e) (stats_ e).
Definition set_user_orders_ (x : gmap UserId (gset OrderId)) (e : t) : t :=
  mk (next_order_id_ e) (instruments_ e) (order_books_ e) (positions_ e) (risk_limits_ e)
     (active_orders_ e) x (trade_history_ e) (fill_history_ e) (stats_ e).
Definition set_trade_history_ (x : list TradeRecord.t) (e : t) : t :=
  mk (next_order_id_ e) (instruments_ e) (order_books_ e) (positions_ e) (risk_limits_ e)
     (active_orders_ e) (user_orders_ e) x (fill_history_ e) (stats_ e).
Definition set_fill_history_ (x : list Fill.t) (e : t) : t :=
  mk (next_order_id_ e) (instruments_ e) (order_books_ e) (positions_ e) (risk_limits_ e)
     (active_orders_ e) (user_orders_ e) (trade_history_ e) x (stats_ e).
Definition set_stats_ (x : Stats.t) (e : t) : t :=
  mk (next_order_id_ e) (instruments_ e) (order_books_ e) (positions_ e) (risk_limits_ e)
     (active_orders_ e) (user_orders_ e) (trade_history_ e) (fill_history_ e) x.

(** [order_books_[id]]: [add_instrument] creates the book together with the
    instrument and nothing removes either, so the entry exists whenever the
    instrument does; the model reads an empty book where the source would
    dereference a null [unique_ptr]. *)
Definition book_of (e : t) (id : InstrumentId) : OrderBook.t :=
  default (OrderBook.init id) (order_books_ e !! id).

Definition add_instrument (e : t) (spec : InstrumentSpec.t D) : t * bool :=
  match instruments_ e !! InstrumentSpec.id spec with
  | Some _ => (e, false)
  | None =>
      let e := set_instruments_ (<[InstrumentSpec.id spec := spec]> (instruments_ e)) e in
      let e := set_order_books_
                 (<[InstrumentSpec.id spec := OrderBook.init (InstrumentSpec.id spec)]>
                    (order_books_ e)) e in
      (e, true)
  end.

Definition halt_instrument (e : t) (id : InstrumentId) (halted : bool) : t * bool :=
  match instruments_ e !! id with
  | None => (e, false)
  | Some inst =>
      (set_instruments_ (<[id := InstrumentSpec.set_is_halted halted inst]> (instruments_ e)) e,
       true)
  end.

Definition get_instrument (e : t) (id : InstrumentId) : option (InstrumentSpec.t D) :=
  instruments_ e !! id.

Definition set_risk_limits (e : t) (user_id : UserId) (limits : RiskLimits.t D) : t :=
  set_risk_limits_ (<[user_id := limits]> (risk_limits_ e)) e.

Definition check_risk (e : t) (user_id : UserId) (inst_id : InstrumentId)
    (side : Side) (qty : Quantity) : bool :=
  match risk_limits_ e !! user_id with
  | None => true
  | Some limits =>
      match positions_ e !! user_id with
      | None => true
      | Some user_positions =>
          match user_positions !! inst_id with
          | None => true
          | Some pos =>
              let current_pos := Position.net_qty pos in
              let new_pos :=
                i64 (current_pos + (match side with BUY => qty | SELL => i64 (- qty) end)) in
              if RiskLimits.max_position limits <? i64 (Z.abs new_pos) then false else true
          end
      end
  end.

(** [std::signbit] applied to an [int64_t]: the argument is converted to
    [double], which keeps the sign and maps 0 to [+0.0]. *)
Definition signbit (x : Z) : bool := x <? 0.

(** The body of [update_position] once [pos] is bound to
    [positions_[user_id][fill.instrument_id]].  [std::abs] of [-2^63] is
    [-2^63] again. *)
Definition update_position_at (pos : Position.t D) (fill : Fill.t) : Position.t D :=
  let instrument_id := Fill.instrument_id fill in
  let net_qty := Position.net_qty pos in
  let vwap := Position.vwap pos in
  let realized_pnl := Position.realized_pnl pos in
  let unrealized_pnl := Position.unrealized_pnl pos in
  let fill_qty := match Fill.side fill with
                  | BUY => Fill.quantity fill
                  | SELL => i64 (- Fill.quantity fill)
                  end in
  if net_qty =? 0 then
    Position.mk instrument_id fill_qty (Fill.price fill) realized_pnl unrealized_pnl
  else if ((0 <? net_qty) && (0 <? fill_qty)) || ((net_qty <? 0) && (fill_qty <? 0)) then
    let abs_old := i64 (Z.abs net_qty) in
    let abs_new := i64 (Z.abs fill_qty) in
    Position.mk instrument_id (i64 (net_qty + fill_qty))
      (i64 (Z.quot (i64 (i64 (vwap * abs_old) + i64 (Fill.price fill * abs_new)))
                   (i64 (abs_old + abs_new))))
      realized_pnl unrealized_pnl
  else
    let reduce_qty := Z.min (i64 (Z.abs net_qty)) (i64 (Z.abs fill_qty)) in
    let pnl_per_unit := d_div (d_of_int (i64 (Fill.price fill - vwap))) (d_of_int 100) in
    let pnl_per_unit := if net_qty <? 0 then d_neg pnl_per_unit else pnl_per_unit in
    let realized_pnl := d_add realized_pnl (d_mul pnl_per_unit (d_of_int reduce_qty)) in
    let net_qty := i64 (net_qty + fill_qty) in
    if negb (net_qty =? 0)
       && negb (eqb (signbit net_qty) (signbit (i64 (net_qty - fill_qty))))
    then Position.mk instrument_id net_qty (Fill.price fill) realized_pnl unrealized_pnl
    else Position.mk instrument_id net_qty vwap realized_pnl unrealized_pnl.

(** [positions_[user_id][instrument_id]]: [operator[]] default-constructs a
    missing entry. *)
Definition position_of (e : t) (user_id : UserId) (inst_id : InstrumentId) : Position.t D :=
  default Position.init (default ∅ (positions_ e !! user_id) !! inst_id).

Definition update_position (e : t) (user_id : UserId) (fill : Fill.t) : t :=
  let pos := update_position_at (position_of e user_id (Fill.instrument_id fill)) fill in
  set_positions_
    (<[user_id := <[Fill.instrument_id fill := pos]> (default ∅ (positions_ e !! user_id))]>
       (positions_ e)) e.

Definition get_mark_price (e : t) (id : InstrumentId) : Price :=
  match order_books_ e !! id with
  | None => 0
  | Some book =>
      let last := OrderBook.get_last_price book in
      if 0 <? last then last
      else
        let bid := OrderBook.get_best_bid book in
        let ask := OrderBook.get_best_ask book in
        if (0 <? bid) && (0 <? ask) then Z.quot (i64 (bid + ask)) 2 else 0
  end.

(** The trade record built from a matched pair of fills. *)
Definition trade_of (fill1 fill2 : Fill.t) : TradeRecord.t :=
  match Fill.side fill1 with
  | BUY =>
      TradeRecord.mk (Fill.order_id fill1) (Fill.order_id fill2)
        (Fill.user_id fill1) (Fill.user_id fill2)
        (Fill.instrument_id fill1) (Fill.price fill1) (Fill.quantity fill1)
        (Fill.timestamp fill1)
  | SELL =>
      TradeRecord.mk (Fill.order_id fill2) (Fill.order_id fill1)
        (Fill.user_id fill2) (Fill.user_id fill1)
        (Fill.instrument_id fill1) (Fill.price fill1) (Fill.quantity fill1)
        (Fill.timestamp fill1)
  end.

(** What [submit_order] does with one fill: position, history, counter. *)
Definition record_fill (e : t) (fill : Fill.t) : t :=
  let e := update_position e (Fill.user_id fill) fill in
  let e := set_fill_history_ (fill_history_ e ++ [fill]) e in
  set_stats_ (Stats.incr_fills (stats_ e)) e.

(** The loop [for (i = 0; i < fills.size(); i += 2)] of [submit_order]. *)
Fixpoint process_fills (e : t) (fills : list Fill.t) : t :=
  match fills with
  | [] => e
  | fill1 :: rest =>
      let e := record_fill e fill1 in
      match rest with
      | [] => e
      | fill2 :: rest' =>
          let e := record_fill e fill2 in
          let e := set_trade_history_ (trade_history_ e ++ [trade_of fill1 fill2]) e in
          process_fills e rest'
      end
  end.

(** The four early returns of [submit_order]. *)
Definition reject (w : World.t) (e : t) (error_message : string)
    : World.t * t * OrderResult.t :=
  (w, set_stats_ (Stats.incr_rejects (stats_ e)) e,
   OrderResult.mk 0%N false error_message []).

Definition submit_order (w : World.t) (e : t) (request : OrderRequest.t)
    : World.t * t * OrderResult.t :=
  match instruments_ e !! OrderRequest.instrument_id request with
  | None => reject w e "Instrument not found"%string
  | Some inst =>
      if InstrumentSpec.is_halted inst then reject w e "Instrument is halted"%string
      else if negb (check_risk e (OrderRequest.user_id request)
                      (OrderRequest.instrument_id request)
                      (OrderRequest.side request) (OrderRequest.quantity request))
      then reject w e "Risk limit exceeded"%string
      else if OrderRequest.quantity request <=? 0
      then reject w e "Invalid quantity"%string
      else
        let id := next_order_id_ e in
        let e := set_next_order_id_ (u64 (id + 1)) e in
        let '(ts, w) := OrderBook.now clock w in
        let '(order, w) :=
          make_shared w
            (Order.mk id (OrderRequest.user_id request)
               (OrderRequest.instrument_id request) (OrderRequest.side request)
               (OrderRequest.price request) (OrderRequest.quantity request)
               0 PENDING (OrderRequest.tif request)
               (OrderRequest.post_only request) ts) in
        let book := book_of e (OrderRequest.instrument_id request) in
        let '(w, book, fills) := OrderBook.add_order clock w book order in
        let e := set_order_books_
                   (<[OrderRequest.instrument_id request := book]> (order_books_ e)) e in
        let e :=
          if bool_decide (Order.status (deref w order) = PENDING)
             || bool_decide (Order.status (deref w order) = PARTIAL)
          then
            let e := set_active_orders_
                       (<[Order.id (deref w order) := order]> (active_orders_ e)) e in
            set_user_orders_
              (<[OrderRequest.user_id request :=
                   default ∅ (user_orders_ e !! OrderRequest.user_id request)
                   ∪ {[Order.id (deref w order)]}]> (user_orders_ e)) e
          else e in
        let e := process_fills e fills in
        let e := set_stats_ (Stats.incr_orders (stats_ e)) e in
        (w, e, OrderResult.mk id true EmptyString fills)
  end.

Definition cancel_order (w : World.t) (e : t) (order_id : OrderId) (user_id : UserId)
    : World.t * t * bool :=
  match active_orders_ e !! order_id with
  | None => (w, e, false)
  | Some order =>
      if negb (bool_decide (Order.user_id (deref w order) = user_id)) then (w, e, false)
      else
        let inst := Order.instrument_id (deref w order) in
        let '(w, book, cancelled) := OrderBook.cancel_order w (book_of e inst) order_id in
        let e := set_order_books_ (<[inst := book]> (order_books_ e)) e in
        if cancelled then
          let e := set_active_orders_ (delete order_id (active_orders_ e)) e in
          let e := set_user_orders_
                     (<[user_id := default ∅ (user_orders_ e !! user_id) ∖ {[order_id]}]>
                        (user_orders_ e)) e in
          let e := set_stats_ (Stats.incr_cancels (stats_ e)) e in
          (w, e, true)
        else (w, e, false)
  end.

Definition replace_order (w : World.t) (e : t) (order_id : OrderId) (user_id : UserId)
    (new_price : option Price) (new_qty : option Quantity) : World.t * t * bool :=
  match active_orders_ e !! order_id with
  | None => (w, e, false)
  | Some old_order =>
      if negb (bool_decide (Order.user_id (deref w old_order) = user_id)) then (w, e, false)
      else
        let '(w, e, cancelled) := cancel_order w e order_id user_id in
        if negb cancelled then (w, e, false)
        else
          let old := deref w old_order in
          let request :=
            OrderRequest.mk user_id (Order.instrument_id old) (Order.side old)
              (match new_price with Some p => p | None => Order.price old end)
              (match new_qty with
               | Some q => q
               | None => Order.quantity old - Order.filled_quantity old
               end)
              (Order.tif old) (Order.post_only old) in
          let '(w, e, result) := submit_order w e request in
          (w, e, OrderResult.success result)
  end.

(** [std::set<OrderId>] iterates in ascending order. *)
Definition cancel_all (w : World.t) (e : t) (user_id : UserId) : World.t * t * bool :=
  match user_orders_ e !! user_id with
  | None => (w, e, true)
  | Some order_ids =>
      let '(w, e) :=
        foldl (fun '(w, e) order_id =>
                 let '(w, e, _) := cancel_order w e order_id user_id in (w, e))
              (w, e) (merge_sort N.le (elements order_ids)) in
      (w, e, true)
  end.

Definition get_snapshot (w : World.t) (e : t) (id : InstrumentId)
    : MarketSnapshot.t * World.t :=
  match order_books_ e !! id with
  | None => (MarketSnapshot.mk 0%N [] [] 0 0, w)
  | Some book => OrderBook.get_snapshot clock w book default_depth
  end.

(** What one position adds to [total] in [get_total_pnl]. *)
Definition add_position_pnl (e : t) (total : D) (entry : InstrumentId * Position.t D) : D :=
  let '(inst_id, pos) := entry in
  let total := d_add total (Position.realized_pnl pos) in
  if negb (Position.net_qty pos =? 0) then
    let mark := get_mark_price e inst_id in
    if 0 <? mark then
      let mark_value := d_div (d_of_int mark) (d_of_int 100) in
      let entry_value := d_div (d_of_int (Position.vwap pos)) (d_of_int 100) in
      let unrealized := d_mul (d_sub mark_value entry_value)
                              (d_of_int (Position.net_qty pos)) in
      d_add total unrealized
    else total
  else total.

(** [std::map] iterates in ascending key order. *)
Definition get_total_pnl (e : t) (user_id : UserId) : D :=
  match positions_ e !! user_id with
  | None => d_of_int 0
  | Some user_positions =>
      foldl (add_position_pnl e) (d_of_int 0)
            (merge_sort key_le (map_to_list user_positions))
  end.

(** The update of one open position by [settle_instrument]. *)
Definition settle_position (inst : InstrumentSpec.t D) (settlement_value : Price)
    (pos : Position.t D) : Position.t D :=
  let net := d_of_int (Position.net_qty pos) in
  let payoff :=
    match InstrumentSpec.type inst with
    | SCALAR =>
        d_mul (d_mul (d_div (d_of_int settlement_value) (d_of_int 100)) net)
              (InstrumentSpec.tick_value inst)
    | CALL =>
        let intrinsic :=
          d_max (d_of_int 0)
                (d_div (d_of_int (settlement_value - InstrumentSpec.strike inst))
                       (d_of_int 100)) in
        d_mul (d_mul intrinsic net) (InstrumentSpec.tick_value inst)
    | PUT =>
        let intrinsic :=
          d_max (d_of_int 0)
                (d_div (d_of_int (InstrumentSpec.strike inst - settlement_value))
                       (d_of_int 100)) in
        d_mul (d_mul intrinsic net) (InstrumentSpec.tick_value inst)
    end in
  let cost_basis :=
    d_mul (d_mul (d_div (d_of_int (Position.vwap pos)) (d_of_int 100)) net)
          (InstrumentSpec.tick_value inst) in
  Position.mk (Position.instrument_id pos) 0 0
    (d_add (Position.realized_pnl pos) (d_sub payoff cost_basis)) (d_of_int 0).

(** The body of the loop of [settle_instrument] for one user. *)
Definition settle_user (inst : InstrumentSpec.t D) (id : InstrumentId)
    (settlement_value : Price) (user_positions : gmap InstrumentId (Position.t D))
    : gmap InstrumentId (Position.t D) :=
  match user_positions !! id with
  | None => user_positions
  | Some pos =>
      if Position.net_qty pos =? 0 then user_positions
      else <[id := settle_position inst settlement_value pos]> user_positions
  end.

Definition settle_instrument (e : t) (id : InstrumentId) (settlement_value : Price)
    : t * bool :=
  match instruments_ e !! id with
  | None => (e, false)
  | Some inst =>
      let e := set_positions_ (settle_user inst id settlement_value <$> positions_ e) e in
      let e := set_instruments_
                 (<[id := InstrumentSpec.set_is_halted true inst]> (instruments_ e)) e in
      (e, true)
  end.

(** [get_orders]: the handles in [active_orders_], in ascending order of
    their key, whose order is in instrument [id]. *)
Definition get_orders (w : World.t) (e : t) (id : InstrumentId) : list ptr :=
  filter (fun order => Order.instrument_id (deref w order) = id)
         (merge_sort key_le (map_to_list (active_orders_ e))).*2.

(** The copy [get_positions] returns of one open position. *)
Definition marked_position (e : t) (inst_id : InstrumentId) (pos : Position.t D)
    : Position.t D :=
  let mark := get_mark_price e inst_id in
  if 0 <? mark then
    let mark_value := d_div (d_of_int mark) (d_of_int 100) in
    let entry_value := d_div (d_of_int (Position.vwap pos)) (d_of_int 100) in
    Position.mk (Position.instrument_id pos) (Position.net_qty pos) (Position.vwap pos)
      (Position.realized_pnl pos)
      (d_mul (d_sub mark_value entry_value) (d_of_int (Position.net_qty pos)))
  else pos.

(** [get_positions]: the open positions of the user, in ascending order of
    the instrument. *)
Definition get_positions (e : t) (user_id : UserId) : list (Position.t D) :=
  match positions_ e !! user_id with
  | None => []
  | Some user_positions =>
      foldl (fun result '(inst_id, pos) =>
               if negb (Position.net_qty pos =? 0)
               then result ++ [marked_position e inst_id pos]
               else result)
            [] (merge_sort key_le (map_to_list user_positions))
  end.

Definition get_trade_history (e : t) : list TradeRecord.t := trade_history_ e.
Definition get_fill_history (e : t) : list Fill.t := fill_history_ e.

Definition get_stats (e : t) : Stats.t := stats_ e.

End Engine.

Arguments t : clear implicits.
End Engine.

(** ** Executions of the engine

    One constructor per public operation that changes the engine or the
    world; [run] applies a sequence of them to a freshly constructed engine. *)
Module Op.
Inductive t (D : Type) :=
| AddInstrument (spec : InstrumentSpec.t D)
| HaltInstrument (id : InstrumentId) (halted : bool)
| SubmitOrder (request : OrderRequest.t)
| CancelOrder (order_id : OrderId) (user_id : UserId)
| ReplaceOrder (order_id : OrderId) (user_id : UserId)
               (new_price : option Price) (new_qty : option Quantity)
| CancelAll (user_id : UserId)
| GetSnapshot (id : InstrumentId)
| SettleInstrument (id : InstrumentId) (settlement_value : Price)
| SetRiskLimits (user_id : UserId) (limits : RiskLimits.t D).
Arguments AddInstrument {D}. Arguments HaltInstrument {D}.
Arguments SubmitOrder {D}. Arguments CancelOrder {D}.
Arguments ReplaceOrder {D}. Arguments CancelAll {D}.
Arguments GetSnapshot {D}. Arguments SettleInstrument {D}.
Arguments SetRiskLimits {D}.
End Op.

Definition step {D : Type} `{!DoubleOps D} (clock : nat -> Timestamp)
    (s : World.t * Engine.t D) (op : Op.t D) : World.t * Engine.t D :=
  let '(w, e) := s in
  match op with
  | Op.AddInstrument spec => (w, (Engine.add_instrument e spec).1)
  | Op.HaltInstrument id halted => (w, (Engine.halt_instrument e id halted).1)
  | Op.SubmitOrder request => (Engine.submit_order clock w e request).1
  | Op.CancelOrder order_id user_id => (Engine.cancel_order w e order_id user_id).1
  | Op.ReplaceOrder order_id user_id new_price new_qty =>
      (Engine.replace_order clock w e order_id user_id new_price new_qty).1
  | Op.CancelAll user_id => (Engine.cancel_all w e user_id).1
  | Op.GetSnapshot id => ((Engine.get_snapshot clock w e id).2, e)
  | Op.SettleInstrument id settlement_value =>
      (w, (Engine.settle_instrument e id settlement_value).1)
  | Op.SetRiskLimits user_id limits => (w, Engine.set_risk_limits e user_id limits)
  end.

Definition run_from {D : Type} `{!DoubleOps D} (clock : nat -> Timestamp)
    (s : World.t * Engine.t D) (ops : list (Op.t D)) : World.t * Engine.t D :=
  foldl (step clock) s ops.

Definition run {D : Type} `{!DoubleOps D} (clock : nat -> Timestamp)
    (ops : list (Op.t D)) : World.t * Engine.t D :=
  run_from clock (World.init, Engine.init) ops.

(** ** Vocabulary of the specification *)

(** The signed quantity of a fill: [+quantity] for a BUY, [-quantity] for a
    SELL. *)
Definition signed_quantity (fill : Fill.t) : Quantity :=
  match Fill.side fill with
  | BUY => Fill.quantity fill
  | SELL => - Fill.quantity fill
  end.

(** The values of an [int64_t]. *)
Definition int64 (z : Z) : Prop := - 2 ^ 63 <= z < 2 ^ 63.
#[global] Instance int64_dec (z : Z) : Decision (int64 z).
Proof. unfold int64. apply _. Defined.

Definition same_sign (net q : Z) : Prop := (0 < net /\ 0 < q) \/ (net < 0 /\ q < 0).
Definition opposite_sign (net q : Z) : Prop := (0 < net /\ q < 0) \/ (net < 0 /\ 0 < q).

(** The position invariant of the data model: a flat position has no entry
    price, and the entry price is never negative. *)
Definition position_invariant {D : Type} (pos : Position.t D) : Prop :=
  (Position.net_qty pos = 0 -> Position.vwap pos = 0) /\ 0 <= Position.vwap pos.

(** The settlement payoff as the specification words it. *)
Definition payoff_spec {D : Type} `{!DoubleOps D} (inst : InstrumentSpec.t D)
    (v : Price) (net_qty : Quantity) : D :=
  let per100 (x : Z) := d_div (d_of_int x) (d_of_int 100) in
  let times (x : D) := d_mul (d_mul x (d_of_int net_qty)) (InstrumentSpec.tick_value inst) in
  match InstrumentSpec.type inst with
  | SCALAR => times (per100 v)
  | CALL => times (d_max (d_of_int 0) (per100 (v - InstrumentSpec.strike inst)))
  | PUT => times (d_max (d_of_int 0) (per100 (InstrumentSpec.strike inst - v)))
  end.

Definition cost_basis_spec {D : Type} `{!DoubleOps D} (inst : InstrumentSpec.t D)
    (vwap : Price) (net_qty : Quantity) : D :=
  d_mul (d_mul (d_div (d_of_int vwap) (d_of_int 100)) (d_of_int net_qty))
        (InstrumentSpec.tick_value inst).

(** The reason for which the specification has [submit_order] reject a
    request, checked in the order of section 4.4; [None] when it accepts. *)
Definition reject_reason {D : Type} `{!DoubleOps D} (e : Engine.t D)
    (request : OrderRequest.t) : option string :=
  match Engine.instruments_ e !! OrderRequest.instrument_id request with
  | None => Some "Instrument not found"%string
  | Some inst =>
      if InstrumentSpec.is_halted inst then Some "Instrument is halted"%string
      else if negb (Engine.check_risk e (OrderRequest.user_id request)
                      (OrderRequest.instrument_id request)
                      (OrderRequest.side request) (OrderRequest.quantity request))
      then Some "Risk limit exceeded"%string
      else if OrderRequest.quantity request <=? 0
      then Some "Invalid quantity"%string
      else None
  end.

(** An instrument that is registered and halted. *)
Definition halted_in {D : Type} (e : Engine.t D) (id : InstrumentId) : Prop :=
  exists inst, Engine.instruments_ e !! id = Some inst /\ InstrumentSpec.is_halted inst = true.

(** Two states of one order that differ at most in the fields matching and
    cancelling write, [filled_quantity] and [status]. *)
Definition same_order (o o' : Order.t) : Prop :=
  Order.id o' = Order.id o /\ Order.user_id o' = Order.user_id o /\
  Order.instrument_id o' = Order.instrument_id o /\ Order.side o' = Order.side o /\
  Order.price o' = Order.price o /\ Order.quantity o' = Order.quantity o /\
  Order.tif o' = Order.tif o /\ Order.post_only o' = Order.post_only o /\
  Order.timestamp o' = Order.timestamp o.

(** [w'] holds the orders of [w], each possibly further filled or with a new
    status. *)
Definition world_le (w w' : World.t) : Prop :=
  length (World.heap w') = length (World.heap w) /\
  forall p, same_order (deref w p) (deref w' p).

(** A handle that designates an object. *)
Definition valid (w : World.t) (p : ptr) : Prop := (p < length (World.heap w))%nat.
#[global] Instance valid_dec (w : World.t) (p : ptr) : Decision (valid w p) :=
  decide (p < length (World.heap w))%nat.

(** The quantity of one match: the smaller of the two remaining quantities. *)
Definition match_quantity (w : World.t) (order passive : ptr) : Quantity :=
  Z.min (Order.quantity (deref w order) - Order.filled_quantity (deref w order))
        (Order.quantity (deref w passive) - Order.filled_quantity (deref w passive)).

(** The handles resting on one side of the book, in the order matching
    visits them: levels in map order, each level front to back. *)
Definition resting (m : Levels) : list ptr := concat (map snd m).

(** A sequence of fills made of adjacent pairs, each satisfying [P]. *)
Fixpoint paired (P : Fill.t -> Fill.t -> Prop) (fills : list Fill.t) : Prop :=
  match fills with
  | [] => True
  | a :: rest =>
      match rest with
      | [] => False
      | p :: rest' => P a p /\ paired P rest'
      end
  end.

(** The two fills of a pair as the specification words them: identical
    price, quantity, instrument and timestamp. *)
Definition identical_pair (a p : Fill.t) : Prop :=
  Fill.price p = Fill.price a /\ Fill.quantity p = Fill.quantity a /\
  Fill.instrument_id p = Fill.instrument_id a /\ Fill.timestamp p = Fill.timestamp a.

(** The two fills of one match of the incoming [order] against the book [b],
    as the code produces them: the first carries the incoming order, the
    second an order resting on the opposite side; price, quantity and
    instrument agree; the timestamps are two successive reads of the clock. *)
Definition match_pair (clock : nat -> Timestamp) (w : World.t) (b : OrderBook.t)
    (order : ptr) (a p : Fill.t) : Prop :=
  let o := deref w order in
  Fill.order_id a = Order.id o /\ Fill.user_id a = Order.user_id o /\
  Fill.side a = Order.side o /\
  (exists passive,
     passive ∈ resting (OrderBook.opposite (Order.side o) b) /\
     Fill.order_id p = Order.id (deref w passive) /\
     Fill.user_id p = Order.user_id (deref w passive) /\
     Fill.side p = Order.side (deref w passive)) /\
  Fill.instrument_id a = OrderBook.instrument_id_ b /\
  Fill.instrument_id p = OrderBook.instrument_id_ b /\
  Fill.price p = Fill.price a /\ Fill.quantity p = Fill.quantity a /\
  (exists n, Fill.timestamp a = clock n /\ Fill.timestamp p = clock (S n)).

(** *** Price-time priority *)

(** The priority queue of one side of the book: every resting handle with
    the price of its level, levels in map order, each level front to back. *)
Definition queue (m : Levels) : list (Price * ptr) :=
  concat (map (fun '(price, l) => map (pair price) l) m).

(** The fills of the resting orders: the second fill of every pair. *)
Fixpoint passive_fills (fills : list Fill.t) : list Fill.t :=
  match fills with
  | [] => []
  | _ :: rest =>
      match rest with
      | [] => []
      | p :: rest' => p :: passive_fills rest'
      end
  end.

Definition fill_key (f : Fill.t) : Price * OrderId := (Fill.price f, Fill.order_id f).
Definition queue_key (w : World.t) (x : Price * ptr) : Price * OrderId :=
  (x.1, Order.id (deref w x.2)).

(** An order that matching has exhausted. *)
Definition is_filled (w : World.t) (q : ptr) : Prop :=
  Order.status (deref w q) = FILLED /\
  Order.quantity (deref w q) <= Order.filled_quantity (deref w q).

(** The map comparator of the side an order of side [s] matches against. *)
Definition opposite_before (s : Side) : Price -> Price -> bool :=
  match s with BUY => asks_before | SELL => bids_before end.

(** The entries of a price map are in the strict order of its comparator. *)
Definition levels_sorted (before : Price -> Price -> bool) (m : Levels) : Prop :=
  StronglySorted (fun x y => before x.1 y.1 = true) m.

(** The state of matching after [n] matches, [k] of which exhausted the
    resting order: the passive fills are those of the first [n] entries of
    the initial queue [Q0], in order; the first [k] entries are filled, the
    entries from [n] on are untouched, and [Qc], the current queue, is what
    is left of [Q0] after the first [k]. *)
Definition priority_inv (w0 : World.t) (Q0 : list (Price * ptr)) (order : ptr)
    (w : World.t) (Qc : list (Price * ptr)) (fills : list Fill.t) (n k : nat) : Prop :=
  (k <= n <= S k)%nat /\
  length fills = (2 * n)%nat /\
  fill_key <$> passive_fills fills = queue_key w0 <$> take n Q0 /\
  Qc = drop k Q0 /\
  (forall i x, Q0 !! i = Some x -> (i < k)%nat -> is_filled w x.2) /\
  (forall i x, Q0 !! i = Some x -> (n <= i)%nat -> deref w x.2 = deref w0 x.2) /\
  ((k < n)%nat -> OrderBook.unfilled w order = false).

(** *** Well-formed books *)

(** The map comparator of the side on which an order of side [s] rests. *)
Definition own_before (s : Side) : Price -> Price -> bool :=
  match s with BUY => bids_before | SELL => asks_before end.

(** The side of the book on which an order of side [s] rests. *)
Definition own (s : Side) (b : OrderBook.t) : Levels :=
  match s with BUY => OrderBook.bids_ b | SELL => OrderBook.asks_ b end.

Definition other (s : Side) : Side := match s with BUY => SELL | SELL => BUY end.

(** One side of a well-formed book: the price map is sorted by its
    comparator, no handle rests twice, and every resting handle designates
    an order of that side whose limit price is the price of its level. *)
Definition side_wf (w : World.t) (s : Side) (m : Levels) : Prop :=
  levels_sorted (own_before s) m /\
  NoDup (queue m).*2 /\
  Forall (fun x => valid w x.2 /\ Order.side (deref w x.2) = s /\
                   Order.price (deref w x.2) = x.1) (queue m).

Definition book_wf (w : World.t) (b : OrderBook.t) : Prop :=
  side_wf w BUY (OrderBook.bids_ b) /\ side_wf w SELL (OrderBook.asks_ b).

(** Every book of the engine is well formed and filed under its own id. *)
Definition engine_wf {D : Type} (s : World.t * Engine.t D) : Prop :=
  forall id b, Engine.order_books_ s.2 !! id = Some b ->
               book_wf s.1 b /\ OrderBook.instrument_id_ b = id.

(** *** Conditions on the operations of an execution *)

(** The order [submit_order] creates for an accepted request. *)
Definition new_order {D : Type} (e : Engine.t D) (request : OrderRequest.t)
    (ts : Timestamp) : Order.t :=
  Order.mk (Engine.next_order_id_ e) (OrderRequest.user_id request)
    (OrderRequest.instrument_id request) (OrderRequest.side request)
    (OrderRequest.price request) (OrderRequest.quantity request)
    0 PENDING (OrderRequest.tif request) (OrderRequest.post_only request) ts.

(** The position ledger after one more fill: [update_position] as a function
    of [positions_] alone. *)
Definition update_positions {D : Type} `{!DoubleOps D}
    (P : gmap UserId (gmap InstrumentId (Position.t D))) (fill : Fill.t)
    : gmap UserId (gmap InstrumentId (Position.t D)) :=
  let user_positions := default ∅ (P !! Fill.user_id fill) in
  <[Fill.user_id fill :=
      <[Fill.instrument_id fill :=
          Engine.update_position_at
            (default Position.init (user_positions !! Fill.instrument_id fill)) fill]>
        user_positions]> P.

(** The request [replace_order] submits once the old order is cancelled,
    with the state it submits it in; [None] when the replace fails before. *)
Definition replace_request {D : Type} `{!DoubleOps D} (s : World.t * Engine.t D)
    (order_id : OrderId) (user_id : UserId)
    (new_price : option Price) (new_qty : option Quantity)
    : option (World.t * Engine.t D * OrderRequest.t) :=
  match Engine.active_orders_ s.2 !! order_id with
  | None => None
  | Some old_order =>
      if negb (bool_decide (Order.user_id (deref s.1 old_order) = user_id)) then None
      else
        let '(w, e, cancelled) := Engine.cancel_order s.1 s.2 order_id user_id in
        if negb cancelled then None
        else
          let old := deref w old_order in
          Some (w, e,
                OrderRequest.mk user_id (Order.instrument_id old) (Order.side old)
                  (match new_price with Some p => p | None => Order.price old end)
                  (match new_qty with
                   | Some q => q
                   | None => Order.quantity old - Order.filled_quantity old
                   end)
                  (Order.tif old) (Order.post_only old))
  end.

(** A condition [okA] on the instruments added and a condition [ok] on the
    requests submitted, directly or by a replace, in the state they are
    submitted in. *)
Definition op_ok {D : Type} `{!DoubleOps D}
    (okA : InstrumentSpec.t D -> Prop)
    (ok : World.t * Engine.t D -> OrderRequest.t -> Prop)
    (s : World.t * Engine.t D) (op : Op.t D) : Prop :=
  match op with
  | Op.AddInstrument spec => okA spec
  | Op.SubmitOrder request => ok s request
  | Op.ReplaceOrder order_id user_id new_price new_qty =>
      forall w e request,
        replace_request s order_id user_id new_price new_qty = Some (w, e, request) ->
        ok (w, e) request
  | _ => True
  end.

(** [op_ok] at every operation of an execution. *)
Fixpoint run_ok {D : Type} `{!DoubleOps D} (clock : nat -> Timestamp)
    (okA : InstrumentSpec.t D -> Prop)
    (ok : World.t * Engine.t D -> OrderRequest.t -> Prop)
    (s : World.t * Engine.t D) (ops : list (Op.t D)) : Prop :=
  match ops with
  | [] => True
  | op :: rest => op_ok okA ok s op /\ run_ok clock okA ok (step clock s op) rest
  end.

(** The two fills of a match in instrument [i]: the same price and
    quantity on opposite sides. *)
Definition balanced_pair (i : InstrumentId) (a p : Fill.t) : Prop :=
  Fill.instrument_id a = i /\ Fill.instrument_id p = i /\
  Fill.price p = Fill.price a /\ Fill.quantity p = Fill.quantity a /\
  Fill.side p = other (Fill.side a).

(** The users that hold a position entry, in ascending order. *)
Definition position_holders {D : Type} (e : Engine.t D) : list UserId :=
  map fst (merge_sort key_le (map_to_list (Engine.positions_ e))).

(** The sum over all users of [get_total_pnl]; a user without a position
    entry has a total of [0.0]. *)
Definition total_pnl_sum {D : Type} `{!DoubleOps D} (e : Engine.t D) : D :=
  foldl (fun acc u => d_add acc (Engine.get_total_pnl e u)) (d_of_int 0)
        (position_holders e).

(** [|x| <= 0.01], the tolerance of the specification. *)
Definition within_tolerance {D : Type} `{!DoubleOps D} (x : D) : bool :=
  let cent := d_div (d_of_int 1) (d_of_int 100) in
  negb (d_ltb cent x) && negb (d_ltb x (d_neg cent)).

(** ** Concrete scenarios, evaluated with IEEE doubles *)
Module Scenario.

Definition clk (n : nat) : Timestamp := Z.of_nat n.

Definition instrument (id : InstrumentId) (type : InstrumentType) (strike : Price)
    : InstrumentSpec.t float :=
  InstrumentSpec.mk id "TEST" type 0%N strike 1 1 (d_of_int 1) false.

Definition request (user : UserId) (inst : InstrumentId) (side : Side)
    (price : Price) (quantity : Quantity) : OrderRequest.t :=
  OrderRequest.mk user inst side price quantity GFD false.

Definition submit (user : UserId) (inst : InstrumentId) (side : Side)
    (price : Price) (quantity : Quantity) : Op.t float :=
  Op.SubmitOrder (request user inst side price quantity).

(** User 1 buys 100 at 100.00 from user 2, then sells 100 at 105.00 to
    user 3 (test [RealizedPnL]). *)
Definition round_trip : list (Op.t float) :=
  [Op.AddInstrument (instrument 1 SCALAR 0);
   submit 1 1 BUY 10000 100; submit 2 1 SELL 10000 100;
   submit 3 1 BUY 10500 100; submit 1 1 SELL 10500 100].

(** User 1 buys 100 at 1.00 from user 2 and 200 at 1.01 from user 3: the
    average entry price 100.66.. is truncated to 100. *)
Definition averaged : list (Op.t float) :=
  [Op.AddInstrument (instrument 1 SCALAR 0);
   submit 2 1 SELL 100 100; submit 1 1 BUY 100 100;
   submit 3 1 SELL 101 200; submit 1 1 BUY 101 200].

(** User 1, limited to a position of 100, faces a resting offer of 1000. *)
Definition limited : list (Op.t float) :=
  [Op.AddInstrument (instrument 1 SCALAR 0);
   Op.SetRiskLimits 1 (RiskLimits.mk 100 (d_of_int 1000000) 50);
   submit 2 1 SELL 10000 1000].

(** A call struck at 100.00, bought by user 1 from user 2 at 5.00 (test
    [CallOptionSettlement_ITM]). *)
Definition call_bought : list (Op.t float) :=
  [Op.AddInstrument (instrument 2 CALL 10000);
   submit 1 2 BUY 500 10; submit 2 2 SELL 500 10].

(** A book holding one resting bid of 100 at 100.00 (object 0), and a second
    order object 1 not yet submitted. *)
Definition incoming (post_only : bool) : Order.t :=
  Order.mk 2 2 1 SELL 10000 100 0 PENDING GFD post_only 0.
Definition resting_bid (post_only : bool) : World.t * OrderBook.t :=
  (OrderBook.add_order clk
     (World.mk [Order.mk 1 1 1 BUY 10000 100 0 PENDING GFD false 0; incoming post_only] 0)
     (OrderBook.init 1) 0).1.

(** Three bids of 100 at 100.00 booked in the order 0, 1, 2, and an incoming
    SELL of 150 (object 3) not yet submitted (test [PriorityFIFO]). *)
Definition three_bids : World.t * OrderBook.t :=
  let bid (id : OrderId) := Order.mk id 1 1 BUY 10000 100 0 PENDING GFD false 0 in
  let w := World.mk [bid 1%N; bid 2%N; bid 3%N;
                     Order.mk 4 9 1 SELL 10000 150 0 PENDING GFD false 0] 0 in
  let s1 := (OrderBook.add_order clk w (OrderBook.init 1) 0).1 in
  let s2 := (OrderBook.add_order clk s1.1 s1.2 1).1 in
  (OrderBook.add_order clk s2.1 s2.2 2).1.

(** Two bids of 100 at 100.00, of user 1 and then of user 2. *)
Definition two_bids : list (Op.t float) :=
  [Op.AddInstrument (instrument 1 SCALAR 0);
   submit 1 1 BUY 10000 100; submit 2 1 BUY 10000 100].

(** User 1 buys 1 at the price -0.01 from user 2. *)
Definition negative_price : list (Op.t float) :=
  [Op.AddInstrument (instrument 1 SCALAR 0);
   submit 2 1 SELL (-1) 1; submit 1 1 BUY (-1) 1].

(** User 1 buys twice 1 at the price [5 * 10^18] from user 2. *)
Definition large_prices : list (Op.t float) :=
  [Op.AddInstrument (instrument 1 SCALAR 0);
   submit 2 1 SELL 5000000000000000000 1; submit 1 1 BUY 5000000000000000000 1;
   submit 3 1 SELL 5000000000000000000 1; submit 1 1 BUY 5000000000000000000 1].

(** An instrument that is settled and then reopened. *)
Definition reopened : list (Op.t float) :=
  [Op.AddInstrument (instrument 1 SCALAR 0);
   Op.SettleInstrument 1 10000;
   Op.HaltInstrument 1 false].

End Scenario.

(** ** Vocabulary of the further properties *)

(** A resting order as booking and matching leave it: not negative, some
    quantity left, and a status that tells whether any of it was filled. *)
Definition live (w : World.t) (q : ptr) : Prop :=
  0 <= Order.filled_quantity (deref w q) < Order.quantity (deref w q) /\
  Order.status (deref w q)
  = (if 0 <? Order.filled_quantity (deref w q) then PARTIAL else PENDING).

(** One side of a book without an empty price level and with live orders
    only. *)
Definition side_live (w : World.t) (m : Levels) : Prop :=
  Forall (fun x => x.2 <> []) m /\ Forall (live w) (resting m).

Definition book_live (w : World.t) (b : OrderBook.t) : Prop :=
  side_live w (OrderBook.bids_ b) /\ side_live w (OrderBook.asks_ b).

(** The orders of a book are orders in its instrument: the resting ones and
    the ones its [orders_] map knows, which designate objects. *)
Definition book_owned (w : World.t) (b : OrderBook.t) : Prop :=
  (forall s, Forall (fun q => Order.instrument_id (deref w q) = OrderBook.instrument_id_ b)
                    (resting (own s b))) /\
  (forall k q, OrderBook.orders_ b !! k = Some q ->
               valid w q /\ Order.instrument_id (deref w q) = OrderBook.instrument_id_ b).

(** No bid at or above an ask. *)
Definition uncrossed (b : OrderBook.t) : Prop :=
  forall x y, x ∈ OrderBook.bids_ b -> y ∈ OrderBook.asks_ b -> x.1 < y.1.

(** The total quantity of a sequence of fills. *)
Definition fill_volume (fills : list Fill.t) : Z :=
  foldr Z.add 0 (Fill.quantity <$> fills).

(** The notional value of a sequence of fills: price times quantity, added
    up. *)
Definition notional (fills : list Fill.t) : Z :=
  foldr Z.add 0 ((fun f => Fill.price f * Fill.quantity f) <$> fills).

(** Fills that keep the position ledger within [int64_t]: no price is
    negative, and the quantities as well as the notional values add up to
    less than [2^63]. *)
Definition ledger_fits (fills : list Fill.t) : Prop :=
  Forall (fun f => 0 <= Fill.price f) fills /\
  fill_volume fills < 2 ^ 63 /\ notional fills < 2 ^ 63.

(** A ledger whose net quantities are bounded by the volume [V]. *)
Definition nets_bounded {D : Type} (V : Z)
    (P : gmap UserId (gmap InstrumentId (Position.t D))) : Prop :=
  0 <= V /\
  forall u m i pos, P !! u = Some m -> m !! i = Some pos ->
    Z.abs (Position.net_qty pos) <= V.

(** A ledger whose entry prices are not negative and whose positions are
    worth at most the notional value [N] at their entry price. *)
Definition entries_bounded {D : Type} (N : Z)
    (P : gmap UserId (gmap InstrumentId (Position.t D))) : Prop :=
  0 <= N /\
  forall u m i pos, P !! u = Some m -> m !! i = Some pos ->
    0 <= Position.vwap pos /\
    Position.vwap pos * Z.abs (Position.net_qty pos) <= N.

(** The state of matching the order [order] against the resting handles
    [R0], in the world [w0] it started in: [L] is what is left of [R0]. *)
Definition fill_inv (w0 : World.t) (R0 : list ptr) (order : ptr)
    (w : World.t) (L : list ptr) (fills : list Fill.t) : Prop :=
  world_le w0 w /\
  L `suffix_of` R0 /\
  Forall (live w) L /\
  (forall q, q <> order -> q ∉ R0 -> deref w q = deref w0 q) /\
  fill_volume fills
  = 2 * (Order.filled_quantity (deref w order) - Order.filled_quantity (deref w0 order)) /\
  Order.filled_quantity (deref w order) <= Order.quantity (deref w order) /\
  Forall (fun f => 0 < Fill.quantity f) fills /\
  (Order.post_only (deref w0 order) = true -> fills = []) /\
  (Order.status (deref w order) = Order.status (deref w0 order) \/
   (Order.status (deref w order) = REJECTED /\ Order.post_only (deref w0 order) = true)).

(** A book as the engine keeps it: well formed, its resting orders live and
    in its instrument, bids below asks. *)
Definition book_ok (w : World.t) (b : OrderBook.t) : Prop :=
  book_wf w b /\ book_live w b /\ book_owned w b /\ uncrossed b.

Definition engine_ok {D : Type} (s : World.t * Engine.t D) : Prop :=
  forall id b, Engine.order_books_ s.2 !! id = Some b ->
               book_ok s.1 b /\ OrderBook.instrument_id_ b = id.

(** What [get_snapshot] reports of one price level: the price and the sum
    of what is left of its orders. *)
Definition level_size (w : World.t) (orders : list ptr) : Quantity :=
  foldl (fun acc order =>
           acc + (Order.quantity (deref w order) - Order.filled_quantity (deref w order)))
        0 orders.
Definition level_summary (w : World.t) (x : Price * list ptr) : PriceLevel.t :=
  PriceLevel.mk x.1 (level_size w x.2).

(** The size of every price level of the book is a value of [int64_t]. *)
Definition sizes_fit (w : World.t) (b : OrderBook.t) : Prop :=
  Forall (fun x => level_size w x.2 < 2 ^ 63) (OrderBook.bids_ b ++ OrderBook.asks_ b).

(** The trade records of a sequence of fills, one per adjacent pair. *)
Fixpoint trades_of (fills : list Fill.t) : list TradeRecord.t :=
  match fills with
  | [] => []
  | a :: rest =>
      match rest with
      | [] => []
      | p :: rest' => Engine.trade_of a p :: trades_of rest'
      end
  end.

(** The two fills of one match, as the histories keep them: one instrument,
    one price, one positive quantity, opposite sides. *)
Definition matched_pair (a p : Fill.t) : Prop :=
  Fill.instrument_id p = Fill.instrument_id a /\ Fill.price p = Fill.price a /\
  Fill.quantity p = Fill.quantity a /\ 0 < Fill.quantity a /\
  Fill.side p = other (Fill.side a).

(** The histories and the counters of the engine agree. *)
Definition history_ok {D : Type} (e : Engine.t D) : Prop :=
  paired matched_pair (Engine.fill_history_ e) /\
  Engine.trade_history_ e = trades_of (Engine.fill_history_ e) /\
  Stats.total_fills (Engine.stats_ e) = u64 (N.of_nat (length (Engine.fill_history_ e))) /\
  Engine.next_order_id_ e = u64 (Stats.total_orders (Engine.stats_ e) + 1).

(** The sum over all users of their net quantity in instrument [i]. *)
Definition net_in {D : Type} (i : InstrumentId)
    (P : gmap UserId (gmap InstrumentId (Position.t D))) : Z :=
  foldr Z.add 0 ((fun um => from_option Position.net_qty 0 (um.2 !! i)) <$> map_to_list P).

(** What a fill adds to the net quantities in instrument [i]. *)
Definition signed_in (i : InstrumentId) (fill : Fill.t) : Z :=
  if decide (Fill.instrument_id fill = i) then signed_quantity fill else 0.

(** Every position is filed under its own instrument and stores no
    unrealized P&L: the engine computes that on request only. *)
Definition positions_filed {D : Type} `{!DoubleOps D}
    (P : gmap UserId (gmap InstrumentId (Position.t D))) : Prop :=
  forall u m i pos, P !! u = Some m -> m !! i = Some pos ->
    Position.instrument_id pos = i /\ Position.unrealized_pnl pos = d_of_int 0.

(** The unrealized P&L [get_positions] reports for a position at the mark
    price [mark]. *)
Definition unrealized_at {D : Type} `{!DoubleOps D} (mark : Price) (pos : Position.t D) : D :=
  if 0 <? mark then
    d_mul (d_sub (d_div (d_of_int mark) (d_of_int 100))
                 (d_div (d_of_int (Position.vwap pos)) (d_of_int 100)))
          (d_of_int (Position.net_qty pos))
  else d_of_int 0.

(** The [orders_] map while the order [order] is matched against the
    resting handles [R0], [O1] being the map matching started with: the
    handles taken off the book are FILLED and erased from the map, and no
    other entry changed. *)
Definition erase_inv (w0 : World.t) (R0 : list ptr) (O1 : gmap OrderId ptr)
    (w : World.t) (b : OrderBook.t) (L : list ptr) : Prop :=
  (forall p, p ∈ R0 -> p ∉ L ->
     Order.status (deref w p) = FILLED /\
     OrderBook.orders_ b !! Order.id (deref w0 p) = None) /\
  (forall k, (forall p, p ∈ R0 -> p ∉ L -> Order.id (deref w0 p) <> k) ->
     OrderBook.orders_ b !! k = O1 !! k).

(** *** The registers of orders

    The order [q] rests in the book of its instrument, on its side. *)
Definition rests {D : Type} (s : World.t * Engine.t D) (q : ptr) : Prop :=
  q ∈ resting (own (Order.side (deref s.1 q))
                   (Engine.book_of s.2 (Order.instrument_id (deref s.1 q)))).

(** Every order has an id below the next one, and its own. *)
Definition ids_ok {D : Type} (s : World.t * Engine.t D) : Prop :=
  (forall q, valid s.1 q -> (Order.id (deref s.1 q) < Engine.next_order_id_ s.2)%N) /\
  (forall p q, valid s.1 p -> valid s.1 q ->
               Order.id (deref s.1 p) = Order.id (deref s.1 q) -> p = q).

(** Every order is in a registered instrument, and the registered
    instruments are the ones with a book. *)
Definition instruments_ok {D : Type} (s : World.t * Engine.t D) : Prop :=
  (forall q, valid s.1 q ->
             is_Some (Engine.instruments_ s.2 !! Order.instrument_id (deref s.1 q))) /\
  (forall id, is_Some (Engine.instruments_ s.2 !! id)
              <-> is_Some (Engine.order_books_ s.2 !! id)).

(** [active_orders_] files an order under its id; the order is in the set
    of its user, and it rests in its book unless it was filled there. *)
Definition active_ok {D : Type} (s : World.t * Engine.t D) : Prop :=
  forall k q, Engine.active_orders_ s.2 !! k = Some q ->
    valid s.1 q /\ Order.id (deref s.1 q) = k /\
    k ∈ default ∅ (Engine.user_orders_ s.2 !! Order.user_id (deref s.1 q)) /\
    (rests s q \/ Order.status (deref s.1 q) = FILLED).

(** The [orders_] map of a book files an order under its id; a resting
    order is filed there and in [active_orders_]; an entry of an active
    order is the entry of a resting one. *)
Definition orders_ok {D : Type} (s : World.t * Engine.t D) : Prop :=
  forall id b, Engine.order_books_ s.2 !! id = Some b ->
    (forall k q, OrderBook.orders_ b !! k = Some q -> Order.id (deref s.1 q) = k) /\
    (forall sd q, q ∈ resting (own sd b) ->
       Engine.active_orders_ s.2 !! Order.id (deref s.1 q) = Some q /\
       OrderBook.orders_ b !! Order.id (deref s.1 q) = Some q) /\
    (forall k q, OrderBook.orders_ b !! k = Some q ->
       is_Some (Engine.active_orders_ s.2 !! k) -> exists sd, q ∈ resting (own sd b)).

Definition registry_ok {D : Type} (s : World.t * Engine.t D) : Prop :=
  ids_ok s /\ instruments_ok s /\ active_ok s /\ orders_ok s.

(** The order id counter does not wrap around at the next order. *)
Definition id_room {D : Type} (s : World.t * Engine.t D) : Prop :=
  (Engine.next_order_id_ s.2 + 1 < 2 ^ 64)%N.

(** An execution short enough for its order ids, one per operation at
    most, to stay below [2^64]. *)
Definition ids_suffice {D : Type} (ops : list (Op.t D)) : Prop :=
  (N.of_nat (length ops) + 1 < 2 ^ 64)%N.

(** The trades of the history in instrument [id]. *)
Definition trades_in (id : InstrumentId) (trades : list TradeRecord.t)
    : list TradeRecord.t :=
  filter (fun t => TradeRecord.instrument_id t = id) trades.

(** Trades happen in registered instruments that have a book, and the last
    price of a book is the price of the last trade in its instrument, or
    zero before the first. *)
Definition marks_ok {D : Type} (e : Engine.t D) : Prop :=
  (forall t, t ∈ Engine.trade_history_ e ->
     is_Some (Engine.instruments_ e !! TradeRecord.instrument_id t) /\
     is_Some (Engine.order_books_ e !! TradeRecord.instrument_id t)) /\
  (forall id b, Engine.order_books_ e !! id = Some b ->
     OrderBook.last_price_ b
     = default 0 (TradeRecord.price <$> last (trades_in id (Engine.trade_history_ e)))).

(** Every instrument is filed under its own id and has a book. *)
Definition instruments_filed {D : Type} (e : Engine.t D) : Prop :=
  forall id spec, Engine.instruments_ e !! id = Some spec ->
    InstrumentSpec.id spec = id /\ is_Some (Engine.order_books_ e !! id).

(** The instrument [id] is registered as [spec] but for its halted flag, and
    has a book. *)
Definition registered_as {D : Type} (id : InstrumentId) (spec : InstrumentSpec.t D)
    (e : Engine.t D) : Prop :=
  (exists spec', Engine.instruments_ e !! id = Some spec' /\
     spec' = InstrumentSpec.set_is_halted (InstrumentSpec.is_halted spec') spec) /\
  is_Some (Engine.order_books_ e !! id).

(** *** The ledger and the fill history

    An operation other than the settlement of instrument [i]. *)
Definition unsettled {D : Type} (i : InstrumentId) (op : Op.t D) : Prop :=
  match op with
  | Op.SettleInstrument id _ => id <> i
  | _ => True
  end.

(** The ledger [update_position] builds from a sequence of fills, starting
    with no position. *)
Definition replay {D : Type} `{!DoubleOps D} (fills : list Fill.t) : Engine.t D :=
  foldl (fun e fill => Engine.update_position e (Fill.user_id fill) fill) Engine.init fills.

(** The signed quantities of the fills of user [u] in instrument [i], added
    up. *)
Definition net_fills (u : UserId) (i : InstrumentId) (fills : list Fill.t) : Z :=
  foldr Z.add 0
    (signed_quantity
       <$> filter (fun f => Fill.user_id f = u /\ Fill.instrument_id f = i) fills).

(** The quantities of the fills that carry the order id [k], added up. *)
Definition filled_in (k : OrderId) (fills : list Fill.t) : Z :=
  foldr Z.add 0 (Fill.quantity <$> filter (fun f => Fill.order_id f = k) fills).

(** The state of matching, from the world [w0] it started in: every order
    advanced by the quantities of the fills that carry its id, and every
    fill carries the id of an order. *)
Definition account_inv (w0 w : World.t) (fills : list Fill.t) : Prop :=
  (forall q, valid w0 q ->
     Order.filled_quantity (deref w q)
     = Order.filled_quantity (deref w0 q) + filled_in (Order.id (deref w0 q)) fills) /\
  Forall (fun f => exists q, valid w0 q /\ Fill.order_id f = Order.id (deref w0 q)) fills.

(** The fill history accounts for what every order was filled, and every
    fill in it carries the id of an order. *)
Definition account_ok {D : Type} (s : World.t * Engine.t D) : Prop :=
  (forall q, valid s.1 q ->
     Order.filled_quantity (deref s.1 q)
     = filled_in (Order.id (deref s.1 q)) (Engine.fill_history_ s.2)) /\
  Forall (fun f => exists q, valid s.1 q /\ Fill.order_id f = Order.id (deref s.1 q))
         (Engine.fill_history_ s.2).

(** *** Arrival order

    The queue of a price level holds its orders by ascending order id. *)
Definition by_arrival (w : World.t) (l : list ptr) : Prop :=
  StronglySorted (fun p q => (Order.id (deref w p) < Order.id (deref w q))%N) l.

Definition side_fifo (w : World.t) (m : Levels) : Prop :=
  Forall (fun x => by_arrival w x.2) m.

Definition book_fifo (w : World.t) (b : OrderBook.t) : Prop :=
  side_fifo w (OrderBook.bids_ b) /\ side_fifo w (OrderBook.asks_ b).

Definition engine_fifo {D : Type} (s : World.t * Engine.t D) : Prop :=
  forall id b, Engine.order_books_ s.2 !! id = Some b -> book_fifo s.1 b.

(** An order that is done with: filled, cancelled or rejected. *)
Definition finished (o : Order.t) : Prop :=
  Order.status o = FILLED \/ Order.status o = CANCELLED \/ Order.status o = REJECTED.

(** ** Further scenarios *)
Module Fixture.

(** Two bids and an offer rest; a sale of 10 at 100.00 takes part of the
    better bid. *)
Definition two_sided : list (Op.t float) :=
  [Op.AddInstrument (Scenario.instrument 1 SCALAR 0);
   Scenario.submit 1 1 BUY 9900 100;
   Scenario.submit 2 1 SELL 10100 50;
   Scenario.submit 3 1 BUY 10000 30;
   Scenario.submit 4 1 SELL 10000 10].

End Fixture.

(** * Properties *)

(** ** Wrap-around *)

Lemma i64_id (z : Z) : int64 z -> i64 z = z.
Proof.
  unfold int64, i64. intros Hz. rewrite Z.mod_small by lia. lia.
Qed.

Lemma i64_int64 (z : Z) : int64 (i64 z).
Proof.
  unfold int64, i64. pose proof (Z.mod_pos_bound (z + 2 ^ 63) (2 ^ 64)). lia.
Qed.

(** A wrapped result differs from the exact one by a multiple of [2^64]. *)
Lemma i64_wraps (z : Z) : exists k, i64 z = z + k * 2 ^ 64.
Proof.
  exists (- ((z + 2 ^ 63) / 2 ^ 64)). unfold i64.
  pose proof (Z.div_mod (z + 2 ^ 63) (2 ^ 64)). lia.
Qed.

Lemma i64_abs_le (z : Z) : Z.abs (i64 z) <= Z.abs z.
Proof.
  destruct (decide (int64 z)) as [Hz|Hz]; [by rewrite i64_id|].
  pose proof (i64_int64 z). unfold int64 in *. lia.
Qed.

Lemma quot_int64 (a b : Z) : int64 a -> 0 < b -> int64 (Z.quot a b).
Proof.
  unfold int64. intros Ha Hb.
  destruct (Z.le_gt_cases 0 a) as [H0|H0].
  - pose proof (Z.quot_pos a b H0 Hb). pose proof (Z.quot_le_upper_bound a b a Hb). nia.
  - pose proof (Z.quot_opp_l a b). 
    assert (0 <= Z.quot (- a) b) by (apply Z.quot_pos; lia).
    pose proof (Z.quot_le_upper_bound (- a) b (- a) Hb).
    rewrite Z.quot_opp_l in * by lia. nia.
Qed.

(** ** The position ledger *)
Section Ledger.
Context {D : Type} `{!DoubleOps D}.

Lemma signbit_flip (pre post : Z) :
  pre <> 0 -> post <> 0 ->
  eqb (Engine.signbit post) (Engine.signbit pre) = false <->
  (0 < pre /\ post < 0) \/ (pre < 0 /\ 0 < post).
Proof.
  unfold Engine.signbit. intros Hpre Hpost.
  destruct (Z.ltb_spec post 0), (Z.ltb_spec pre 0); simpl; split; intros; try lia; try done.
Qed.

(** [positions_[u][i]] after [update_position]. *)
Lemma position_of_update_position (e : Engine.t D) user_id fill u i :
  Engine.position_of (Engine.update_position e user_id fill) u i
  = if decide (user_id = u /\ Fill.instrument_id fill = i)
    then Engine.update_position_at (Engine.position_of e u i) fill
    else Engine.position_of e u i.
Proof.
  unfold Engine.update_position, Engine.position_of. simpl.
  destruct (decide (user_id = u)) as [<-|Hu].
  - rewrite lookup_insert_eq. simpl.
    destruct (decide (Fill.instrument_id fill = i)) as [<-|Hi].
    + rewrite lookup_insert_eq, decide_True by done. done.
    + rewrite lookup_insert_ne by done. rewrite decide_False by (by intros [_ ?]). done.
  - rewrite lookup_insert_ne by done. rewrite decide_False by (by intros [? _]). done.
Qed.

(** The signed quantity [update_position] computes is the exact one unless
    the quantity of the fill is [-2^63]. *)
Lemma fill_qty_exact fill :
  Z.abs (signed_quantity fill) < 2 ^ 63 ->
  match Fill.side fill with
  | BUY => Fill.quantity fill
  | SELL => i64 (- Fill.quantity fill)
  end = signed_quantity fill.
Proof.
  unfold signed_quantity. destruct (Fill.side fill); [done|].
  intros Hq. apply i64_id. unfold int64. lia.
Qed.

(** The three cases of [update_position] on a position and a fill whose
    intermediate results are values of [int64_t]. *)
Lemma update_position_at_cases (pos : Position.t D) (fill : Fill.t) :
  let q := signed_quantity fill in
  let net := Position.net_qty pos in
  let vwap := Position.vwap pos in
  let price := Fill.price fill in
  let pos' := Engine.update_position_at pos fill in
  let per_unit := d_div (d_of_int (price - vwap)) (d_of_int 100) in
  Z.abs net < 2 ^ 63 -> Z.abs q < 2 ^ 63 ->
  (net = 0 ->
     Position.net_qty pos' = q /\ Position.vwap pos' = price /\
     Position.realized_pnl pos' = Position.realized_pnl pos) /\
  (same_sign net q -> Z.abs net + Z.abs q < 2 ^ 63 ->
     Position.net_qty pos' = net + q /\
     Position.realized_pnl pos' = Position.realized_pnl pos /\
     (int64 (vwap * Z.abs net) -> int64 (price * Z.abs q) ->
      int64 (vwap * Z.abs net + price * Z.abs q) ->
      Position.vwap pos'
      = Z.quot (vwap * Z.abs net + price * Z.abs q) (Z.abs net + Z.abs q))) /\
  (opposite_sign net q ->
     Position.net_qty pos' = net + q /\
     (Z.abs q <= Z.abs net -> Position.vwap pos' = vwap) /\
     (Z.abs net < Z.abs q -> Position.vwap pos' = price) /\
     (int64 (price - vwap) ->
      Position.realized_pnl pos' =
        d_add (Position.realized_pnl pos)
              (d_mul (if net <? 0 then d_neg per_unit else per_unit)
                     (d_of_int (Z.min (Z.abs net) (Z.abs q)))))).
Proof.
  intros q net vwap price pos' per_unit Hnet Hq.
  subst pos'. unfold Engine.update_position_at.
  rewrite (fill_qty_exact fill Hq). fold q. fold net. fold vwap. fold price.
  assert (i64 (Z.abs net) = Z.abs net) as -> by (apply i64_id; unfold int64; lia).
  assert (i64 (Z.abs q) = Z.abs q) as -> by (apply i64_id; unfold int64; lia).
  split; [|split].
  - intros ->. simpl. done.
  - intros Hs H4.
    assert ((net =? 0) = false) as -> by (apply Z.eqb_neq; unfold same_sign in Hs; lia).
    assert (((0 <? net) && (0 <? q) || (net <? 0) && (q <? 0)) = true) as ->.
    { unfold same_sign in Hs. destruct Hs as [[??]|[??]].
      - rewrite (proj2 (Z.ltb_lt 0 net)), (proj2 (Z.ltb_lt 0 q)) by done. done.
      - rewrite (proj2 (Z.ltb_lt net 0)), (proj2 (Z.ltb_lt q 0)) by done.
        simpl. apply orb_true_r. }
    simpl.
    rewrite (i64_id (net + q)) by (unfold int64, same_sign in *; lia).
    split; [done|]. split; [done|]. intros H1 H2 H3.
    rewrite (i64_id (vwap * Z.abs net)), (i64_id (price * Z.abs q)) by done.
    rewrite (i64_id (vwap * Z.abs net + price * Z.abs q)) by done.
    rewrite (i64_id (Z.abs net + Z.abs q)) by (unfold int64; lia).
    apply i64_id, quot_int64; [done|]. unfold same_sign in Hs. lia.
  - intros Ho.
    assert ((net =? 0) = false) as -> by (apply Z.eqb_neq; unfold opposite_sign in Ho; lia).
    assert (((0 <? net) && (0 <? q) || (net <? 0) && (q <? 0)) = false) as ->.
    { unfold opposite_sign in Ho. apply orb_false_iff. split; apply andb_false_iff.
      - destruct Ho as [[??]|[??]]; [right|left]; apply Z.ltb_ge; lia.
      - destruct Ho as [[??]|[??]]; [left|right]; apply Z.ltb_ge; lia. }
    rewrite (i64_id (net + q)) by (unfold int64, opposite_sign in *; lia).
    replace (net + q - q) with net by lia.
    rewrite (i64_id net) by (unfold int64; lia).
    destruct (negb (net + q =? 0) && negb (eqb (Engine.signbit (net + q)) (Engine.signbit net)))
      eqn:Hflip; simpl.
    + apply andb_true_iff in Hflip as [Hnz Hsb].
      apply negb_true_iff, Z.eqb_neq in Hnz. apply negb_true_iff in Hsb.
      apply signbit_flip in Hsb; [|unfold opposite_sign in Ho; lia|done].
      split; [done|]. split; [unfold opposite_sign in Ho; lia|]. split; [done|].
      intros H1. by rewrite (i64_id (price - vwap)).
    + split; [done|]. split; [done|]. split.
      * apply andb_false_iff in Hflip as [Hz|Hsb].
        -- apply negb_false_iff, Z.eqb_eq in Hz. lia.
        -- apply negb_false_iff in Hsb. intros Hlt.
           destruct (decide (net + q = 0)) as [|Hnz]; [lia|].
           assert (eqb (Engine.signbit (net + q)) (Engine.signbit net) = false) as Hf.
           { apply signbit_flip; [unfold opposite_sign in Ho; lia|done|].
             unfold opposite_sign in Ho. lia. }
           congruence.
      * intros H1. by rewrite (i64_id (price - vwap)).
Qed.

(** C4, as the code has it.  [update_position(user_id, fill)] rewrites the
    position [positions_[user_id][fill.instrument_id]] and no other.  With
    [q] the signed fill quantity, and neither [q] nor the prior net quantity
    equal to [-2^63]: a flat position takes [q] and the fill price.  A fill
    of the same sign adds [q] when [|net| + |q|] is a value of [int64_t],
    and re-averages [vwap] (integer division) when the two products and
    their sum are values of [int64_t] as well.  A fill of the opposite sign
    adds [q], keeps [vwap] on a pure reduction and sets it to the fill price
    when the position changes side, and it realizes
    [((price - vwap)/100) * min(|net|,|q|)], negated for a short position,
    when [price - vwap] is a value of [int64_t]. *)
Theorem update_position_cases (e : Engine.t D) (user_id : UserId) (fill : Fill.t) :
  let inst := Fill.instrument_id fill in
  let pos := Engine.position_of e user_id inst in
  let e' := Engine.update_position e user_id fill in
  let pos' := Engine.position_of e' user_id inst in
  let q := signed_quantity fill in
  let net := Position.net_qty pos in
  let vwap := Position.vwap pos in
  let price := Fill.price fill in
  let per_unit := d_div (d_of_int (price - vwap)) (d_of_int 100) in
  Z.abs net < 2 ^ 63 -> Z.abs q < 2 ^ 63 ->
  (net = 0 ->
     Position.net_qty pos' = q /\ Position.vwap pos' = price /\
     Position.realized_pnl pos' = Position.realized_pnl pos) /\
  (same_sign net q -> Z.abs net + Z.abs q < 2 ^ 63 ->
     Position.net_qty pos' = net + q /\
     Position.realized_pnl pos' = Position.realized_pnl pos /\
     (int64 (vwap * Z.abs net) -> int64 (price * Z.abs q) ->
      int64 (vwap * Z.abs net + price * Z.abs q) ->
      Position.vwap pos'
      = Z.quot (vwap * Z.abs net + price * Z.abs q) (Z.abs net + Z.abs q))) /\
  (opposite_sign net q ->
     Position.net_qty pos' = net + q /\
     (Z.abs q <= Z.abs net -> Position.vwap pos' = vwap) /\
     (Z.abs net < Z.abs q -> Position.vwap pos' = price) /\
     (int64 (price - vwap) ->
      Position.realized_pnl pos' =
        d_add (Position.realized_pnl pos)
              (d_mul (if net <? 0 then d_neg per_unit else per_unit)
                     (d_of_int (Z.min (Z.abs net) (Z.abs q)))))) /\
  (forall u i, (u, i) <> (user_id, inst) ->
     Engine.position_of e' u i = Engine.position_of e u i) /\
  Engine.positions_ e' !! user_id ≫= (.!! inst) = Some pos'.
Proof.
  intros inst pos e' pos' q net vwap price per_unit Hnet Hq.
  assert (pos' = Engine.update_position_at pos fill) as Hpos'.
  { subst pos' e'. rewrite position_of_update_position. by rewrite decide_True. }
  destruct (update_position_at_cases pos fill Hnet Hq) as (H0 & Hs & Ho).
  rewrite Hpos'. split; [exact H0|]. split; [exact Hs|]. split; [exact Ho|]. split.
  - intros u i Hne. subst e'. rewrite position_of_update_position.
    rewrite decide_False; [done|]. intros [-> <-]. done.
  - subst e'. unfold Engine.update_position. simpl.
    rewrite lookup_insert_eq. simpl. by rewrite lookup_insert_eq.
Qed.

End Ledger.

(** ** The engine facade: risk gate, rejects, settlement *)
Section Facade.
Context {D : Type} `{!DoubleOps D}.
Variable clock : nat -> Timestamp.

Lemma check_risk_no_limits (e : Engine.t D) u i s q :
  Engine.risk_limits_ e !! u = None -> Engine.check_risk e u i s q = true.
Proof. intros H. unfold Engine.check_risk. by rewrite H. Qed.

Lemma check_risk_no_position (e : Engine.t D) u i s q :
  default ∅ (Engine.positions_ e !! u) !! i = None ->
  Engine.check_risk e u i s q = true.
Proof.
  intros H. unfold Engine.check_risk.
  destruct (Engine.risk_limits_ e !! u); [|done].
  destruct (Engine.positions_ e !! u) as [m|]; [|done].
  simpl in H. by rewrite H.
Qed.

Lemma check_risk_position (e : Engine.t D) u i s q limits m pos :
  Engine.risk_limits_ e !! u = Some limits ->
  Engine.positions_ e !! u = Some m -> m !! i = Some pos ->
  Engine.check_risk e u i s q =
    negb (RiskLimits.max_position limits
          <? i64 (Z.abs (i64 (Position.net_qty pos
                              + match s with BUY => q | SELL => i64 (- q) end)))).
Proof.
  intros Hl Hm Hp. unfold Engine.check_risk. rewrite Hl, Hm, Hp.
  by destruct (_ <? _).
Qed.

(** The risk gate restricted to users that already hold a position entry:
    the request is rejected exactly when the post-trade absolute position
    would exceed [max_position]. *)
Lemma submit_order_risk_reject (w : World.t) (e : Engine.t D) request inst limits m pos :
  Engine.instruments_ e !! OrderRequest.instrument_id request = Some inst ->
  InstrumentSpec.is_halted inst = false ->
  Engine.risk_limits_ e !! OrderRequest.user_id request = Some limits ->
  Engine.positions_ e !! OrderRequest.user_id request = Some m ->
  m !! OrderRequest.instrument_id request = Some pos ->
  RiskLimits.max_position limits
    < i64 (Z.abs (i64 (Position.net_qty pos
                       + match OrderRequest.side request with
                         | BUY => OrderRequest.quantity request
                         | SELL => i64 (- OrderRequest.quantity request)
                         end))) ->
  Engine.submit_order clock w e request = Engine.reject w e "Risk limit exceeded".
Proof.
  intros Hi Hh Hl Hm Hp Hgt. unfold Engine.submit_order. rewrite Hi, Hh.
  rewrite (check_risk_position _ _ _ _ _ _ _ _ Hl Hm Hp).
  by rewrite (proj2 (Z.ltb_lt _ _) Hgt).
Qed.

Lemma submit_order_accept_or_reject (w : World.t) (e : Engine.t D) request :
  match reject_reason e request with
  | Some msg => Engine.submit_order clock w e request = Engine.reject w e msg
  | None => OrderResult.success (Engine.submit_order clock w e request).2 = true
  end.
Proof.
  unfold reject_reason, Engine.submit_order.
  destruct (Engine.instruments_ e !! _) as [inst|]; [|done].
  destruct (InstrumentSpec.is_halted inst); [done|].
  destruct (negb _); [done|].
  destruct (_ <=? 0); [done|].
  cbv zeta. destruct (OrderBook.now _ _) as [ts w1].
  destruct (make_shared _ _) as [order w2].
  destruct (OrderBook.add_order _ _ _ _) as [[w3 book] fills]. done.
Qed.

(** C9.  [submit_order] fails in exactly the four cases of [reject_reason],
    tested in that order; a failed call carries the matching message,
    [order_id = 0] and no fill, adds one to [total_rejects] (modulo [2^64],
    the counter being a [uint64_t]) and changes nothing else: the world of
    orders, and every field of the engine other than [stats_], the other
    three counters included, are the ones before the call. *)
Theorem submit_order_rejects (w : World.t) (e : Engine.t D) (request : OrderRequest.t) :
  let res := Engine.submit_order clock w e request in
  let w' := res.1.1 in
  let e' := res.1.2 in
  let r := res.2 in
  (OrderResult.success r = false <->
     Engine.instruments_ e !! OrderRequest.instrument_id request = None \/
     (exists inst, Engine.instruments_ e !! OrderRequest.instrument_id request = Some inst /\
                   InstrumentSpec.is_halted inst = true) \/
     Engine.check_risk e (OrderRequest.user_id request) (OrderRequest.instrument_id request)
       (OrderRequest.side request) (OrderRequest.quantity request) = false \/
     OrderRequest.quantity request <= 0) /\
  (OrderResult.success r = false <-> exists msg, reject_reason e request = Some msg) /\
  (forall msg, reject_reason e request = Some msg ->
     OrderResult.success r = false /\
     OrderResult.error_message r = msg /\
     OrderResult.order_id r = 0%N /\
     OrderResult.fills r = [] /\
     w' = w /\
     e' = Engine.set_stats_ (Stats.incr_rejects (Engine.stats_ e)) e /\
     Engine.order_books_ e' = Engine.order_books_ e /\
     Engine.positions_ e' = Engine.positions_ e /\
     Engine.trade_history_ e' = Engine.trade_history_ e /\
     Engine.fill_history_ e' = Engine.fill_history_ e /\
     Engine.active_orders_ e' = Engine.active_orders_ e /\
     Engine.next_order_id_ e' = Engine.next_order_id_ e /\
     Stats.total_orders (Engine.stats_ e') = Stats.total_orders (Engine.stats_ e) /\
     Stats.total_fills (Engine.stats_ e') = Stats.total_fills (Engine.stats_ e) /\
     Stats.total_cancels (Engine.stats_ e') = Stats.total_cancels (Engine.stats_ e) /\
     Stats.total_rejects (Engine.stats_ e') = u64 (Stats.total_rejects (Engine.stats_ e) + 1) /\
     ((Stats.total_rejects (Engine.stats_ e) < 2 ^ 64 - 1)%N ->
      Stats.total_rejects (Engine.stats_ e') = (Stats.total_rejects (Engine.stats_ e) + 1)%N)).
Proof.
  intros res w' e' r. subst w' e' r res.
  pose proof (submit_order_accept_or_reject w e request) as Hsub.
  assert (OrderResult.success (Engine.submit_order clock w e request).2 = false
          <-> exists msg, reject_reason e request = Some msg) as Hiff.
  { destruct (reject_reason e request) as [msg|].
    - rewrite Hsub. simpl. split; eauto.
    - rewrite Hsub. split; [done|]. by intros [? ?]. }
  split; [|split; [exact Hiff|]].
  - rewrite Hiff. unfold reject_reason.
    destruct (Engine.instruments_ e !! _) as [inst|] eqn:Hi.
    + destruct (InstrumentSpec.is_halted inst) eqn:Hh.
      { split; [intros _; right; left; eauto | eauto]. }
      destruct (Engine.check_risk _ _ _ _ _) eqn:Hr; simpl.
      * destruct (Z.leb_spec (OrderRequest.quantity request) 0).
        -- split; eauto.
        -- split; [by intros [? ?]|].
           intros [?|[(inst' & ? & ?)|[?|?]]]; try done; try lia.
           simplify_eq. congruence.
      * split; eauto.
    + split; eauto.
  - intros msg Hmsg. rewrite Hmsg in Hsub. rewrite Hsub. simpl.
    repeat split; try done.
    intros Hlt. unfold u64. apply N.mod_small. lia.
Qed.

(** *** Frame properties of the operations *)

Lemma pairs_ind {A : Type} (P : list A -> Prop) :
  P [] -> (forall x, P [x]) -> (forall x y l, P l -> P (x :: y :: l)) -> forall l, P l.
Proof.
  intros H0 H1 H2 l.
  assert (P l /\ forall x, P (x :: l)) as [? _]; [|done].
  induction l as [|y l [IH1 IH2]]; split; auto.
Qed.

Lemma process_fills_frame (e : Engine.t D) fills :
  let e' := Engine.process_fills e fills in
  Engine.instruments_ e' = Engine.instruments_ e /\
  Engine.order_books_ e' = Engine.order_books_ e /\
  Engine.risk_limits_ e' = Engine.risk_limits_ e /\
  Engine.active_orders_ e' = Engine.active_orders_ e /\
  Engine.user_orders_ e' = Engine.user_orders_ e /\
  Engine.next_order_id_ e' = Engine.next_order_id_ e.
Proof.
  revert e. induction fills as [|f|f1 f2 fills IH] using pairs_ind; intros e; try done.
  cbn [Engine.process_fills]. cbv zeta.
  destruct (IH (Engine.set_trade_history_
                  (Engine.trade_history_ (Engine.record_fill (Engine.record_fill e f1) f2)
                   ++ [Engine.trade_of f1 f2])
                  (Engine.record_fill (Engine.record_fill e f1) f2)))
    as (-> & -> & -> & -> & -> & ->).
  done.
Qed.

Lemma submit_order_instruments (w : World.t) (e : Engine.t D) request :
  Engine.instruments_ (Engine.submit_order clock w e request).1.2 = Engine.instruments_ e.
Proof.
  unfold Engine.submit_order.
  destruct (Engine.instruments_ e !! _) as [inst|]; [|done].
  destruct (InstrumentSpec.is_halted inst); [done|].
  destruct (negb _); [done|].
  destruct (_ <=? 0); [done|].
  cbv zeta. destruct (OrderBook.now _ _) as [ts w1].
  destruct (make_shared _ _) as [order w2].
  destruct (OrderBook.add_order _ _ _ _) as [[w3 book] fills]. simpl.
  match goal with |- context [Engine.process_fills ?x fills] =>
    destruct (process_fills_frame x fills) as (-> & _) end.
  by destruct (_ || _).
Qed.

Lemma cancel_order_instruments (w : World.t) (e : Engine.t D) oid uid :
  Engine.instruments_ (Engine.cancel_order w e oid uid).1.2 = Engine.instruments_ e.
Proof.
  unfold Engine.cancel_order.
  destruct (Engine.active_orders_ e !! oid) as [order|]; [|done].
  destruct (negb _); [done|].
  destruct (OrderBook.cancel_order _ _ _) as [[w1 book] ok]. by destruct ok.
Qed.

Lemma replace_order_instruments (w : World.t) (e : Engine.t D) oid uid np nq :
  Engine.instruments_ (Engine.replace_order clock w e oid uid np nq).1.2
  = Engine.instruments_ e.
Proof.
  unfold Engine.replace_order.
  destruct (Engine.active_orders_ e !! oid) as [order|]; [|done].
  destruct (negb _); [done|].
  pose proof (cancel_order_instruments w e oid uid) as Hc.
  destruct (Engine.cancel_order w e oid uid) as [[w1 e1] ok]. simpl in Hc.
  destruct ok; simpl; [|done].
  match goal with |- context [Engine.submit_order clock w1 e1 ?r] =>
    pose proof (submit_order_instruments w1 e1 r) as Hs;
    destruct (Engine.submit_order clock w1 e1 r) as [[w2 e2] res] end.
  simpl in *. congruence.
Qed.

Lemma cancel_all_instruments (w : World.t) (e : Engine.t D) uid :
  Engine.instruments_ (Engine.cancel_all w e uid).1.2 = Engine.instruments_ e.
Proof.
  unfold Engine.cancel_all.
  destruct (Engine.user_orders_ e !! uid) as [ids|]; [|done].
  generalize (merge_sort N.le (elements ids)). intros l.
  revert w e. induction l as [|oid l IH]; intros w e; [done|].
  simpl.
  pose proof (cancel_order_instruments w e oid uid) as Hc.
  destruct (Engine.cancel_order w e oid uid) as [[w1 e1] ok]. simpl in Hc.
  specialize (IH w1 e1).
  destruct (foldl _ (w1, e1) l) as [w2 e2]. simpl in *. congruence.
Qed.

(** An instrument stays registered, and stays halted until
    [halt_instrument(id, false)] is called. *)
Lemma step_halted (s : World.t * Engine.t D) (op : Op.t D) id :
  op <> Op.HaltInstrument id false ->
  halted_in s.2 id -> halted_in (step clock s op).2 id.
Proof.
  destruct s as [w e]. simpl. intros Hop (inst & Hi & Hh). unfold halted_in.
  destruct op; simpl.
  - unfold Engine.add_instrument.
    destruct (Engine.instruments_ e !! InstrumentSpec.id spec) eqn:Hs; simpl; [eauto|].
    exists inst. split; [|done].
    rewrite lookup_insert_ne; [done|]. intros <-. congruence.
  - unfold Engine.halt_instrument.
    destruct (Engine.instruments_ e !! id0) as [inst0|] eqn:H0; simpl; [|eauto].
    destruct (decide (id0 = id)) as [->|Hne].
    + destruct halted; [|done]. rewrite lookup_insert_eq. eauto.
    + rewrite lookup_insert_ne by done. eauto.
  - rewrite submit_order_instruments. eauto.
  - rewrite cancel_order_instruments. eauto.
  - rewrite replace_order_instruments. eauto.
  - rewrite cancel_all_instruments. eauto.
  - eauto.
  - unfold Engine.settle_instrument.
    destruct (Engine.instruments_ e !! id0) as [inst0|] eqn:H0; simpl; [|eauto].
    destruct (decide (id0 = id)) as [->|Hne].
    + rewrite lookup_insert_eq. eauto.
    + rewrite lookup_insert_ne by done. eauto.
  - eauto.
Qed.

Lemma run_from_halted (s : World.t * Engine.t D) ops id :
  Forall (fun op => op <> Op.HaltInstrument id false) ops ->
  halted_in s.2 id -> halted_in (run_from clock s ops).2 id.
Proof.
  unfold run_from. intros Hops. revert s.
  induction Hops as [|op ops Hop _ IH]; intros s Hs; [done|].
  simpl. apply IH. by apply step_halted.
Qed.

Lemma submit_order_halted (w : World.t) (e : Engine.t D) request :
  halted_in e (OrderRequest.instrument_id request) ->
  Engine.submit_order clock w e request = Engine.reject w e "Instrument is halted".
Proof.
  intros (inst & Hi & Hh). unfold Engine.submit_order. by rewrite Hi, Hh.
Qed.

Lemma settle_position_eq (inst : InstrumentSpec.t D) v (pos : Position.t D) :
  Engine.settle_position inst v pos =
  Position.mk (Position.instrument_id pos) 0 0
    (d_add (Position.realized_pnl pos)
       (d_sub (payoff_spec inst v (Position.net_qty pos))
              (cost_basis_spec inst (Position.vwap pos) (Position.net_qty pos))))
    (d_of_int 0).
Proof.
  unfold Engine.settle_position, payoff_spec, cost_basis_spec.
  by destruct (InstrumentSpec.type inst).
Qed.


(** C10.  [settle_instrument] changes nothing but [positions_] and
    [instruments_]: the world of orders (it is not even passed), the order
    books, [active_orders_] and [user_orders_] are the ones before the call,
    so the snapshot of the settled instrument is the same, and
    [cancel_order] after the settlement does what it does before it. *)
Theorem settle_instrument_keeps_book (w : World.t) (e : Engine.t D) (id : InstrumentId)
    (v : Price) :
  let e' := (Engine.settle_instrument e id v).1 in
  (step clock (w, e) (Op.SettleInstrument id v)) = (w, e') /\
  Engine.order_books_ e' = Engine.order_books_ e /\
  Engine.active_orders_ e' = Engine.active_orders_ e /\
  Engine.user_orders_ e' = Engine.user_orders_ e /\
  Engine.get_snapshot clock w e' id = Engine.get_snapshot clock w e id /\
  (forall order_id user_id,
     Engine.cancel_order w e' order_id user_id =
     let '(w1, e1, cancelled) := Engine.cancel_order w e order_id user_id in
     (w1, Engine.set_instruments_ (Engine.instruments_ e')
            (Engine.set_positions_ (Engine.positions_ e') e1), cancelled)).
Proof.
  intros e'.
  assert (e' = Engine.set_instruments_ (Engine.instruments_ e')
                 (Engine.set_positions_ (Engine.positions_ e') e)) as He'.
  { subst e'. unfold Engine.settle_instrument.
    destruct (Engine.instruments_ e !! id); simpl; [done|]. by destruct e. }
  split; [done|].
  rewrite He'. generalize (Engine.instruments_ e') (Engine.positions_ e'). intros I P.
  repeat split.
  intros order_id user_id. unfold Engine.cancel_order. simpl.
  destruct (Engine.active_orders_ e !! order_id) as [order|]; [|done].
  destruct (negb _); [done|].
  unfold Engine.book_of. simpl.
  destruct (OrderBook.cancel_order _ _ _) as [[w1 book] ok]. by destruct ok.
Qed.

End Facade.

(** ** The store of orders *)
Section Heap.
Implicit Types (w : World.t) (p q : ptr) (o : Order.t).

Lemma deref_store_same w p o : valid w p -> deref (store w p o) p = o.
Proof.
  unfold valid, deref, store. simpl. intros Hp.
  by rewrite list_lookup_insert_eq.
Qed.

Lemma deref_store_other w p q o : p <> q -> deref (store w p o) q = deref w q.
Proof.
  unfold deref, store. simpl. intros Hne. by rewrite list_lookup_insert_ne.
Qed.

Lemma store_invalid w p o : ~ valid w p -> store w p o = w.
Proof.
  unfold valid, store. intros Hp. rewrite list_insert_ge by lia. by destruct w.
Qed.

Lemma deref_invalid w p : ~ valid w p -> deref w p = Order.null.
Proof.
  unfold valid, deref. intros Hp. rewrite lookup_ge_None_2; [done|lia].
Qed.

Lemma store_length w p o : length (World.heap (store w p o)) = length (World.heap w).
Proof. unfold store. simpl. apply length_insert. Qed.

Lemma valid_store w p o q : valid (store w p o) q <-> valid w q.
Proof. unfold valid. by rewrite store_length. Qed.

Lemma same_order_refl o : same_order o o.
Proof. by repeat split. Qed.

Lemma same_order_trans o1 o2 o3 : same_order o1 o2 -> same_order o2 o3 -> same_order o1 o3.
Proof.
  unfold same_order. intros (?&?&?&?&?&?&?&?&?) (?&?&?&?&?&?&?&?&?).
  repeat split; congruence.
Qed.

Lemma same_order_set_filled o x : same_order o (Order.set_filled_quantity x o).
Proof. by repeat split. Qed.

Lemma same_order_set_status o x : same_order o (Order.set_status x o).
Proof. by repeat split. Qed.

Lemma world_le_refl w : world_le w w.
Proof. split; [done|]. intros p. apply same_order_refl. Qed.

Lemma world_le_trans w1 w2 w3 : world_le w1 w2 -> world_le w2 w3 -> world_le w1 w3.
Proof.
  intros [Hl1 H1] [Hl2 H2]. split; [congruence|].
  intros p. eapply same_order_trans; [apply H1|apply H2].
Qed.

Lemma world_le_store w p o : same_order (deref w p) o -> world_le w (store w p o).
Proof.
  intros Hs. split; [apply store_length|]. intros q.
  destruct (decide (p = q)) as [<-|Hne].
  - destruct (decide (valid w p)) as [Hv|Hv].
    + by rewrite deref_store_same.
    + rewrite store_invalid by done. apply same_order_refl.
  - rewrite deref_store_other by done. apply same_order_refl.
Qed.

Lemma world_le_valid w w' p : world_le w w' -> valid w' p <-> valid w p.
Proof. intros [Hl _]. unfold valid. by rewrite Hl. Qed.

(** Reading the clock leaves the orders alone. *)
Lemma deref_reads w n p : deref (World.mk (World.heap w) n) p = deref w p.
Proof. done. Qed.

Lemma world_le_reads w n : world_le w (World.mk (World.heap w) n).
Proof. split; [done|]. intros p. apply same_order_refl. Qed.

End Heap.

(** ** One match *)
Section MatchOne.
Variable clock : nat -> Timestamp.
Implicit Types (w : World.t) (b : OrderBook.t) (p q order passive : ptr).

Lemma match_one_fills price order passive w b w' b' popped f1 f2 :
  OrderBook.match_one clock price order passive w b = (w', b', popped, f1, f2) ->
  f1 = Fill.mk (Order.id (deref w order)) (Order.user_id (deref w order))
         (OrderBook.instrument_id_ b) (Order.side (deref w order)) price
         (match_quantity w order passive) (clock (World.reads w)) /\
  f2 = Fill.mk (Order.id (deref w passive)) (Order.user_id (deref w passive))
         (OrderBook.instrument_id_ b) (Order.side (deref w passive)) price
         (match_quantity w order passive) (clock (S (World.reads w))).
Proof.
  unfold OrderBook.match_one, OrderBook.create_fill, OrderBook.now. simpl.
  destruct (_ <=? _); intros [= <- <- <- <- <-]; done.
Qed.

Lemma match_one_world price order passive w b w' b' popped f1 f2 :
  OrderBook.match_one clock price order passive w b = (w', b', popped, f1, f2) ->
  world_le w w' /\ World.reads w' = S (S (World.reads w)) /\
  (forall q, q <> order -> q <> passive -> deref w' q = deref w q).
Proof.
  unfold OrderBook.match_one, OrderBook.create_fill, OrderBook.now. simpl.
  set (w0 := World.mk (World.heap w) (S (S (World.reads w)))).
  set (m := Z.min _ _).
  set (w1 := store w0 order _).
  set (w2 := store w1 passive _).
  assert (world_le w w2) as Hle.
  { eapply world_le_trans; [apply (world_le_reads w (S (S (World.reads w))))|].
    eapply world_le_trans; apply world_le_store, same_order_set_filled. }
  assert (forall q, q <> order -> q <> passive -> deref w2 q = deref w q) as Hfr.
  { intros q H1 H2. subst w2 w1. by rewrite !deref_store_other. }
  destruct (_ <=? _); intros [= <- <- <- <- <-].
  - split; [|split].
    + eapply world_le_trans; [exact Hle|]. apply world_le_store, same_order_set_status.
    + done.
    + intros q H1 H2. rewrite deref_store_other by done. by apply Hfr.
  - split; [|split].
    + eapply world_le_trans; [exact Hle|]. apply world_le_store, same_order_set_status.
    + done.
    + intros q H1 H2. rewrite deref_store_other by done. by apply Hfr.
Qed.

Lemma match_one_book price order passive w b w' b' popped f1 f2 :
  OrderBook.match_one clock price order passive w b = (w', b', popped, f1, f2) ->
  b' = OrderBook.mk (OrderBook.instrument_id_ b) (OrderBook.bids_ b) (OrderBook.asks_ b)
         (if popped then delete (Order.id (deref w passive)) (OrderBook.orders_ b)
          else OrderBook.orders_ b)
         price.
Proof.
  intros Heq. pose proof Heq as Hw. apply match_one_world in Hw as [[_ Hs] _].
  revert Heq.
  unfold OrderBook.match_one, OrderBook.create_fill, OrderBook.now. simpl.
  destruct (_ <=? _); intros [= <- <- <- <- <-]; [|done].
  unfold OrderBook.set_orders_, OrderBook.set_last_price_. simpl. f_equal.
  match goal with |- delete (Order.id (deref ?w1 passive)) _ = _ =>
    assert (world_le w w1) as [_ Hs1] end.
  { eapply world_le_trans; [apply (world_le_reads w (S (S (World.reads w))))|].
    eapply world_le_trans; [apply world_le_store, same_order_set_filled|].
    eapply world_le_trans; [apply world_le_store, same_order_set_filled|].
    apply world_le_store, same_order_set_status. }
  by destruct (Hs1 passive) as [-> _].
Qed.

(** The state of the two orders after a match between distinct objects. *)
Lemma match_one_distinct price order passive w b w' b' popped f1 f2 :
  OrderBook.match_one clock price order passive w b = (w', b', popped, f1, f2) ->
  order <> passive -> valid w order -> valid w passive ->
  let m := match_quantity w order passive in
  deref w' order =
    Order.set_filled_quantity (Order.filled_quantity (deref w order) + m) (deref w order) /\
  deref w' passive =
    Order.set_status (if popped then FILLED else PARTIAL)
      (Order.set_filled_quantity (Order.filled_quantity (deref w passive) + m)
         (deref w passive)) /\
  popped = (Order.quantity (deref w passive)
            <=? Order.filled_quantity (deref w passive) + m).
Proof.
  intros Heq Hne Ho Hp m. revert Heq.
  unfold OrderBook.match_one, OrderBook.create_fill, OrderBook.now. simpl.
  fold (match_quantity w order passive). fold m.
  set (w0 := World.mk (World.heap w) (S (S (World.reads w)))).
  assert (valid w0 order) as Ho0 by done.
  assert (valid w0 passive) as Hp0 by done.
  rewrite !(deref_reads w).
  set (w1 := store w0 order _).
  assert (deref w1 passive = deref w passive) as Hp1.
  { subst w1. by rewrite deref_store_other. }
  rewrite Hp1.
  set (w2 := store w1 passive _).
  assert (valid w1 passive) as Hv1 by (subst w1; by apply valid_store).
  assert (deref w2 passive = Order.set_filled_quantity
            (Order.filled_quantity (deref w passive) + m) (deref w passive)) as Hp2.
  { subst w2. by rewrite deref_store_same. }
  assert (deref w2 order = Order.set_filled_quantity
            (Order.filled_quantity (deref w order) + m) (deref w order)) as Ho2.
  { subst w2. rewrite deref_store_other by done. subst w1. by rewrite deref_store_same. }
  assert (valid w2 passive) as Hv2 by (subst w2; by apply valid_store).
  rewrite Hp2. simpl.
  destruct (_ <=? _); intros [= <- <- <- <- <-].
  - rewrite deref_store_other by done. rewrite deref_store_same by done. done.
  - rewrite deref_store_other by done. rewrite deref_store_same by done. done.
Qed.

(** A match that leaves the passive order open has filled the incoming
    order: the loop guard fails at the next test. *)
Lemma match_one_progress price order passive w b w' b' f1 f2 :
  OrderBook.match_one clock price order passive w b = (w', b', false, f1, f2) ->
  OrderBook.unfilled w order = true ->
  OrderBook.unfilled w' order = false.
Proof.
  intros Heq Hun.
  assert (valid w order) as Ho.
  { destruct (decide (valid w order)) as [|Hn]; [done|].
    unfold OrderBook.unfilled in Hun. rewrite (deref_invalid _ _ Hn) in Hun. done. }
  destruct (decide (order = passive)) as [<-|Hne].
  - exfalso. apply Z.ltb_lt in Hun. revert Heq.
    unfold OrderBook.match_one, OrderBook.create_fill, OrderBook.now.
    simpl. rewrite !(deref_reads w).
    set (w0 := World.mk (World.heap w) (S (S (World.reads w)))).
    set (m := Z.min _ _).
    assert (m = Order.quantity (deref w order) - Order.filled_quantity (deref w order))
      as Hm by (subst m; lia).
    assert (valid w0 order) as Ho0 by done.
    set (w1 := store w0 order _).
    assert (deref w1 order = Order.set_filled_quantity
              (Order.filled_quantity (deref w order) + m) (deref w order)) as H1.
    { subst w1. by rewrite deref_store_same. }
    rewrite H1. simpl.
    set (w2 := store w1 order _).
    assert (deref w2 order = Order.set_filled_quantity
              (Order.filled_quantity (deref w order) + m + m) (deref w order)) as H2.
    { subst w2. rewrite deref_store_same; [done|]. subst w1. by apply valid_store. }
    rewrite H2. simpl.
    destruct (Z.leb_spec (Order.quantity (deref w order))
                (Order.filled_quantity (deref w order) + m + m)); [done|lia].
  - destruct (decide (valid w passive)) as [Hp|Hp].
    + destruct (match_one_distinct _ _ _ _ _ _ _ _ _ _ Heq Hne Ho Hp) as (Ho' & _ & Hpop).
      unfold OrderBook.unfilled in *. rewrite Ho'. simpl.
      symmetry in Hpop. apply Z.leb_gt in Hpop. apply Z.ltb_lt in Hun.
      apply Z.ltb_ge. unfold match_quantity in *. lia.
    + exfalso. revert Heq.
      unfold OrderBook.match_one, OrderBook.create_fill, OrderBook.now. simpl.
      set (w0 := World.mk (World.heap w) (S (S (World.reads w)))).
      set (w1 := store w0 order _).
      assert (~ valid w1 passive) as Hp1.
      { subst w1. rewrite valid_store. done. }
      rewrite (store_invalid w1 passive) by done.
      rewrite (deref_invalid w1 passive) by done. simpl. done.
Qed.

End MatchOne.

(** ** The matching loops *)
Section Loops.
Variable clock : nat -> Timestamp.
Implicit Types (w : World.t) (b : OrderBook.t) (p q order passive : ptr).
Implicit Types (lvl : list ptr) (fills : list Fill.t).

Lemma match_level_done fuel price order w b lvl fills :
  lvl = [] \/ OrderBook.unfilled w order = false ->
  OrderBook.match_level clock fuel price order w b lvl fills = Some (w, b, lvl, fills).
Proof.
  intros H. destruct fuel, lvl as [|x l]; simpl; try done;
    (destruct H as [H|H]; [done|by rewrite H]).
Qed.

(** The inner loop never runs out of the fuel [match_levels] gives it. *)
Lemma match_level_total price order fuel w b lvl fills :
  (length lvl <= fuel)%nat ->
  is_Some (OrderBook.match_level clock fuel price order w b lvl fills).
Proof.
  revert w b lvl fills. induction fuel as [|fuel IH]; intros w b lvl fills Hlen.
  - destruct lvl; [|simpl in Hlen; lia]. by eexists.
  - destruct lvl as [|passive rest]; [by eexists|].
    simpl. destruct (OrderBook.unfilled w order) eqn:Hun; simpl; [|by eexists].
    destruct (OrderBook.match_one clock price order passive w b)
      as [[[[w' b'] popped] f1] f2] eqn:Hone.
    destruct popped.
    + apply IH. simpl in Hlen. lia.
    + rewrite match_level_done; [by eexists|].
      right. eapply match_one_progress; eauto.
Qed.

(** Hoare rule of the inner loop: an invariant of the loop body holds at
    the exit, where the level is empty or the incoming order is filled. *)
Lemma match_level_rule price order
    (I : World.t -> OrderBook.t -> list ptr -> list Fill.t -> Prop) :
  (forall w b passive rest fills w' b' popped f1 f2,
     I w b (passive :: rest) fills ->
     OrderBook.unfilled w order = true ->
     OrderBook.match_one clock price order passive w b = (w', b', popped, f1, f2) ->
     I w' b' (if popped then rest else passive :: rest) (fills ++ [f1; f2])) ->
  forall fuel w b lvl fills w' b' lvl' fills',
    OrderBook.match_level clock fuel price order w b lvl fills = Some (w', b', lvl', fills') ->
    I w b lvl fills ->
    I w' b' lvl' fills' /\ (lvl' = [] \/ OrderBook.unfilled w' order = false).
Proof.
  intros Hbody fuel. induction fuel as [|fuel IH]; intros w b lvl fills w' b' lvl' fills'.
  - destruct lvl as [|passive rest]; simpl.
    + intros [= <- <- <- <-] HI. auto.
    + destruct (OrderBook.unfilled w order) eqn:Hun; simpl; [done|].
      intros [= <- <- <- <-] HI. auto.
  - destruct lvl as [|passive rest]; simpl.
    + intros [= <- <- <- <-] HI. auto.
    + destruct (OrderBook.unfilled w order) eqn:Hun; simpl;
        [|intros [= <- <- <- <-] HI; auto].
      destruct (OrderBook.match_one clock price order passive w b)
        as [[[[w1 b1] popped] f1] f2] eqn:Hone.
      intros Hrec HI.
      pose proof (Hbody _ _ _ _ _ _ _ _ _ _ HI Hun Hone) as HI1.
      destruct popped; eapply IH; eauto.
Qed.

(** What the inner loop leaves alone in the book. *)
Lemma match_level_book fuel price order w b lvl fills w' b' lvl' fills' :
  OrderBook.match_level clock fuel price order w b lvl fills = Some (w', b', lvl', fills') ->
  OrderBook.instrument_id_ b' = OrderBook.instrument_id_ b /\
  OrderBook.bids_ b' = OrderBook.bids_ b /\ OrderBook.asks_ b' = OrderBook.asks_ b.
Proof.
  intros Heq.
  apply (match_level_rule price order
           (fun _ b1 _ _ =>
              OrderBook.instrument_id_ b1 = OrderBook.instrument_id_ b /\
              OrderBook.bids_ b1 = OrderBook.bids_ b /\
              OrderBook.asks_ b1 = OrderBook.asks_ b)) in Heq as [? _]; [done| |done].
  intros w0 b0 passive rest fills0 w1 b1 popped f1 f2 (? & ? & ?) _ Hone.
  apply match_one_book in Hone as ->. done.
Qed.

Lemma match_level_world fuel price order w b lvl fills w' b' lvl' fills' :
  OrderBook.match_level clock fuel price order w b lvl fills = Some (w', b', lvl', fills') ->
  world_le w w'.
Proof.
  intros Heq.
  apply (match_level_rule price order (fun w1 _ _ _ => world_le w w1))
    in Heq as [? _]; [done| |apply world_le_refl].
  intros w0 b0 passive rest fills0 w1 b1 popped f1 f2 Hle _ Hone.
  apply match_one_world in Hone as [? _]. by eapply world_le_trans.
Qed.

Lemma opposite_set_opposite s x b : OrderBook.opposite s (OrderBook.set_opposite s x b) = x.
Proof. by destruct s. Qed.

Lemma match_levels_done fuel s order w b fills :
  OrderBook.unfilled w order = false ->
  OrderBook.match_levels clock fuel s order w b fills = Some (w, b, fills).
Proof. intros Hun. destruct fuel; simpl; by rewrite Hun. Qed.

(** The outer loop never runs out of the fuel [match_order] gives it. *)
Lemma match_levels_total s order fuel w b fills :
  (length (OrderBook.opposite s b) <= fuel)%nat ->
  is_Some (OrderBook.match_levels clock fuel s order w b fills).
Proof.
  revert w b fills. induction fuel as [|fuel IH]; intros w b fills Hlen.
  - simpl. destruct (OrderBook.unfilled w order); simpl; [|by eexists].
    destruct (OrderBook.opposite s b) as [|[price lvl] rest]; [by eexists|].
    simpl in Hlen. lia.
  - simpl. destruct (OrderBook.unfilled w order); simpl; [|by eexists].
    destruct (OrderBook.opposite s b) as [|[price lvl] rest] eqn:Hopp; [by eexists|].
    destruct (OrderBook.no_cross _ _ _); [by eexists|].
    destruct (Order.post_only _); [by eexists|].
    destruct (match_level_total price order (length lvl) w b lvl fills) as [r Hr]; [done|].
    rewrite Hr. destruct r as [[[w1 b1] lvl1] fills1].
    pose proof (match_level_rule price order (fun _ _ _ _ => True)
                  (fun _ _ _ _ _ _ _ _ _ _ _ _ _ => I) _ _ _ _ _ _ _ _ _ Hr I) as [_ Hexit].
    destruct lvl1 as [|p1 lvl1].
    + apply IH. rewrite opposite_set_opposite. simpl in Hlen. lia.
    + destruct Hexit as [|Hun]; [done|]. rewrite match_levels_done; [by eexists|done].
Qed.

(** Hoare rule of the outer loop.  [I] is kept by the matching of one level
    and [R] is what a post-only rejection establishes. *)
Lemma match_levels_rule s order (I : World.t -> OrderBook.t -> list Fill.t -> Prop) :
  (forall w b price lvl rest fills w' b' lvl' fills',
     I w b fills ->
     OrderBook.unfilled w order = true ->
     OrderBook.opposite s b = (price, lvl) :: rest ->
     OrderBook.no_cross s (Order.price (deref w order)) price = false ->
     Order.post_only (deref w order) = false ->
     OrderBook.match_level clock (length lvl) price order w b lvl fills
       = Some (w', b', lvl', fills') ->
     I w' (OrderBook.set_opposite s
             (match lvl' with [] => rest | _ => (price, lvl') :: rest end) b') fills') ->
  (forall w b price lvl rest fills,
     I w b fills ->
     OrderBook.unfilled w order = true ->
     OrderBook.opposite s b = (price, lvl) :: rest ->
     OrderBook.no_cross s (Order.price (deref w order)) price = false ->
     Order.post_only (deref w order) = true ->
     I (store w order (Order.set_status REJECTED (deref w order))) b fills) ->
  forall fuel w b fills w' b' fills',
    OrderBook.match_levels clock fuel s order w b fills = Some (w', b', fills') ->
    I w b fills -> I w' b' fills'.
Proof.
  intros Hbody Hrej fuel. induction fuel as [|fuel IH]; intros w b fills w' b' fills'; simpl.
  - destruct (OrderBook.unfilled w order) eqn:Hun; simpl; [|by intros [= <- <- <-]].
    destruct (OrderBook.opposite s b) as [|[price lvl] rest] eqn:Hopp;
      [by intros [= <- <- <-]|].
    destruct (OrderBook.no_cross _ _ _) eqn:Hnc; [by intros [= <- <- <-]|].
    destruct (Order.post_only _) eqn:Hpo; [|done].
    intros [= <- <- <-] HI. eapply Hrej; eauto.
  - destruct (OrderBook.unfilled w order) eqn:Hun; simpl; [|by intros [= <- <- <-]].
    destruct (OrderBook.opposite s b) as [|[price lvl] rest] eqn:Hopp;
      [by intros [= <- <- <-]|].
    destruct (OrderBook.no_cross _ _ _) eqn:Hnc; [by intros [= <- <- <-]|].
    destruct (Order.post_only _) eqn:Hpo.
    { intros [= <- <- <-] HI. eapply Hrej; eauto. }
    destruct (OrderBook.match_level clock (length lvl) price order w b lvl fills)
      as [[[[w1 b1] lvl1] fills1]|] eqn:Hlvl; [|done].
    intros Hrec HI. eapply IH; [exact Hrec|].
    pose proof (Hbody _ _ _ _ _ _ _ _ _ _ HI Hun Hopp Hnc Hpo Hlvl) as HI1.
    by destruct lvl1.
Qed.

(** [match_order] is the outer loop run to completion. *)
Lemma match_order_eq w b order :
  OrderBook.match_levels clock (length (OrderBook.opposite (Order.side (deref w order)) b))
    (Order.side (deref w order)) order w b []
  = Some (OrderBook.match_order clock w b order).
Proof.
  unfold OrderBook.match_order.
  destruct (match_levels_total (Order.side (deref w order)) order
              (length (OrderBook.opposite (Order.side (deref w order)) b)) w b [])
    as [r Hr]; [done|].
  by rewrite Hr.
Qed.

Lemma match_levels_world fuel s order w b fills w' b' fills' :
  OrderBook.match_levels clock fuel s order w b fills = Some (w', b', fills') ->
  world_le w w'.
Proof.
  intros Heq.
  apply (match_levels_rule s order (fun w1 _ _ => world_le w w1)) in Heq;
    [done| | |apply world_le_refl].
  - intros w0 b0 price lvl rest fills0 w1 b1 lvl1 fills1 Hle _ _ _ _ Hlvl.
    apply match_level_world in Hlvl. by eapply world_le_trans.
  - intros w0 b0 price lvl rest fills0 Hle _ _ _ _.
    eapply world_le_trans; [exact Hle|]. apply world_le_store, same_order_set_status.
Qed.

End Loops.

(** ** [add_order]: post-only rejection and fill pairs *)
Section AddOrder.
Variable clock : nat -> Timestamp.
Implicit Types (w : World.t) (b : OrderBook.t) (p q order passive : ptr).
Implicit Types (lvl : list ptr) (fills : list Fill.t).

Lemma unfilled_valid w order : OrderBook.unfilled w order = true -> valid w order.
Proof.
  intros Hun. destruct (decide (valid w order)) as [|Hn]; [done|].
  unfold OrderBook.unfilled in Hun. by rewrite (deref_invalid _ _ Hn) in Hun.
Qed.

Lemma set_orders_id b : OrderBook.set_orders_ (OrderBook.orders_ b) b = b.
Proof. by destruct b. Qed.

(** C3.  A post-only order with remaining quantity and an id not yet in the
    book, whose limit price crosses the best opposite price, is rejected by
    [add_order]: no fill is returned, the order's status is REJECTED, the
    book (both sides, the [orders_] map, [last_price_]) is the one before the
    call, the order is in neither, every other order object is untouched and
    the clock is not read. *)
Theorem post_only_rejected w b order price lvl rest :
  let o := deref w order in
  Order.post_only o = true ->
  Order.filled_quantity o < Order.quantity o ->
  OrderBook.orders_ b !! Order.id o = None ->
  OrderBook.opposite (Order.side o) b = (price, lvl) :: rest ->
  OrderBook.no_cross (Order.side o) (Order.price o) price = false ->
  let res := OrderBook.add_order clock w b order in
  res.2 = [] /\
  Order.status (deref res.1.1 order) = REJECTED /\
  res.1.2 = b /\
  OrderBook.orders_ res.1.2 !! Order.id o = None /\
  (forall q, q <> order -> deref res.1.1 q = deref w q) /\
  Order.filled_quantity (deref res.1.1 order) = Order.filled_quantity o /\
  World.reads res.1.1 = World.reads w.
Proof.
  intros o Hpo Hrem Hfresh Hopp Hcross res.
  assert (OrderBook.unfilled w order = true) as Hun by (by apply Z.ltb_lt).
  pose proof (unfilled_valid _ _ Hun) as Hv.
  assert (res = (store w order (Order.set_status REJECTED o), b, [])) as ->.
  { subst res. unfold OrderBook.add_order, OrderBook.match_order. fold o.
    set (b1 := OrderBook.set_orders_ _ b).
    assert (OrderBook.opposite (Order.side o) b1 = (price, lvl) :: rest) as Hopp1.
    { rewrite <- Hopp. by destruct (Order.side o). }
    rewrite Hopp1. simpl. rewrite Hun. simpl. rewrite Hopp1. fold o.
    rewrite Hcross, Hpo. simpl.
    rewrite deref_store_same by done. simpl.
    subst b1. simpl. rewrite delete_insert_eq. f_equal. f_equal.
    rewrite delete_id by done. by destruct b. }
  simpl. rewrite deref_store_same by done. simpl.
  repeat split; try done.
  intros q Hq. by rewrite deref_store_other.
Qed.

Lemma paired_app P fills (f1 f2 : Fill.t) :
  paired P fills -> P f1 f2 -> paired P (fills ++ [f1; f2]).
Proof.
  revert fills. induction fills as [|x|x y fills IH] using pairs_ind; simpl; intros H HP.
  - done.
  - done.
  - destruct H as [Hxy H]. split; [done|]. by apply IH.
Qed.

Lemma paired_impl (P P' : Fill.t -> Fill.t -> Prop) fills :
  (forall f1 f2, P f1 f2 -> P' f1 f2) -> paired P fills -> paired P' fills.
Proof.
  intros HP. induction fills as [|x|x y fills IH] using pairs_ind; simpl; [done|done|].
  intros [Hxy H]. split; auto.
Qed.

Lemma resting_cons price lvl rest : resting ((price, lvl) :: rest) = lvl ++ resting rest.
Proof. done. Qed.

(** The fills of the inner loop come in pairs. *)
Lemma match_level_pairs w0 b0 s order price rest fuel w b lvl fills w' b' lvl' fills' :
  OrderBook.match_level clock fuel price order w b lvl fills = Some (w', b', lvl', fills') ->
  world_le w0 w -> s = Order.side (deref w0 order) ->
  OrderBook.instrument_id_ b = OrderBook.instrument_id_ b0 ->
  lvl ++ resting rest ⊆ resting (OrderBook.opposite s b0) ->
  paired (match_pair clock w0 b0 order) fills ->
  paired (match_pair clock w0 b0 order) fills' /\ lvl' ++ resting rest ⊆ lvl ++ resting rest.
Proof.
  intros Heq Hle Hs Hid Hsub Hp.
  apply (match_level_rule clock price order
           (fun w1 b1 lvl1 fills1 =>
              world_le w0 w1 /\ OrderBook.instrument_id_ b1 = OrderBook.instrument_id_ b0 /\
              lvl1 ++ resting rest ⊆ lvl ++ resting rest /\
              paired (match_pair clock w0 b0 order) fills1)) in Heq
    as [(_ & _ & ? & ?) _]; [done| |done].
  intros w1 b1 passive rest1 fills1 w2 b2 popped f1 f2
    (Hle1 & Hid1 & Hin & Hp1) _ Hone.
  pose proof (match_one_world _ _ _ _ _ _ _ _ _ _ _ Hone) as (Hle2 & _ & _).
  pose proof (match_one_book _ _ _ _ _ _ _ _ _ _ _ Hone) as ->.
  pose proof (match_one_fills _ _ _ _ _ _ _ _ _ _ _ Hone) as [-> ->].
  split; [by eapply world_le_trans|]. split; [done|]. split.
  - destruct popped; [|done]. intros x Hx. apply Hin. simpl. by apply list_elem_of_further.
  - apply paired_app; [done|].
    destruct Hle1 as [_ Hsame].
    destruct (Hsame order) as (Ho1 & Ho2 & _ & Ho4 & _).
    destruct (Hsame passive) as (Hq1 & Hq2 & _ & Hq4 & _).
    unfold match_pair. simpl. rewrite Ho1, Ho2, Ho4, Hq1, Hq2, Hq4, Hid1.
    repeat split; try done; [|by eexists].
    exists passive. repeat split; try done.
    rewrite <- Hs. apply Hsub, Hin. by apply list_elem_of_here.
Qed.

Lemma instrument_id_set_opposite s x b :
  OrderBook.instrument_id_ (OrderBook.set_opposite s x b) = OrderBook.instrument_id_ b.
Proof. by destruct s. Qed.

Lemma opposite_match_level fuel price order w b lvl fills w' b' lvl' fills' s :
  OrderBook.match_level clock fuel price order w b lvl fills = Some (w', b', lvl', fills') ->
  OrderBook.opposite s b' = OrderBook.opposite s b.
Proof. intros (_ & ? & ?)%match_level_book. by destruct s. Qed.

(** The fills of the outer loop come in pairs. *)
Lemma match_levels_pairs w0 b0 s order fuel w b fills w' b' fills' :
  OrderBook.match_levels clock fuel s order w b fills = Some (w', b', fills') ->
  world_le w0 w -> s = Order.side (deref w0 order) ->
  OrderBook.instrument_id_ b = OrderBook.instrument_id_ b0 ->
  resting (OrderBook.opposite s b) ⊆ resting (OrderBook.opposite s b0) ->
  paired (match_pair clock w0 b0 order) fills ->
  paired (match_pair clock w0 b0 order) fills'.
Proof.
  intros Heq Hle Hs Hid Hsub Hp.
  apply (match_levels_rule clock s order
           (fun w1 b1 fills1 =>
              world_le w0 w1 /\ OrderBook.instrument_id_ b1 = OrderBook.instrument_id_ b0 /\
              resting (OrderBook.opposite s b1) ⊆ resting (OrderBook.opposite s b0) /\
              paired (match_pair clock w0 b0 order) fills1)) in Heq
    as (_ & _ & _ & ?); [done| | |done].
  - intros w1 b1 price lvl rest fills1 w2 b2 lvl2 fills2
      (Hle1 & Hid1 & Hsub1 & Hp1) _ Hopp _ _ Hlvl.
    rewrite Hopp, resting_cons in Hsub1.
    pose proof (match_level_world _ _ _ _ _ _ _ _ _ _ _ _ Hlvl) as Hle2.
    pose proof (match_level_book _ _ _ _ _ _ _ _ _ _ _ _ Hlvl) as (Hid2 & _ & _).
    destruct (match_level_pairs w0 b0 s order price rest _ _ _ _ _ _ _ _ _ Hlvl)
      as [Hp2 Hsub2]; try done.
    split; [by eapply world_le_trans|].
    rewrite instrument_id_set_opposite, opposite_set_opposite.
    split; [congruence|]. split; [|done].
    intros x Hx. apply Hsub1, Hsub2. by destruct lvl2.
  - intros w1 b1 price lvl rest fills1 (Hle1 & Hid1 & Hsub1 & Hp1) _ _ _ _.
    split; [|done]. eapply world_le_trans; [done|].
    apply world_le_store, same_order_set_status.
Qed.

(** [add_order] returns the fills of [match_order]. *)
Lemma add_order_fills w b order :
  (OrderBook.add_order clock w b order).2
  = (OrderBook.match_order clock w
       (OrderBook.set_orders_ (<[Order.id (deref w order) := order]> (OrderBook.orders_ b)) b)
       order).2.
Proof.
  unfold OrderBook.add_order.
  destruct (OrderBook.match_order _ _ _ _) as [[w1 b1] fills].
  destruct (decide _); [done|]. destruct (_ && _); [done|]. by destruct (_ <=? _).
Qed.

(** C7, as the code has it.  The fills [add_order] returns are a sequence
    of adjacent pairs, one pair per match: first the fill of the incoming
    order, then the fill of the resting order it matched, with the same
    price, quantity and instrument.  The two timestamps are two successive
    reads of the clock, so they agree only when the clock did not advance
    between the reads. *)
Theorem add_order_fill_pairs w b order :
  paired (match_pair clock w b order) (OrderBook.add_order clock w b order).2.
Proof.
  rewrite add_order_fills.
  set (b1 := OrderBook.set_orders_ _ b).
  pose proof (match_order_eq clock w b1 order) as Heq.
  destruct (OrderBook.match_order clock w b1 order) as [[w' b'] fills]. simpl.
  apply (match_levels_pairs w b1) in Heq; [|apply world_le_refl|done..].
  eapply paired_impl; [|exact Heq].
  intros f1 f2. unfold match_pair.
  replace (OrderBook.opposite (Order.side (deref w order)) b1)
    with (OrderBook.opposite (Order.side (deref w order)) b)
    by (by destruct (Order.side (deref w order))).
  done.
Qed.

End AddOrder.

(** ** Price-time priority *)
Section Priority.
Variable clock : nat -> Timestamp.
Implicit Types (w : World.t) (b : OrderBook.t) (p q order passive : ptr).
Implicit Types (lvl : list ptr) (fills : list Fill.t) (Q : list (Price * ptr)).

Lemma queue_cons price lvl rest :
  queue ((price, lvl) :: rest) = map (pair price) lvl ++ queue rest.
Proof. done. Qed.

Lemma queue_snd m : (queue m).*2 = resting m.
Proof.
  induction m as [|[price lvl] rest IH]; [done|].
  rewrite queue_cons, resting_cons, fmap_app, IH. f_equal.
  induction lvl as [|x lvl IHl]; [done|]. simpl. by f_equal.
Qed.

Lemma passive_fills_app fills f1 f2 n :
  length fills = (2 * n)%nat ->
  passive_fills (fills ++ [f1; f2]) = passive_fills fills ++ [f2].
Proof.
  revert n. induction fills as [|x|x y fills IH] using pairs_ind; intros n Hlen.
  - done.
  - simpl in Hlen. lia.
  - simpl. f_equal. apply (IH (pred n)). simpl in Hlen. lia.
Qed.

Section Fixed.
Variables (w0 : World.t) (Q0 : list (Price * ptr)) (order : ptr).
Hypothesis Q0_nodup : NoDup Q0.*2.
Hypothesis Q0_valid : Forall (valid w0) Q0.*2.
Hypothesis Q0_order : order ∉ Q0.*2.

Lemma Q0_lookup_ne i j x y :
  Q0 !! i = Some x -> Q0 !! j = Some y -> i <> j -> x.2 <> y.2.
Proof.
  intros Hi Hj Hne Heq. apply Hne.
  eapply (NoDup_lookup Q0.*2 i j x.2); [done| |].
  - by rewrite list_lookup_fmap, Hi.
  - by rewrite list_lookup_fmap, Hj, Heq.
Qed.

Lemma Q0_lookup_order i x : Q0 !! i = Some x -> x.2 <> order.
Proof.
  intros Hi Heq. apply Q0_order. rewrite <- Heq.
  apply list_elem_of_lookup. exists i. by rewrite list_lookup_fmap, Hi.
Qed.

Lemma Q0_lookup_valid i x : Q0 !! i = Some x -> valid w0 x.2.
Proof.
  intros Hi. eapply Forall_forall in Q0_valid; [done|].
  apply list_elem_of_lookup. exists i. by rewrite list_lookup_fmap, Hi.
Qed.

Lemma priority_inv_init : priority_inv w0 Q0 order w0 Q0 [] 0 0.
Proof.
  unfold priority_inv. repeat split; try done; lia.
Qed.

(** One match keeps the invariant. *)
Lemma priority_step price passive w b Qrest fills n k w' b' popped f1 f2 :
  world_le w0 w ->
  priority_inv w0 Q0 order w ((price, passive) :: Qrest) fills n k ->
  OrderBook.unfilled w order = true ->
  OrderBook.match_one clock price order passive w b = (w', b', popped, f1, f2) ->
  priority_inv w0 Q0 order w'
    (if popped then Qrest else (price, passive) :: Qrest) (fills ++ [f1; f2])
    (S n) (if popped then S k else k).
Proof.
  intros Hle (Hnk & Hlen & Hfills & HQc & Hfilled & Hfresh & Hdone) Hun Hone.
  assert (k = n) as -> by (destruct (decide (k < n)%nat); [rewrite Hdone in Hun|]; [done|lia..]).
  clear Hnk Hdone.
  assert (Q0 !! n = Some (price, passive)) as Hn.
  { rewrite <- (Nat.add_0_r n), <- lookup_drop, <- HQc. done. }
  pose proof (Q0_lookup_order _ _ Hn) as Hpo. simpl in Hpo.
  assert (valid w passive) as Hvp.
  { apply (world_le_valid _ _ _ Hle). by apply (Q0_lookup_valid _ _ Hn). }
  pose proof (unfilled_valid _ _ Hun) as Hvo.
  assert (deref w passive = deref w0 passive) as Hp0 by (by apply (Hfresh n (price, passive))).
  destruct (match_one_distinct _ _ _ _ _ _ _ _ _ _ _ Hone) as (Ho' & Hp' & Hpop); try done.
  pose proof (match_one_world _ _ _ _ _ _ _ _ _ _ _ Hone) as (_ & _ & Hframe).
  pose proof (match_one_fills _ _ _ _ _ _ _ _ _ _ _ Hone) as [-> ->].
  assert (forall i x, Q0 !! i = Some x -> i <> n -> deref w' x.2 = deref w x.2) as Hother.
  { intros i x Hi Hne. apply Hframe.
    - by apply (Q0_lookup_order _ _ Hi).
    - apply (Q0_lookup_ne _ _ _ _ Hi Hn Hne). }
  unfold priority_inv. split; [destruct popped; lia|].
  split; [rewrite length_app; simpl; lia|]. split.
  { rewrite (passive_fills_app _ _ _ n) by done.
    rewrite (take_S_r _ _ _ Hn), !fmap_app, Hfills. f_equal.
    unfold fill_key, queue_key. simpl. by rewrite Hp0. }
  split.
  { destruct popped; [|done].
    rewrite (drop_S _ _ _ Hn) in HQc. by injection HQc. }
  split; [|split].
  - intros i x Hi Hlt.
    destruct (decide (i = n)) as [->|Hne].
    + destruct popped; [|lia]. rewrite Hn in Hi. injection Hi as <-. simpl.
      unfold is_filled. rewrite Hp'. simpl. split; [done|].
      symmetry in Hpop. by apply Z.leb_le in Hpop.
    + unfold is_filled. rewrite (Hother _ _ Hi Hne).
      apply (Hfilled _ _ Hi). destruct popped; lia.
  - intros i x Hi Hge. rewrite (Hother _ _ Hi) by lia. apply (Hfresh _ _ Hi). lia.
  - intros Hlt. destruct popped; [lia|]. eapply match_one_progress; eauto.
Qed.

(** The inner loop keeps the invariant. *)
Lemma match_level_priority price rest fuel w b lvl fills w' b' lvl' fills' :
  OrderBook.match_level clock fuel price order w b lvl fills = Some (w', b', lvl', fills') ->
  world_le w0 w ->
  (exists n k, priority_inv w0 Q0 order w (map (pair price) lvl ++ queue rest) fills n k) ->
  exists n k, priority_inv w0 Q0 order w' (map (pair price) lvl' ++ queue rest) fills' n k.
Proof.
  intros Heq Hle HI.
  apply (match_level_rule clock price order
           (fun w1 b1 lvl1 fills1 =>
              world_le w0 w1 /\
              exists n k, priority_inv w0 Q0 order w1
                            (map (pair price) lvl1 ++ queue rest) fills1 n k)) in Heq
    as [[_ ?] _]; [done| |done].
  intros w1 b1 passive rest1 fills1 w2 b2 popped f1 f2 (Hle1 & n & k & Hinv) Hun Hone.
  split.
  { apply match_one_world in Hone as [? _]. by eapply world_le_trans. }
  exists (S n), (if popped then S k else k).
  pose proof (priority_step price passive w1 b1 (map (pair price) rest1 ++ queue rest)
                fills1 n k w2 b2 popped f1 f2 Hle1 Hinv Hun Hone) as Hstep.
  by destruct popped.
Qed.

Lemma unfilled_store_status w order' st :
  OrderBook.unfilled (store w order' (Order.set_status st (deref w order'))) order
  = OrderBook.unfilled w order.
Proof.
  unfold OrderBook.unfilled.
  destruct (decide (order' = order)) as [->|Hne].
  - destruct (decide (valid w order)) as [Hv|Hv].
    + by rewrite deref_store_same.
    + by rewrite store_invalid.
  - by rewrite deref_store_other.
Qed.

(** A write to the incoming order keeps the invariant. *)
Lemma priority_inv_store_status w Qc fills n k st :
  priority_inv w0 Q0 order w Qc fills n k ->
  priority_inv w0 Q0 order (store w order (Order.set_status st (deref w order))) Qc fills n k.
Proof.
  intros (Hnk & Hlen & Hfills & HQc & Hfilled & Hfresh & Hdone).
  unfold priority_inv. repeat split; try done; try lia.
  - rewrite deref_store_other; [by apply (Hfilled _ _ H)|].
    intros Heq. by apply (Q0_lookup_order _ _ H).
  - rewrite deref_store_other; [by apply (Hfilled _ _ H)|].
    intros Heq. by apply (Q0_lookup_order _ _ H).
  - intros i x Hi Hge. rewrite deref_store_other; [by apply (Hfresh _ _ Hi)|].
    intros Heq. by apply (Q0_lookup_order _ _ Hi).
  - intros Hlt. rewrite unfilled_store_status. by apply Hdone.
Qed.

(** The outer loop keeps the invariant. *)
Lemma match_levels_priority s fuel w b fills w' b' fills' :
  OrderBook.match_levels clock fuel s order w b fills = Some (w', b', fills') ->
  world_le w0 w ->
  (exists n k, priority_inv w0 Q0 order w (queue (OrderBook.opposite s b)) fills n k) ->
  exists n k, priority_inv w0 Q0 order w' (queue (OrderBook.opposite s b')) fills' n k.
Proof.
  intros Heq Hle HI.
  apply (match_levels_rule clock s order
           (fun w1 b1 fills1 =>
              world_le w0 w1 /\
              exists n k, priority_inv w0 Q0 order w1
                            (queue (OrderBook.opposite s b1)) fills1 n k)) in Heq
    as [_ ?]; [done| | |done].
  - intros w1 b1 price lvl rest fills1 w2 b2 lvl2 fills2 (Hle1 & Hinv) _ Hopp _ _ Hlvl.
    split; [apply match_level_world in Hlvl; by eapply world_le_trans|].
    rewrite Hopp, queue_cons in Hinv.
    pose proof (match_level_priority _ _ _ _ _ _ _ _ _ _ _ Hlvl Hle1 Hinv) as Hinv2.
    rewrite opposite_set_opposite. by destruct lvl2.
  - intros w1 b1 price lvl rest fills1 (Hle1 & n & k & Hinv) _ _ _ _.
    split; [eapply world_le_trans; [done|]; apply world_le_store, same_order_set_status|].
    exists n, k. by apply priority_inv_store_status.
Qed.

End Fixed.

(** *** Crossing and the end of matching *)

Lemma match_level_prices (P : Price -> Prop) price order fuel w b lvl fills w' b' lvl' fills' :
  OrderBook.match_level clock fuel price order w b lvl fills = Some (w', b', lvl', fills') ->
  P price -> Forall (fun f => P (Fill.price f)) fills ->
  Forall (fun f => P (Fill.price f)) fills'.
Proof.
  intros Heq HP HI.
  apply (match_level_rule clock price order
           (fun _ _ _ fills1 => Forall (fun f => P (Fill.price f)) fills1)) in Heq
    as [? _]; [done| |done].
  intros w1 b1 passive rest1 fills1 w2 b2 popped f1 f2 HF _ Hone.
  pose proof (match_one_fills _ _ _ _ _ _ _ _ _ _ _ Hone) as [-> ->].
  apply Forall_app. split; [done|]. by repeat constructor.
Qed.

(** Every fill is made at a price the incoming order's limit crosses. *)
Lemma match_levels_cross w0 s order fuel w b fills w' b' fills' :
  OrderBook.match_levels clock fuel s order w b fills = Some (w', b', fills') ->
  world_le w0 w ->
  Forall (fun f => OrderBook.no_cross s (Order.price (deref w0 order)) (Fill.price f) = false)
         fills ->
  Forall (fun f => OrderBook.no_cross s (Order.price (deref w0 order)) (Fill.price f) = false)
         fills'.
Proof.
  intros Heq Hle HI.
  apply (match_levels_rule clock s order
           (fun w1 _ fills1 =>
              world_le w0 w1 /\
              Forall (fun f => OrderBook.no_cross s (Order.price (deref w0 order))
                                 (Fill.price f) = false) fills1)) in Heq
    as [_ ?]; [done| | |done].
  - intros w1 b1 price lvl rest fills1 w2 b2 lvl2 fills2 (Hle1 & HF) _ _ Hnc _ Hlvl.
    split; [apply match_level_world in Hlvl; by eapply world_le_trans|].
    eapply (match_level_prices
              (fun x : Price => OrderBook.no_cross s (Order.price (deref w0 order)) x = false));
      [exact Hlvl| |done].
    destruct Hle1 as [_ Hsame]. destruct (Hsame order) as (_ & _ & _ & _ & <- & _). done.
  - intros w1 b1 price lvl rest fills1 (Hle1 & HF) _ _ _ _.
    split; [|done]. eapply world_le_trans; [done|].
    apply world_le_store, same_order_set_status.
Qed.

(** Matching ends when the incoming order is filled, the opposite side is
    empty, the best opposite price does not cross, or the order is a
    post-only that would match. *)
Lemma match_levels_exit s order fuel w b fills w' b' fills' :
  OrderBook.match_levels clock fuel s order w b fills = Some (w', b', fills') ->
  OrderBook.unfilled w' order = false \/
  Order.status (deref w' order) = REJECTED \/
  match OrderBook.opposite s b' with
  | [] => True
  | (price, _) :: _ => OrderBook.no_cross s (Order.price (deref w' order)) price = true
  end.
Proof.
  revert w b fills. induction fuel as [|fuel IH]; intros w b fills; simpl.
  - destruct (OrderBook.unfilled w order) eqn:Hun; simpl; [|intros [= <- <- <-]; auto].
    destruct (OrderBook.opposite s b) as [|[price lvl] rest] eqn:Hopp.
    { intros [= <- <- <-]. right. right. by rewrite Hopp. }
    destruct (OrderBook.no_cross _ _ _) eqn:Hnc.
    { intros [= <- <- <-]. right. right. by rewrite Hopp. }
    destruct (Order.post_only _); [|done].
    intros [= <- <- <-]. right. left.
    rewrite deref_store_same; [done|by apply unfilled_valid].
  - destruct (OrderBook.unfilled w order) eqn:Hun; simpl; [|intros [= <- <- <-]; auto].
    destruct (OrderBook.opposite s b) as [|[price lvl] rest] eqn:Hopp.
    { intros [= <- <- <-]. right. right. by rewrite Hopp. }
    destruct (OrderBook.no_cross _ _ _) eqn:Hnc.
    { intros [= <- <- <-]. right. right. by rewrite Hopp. }
    destruct (Order.post_only _).
    { intros [= <- <- <-]. right. left.
      rewrite deref_store_same; [done|by apply unfilled_valid]. }
    destruct (OrderBook.match_level _ _ _ _ _ _ _ _) as [[[[w1 b1] lvl1] fills1]|]; [|done].
    apply IH.
Qed.

(** *** The order of the queue *)

Lemma StronglySorted_lookup {A} (R : relation A) (l : list A) i j x y :
  StronglySorted R l -> l !! i = Some x -> l !! j = Some y -> (i < j)%nat -> R x y.
Proof.
  intros Hs. revert i j. induction Hs as [|a l Hs IH Hall]; intros i j Hi Hj Hlt; [done|].
  destruct j as [|j]; [lia|]. simpl in Hj.
  destruct i as [|i]; simpl in Hi.
  - injection Hi as <-. eapply Forall_forall in Hall; [done|].
    by eapply list_elem_of_lookup_2.
  - eapply IH; eauto. lia.
Qed.

Lemma opposite_before_irrefl s (x : Price) : opposite_before s x x = false.
Proof. destruct s; unfold opposite_before, asks_before, bids_before; lia. Qed.

Lemma opposite_before_asym s (x y : Price) :
  opposite_before s x y = true -> opposite_before s y x = false.
Proof. destruct s; unfold opposite_before, asks_before, bids_before; lia. Qed.

(** In a sorted price map no entry of the queue is strictly better than an
    entry before it. *)
Lemma queue_sorted s m :
  levels_sorted (opposite_before s) m ->
  StronglySorted (fun x y => opposite_before s y.1 x.1 = false) (queue m).
Proof.
  unfold levels_sorted. induction 1 as [|[price lvl] rest Hs IH Hall]; [constructor|].
  rewrite queue_cons. apply StronglySorted_app. split; [|split; [|done]].
  - intros x y Hx Hy. apply list_elem_of_fmap in Hx as (q & -> & _). simpl.
    apply opposite_before_asym.
    clear IH Hs. induction Hall as [|[price' lvl'] rest Hlt Hall IH2];
      [by apply elem_of_nil in Hy|].
    rewrite queue_cons in Hy. apply elem_of_app in Hy as [Hy|Hy]; [|by apply IH2].
    apply list_elem_of_fmap in Hy as (q' & -> & _). done.
  - clear. induction lvl as [|q lvl IHl]; [constructor|].
    simpl. constructor; [done|]. apply Forall_forall. intros x Hx.
    apply list_elem_of_fmap in Hx as (q' & -> & _). apply opposite_before_irrefl.
Qed.

Lemma queue_lookup_le s m i j x y :
  levels_sorted (opposite_before s) m ->
  queue m !! i = Some x -> queue m !! j = Some y -> (i <= j)%nat ->
  opposite_before s y.1 x.1 = false.
Proof.
  intros Hs Hi Hj Hle. destruct (decide (i = j)) as [->|Hne].
  - rewrite Hi in Hj. injection Hj as ->. apply opposite_before_irrefl.
  - apply (StronglySorted_lookup (fun x y => opposite_before s y.1 x.1 = false)
             (queue m) i j); [by apply queue_sorted|done|done|lia].
Qed.

(** *** [add_order] *)

(** [add_order] is [match_order] followed by a write of the incoming
    order's status (none after a rejection) and, possibly, by the booking of
    the order on its own side. *)
Lemma add_order_shape w b order :
  let s := Order.side (deref w order) in
  let b1 := OrderBook.set_orders_
              (<[Order.id (deref w order) := order]> (OrderBook.orders_ b)) b in
  let res := OrderBook.add_order clock w b order in
  exists w1 b2 fills,
    OrderBook.match_levels clock (length (OrderBook.opposite s b1)) s order w b1 []
      = Some (w1, b2, fills) /\
    res.2 = fills /\
    OrderBook.opposite s res.1.2 = OrderBook.opposite s b2 /\
    ((res.1.1 = w1 /\ Order.status (deref w1 order) = REJECTED) \/
     (Order.status (deref w1 order) <> REJECTED /\
      exists st, res.1.1 = store w1 order (Order.set_status st (deref w1 order)))) /\
    (own s res.1.2 = own s b2 \/
     own s res.1.2 = level_push (own_before s) (Order.price (deref w order)) order (own s b2)) /\
    OrderBook.instrument_id_ res.1.2 = OrderBook.instrument_id_ b2.
Proof.
  intros s b1 res. subst res. unfold OrderBook.add_order. fold b1.
  pose proof (match_order_eq clock w b1 order) as Heq. fold s in Heq.
  destruct (OrderBook.match_order clock w b1 order) as [[w1 b2] fills].
  exists w1, b2, fills. split; [done|].
  pose proof (match_levels_world _ _ _ _ _ _ _ _ _ _ Heq) as [_ Hsame].
  destruct (Hsame order) as (_ & _ & _ & Hside & Hprice & _). fold s in Hside.
  destruct (decide (Order.status (deref w1 order) = REJECTED)) as [Hrej|Hrej].
  { simpl. split; [done|]. split; [by destruct s|]. split; [by left|].
    split; [left; by destruct s|done]. }
  destruct (_ && _).
  { simpl. split; [done|]. split.
    - unfold OrderBook.add_to_book. rewrite Hside. by destruct s.
    - split; [right; split; [done|]; by eexists|].
      unfold OrderBook.add_to_book. rewrite Hside, Hprice.
      split; [right; by destruct s|by destruct s]. }
  destruct (_ <=? _); simpl; (split; [done|]); (split; [done|]);
    (split; [right; (split; [done|]); by eexists|]); (split; [by left|done]).
Qed.

(** One call of [add_order].  Let [Q] be the priority queue of the side an
    incoming order matches
    against: its resting orders, best level first in map order and front to
    back within a level, all distinct live objects other than the incoming
    one.  [add_order] matches the first [n] orders of [Q], in that order and
    each at the price of its level; the first [k] of them ([k = n] or
    [k = n - 1]) are exhausted and leave the book, the orders from [n] on are
    untouched.  So an order is filled only after every order ahead of it in
    [Q] is exhausted (FIFO within a level, better levels first); every fill
    is at a price the incoming limit crosses; matching leaves an unfilled,
    unrejected order only when the opposite side is empty or its best price
    does not cross; and when the map is sorted by its comparator (ascending
    asks for a BUY, descending bids for a SELL) no order left in the book has
    a strictly better price than any fill. *)
Lemma add_order_priority w b order :
  let o := deref w order in
  let s := Order.side o in
  let Q := queue (OrderBook.opposite s b) in
  NoDup Q.*2 -> Forall (valid w) Q.*2 -> order ∉ Q.*2 ->
  let res := OrderBook.add_order clock w b order in
  let w' := res.1.1 in
  let b' := res.1.2 in
  let fills := res.2 in
  exists n k : nat,
    (k <= n <= S k)%nat /\
    length fills = (2 * n)%nat /\
    fill_key <$> passive_fills fills = queue_key w <$> take n Q /\
    queue (OrderBook.opposite s b') = drop k Q /\
    (forall i x, Q !! i = Some x -> (i < k)%nat -> is_filled w' x.2) /\
    (forall i x, Q !! i = Some x -> (n <= i)%nat -> deref w' x.2 = deref w x.2) /\
    (forall i j A B,
       Q !! i = Some A -> Q !! j = Some B -> (i < j)%nat ->
       deref w' B.2 <> deref w B.2 -> is_filled w' A.2) /\
    Forall (fun f => OrderBook.no_cross s (Order.price o) (Fill.price f) = false) fills /\
    (Order.status (deref w' order) <> REJECTED ->
     OrderBook.unfilled w' order = true ->
     match OrderBook.opposite s b' with
     | [] => True
     | (price, _) :: _ => OrderBook.no_cross s (Order.price o) price = true
     end) /\
    (levels_sorted (opposite_before s) (OrderBook.opposite s b) ->
     forall f x, f ∈ passive_fills fills -> x ∈ queue (OrderBook.opposite s b') ->
                 opposite_before s x.1 (Fill.price f) = false).
Proof.
  intros o s Q Hnd Hval Hord. cbv zeta.
  destruct (add_order_shape w b order) as (w1 & b2 & fills1 & Hml & Hf & Hopp & Hw & _).
  fold o in Hml, Hopp. fold s in Hml, Hopp.
  destruct (OrderBook.add_order clock w b order) as [[w' b'] fills].
  cbn [fst snd] in *. subst fills1.
  set (b1 := OrderBook.set_orders_ _ b) in Hml.
  assert (OrderBook.opposite s b1 = OrderBook.opposite s b) as Hb1 by (by destruct s).
  pose proof (match_levels_world _ _ _ _ _ _ _ _ _ _ Hml) as Hle.
  destruct (match_levels_priority w Q order Hnd Hval Hord s _ _ _ _ _ _ _ Hml)
    as (n & k & Hinv1); [apply world_le_refl| |].
  { exists 0%nat, 0%nat. rewrite Hb1. apply priority_inv_init. }
  assert (priority_inv w Q order w' (queue (OrderBook.opposite s b')) fills n k) as Hinv.
  { rewrite Hopp. destruct Hw as [[-> _]|[_ [st ->]]]; [done|].
    by apply priority_inv_store_status. }
  assert (OrderBook.unfilled w' order = OrderBook.unfilled w1 order) as Hunf.
  { destruct Hw as [[-> _]|[_ [st ->]]]; [done|]. apply unfilled_store_status. }
  pose proof Hinv as (Hnk & Hlen & Hfills & HQc & Hfilled & Hfresh & Hdone).
  exists n, k. repeat (split; [done|]).
  split; [|split; [|split]].
  - intros i j A B Hi Hj Hlt Hch.
    apply (Hfilled _ _ Hi).
    destruct (decide (n <= j)%nat) as [Hge|]; [|lia].
    exfalso. apply Hch. by apply (Hfresh _ _ Hj).
  - eapply (match_levels_cross w); [exact Hml|apply world_le_refl|constructor].
  - intros Hrej Hun. rewrite Hopp.
    destruct (match_levels_exit _ _ _ _ _ _ _ _ _ Hml) as [Hex|[Hex|Hex]].
    + congruence.
    + destruct Hw as [[-> _]|[Hnr _]]; done.
    + destruct Hle as [_ Hsame]. destruct (Hsame order) as (_ & _ & _ & _ & Hp & _).
      by rewrite Hp in Hex.
  - intros Hsorted f x Hf Hx.
    assert (fill_key f ∈ fill_key <$> passive_fills fills) as Hk
      by (by apply list_elem_of_fmap_2).
    rewrite Hfills in Hk. apply list_elem_of_fmap in Hk as (y & Hy & Hin).
    apply elem_of_take in Hin as (i & Hi & Hlt).
    rewrite HQc in Hx. apply list_elem_of_lookup in Hx as (j & Hj).
    rewrite lookup_drop in Hj.
    injection Hy as Hprice _. rewrite Hprice.
    eapply (queue_lookup_le s _ i (k + j)); [done|exact Hi|exact Hj|lia].
Qed.

End Priority.

(** ** Well-formed books are kept well formed *)
Section WellFormed.
Variable clock : nat -> Timestamp.
Implicit Types (w : World.t) (b : OrderBook.t) (q order passive : ptr).
Implicit Types (lvl : list ptr) (fills : list Fill.t) (m : Levels) (s : Side).

Lemma own_other s b : own (other s) b = OrderBook.opposite s b.
Proof. by destruct s. Qed.

Lemma own_before_other s : own_before (other s) = opposite_before s.
Proof. by destruct s. Qed.

Lemma own_before_total s (x y : Price) :
  x <> y -> own_before s x y = false -> own_before s y x = true.
Proof. destruct s; unfold own_before, asks_before, bids_before; lia. Qed.

Lemma own_before_trans s (x y z : Price) :
  own_before s x y = true -> own_before s y z = true -> own_before s x z = true.
Proof. destruct s; unfold own_before, asks_before, bids_before; lia. Qed.

(** *** [level_push] *)

Lemma queue_level_push before (price : Price) q m :
  exists l1 l2, queue m = l1 ++ l2 /\
                queue (level_push before price q m) = l1 ++ (price, q) :: l2.
Proof.
  induction m as [|[p l] rest (l1 & l2 & Hq & Hq')]; simpl.
  - by exists [], [].
  - destruct (Z.eqb_spec price p) as [->|Hne].
    + exists (map (pair p) l), (queue rest).
      rewrite !queue_cons. split; [done|].
      by rewrite map_app, <- app_assoc.
    + destruct (before price p).
      * exists [], (queue ((p, l) :: rest)). done.
      * exists (map (pair p) l ++ l1), l2.
        rewrite !queue_cons, Hq, Hq', <- !app_assoc. done.
Qed.

Lemma level_push_keys before (price : Price) q m x :
  x ∈ level_push before price q m -> x.1 = price \/ exists y, y ∈ m /\ y.1 = x.1.
Proof.
  induction m as [|[p l] rest IH]; simpl.
  - intros ->%list_elem_of_singleton. by left.
  - destruct (Z.eqb_spec price p) as [->|Hne].
    + intros [->|Hx]%elem_of_cons; [by left|].
      right. exists x. split; [by apply list_elem_of_further|done].
    + destruct (before price p).
      * intros [->|Hx]%elem_of_cons; [by left|]. right. by exists x.
      * intros [->|Hx]%elem_of_cons.
        -- right. exists (p, l). split; [apply list_elem_of_here|done].
        -- destruct (IH Hx) as [?|(y & Hy & ?)]; [by left|].
           right. exists y. split; [by apply list_elem_of_further|done].
Qed.

Lemma level_push_sorted s (price : Price) q m :
  levels_sorted (own_before s) m ->
  levels_sorted (own_before s) (level_push (own_before s) price q m).
Proof.
  unfold levels_sorted. induction 1 as [|[p l] rest Hs IH Hall]; simpl.
  - repeat constructor.
  - destruct (Z.eqb_spec price p) as [->|Hne]; [by constructor|].
    destruct (own_before s price p) eqn:Hb.
    + constructor; [by constructor|].
      constructor; [done|]. eapply Forall_impl; [exact Hall|].
      intros y Hy. simpl in *. by eapply own_before_trans.
    + constructor; [done|]. apply Forall_forall. intros x Hx.
      apply level_push_keys in Hx as [->|(y & Hy & <-)].
      * simpl. by apply own_before_total.
      * eapply Forall_forall in Hall; eauto.
Qed.

(** *** [level_remove] *)

Lemma queue_level_remove (price : Price) q m :
  queue (level_remove price q m) `sublist_of` queue m.
Proof.
  induction m as [|[p l] rest IH]; simpl; [done|].
  destruct (price =? p).
  - pose proof (sublist_filter (fun q' => q' <> q) l) as Hsub.
    destruct (filter _ l) as [|q' l'] eqn:Hf.
    + rewrite queue_cons. by apply sublist_inserts_l.
    + rewrite !queue_cons. apply sublist_app; [|done].
      by apply (fmap_sublist (pair p)).
  - rewrite !queue_cons. by apply sublist_app.
Qed.

Lemma level_remove_keys (price : Price) q m x :
  x ∈ level_remove price q m -> exists y, y ∈ m /\ y.1 = x.1.
Proof.
  induction m as [|[p l] rest IH]; simpl; [by intros ?%elem_of_nil|].
  destruct (price =? p).
  - destruct (filter _ l) as [|q' l'].
    + intros Hx. exists x. split; [by apply list_elem_of_further|done].
    + intros [->|Hx]%elem_of_cons.
      * exists (p, l). split; [apply list_elem_of_here|done].
      * exists x. split; [by apply list_elem_of_further|done].
  - intros [->|Hx]%elem_of_cons.
    + exists (p, l). split; [apply list_elem_of_here|done].
    + destruct (IH Hx) as (y & Hy & ?). exists y.
      split; [by apply list_elem_of_further|done].
Qed.

Lemma level_remove_sorted before (price : Price) q m :
  levels_sorted before m -> levels_sorted before (level_remove price q m).
Proof.
  unfold levels_sorted. induction 1 as [|[p l] rest Hs IH Hall]; simpl; [constructor|].
  destruct (price =? p).
  - destruct (filter _ l); [done|by constructor].
  - constructor; [done|]. apply Forall_forall. intros x Hx.
    apply level_remove_keys in Hx as (y & Hy & <-).
    eapply Forall_forall in Hall; eauto.
Qed.

(** *** One side *)

Lemma side_wf_world_le w w' s m : world_le w w' -> side_wf w s m -> side_wf w' s m.
Proof.
  intros Hle (Hs & Hnd & Hall). split; [done|]. split; [done|].
  eapply Forall_impl; [exact Hall|]. intros x (Hv & Hside & Hprice).
  destruct Hle as [Hlen Hsame]. destruct (Hsame x.2) as (_ & _ & _ & -> & -> & _).
  split; [|done]. unfold valid in *. by rewrite Hlen.
Qed.

Lemma deref_make_shared w o q : valid w q -> deref (make_shared w o).2 q = deref w q.
Proof.
  unfold valid, deref, make_shared. simpl. intros Hq. by rewrite lookup_app_l.
Qed.

Lemma deref_make_shared_new w o : deref (make_shared w o).2 (make_shared w o).1 = o.
Proof.
  unfold deref, make_shared. simpl.
  by rewrite lookup_app_r, Nat.sub_diag.
Qed.

Lemma valid_make_shared w o q : valid w q -> valid (make_shared w o).2 q.
Proof. unfold valid, make_shared. simpl. rewrite length_app. simpl. lia. Qed.

Lemma side_wf_make_shared w o s m : side_wf w s m -> side_wf (make_shared w o).2 s m.
Proof.
  intros (Hs & Hnd & Hall). split; [done|]. split; [done|].
  eapply Forall_impl; [exact Hall|]. intros x (Hv & Hside & Hprice).
  rewrite deref_make_shared by done. split; [by apply valid_make_shared|done].
Qed.

Lemma side_wf_reads w n s m : side_wf w s m -> side_wf (World.mk (World.heap w) n) s m.
Proof. done. Qed.

Lemma side_wf_push w s q m :
  side_wf w s m -> valid w q -> Order.side (deref w q) = s -> q ∉ (queue m).*2 ->
  side_wf w s (level_push (own_before s) (Order.price (deref w q)) q m).
Proof.
  intros (Hs & Hnd & Hall) Hv Hside Hnew.
  destruct (queue_level_push (own_before s) (Order.price (deref w q)) q m)
    as (l1 & l2 & Hq & Hq').
  split; [by apply level_push_sorted|]. rewrite Hq'. rewrite Hq in Hnd, Hall, Hnew.
  split.
  - rewrite fmap_app, fmap_cons. simpl. rewrite fmap_app in Hnd, Hnew.
    apply NoDup_app in Hnd as (Hn1 & Hn12 & Hn2).
    apply NoDup_app. split; [done|]. split.
    + intros x Hx [->|Hx2]%elem_of_cons; [|by eapply Hn12].
      apply Hnew. apply elem_of_app. by left.
    + constructor; [|done]. intros Hx. apply Hnew. apply elem_of_app. by right.
  - apply Forall_app in Hall as [H1 H2]. apply Forall_app. split; [done|].
    by constructor.
Qed.

Lemma side_wf_remove w s (price : Price) q m :
  side_wf w s m -> side_wf w s (level_remove price q m).
Proof.
  intros (Hs & Hnd & Hall). split; [by apply level_remove_sorted|].
  pose proof (queue_level_remove price q m) as Hsub. split.
  - eapply sublist_NoDup; [exact Hnd|]. by apply (fmap_sublist snd).
  - apply Forall_forall. intros x Hx. eapply Forall_forall in Hall; [done|].
    by eapply elem_of_sublist.
Qed.

(** What matching leaves of the best level. *)
Lemma side_wf_shrink w s (price : Price) lvl lvl' rest :
  side_wf w s ((price, lvl) :: rest) -> lvl' `suffix_of` lvl ->
  side_wf w s (match lvl' with [] => rest | _ => (price, lvl') :: rest end).
Proof.
  intros (Hs & Hnd & Hall) [k ->].
  assert (queue (match lvl' with [] => rest | _ => (price, lvl') :: rest end)
          = map (pair price) lvl' ++ queue rest) as Hq by (by destruct lvl').
  assert (queue ((price, k ++ lvl') :: rest)
          = map (pair price) k ++ (map (pair price) lvl' ++ queue rest)) as Hq0
    by (by rewrite queue_cons, map_app, <- app_assoc).
  unfold side_wf. rewrite Hq. rewrite Hq0 in Hnd, Hall.
  split.
  - unfold levels_sorted in *. apply StronglySorted_inv in Hs as [Hs1 Hs2].
    destruct lvl'; [done|by constructor].
  - split.
    + rewrite fmap_app in Hnd. by apply NoDup_app in Hnd as (_ & _ & ?).
    + by apply Forall_app in Hall as [_ ?].
Qed.

(** *** The book operations *)

Lemma book_wf_sides w b : book_wf w b <-> forall s, side_wf w s (own s b).
Proof.
  split.
  - intros [Hb Ha] []; done.
  - intros H. split; [apply (H BUY)|apply (H SELL)].
Qed.

Lemma match_level_suffix fuel (price : Price) order w b lvl fills w' b' lvl' fills' :
  OrderBook.match_level clock fuel price order w b lvl fills = Some (w', b', lvl', fills') ->
  lvl' `suffix_of` lvl.
Proof.
  intros Heq.
  apply (match_level_rule clock price order (fun _ _ lvl1 _ => lvl1 `suffix_of` lvl))
    in Heq as [? _]; [done| |done].
  intros _ _ passive rest _ _ _ popped _ _ Hsuf _ _.
  destruct popped; [by eapply suffix_cons_l|done].
Qed.

Lemma own_set_opposite s x b : own s (OrderBook.set_opposite s x b) = own s b.
Proof. by destruct s. Qed.

(** Matching keeps the opposite side well formed and leaves the own side
    and the instrument id alone. *)
Lemma match_levels_wf s order fuel w b fills w' b' fills' :
  OrderBook.match_levels clock fuel s order w b fills = Some (w', b', fills') ->
  side_wf w (other s) (OrderBook.opposite s b) ->
  side_wf w' (other s) (OrderBook.opposite s b') /\ own s b' = own s b /\
  OrderBook.instrument_id_ b' = OrderBook.instrument_id_ b.
Proof.
  intros Heq Hwf.
  apply (match_levels_rule clock s order
           (fun w1 b1 _ =>
              side_wf w1 (other s) (OrderBook.opposite s b1) /\ own s b1 = own s b /\
              OrderBook.instrument_id_ b1 = OrderBook.instrument_id_ b)) in Heq;
    [done| | |done].
  - intros w1 b1 price lvl rest fills1 w2 b2 lvl2 fills2 (Hwf1 & Hown & Hid) _ Hopp _ _ Hlvl.
    pose proof (match_level_world _ _ _ _ _ _ _ _ _ _ _ _ Hlvl) as Hle.
    pose proof (match_level_book _ _ _ _ _ _ _ _ _ _ _ _ Hlvl) as (Hid2 & Hb2 & Ha2).
    pose proof (match_level_suffix _ _ _ _ _ _ _ _ _ _ _ Hlvl) as Hsuf.
    rewrite opposite_set_opposite, own_set_opposite, instrument_id_set_opposite.
    split; [|split; [|congruence]].
    + rewrite Hopp in Hwf1. apply (side_wf_world_le _ _ _ _ Hle).
      by apply (side_wf_shrink _ _ _ lvl).
    + rewrite <- Hown. destruct s; simpl; congruence.
  - intros w1 b1 price lvl rest fills1 (Hwf1 & Hown & Hid) _ _ _ _.
    split; [|done]. eapply side_wf_world_le; [|exact Hwf1].
    apply world_le_store, same_order_set_status.
Qed.

Lemma own_set_orders_ s x b : own s (OrderBook.set_orders_ x b) = own s b.
Proof. by destruct s. Qed.

(** [add_order] keeps a book well formed when the incoming order is a live
    object that does not rest in the book. *)
Lemma add_order_wf w b order :
  book_wf w b -> valid w order ->
  order ∉ (queue (own (Order.side (deref w order)) b)).*2 ->
  book_wf (OrderBook.add_order clock w b order).1.1 (OrderBook.add_order clock w b order).1.2 /\
  world_le w (OrderBook.add_order clock w b order).1.1 /\
  OrderBook.instrument_id_ (OrderBook.add_order clock w b order).1.2
  = OrderBook.instrument_id_ b.
Proof.
  intros Hwf Hv Hnew.
  destruct (add_order_shape clock w b order)
    as (w1 & b2 & fills & Hml & _ & Hopp & Hw & Hown & Hid).
  set (s := Order.side (deref w order)) in *.
  set (b1 := OrderBook.set_orders_ _ b) in Hml.
  destruct (OrderBook.add_order clock w b order) as [[w' b'] fills']. cbn [fst snd] in *.
  pose proof (match_levels_world _ _ _ _ _ _ _ _ _ _ Hml) as Hle1.
  pose proof (proj1 (book_wf_sides _ _) Hwf) as Hsides. clear Hwf. rename Hsides into Hwf.
  destruct (match_levels_wf s order _ w b1 [] w1 b2 fills Hml) as (Hwo & Hown2 & Hid2).
  { rewrite <- own_other. subst b1. rewrite own_set_orders_. apply Hwf. }
  subst b1. rewrite own_set_orders_ in Hown2.
  assert (world_le w1 w') as Hle2.
  { destruct Hw as [[-> _]|[_ [st ->]]]; [apply world_le_refl|].
    apply world_le_store, same_order_set_status. }
  assert (world_le w w') as Hle by (by eapply world_le_trans).
  split; [|split; [done|by rewrite Hid, Hid2]].
  apply book_wf_sides. intros s'.
  destruct (decide (s' = s)) as [->|Hne].
  - destruct Hown as [->| ->]; rewrite Hown2.
    + eapply side_wf_world_le; [exact Hle|]. apply Hwf.
    + destruct Hle as [Hlen Hsame].
      destruct (Hsame order) as (_ & _ & _ & Hside & Hprice & _).
      rewrite <- Hprice. apply side_wf_push.
      * eapply side_wf_world_le; [by split|]. apply Hwf.
      * unfold valid in *. by rewrite Hlen.
      * done.
      * done.
  - assert (s' = other s) as -> by (by destruct s, s').
    rewrite own_other, Hopp, <- own_other.
    eapply side_wf_world_le; [exact Hle2|]. by rewrite own_other.
Qed.

(** [cancel_order] keeps a book well formed. *)
Lemma cancel_order_wf w b order_id :
  book_wf w b ->
  book_wf (OrderBook.cancel_order w b order_id).1.1 (OrderBook.cancel_order w b order_id).1.2 /\
  world_le w (OrderBook.cancel_order w b order_id).1.1 /\
  OrderBook.instrument_id_ (OrderBook.cancel_order w b order_id).1.2
  = OrderBook.instrument_id_ b.
Proof.
  intros [Hb Ha]. unfold OrderBook.cancel_order.
  destruct (OrderBook.orders_ b !! order_id) as [order|]; simpl.
  - assert (world_le w (store w order (Order.set_status CANCELLED (deref w order)))) as Hle
      by apply world_le_store, same_order_set_status.
    split; [|split; [done|by destruct (Order.side _)]].
    destruct (Order.side (deref w order)); split; simpl;
      eapply side_wf_world_le; try exact Hle; try done; by apply side_wf_remove.
  - split; [done|]. split; [apply world_le_refl|done].
Qed.

End WellFormed.

(** ** Executions: what every operation preserves *)
Section Executions.
Context {D : Type} `{!DoubleOps D}.
Variable clock : nat -> Timestamp.
Implicit Types (w : World.t) (e : Engine.t D) (s : World.t * Engine.t D).

Lemma positions_record_fill e fill :
  Engine.positions_ (Engine.record_fill e fill) = update_positions (Engine.positions_ e) fill.
Proof. done. Qed.

Lemma positions_process_fills e fills :
  Engine.positions_ (Engine.process_fills e fills)
  = foldl update_positions (Engine.positions_ e) fills.
Proof.
  revert e. induction fills as [|f|f1 f2 fills IH] using pairs_ind; intros e; try done.
  cbn [Engine.process_fills foldl]. cbv zeta. by rewrite IH.
Qed.

(** An accepted [submit_order], field by field. *)
Lemma submit_order_accepted w e request :
  reject_reason e request = None ->
  let w2 := (make_shared (World.mk (World.heap w) (S (World.reads w)))
               (new_order e request (clock (World.reads w)))).2 in
  let order := length (World.heap w) in
  let iid := OrderRequest.instrument_id request in
  let added := OrderBook.add_order clock w2 (Engine.book_of e iid) order in
  let res := Engine.submit_order clock w e request in
  res.1.1 = added.1.1 /\
  OrderResult.fills res.2 = added.2 /\
  OrderResult.success res.2 = true /\
  Engine.order_books_ res.1.2 = <[iid := added.1.2]> (Engine.order_books_ e) /\
  Engine.positions_ res.1.2 = foldl update_positions (Engine.positions_ e) added.2 /\
  Engine.instruments_ res.1.2 = Engine.instruments_ e /\
  Engine.risk_limits_ res.1.2 = Engine.risk_limits_ e.
Proof.
  intros Hacc w2 order iid added res. subst res.
  unfold reject_reason in Hacc. unfold Engine.submit_order.
  destruct (Engine.instruments_ e !! _) as [inst|]; [|done].
  destruct (InstrumentSpec.is_halted inst); [done|].
  destruct (negb _); [done|].
  destruct (_ <=? 0); [done|].
  cbv zeta. unfold OrderBook.now, make_shared. cbn [World.heap World.reads].
  fold iid. fold (new_order e request (clock (World.reads w))).
  change (OrderBook.add_order clock _ _ (length (World.heap w))) with added.
  destruct added as [[w3 book] fills]. cbn [fst snd].
  match goal with |- context [Engine.process_fills ?x fills] =>
    pose proof (process_fills_frame x fills) as (Hi & Hb & Hr & _);
    pose proof (positions_process_fills x fills) as Hp end.
  cbn [fst snd OrderResult.fills OrderResult.success Engine.order_books_ Engine.positions_
       Engine.instruments_ Engine.risk_limits_ Engine.set_stats_].
  rewrite Hi, Hb, Hr, Hp. by destruct (_ || _).
Qed.

(** [cancel_order], field by field. *)
Lemma cancel_order_fields w e order_id user_id :
  let res := Engine.cancel_order w e order_id user_id in
  Engine.positions_ res.1.2 = Engine.positions_ e /\
  Engine.instruments_ res.1.2 = Engine.instruments_ e /\
  Engine.risk_limits_ res.1.2 = Engine.risk_limits_ e /\
  (res.1 = (w, e) \/
   exists inst,
     res.1.1 = (OrderBook.cancel_order w (Engine.book_of e inst) order_id).1.1 /\
     Engine.order_books_ res.1.2
     = <[inst := (OrderBook.cancel_order w (Engine.book_of e inst) order_id).1.2]>
         (Engine.order_books_ e)).
Proof.
  intros res. subst res. unfold Engine.cancel_order.
  destruct (Engine.active_orders_ e !! order_id) as [order|]; [|by auto].
  destruct (negb _); [by auto|].
  set (inst := Order.instrument_id (deref w order)).
  destruct (OrderBook.cancel_order w (Engine.book_of e inst) order_id)
    as [[w1 book] ok] eqn:Hc.
  destruct ok; simpl; repeat split; right; exists inst; by rewrite Hc.
Qed.

(** The three ways a [replace_order] ends. *)
Lemma replace_order_cases w e order_id user_id new_price new_qty :
  let res := Engine.replace_order clock w e order_id user_id new_price new_qty in
  res.1 = (w, e) \/
  res.1 = (Engine.cancel_order w e order_id user_id).1 \/
  exists w1 e1 request,
    replace_request (w, e) order_id user_id new_price new_qty = Some (w1, e1, request) /\
    (w1, e1) = (Engine.cancel_order w e order_id user_id).1 /\
    res.1 = (Engine.submit_order clock w1 e1 request).1.
Proof.
  intros res. subst res. unfold Engine.replace_order, replace_request. simpl.
  destruct (Engine.active_orders_ e !! order_id) as [old_order|]; [|by left].
  destruct (negb _); [by left|].
  destruct (Engine.cancel_order w e order_id user_id) as [[w1 e1] cancelled].
  destruct cancelled; simpl; [|by right; left].
  right. right. eexists w1, e1, _. split; [done|]. split; [done|].
  by destruct (Engine.submit_order clock w1 e1 _) as [[w2 e2] r].
Qed.

Lemma cancel_all_rule (I : World.t * Engine.t D -> Prop) w e user_id :
  (forall w e order_id, I (w, e) -> I (Engine.cancel_order w e order_id user_id).1) ->
  I (w, e) -> I (Engine.cancel_all w e user_id).1.
Proof.
  intros Hc HI. unfold Engine.cancel_all.
  destruct (Engine.user_orders_ e !! user_id) as [ids|]; [|done].
  generalize (merge_sort N.le (elements ids)). intros l.
  revert w e HI. induction l as [|oid l IH]; intros w e HI; [done|].
  simpl. specialize (Hc w e oid HI).
  destruct (Engine.cancel_order w e oid user_id) as [[w1 e1] ok]. simpl in Hc.
  specialize (IH w1 e1 Hc).
  by destruct (foldl _ (w1, e1) l) as [w2 e2].
Qed.

(** A property kept by the seven primitive operations is kept by every
    operation. *)
Lemma step_preserves (I : World.t * Engine.t D -> Prop)
    (okA : InstrumentSpec.t D -> Prop)
    (ok : World.t * Engine.t D -> OrderRequest.t -> Prop) :
  (forall w e spec, okA spec -> I (w, e) -> I (w, (Engine.add_instrument e spec).1)) ->
  (forall w e id halted, I (w, e) -> I (w, (Engine.halt_instrument e id halted).1)) ->
  (forall w e request,
     ok (w, e) request -> I (w, e) -> I (Engine.submit_order clock w e request).1) ->
  (forall w e order_id user_id,
     I (w, e) -> I (Engine.cancel_order w e order_id user_id).1) ->
  (forall w e n, I (w, e) -> I (World.mk (World.heap w) n, e)) ->
  (forall w e id v, I (w, e) -> I (w, (Engine.settle_instrument e id v).1)) ->
  (forall w e user_id limits, I (w, e) -> I (w, Engine.set_risk_limits e user_id limits)) ->
  forall s op, op_ok okA ok s op -> I s -> I (step clock s op).
Proof.
  intros Hadd Hhalt Hsub Hcan Hread Hset Hrisk [w e] op Hok HI.
  destruct op; simpl in *.
  - by apply Hadd.
  - by apply Hhalt.
  - by apply Hsub.
  - by apply Hcan.
  - destruct (replace_order_cases w e order_id user_id new_price new_qty)
      as [->|[->|(w1 & e1 & request & Hreq & Hc & ->)]].
    + done.
    + by apply Hcan.
    + apply Hsub; [by apply Hok|]. rewrite Hc. by apply Hcan.
  - apply cancel_all_rule; [|done]. intros. by apply Hcan.
  - unfold Engine.get_snapshot.
    destruct (Engine.order_books_ e !! id); [|done]. simpl. by apply Hread.
  - by apply Hset.
  - by apply Hrisk.
Qed.

Lemma run_from_preserves (I : World.t * Engine.t D -> Prop)
    (okA : InstrumentSpec.t D -> Prop)
    (ok : World.t * Engine.t D -> OrderRequest.t -> Prop) :
  (forall s op, op_ok okA ok s op -> I s -> I (step clock s op)) ->
  forall ops s, run_ok clock okA ok s ops -> I s -> I (run_from clock s ops).
Proof.
  intros Hstep ops. induction ops as [|op ops IH]; intros s Hok HI; [done|].
  destruct Hok as [Hop Hrest]. simpl. apply IH; [done|]. by apply Hstep.
Qed.

Lemma run_ok_trivial s ops : run_ok clock (fun _ => True) (fun _ _ => True) s ops.
Proof.
  revert s. induction ops as [|op ops IH]; intros s; [done|].
  split; [|apply IH]. by destruct op.
Qed.

(** *** Every reachable engine has well-formed books *)

Lemma book_wf_init w id : book_wf w (OrderBook.init id).
Proof. split; (split; [constructor|split; [constructor|constructor]]). Qed.

Lemma book_wf_world_le w w' b : world_le w w' -> book_wf w b -> book_wf w' b.
Proof. intros Hle [Hb Ha]. split; by eapply side_wf_world_le. Qed.

Lemma book_of_wf w e id :
  engine_wf (w, e) ->
  book_wf w (Engine.book_of e id) /\ OrderBook.instrument_id_ (Engine.book_of e id) = id.
Proof.
  intros Hwf. unfold Engine.book_of.
  destruct (Engine.order_books_ e !! id) as [b|] eqn:Hb; simpl.
  - by apply (Hwf id b).
  - split; [apply book_wf_init|done].
Qed.

Lemma engine_wf_submit_order w e request :
  engine_wf (w, e) -> engine_wf (Engine.submit_order clock w e request).1.
Proof.
  intros Hwf.
  pose proof (submit_order_accept_or_reject clock w e request) as Hcase.
  destruct (reject_reason e request) as [msg|] eqn:Hrej.
  { rewrite Hcase. done. }
  clear Hcase.
  destruct (submit_order_accepted w e request Hrej) as (Hw & _ & _ & Hbooks & _).
  set (w1 := World.mk (World.heap w) (S (World.reads w))) in *.
  set (o := new_order e request (clock (World.reads w))) in *.
  set (iid := OrderRequest.instrument_id request) in *.
  destruct (book_of_wf w e iid Hwf) as [Hbwf Hbid].
  assert (book_wf (make_shared w1 o).2 (Engine.book_of e iid)) as Hbwf2.
  { destruct Hbwf. split; by apply side_wf_make_shared. }
  destruct (add_order_wf clock (make_shared w1 o).2 (Engine.book_of e iid)
              (length (World.heap w))) as (Hwf3 & Hle3 & Hid3).
  - done.
  - unfold valid, make_shared. simpl. rewrite length_app. simpl. lia.
  - intros Hin. apply list_elem_of_fmap in Hin as (x & Hx & Hin).
    pose proof (proj1 (book_wf_sides _ _) Hbwf) as Hsides.
    destruct (Hsides (Order.side (deref (make_shared w1 o).2 (length (World.heap w)))))
      as (_ & _ & Hall).
    eapply Forall_forall in Hall; [|exact Hin]. destruct Hall as [Hv _].
    unfold valid in Hv. lia.
  - intros id b. cbn [fst snd]. rewrite Hbooks, Hw.
    destruct (decide (iid = id)) as [<-|Hne].
    + rewrite lookup_insert_eq. intros [= <-]. split; [done|].
      etrans; [exact Hid3|exact Hbid].
    + rewrite lookup_insert_ne by done. intros Hb.
      destruct (Hwf id b Hb) as [[Hbb Hba] Hbid']. split; [|done].
      eapply book_wf_world_le; [exact Hle3|].
      split; by apply side_wf_make_shared.
Qed.

Lemma engine_wf_cancel_order w e order_id user_id :
  engine_wf (w, e) -> engine_wf (Engine.cancel_order w e order_id user_id).1.
Proof.
  intros Hwf.
  destruct (cancel_order_fields w e order_id user_id) as (_ & _ & _ & [->|(inst & Hw & Hb)]);
    [done|].
  destruct (book_of_wf w e inst Hwf) as [Hbwf Hbid].
  destruct (cancel_order_wf w (Engine.book_of e inst) order_id Hbwf) as (Hwf' & Hle & Hid).
  intros id b. rewrite Hb, Hw.
  destruct (decide (inst = id)) as [<-|Hne].
  - rewrite lookup_insert_eq. intros [= <-]. split; [done|].
    etrans; [exact Hid|exact Hbid].
  - rewrite lookup_insert_ne by done. intros Hb'.
    destruct (Hwf id b Hb') as [Hbb Hbid']. split; [|done].
    by eapply book_wf_world_le.
Qed.

Lemma engine_wf_step s op : engine_wf s -> engine_wf (step clock s op).
Proof.
  apply (step_preserves engine_wf (fun _ => True) (fun _ _ => True)).
  - intros w e spec _ Hwf. unfold Engine.add_instrument.
    destruct (Engine.instruments_ e !! InstrumentSpec.id spec); [done|].
    intros id b. simpl.
    destruct (decide (InstrumentSpec.id spec = id)) as [<-|Hne].
    + rewrite lookup_insert_eq. intros [= <-]. split; [apply book_wf_init|done].
    + rewrite lookup_insert_ne by done. apply Hwf.
  - intros w e id halted Hwf. unfold Engine.halt_instrument.
    by destruct (Engine.instruments_ e !! id).
  - intros w e request _. apply engine_wf_submit_order.
  - intros. by apply engine_wf_cancel_order.
  - intros w e n Hwf id b Hb. apply (Hwf id b Hb).
  - intros w e id v Hwf. unfold Engine.settle_instrument.
    by destruct (Engine.instruments_ e !! id).
  - done.
  - by destruct op.
Qed.

(** Every state an execution reaches has well-formed books. *)
Lemma run_wf ops : engine_wf (run clock ops).
Proof.
  unfold run. apply (run_from_preserves engine_wf (fun _ => True) (fun _ _ => True)).
  - intros s op _. apply engine_wf_step.
  - apply run_ok_trivial.
  - intros id b. simpl. by rewrite lookup_empty.
Qed.

(** In every state an execution reaches, the order [submit_order] creates
    for an accepted request meets a priority queue of distinct live orders
    that does not contain it. *)
Lemma run_queue_wf ops request :
  let s := run clock ops in
  let w2 := (make_shared (World.mk (World.heap s.1) (S (World.reads s.1)))
               (new_order s.2 request (clock (World.reads s.1)))).2 in
  let order := length (World.heap s.1) in
  let b := Engine.book_of s.2 (OrderRequest.instrument_id request) in
  let Q := queue (OrderBook.opposite (Order.side (deref w2 order)) b) in
  NoDup Q.*2 /\ Forall (valid w2) Q.*2 /\ (order ∉ Q.*2) /\
  levels_sorted (opposite_before (Order.side (deref w2 order)))
    (OrderBook.opposite (Order.side (deref w2 order)) b).
Proof.
  intros s w2 order b Q.
  pose proof (run_wf ops) as Hwf. fold s in Hwf. destruct s as [w e]. cbn [fst snd] in *.
  destruct (book_of_wf w e (OrderRequest.instrument_id request) Hwf) as [Hbwf _].
  fold b in Hbwf.
  pose proof (proj1 (book_wf_sides _ _) Hbwf (other (Order.side (deref w2 order))))
    as (Hsorted & Hnd & Hall).
  rewrite own_other in Hnd, Hall, Hsorted. rewrite own_before_other in Hsorted.
  fold Q in Hnd, Hall.
  assert (Forall (valid w) Q.*2) as Hval.
  { apply Forall_fmap. eapply Forall_impl; [exact Hall|]. by intros x (Hv & _). }
  split; [done|]. split; [|split; [|done]].
  - eapply Forall_impl; [exact Hval|]. intros x Hx. by apply valid_make_shared.
  - intros Hin. eapply Forall_forall in Hval; [|exact Hin].
    unfold valid, order in Hval. lia.
Qed.

End Executions.
(** ** Settlement and the frame of the book operations *)
Section Frames.
Context {D : Type} `{!DoubleOps D}.
Variable clock : nat -> Timestamp.
Implicit Types (w : World.t) (e : Engine.t D) (b : OrderBook.t).

(** [settle_instrument] keeps the invariant of every position. *)
Lemma settle_instrument_invariant e id v :
  (forall u m i pos, Engine.positions_ e !! u = Some m -> m !! i = Some pos ->
                     position_invariant pos) ->
  forall u m i pos,
    Engine.positions_ (Engine.settle_instrument e id v).1 !! u = Some m ->
    m !! i = Some pos -> position_invariant pos.
Proof.
  intros Hinv u m i pos. unfold Engine.settle_instrument.
  destruct (Engine.instruments_ e !! id) as [inst|]; simpl; [|apply Hinv].
  rewrite lookup_fmap. destruct (Engine.positions_ e !! u) as [m0|] eqn:Hu; [|done].
  simpl. intros [= <-]. unfold Engine.settle_user.
  destruct (m0 !! id) as [pos0|] eqn:Hid; [|by apply (Hinv u)].
  destruct (Position.net_qty pos0 =? 0); [by apply (Hinv u)|].
  destruct (decide (i = id)) as [->|Hne].
  - rewrite lookup_insert_eq. intros [= <-]. by split.
  - rewrite lookup_insert_ne by done. by apply (Hinv u).
Qed.

Lemma match_levels_own s order fuel w b fills w' b' fills' :
  OrderBook.match_levels clock fuel s order w b fills = Some (w', b', fills') ->
  own s b' = own s b.
Proof.
  intros Heq.
  apply (match_levels_rule clock s order (fun _ b1 _ => own s b1 = own s b)) in Heq;
    [done| | |done].
  - intros w1 b1 price lvl rest fills1 w2 b2 lvl2 fills2 Hown _ _ _ _ Hlvl.
    pose proof (match_level_book _ _ _ _ _ _ _ _ _ _ _ _ Hlvl) as (_ & Hb2 & Ha2).
    rewrite own_set_opposite, <- Hown. destruct s; simpl; congruence.
  - done.
Qed.

(** Fills are made at prices of the opposite side, and matching leaves no
    other price on it. *)
Lemma match_levels_keys (P : Price -> Prop) s order fuel w b fills w' b' fills' :
  OrderBook.match_levels clock fuel s order w b fills = Some (w', b', fills') ->
  Forall (fun x => P x.1) (OrderBook.opposite s b) ->
  Forall (fun f => P (Fill.price f)) fills ->
  Forall (fun x => P x.1) (OrderBook.opposite s b') /\
  Forall (fun f => P (Fill.price f)) fills'.
Proof.
  intros Heq Hk Hf.
  apply (match_levels_rule clock s order
           (fun _ b1 fills1 =>
              Forall (fun x => P x.1) (OrderBook.opposite s b1) /\
              Forall (fun f => P (Fill.price f)) fills1)) in Heq; [done| | |done].
  - intros w1 b1 price lvl rest fills1 w2 b2 lvl2 fills2 (Hk1 & Hf1) _ Hopp _ _ Hlvl.
    rewrite Hopp in Hk1. apply Forall_cons in Hk1 as [Hp Hrest].
    rewrite opposite_set_opposite. split.
    + destruct lvl2; [done|by constructor].
    + by eapply (match_level_prices clock P).
  - done.
Qed.

Lemma add_order_world_le w b order : world_le w (OrderBook.add_order clock w b order).1.1.
Proof.
  destruct (add_order_shape clock w b order) as (w1 & b2 & fills & Hml & _ & _ & Hw & _).
  pose proof (match_levels_world _ _ _ _ _ _ _ _ _ _ Hml) as Hle.
  destruct Hw as [[-> _]|[_ [st ->]]]; [done|].
  eapply world_le_trans; [exact Hle|]. apply world_le_store, same_order_set_status.
Qed.

Lemma cancel_order_world_le w b order_id :
  world_le w (OrderBook.cancel_order w b order_id).1.1.
Proof.
  unfold OrderBook.cancel_order.
  destruct (OrderBook.orders_ b !! order_id) as [order|]; simpl; [|apply world_le_refl].
  apply world_le_store, same_order_set_status.
Qed.

End Frames.

(** ** Sums over the ledger *)
Section Sums.
Context {D : Type}.
Implicit Types (P : gmap UserId (gmap InstrumentId (Position.t D))).

(** Sums in a commutative monoid do not depend on the order of the terms. *)
Section Monoid.
Context {A : Type} (add : A -> A -> A) (zero : A).
Hypothesis add_comm : forall x y, add x y = add y x.
Hypothesis add_assoc : forall x y z, add x (add y z) = add (add x y) z.
Hypothesis add_zero : forall x, add zero x = x.

Lemma sum_perm (l l' : list A) : l ≡ₚ l' -> foldr add zero l = foldr add zero l'.
Proof.
  induction 1 as [|x l l' _ IH|x y l|l1 l2 l3 _ IH1 _ IH2]; simpl.
  - done.
  - by rewrite IH.
  - by rewrite !add_assoc, (add_comm x y).
  - congruence.
Qed.

Lemma sum_app (l l' : list A) :
  foldr add zero (l ++ l') = add (foldr add zero l) (foldr add zero l').
Proof.
  induction l as [|x l IH]; simpl; [by rewrite add_zero|]. by rewrite IH, add_assoc.
Qed.

Lemma sum_foldl (l : list A) : foldl add zero l = foldr add zero l.
Proof.
  assert (forall a, foldl add a l = add a (foldr add zero l)) as H.
  { induction l as [|x l IH]; intros a; simpl.
    - by rewrite add_comm, add_zero.
    - by rewrite IH, add_assoc. }
  by rewrite H, add_zero.
Qed.
End Monoid.

End Sums.

(** ** Matched fills balance *)
Section Balanced.
Context {D : Type} `{!DoubleOps D}.
Variable clock : nat -> Timestamp.
Implicit Types (w : World.t) (e : Engine.t D) (i : InstrumentId).

(** In a well-formed book the two fills of a match are on opposite sides. *)
Lemma match_pair_balanced w b order a p :
  book_wf w b -> match_pair clock w b order a p ->
  balanced_pair (OrderBook.instrument_id_ b) a p.
Proof.
  intros Hwf (_ & _ & Hside & (passive & Hin & _ & _ & Hps) & Hia & Hip & Hpr & Hq & _).
  repeat split; try done. rewrite Hps, Hside.
  pose proof (proj1 (book_wf_sides _ _) Hwf (other (Order.side (deref w order))))
    as (_ & _ & Hall).
  rewrite own_other in Hall. rewrite <- queue_snd in Hin.
  apply list_elem_of_fmap in Hin as (x & -> & Hx).
  eapply Forall_forall in Hall; [|exact Hx]. tauto.
Qed.

(** The fills [add_order] returns from a well-formed book balance pair by
    pair. *)
Lemma add_order_balanced w b order :
  book_wf w b ->
  paired (balanced_pair (OrderBook.instrument_id_ b)) (OrderBook.add_order clock w b order).2.
Proof.
  intros Hwf. rewrite add_order_fills.
  set (b1 := OrderBook.set_orders_ _ b).
  assert (book_wf w b1) as Hwf1 by done.
  pose proof (match_order_eq clock w b1 order) as Heq.
  destruct (OrderBook.match_order clock w b1 order) as [[w' b'] fills]. cbn [snd].
  apply (match_levels_pairs clock w b1) in Heq; [|apply world_le_refl|done..].
  eapply paired_impl; [|exact Heq].
  intros a p Hp. by apply (match_pair_balanced w b1 order).
Qed.

Lemma run_from_app (s : World.t * Engine.t D) (ops ops' : list (Op.t D)) :
  run_from clock s (ops ++ ops') = run_from clock (run_from clock s ops) ops'.
Proof. revert s. induction ops as [|op ops IH]; intros s; [done|]. simpl. apply IH. Qed.

End Balanced.

(** * Further properties of the book and of the engine *)

(** ** Quantities through matching *)
Section Live.
Variable clock : nat -> Timestamp.
Implicit Types (w : World.t) (b : OrderBook.t) (q order passive : ptr).
Implicit Types (lvl L : list ptr) (fills : list Fill.t) (m : Levels) (s : Side).

Lemma live_valid w q : live w q -> valid w q.
Proof.
  intros [Hq _]. destruct (decide (valid w q)) as [|Hn]; [done|].
  rewrite (deref_invalid _ _ Hn) in Hq. simpl in Hq. lia.
Qed.

Lemma fill_volume_app fills fills' :
  fill_volume (fills ++ fills') = fill_volume fills + fill_volume fills'.
Proof.
  unfold fill_volume. induction fills as [|f fills IH]; [done|].
  rewrite <- app_comm_cons, !fmap_cons. cbn [foldr]. rewrite IH. lia.
Qed.

Lemma resting_app m m' : resting (m ++ m') = resting m ++ resting m'.
Proof. unfold resting. by rewrite map_app, concat_app. Qed.

Lemma resting_level_tail (price : Price) lvl' (rest : Levels) :
  resting (match lvl' with [] => rest | _ => (price, lvl') :: rest end)
  = lvl' ++ resting rest.
Proof. by destruct lvl'. Qed.

Section Fixed.
Variables (w0 : World.t) (R0 : list ptr) (order : ptr).
Hypothesis R0_nodup : NoDup R0.
Hypothesis R0_order : order ∉ R0.

Lemma fill_inv_init :
  Forall (live w0) R0 ->
  Order.filled_quantity (deref w0 order) <= Order.quantity (deref w0 order) ->
  fill_inv w0 R0 order w0 R0 [].
Proof.
  intros Hlive Hle. split; [apply world_le_refl|]. split; [done|].
  split; [done|]. split; [done|]. split; [unfold fill_volume; simpl; lia|].
  split; [done|]. split; [constructor|]. split; [done|by left].
Qed.

(** One match: both orders advance by the matched quantity, which is
    positive and at most what either has left. *)
Lemma fill_inv_step price passive w b L fills w' b' popped f1 f2 :
  fill_inv w0 R0 order w (passive :: L) fills ->
  Order.post_only (deref w0 order) = false ->
  OrderBook.unfilled w order = true ->
  OrderBook.match_one clock price order passive w b = (w', b', popped, f1, f2) ->
  fill_inv w0 R0 order w' (if popped then L else passive :: L) (fills ++ [f1; f2]).
Proof.
  intros (Hle & Hsuf & Hlive & Hframe & Hvol & Hfill & Hpos & _ & Hst0) Hpo Hun Hm.
  assert (NoDup (passive :: L)) as Hnd.
  { destruct Hsuf as [pre ->]. by apply NoDup_app in R0_nodup as (_ & _ & ?). }
  assert (passive ∈ R0) as Hin.
  { destruct Hsuf as [pre ->]. apply elem_of_app. right. left. }
  assert (order <> passive) as Hne by (intros ->; done).
  apply Forall_cons in Hlive as [[Hq Hst] Hlive].
  pose proof (unfilled_valid _ _ Hun) as Hvo.
  assert (valid w passive) as Hvp by (by apply live_valid).
  destruct (match_one_fills _ _ _ _ _ _ _ _ _ _ _ Hm) as [Hf1 Hf2].
  destruct (match_one_world _ _ _ _ _ _ _ _ _ _ _ Hm) as (Hle' & _ & Hother).
  destruct (match_one_distinct _ _ _ _ _ _ _ _ _ _ _ Hm Hne Hvo Hvp) as (Ho & Hp & Hpop).
  unfold OrderBook.unfilled in Hun. apply Z.ltb_lt in Hun.
  set (mq := match_quantity w order passive) in *.
  assert (0 < mq /\ mq <= Order.quantity (deref w order) - Order.filled_quantity (deref w order)
          /\ mq <= Order.quantity (deref w passive) - Order.filled_quantity (deref w passive))
    as (Hmq & Hmo & Hmp) by (unfold mq, match_quantity; lia).
  split; [by eapply world_le_trans|].
  split.
  { destruct popped; [|done]. etrans; [|exact Hsuf]. by apply suffix_cons_r. }
  split.
  { assert (Forall (live w') L) as HL.
    { apply Forall_forall. intros q Hq'.
      assert (q <> passive) by (intros ->; by apply NoDup_cons in Hnd as [? _]).
      assert (q <> order).
      { intros ->. apply R0_order. destruct Hsuf as [pre ->].
        apply elem_of_app. right. by right. }
      unfold live. rewrite Hother by done.
      eapply Forall_forall in Hlive; [|exact Hq']. exact Hlive. }
    destruct popped; [done|]. constructor; [|done].
    symmetry in Hpop. apply Z.leb_gt in Hpop.
    unfold live. rewrite Hp. simpl.
    split; [lia|]. by rewrite (proj2 (Z.ltb_lt 0 _)) by lia. }
  split.
  { intros q Hq1 Hq2. rewrite Hother; [by apply Hframe|done|]. by intros ->. }
  split.
  { rewrite fill_volume_app, Hvol, Ho, Hf1, Hf2. unfold fill_volume. simpl. lia. }
  split; [rewrite Ho; simpl; lia|].
  split; [apply Forall_app; split; [done|]; rewrite Hf1, Hf2; by repeat constructor|].
  split; [congruence|]. left. rewrite Ho. simpl.
  destruct Hst0 as [?|[_ ?]]; [done|congruence].
Qed.

Lemma match_level_fill_inv price (R : list ptr) fuel w b lvl fills w' b' lvl' fills' :
  OrderBook.match_level clock fuel price order w b lvl fills = Some (w', b', lvl', fills') ->
  Order.post_only (deref w0 order) = false ->
  fill_inv w0 R0 order w (lvl ++ R) fills ->
  fill_inv w0 R0 order w' (lvl' ++ R) fills'.
Proof.
  intros Heq Hpo HI.
  apply (match_level_rule clock price order
           (fun w1 _ lvl1 fills1 => fill_inv w0 R0 order w1 (lvl1 ++ R) fills1)) in Heq
    as [? _]; [done| |done].
  intros w1 b1 passive rest fills1 w2 b2 popped f1 f2 HI1 Hun Hm.
  pose proof (fill_inv_step price passive w1 b1 (rest ++ R) fills1 _ _ _ _ _ HI1 Hpo Hun Hm).
  by destruct popped.
Qed.

Lemma fill_inv_reject w L fills :
  fill_inv w0 R0 order w L fills ->
  OrderBook.unfilled w order = true ->
  Order.post_only (deref w0 order) = true ->
  fill_inv w0 R0 order (store w order (Order.set_status REJECTED (deref w order))) L fills.
Proof.
  intros (Hle & Hsuf & Hlive & Hframe & Hvol & Hfill & Hpos & Hnone & _) Hun Hpo.
  assert (order ∉ L) as HoL.
  { intros Hin. apply R0_order. destruct Hsuf as [pre ->]. apply elem_of_app. by right. }
  pose proof (unfilled_valid _ _ Hun) as Hv.
  split; [eapply world_le_trans; [done|]; apply world_le_store, same_order_set_status|].
  split; [done|]. split.
  { apply Forall_forall. intros q Hq.
    unfold live. rewrite deref_store_other by (by intros ->).
    eapply Forall_forall in Hlive; [|exact Hq]. exact Hlive. }
  split; [intros q Hq1 Hq2; rewrite deref_store_other by done; by apply Hframe|].
  rewrite deref_store_same by done. simpl.
  split; [done|]. split; [done|]. split; [done|]. split; [done|]. by right.
Qed.

Lemma match_levels_fill_inv s fuel w b fills w' b' fills' :
  OrderBook.match_levels clock fuel s order w b fills = Some (w', b', fills') ->
  fill_inv w0 R0 order w (resting (OrderBook.opposite s b)) fills ->
  fill_inv w0 R0 order w' (resting (OrderBook.opposite s b')) fills'.
Proof.
  intros Heq HI.
  apply (match_levels_rule clock s order
           (fun w1 b1 fills1 =>
              fill_inv w0 R0 order w1 (resting (OrderBook.opposite s b1)) fills1)) in Heq;
    [done| | |done].
  - intros w1 b1 price lvl rest fills1 w2 b2 lvl2 fills2 HI1 _ Hopp _ Hpo Hlvl.
    rewrite Hopp, resting_cons in HI1. rewrite opposite_set_opposite, resting_level_tail.
    eapply match_level_fill_inv; [exact Hlvl| |done].
    destruct HI1 as ([_ Hsame] & _).
    destruct (Hsame order) as (_ & _ & _ & _ & _ & _ & _ & Hp & _). congruence.
  - intros w1 b1 price lvl rest fills1 HI1 Hun _ _ Hpo. apply fill_inv_reject; [done|done|].
    destruct HI1 as ([_ Hsame] & _).
    destruct (Hsame order) as (_ & _ & _ & _ & _ & _ & _ & Hp & _). congruence.
Qed.

End Fixed.

(** The four ways [add_order] ends, after the matching it starts with. *)
Lemma add_order_cases w b order :
  let s := Order.side (deref w order) in
  let b1 := OrderBook.set_orders_
              (<[Order.id (deref w order) := order]> (OrderBook.orders_ b)) b in
  exists w1 b2 fills,
    OrderBook.match_levels clock (length (OrderBook.opposite s b1)) s order w b1 []
      = Some (w1, b2, fills) /\
    ((Order.status (deref w1 order) = REJECTED /\
      OrderBook.add_order clock w b order
      = (w1, OrderBook.set_orders_
               (delete (Order.id (deref w1 order)) (OrderBook.orders_ b2)) b2, fills)) \/
     (Order.status (deref w1 order) <> REJECTED /\
      OrderBook.unfilled w1 order = true /\ Order.tif (deref w1 order) <> IOC /\
      OrderBook.add_order clock w b order
      = (store w1 order
           (Order.set_status
              (if 0 <? Order.filled_quantity (deref w1 order) then PARTIAL else PENDING)
              (deref w1 order)),
         OrderBook.add_to_book w1 b2 order, fills)) \/
     (Order.status (deref w1 order) <> REJECTED /\
      Order.quantity (deref w1 order) <= Order.filled_quantity (deref w1 order) /\
      OrderBook.add_order clock w b order
      = (store w1 order (Order.set_status FILLED (deref w1 order)), b2, fills)) \/
     (Order.status (deref w1 order) <> REJECTED /\
      OrderBook.unfilled w1 order = true /\ Order.tif (deref w1 order) = IOC /\
      OrderBook.add_order clock w b order
      = (store w1 order (Order.set_status CANCELLED (deref w1 order)), b2, fills))).
Proof.
  intros s b1. unfold OrderBook.add_order. fold b1.
  pose proof (match_order_eq clock w b1 order) as Heq. fold s in Heq.
  destruct (OrderBook.match_order clock w b1 order) as [[w1 b2] fills].
  exists w1, b2, fills. split; [done|].
  destruct (decide (Order.status (deref w1 order) = REJECTED)) as [Hr|Hr]; [by left|].
  right. unfold OrderBook.unfilled.
  destruct (Z.ltb_spec (Order.filled_quantity (deref w1 order)) (Order.quantity (deref w1 order)))
    as [Hlt|Hge]; simpl.
  - destruct (decide (Order.tif (deref w1 order) = IOC)) as [Hi|Hi].
    + right. right. rewrite bool_decide_eq_true_2 by done. simpl.
      rewrite (proj2 (Z.leb_gt _ _)) by lia. done.
    + left. rewrite bool_decide_eq_false_2 by done. done.
  - right. left. rewrite (proj2 (Z.leb_le _ _)) by lia. done.
Qed.

Lemma add_to_book_own w b order :
  own (Order.side (deref w order)) (OrderBook.add_to_book w b order)
  = level_push (own_before (Order.side (deref w order))) (Order.price (deref w order)) order
      (own (Order.side (deref w order)) b).
Proof. unfold OrderBook.add_to_book. by destruct (Order.side (deref w order)). Qed.

Lemma add_to_book_opposite w b order :
  OrderBook.opposite (Order.side (deref w order)) (OrderBook.add_to_book w b order)
  = OrderBook.opposite (Order.side (deref w order)) b.
Proof. unfold OrderBook.add_to_book. by destruct (Order.side (deref w order)). Qed.

Lemma add_to_book_static w b order :
  OrderBook.instrument_id_ (OrderBook.add_to_book w b order) = OrderBook.instrument_id_ b /\
  OrderBook.orders_ (OrderBook.add_to_book w b order) = OrderBook.orders_ b /\
  OrderBook.last_price_ (OrderBook.add_to_book w b order) = OrderBook.last_price_ b.
Proof. unfold OrderBook.add_to_book. by destruct (Order.side (deref w order)). Qed.

Lemma level_push_nonempty before (price : Price) q m :
  Forall (fun x => x.2 <> []) m -> Forall (fun x => x.2 <> []) (level_push before price q m).
Proof.
  induction 1 as [|[p l] m Hl Hm IH]; simpl; [by repeat constructor|].
  destruct (price =? p).
  - constructor; [|done]. simpl. by destruct l.
  - destruct (before price p); repeat (constructor; try done).
Qed.

Lemma level_remove_nonempty (price : Price) q m :
  Forall (fun x => x.2 <> []) m -> Forall (fun x => x.2 <> []) (level_remove price q m).
Proof.
  induction 1 as [|[p l] m Hl Hm IH]; simpl; [constructor|].
  destruct (price =? p).
  - destruct (filter _ l) eqn:Hf; [done|]. by constructor.
  - by constructor.
Qed.

Lemma resting_level_push before (price : Price) q m :
  resting (level_push before price q m) ≡ₚ q :: resting m.
Proof.
  destruct (queue_level_push before price q m) as (l1 & l2 & H1 & H2).
  rewrite <- !queue_snd, H1, H2, !fmap_app, fmap_cons. simpl.
  by rewrite Permutation_middle.
Qed.

Lemma match_levels_nonempty s order fuel w b fills w' b' fills' :
  OrderBook.match_levels clock fuel s order w b fills = Some (w', b', fills') ->
  Forall (fun x => x.2 <> []) (OrderBook.opposite s b) ->
  Forall (fun x => x.2 <> []) (OrderBook.opposite s b').
Proof.
  intros Heq HI.
  apply (match_levels_rule clock s order
           (fun _ b1 _ => Forall (fun x => x.2 <> []) (OrderBook.opposite s b1))) in Heq;
    [done| | |done].
  - intros w1 b1 price lvl rest fills1 w2 b2 lvl2 fills2 HI1 _ Hopp _ _ _.
    rewrite opposite_set_opposite. rewrite Hopp in HI1. apply Forall_cons in HI1 as [_ Hrest].
    destruct lvl2; [done|]. by constructor.
  - done.
Qed.

Lemma fill_volume_nonneg fills :
  Forall (fun f => 0 < Fill.quantity f) fills -> 0 <= fill_volume fills.
Proof.
  unfold fill_volume. induction 1 as [|f fills Hf _ IH]; [done|].
  rewrite fmap_cons. cbn [foldr]. lia.
Qed.

Lemma book_live_sides w b : book_live w b <-> forall s, side_live w (own s b).
Proof.
  split.
  - intros [Hb Ha] []; done.
  - intros H. split; [apply (H BUY)|apply (H SELL)].
Qed.

(** A handle rests on one side of a well-formed book at most. *)
Lemma sides_disjoint w b s q :
  book_wf w b -> q ∈ resting (own s b) -> q ∉ resting (OrderBook.opposite s b).
Proof.
  intros Hwf H1 H2. rewrite <- own_other in H2.
  pose proof (proj1 (book_wf_sides _ _) Hwf) as Hs.
  destruct (Hs s) as (_ & _ & Ha1). destruct (Hs (other s)) as (_ & _ & Ha2).
  rewrite <- queue_snd in H1, H2.
  apply list_elem_of_fmap in H1 as (x & -> & Hx). apply list_elem_of_fmap in H2 as (y & Hq & Hy).
  eapply Forall_forall in Ha1; [|exact Hx]. eapply Forall_forall in Ha2; [|exact Hy].
  destruct Ha1 as (_ & Hs1 & _). destruct Ha2 as (_ & Hs2 & _).
  rewrite <- Hq, Hs1 in Hs2. by destruct s.
Qed.

(** [add_order] keeps the resting orders live, touches no order but the
    incoming one and those resting opposite it, and fills the incoming order
    by half the volume of the fills it returns, each of them positive. *)
Lemma add_order_live w b order :
  book_wf w b -> book_live w b -> valid w order ->
  (forall s, order ∉ resting (own s b)) ->
  0 <= Order.filled_quantity (deref w order) <= Order.quantity (deref w order) ->
  let res := OrderBook.add_order clock w b order in
  book_live res.1.1 res.1.2 /\
  (forall q, q <> order ->
             q ∉ resting (OrderBook.opposite (Order.side (deref w order)) b) ->
             deref res.1.1 q = deref w q) /\
  fill_volume res.2
  = 2 * (Order.filled_quantity (deref res.1.1 order) - Order.filled_quantity (deref w order)) /\
  Order.filled_quantity (deref res.1.1 order) <= Order.quantity (deref w order) /\
  Forall (fun f => 0 < Fill.quantity f) res.2.
Proof.
  intros Hwf Hlive Hv Hfresh Hq res.
  destruct (add_order_cases w b order) as (w1 & b2 & fills & Hml & Hcase).
  set (s := Order.side (deref w order)) in *.
  set (b1 := OrderBook.set_orders_ _ b) in Hml.
  assert (OrderBook.opposite s b1 = OrderBook.opposite s b) as Hb1 by (by destruct s).
  assert (own s b1 = own s b) as Hown1 by (by destruct s).
  pose proof (proj1 (book_wf_sides _ _) Hwf) as Hsides.
  pose proof (proj1 (book_live_sides _ _) Hlive) as Hls.
  set (R0 := resting (OrderBook.opposite s b)).
  assert (NoDup R0) as Hnd.
  { unfold R0. rewrite <- own_other, <- queue_snd. by destruct (Hsides (other s)) as (_ & ? & _). }
  assert (order ∉ R0) as Hord by (unfold R0; rewrite <- own_other; apply Hfresh).
  assert (fill_inv w R0 order w1 (resting (OrderBook.opposite s b2)) fills) as HI.
  { eapply (match_levels_fill_inv w R0 order Hnd Hord); [exact Hml|].
    rewrite Hb1. apply fill_inv_init; [|lia].
    unfold R0. rewrite <- own_other. by destruct (Hls (other s)). }
  pose proof (match_levels_own _ _ _ _ _ _ _ _ _ _ Hml) as Hown. rewrite Hown1 in Hown.
  assert (Forall (fun x => x.2 <> []) (OrderBook.opposite s b2)) as Hne.
  { eapply match_levels_nonempty; [exact Hml|]. rewrite Hb1, <- own_other.
    by destruct (Hls (other s)). }
  destruct HI as (Hle & Hsuf & Hl2 & Hframe & Hvol & Hfill & Hpos & _).
  assert (order ∉ resting (OrderBook.opposite s b2)) as Hord2.
  { intros Hin. apply Hord. destruct Hsuf as [pre ->]. apply elem_of_app. by right. }
  destruct Hle as [Hlen Hsame].
  destruct (Hsame order) as (_ & _ & _ & Hside & Hprice & Hqty & _).
  assert (valid w1 order) as Hv1 by (unfold valid in *; lia).
  (* the resting orders after a change of the status of the incoming order *)
  assert (forall st b',
            own s b' = own s b -> OrderBook.opposite s b' = OrderBook.opposite s b2 ->
            book_live (store w1 order (Order.set_status st (deref w1 order))) b') as Hkeep.
  { intros st b' Ho Hop. apply book_live_sides. intros sd.
    assert (sd = s \/ sd = other s) as [->| ->] by (destruct sd, s; auto).
    - rewrite Ho. destruct (Hls s) as [Hn Hl]. split; [done|].
      apply Forall_forall. intros q Hq'.
      assert (q <> order) by (intros ->; by apply (Hfresh s)).
      unfold live. rewrite deref_store_other by done.
      rewrite Hframe; [|done|by eapply sides_disjoint].
      eapply Forall_forall in Hl; [|exact Hq']. exact Hl.
    - rewrite own_other, Hop. split; [done|].
      apply Forall_forall. intros q Hq'.
      assert (q <> order) by (by intros ->).
      unfold live. rewrite deref_store_other by done.
      eapply Forall_forall in Hl2; [|exact Hq']. exact Hl2. }
  assert (forall st q, q <> order -> q ∉ R0 ->
            deref (store w1 order (Order.set_status st (deref w1 order))) q = deref w q)
    as Hframe'.
  { intros st q Hq1 Hq2. rewrite deref_store_other by done. by apply Hframe. }
  assert (forall st,
            Order.filled_quantity (deref (store w1 order (Order.set_status st (deref w1 order)))
                                         order)
            = Order.filled_quantity (deref w1 order)) as Hsf.
  { intros st. by rewrite deref_store_same. }
  subst res.
  destruct Hcase as [[Hr ->]|[(Hr & Hun & Hi & ->)|[(Hr & Hge & ->)|(Hr & Hun & Hi & ->)]]];
    cbn [fst snd].
  - split; [|split; [done|]; split; [done|]; split; [lia|done]].
    rewrite <- (store_invalid w1 (length (World.heap w1)) Order.null) by (unfold valid; lia).
    apply book_live_sides. intros sd.
    assert (sd = s \/ sd = other s) as [->| ->] by (destruct sd, s; auto).
    + rewrite own_set_orders_, Hown. destruct (Hls s) as [Hn Hl]. split; [done|].
      apply Forall_forall. intros q Hq'.
      assert (q <> order) by (intros ->; by apply (Hfresh s)).
      unfold live. rewrite store_invalid by (unfold valid; lia).
      rewrite Hframe; [|done|by eapply sides_disjoint].
      eapply Forall_forall in Hl; [|exact Hq']. exact Hl.
    + rewrite own_set_orders_, own_other. rewrite store_invalid by (unfold valid; lia). done.
  - split; [|split; [apply Hframe'|]; split; [by rewrite Hsf|]; split; [rewrite Hsf; lia|done]].
    apply book_live_sides. intros sd.
    assert (Order.side (deref w1 order) = s) as Hs1 by done.
    pose proof (add_to_book_own w1 b2 order) as Hpush.
    pose proof (add_to_book_opposite w1 b2 order) as Hopp.
    rewrite Hs1, Hprice in Hpush. rewrite Hs1 in Hopp.
    assert (sd = s \/ sd = other s) as [->| ->] by (destruct sd, s; auto).
    + rewrite Hpush, Hown.
      destruct (Hls s) as [Hn Hl]. split; [by apply level_push_nonempty|].
      rewrite resting_level_push. constructor.
      * unfold live. rewrite deref_store_same by done. simpl.
        apply Z.ltb_lt in Hun. pose proof (fill_volume_nonneg _ Hpos).
        split; [lia|done].
      * apply Forall_forall. intros q Hq'.
        assert (q <> order) by (intros ->; by apply (Hfresh s)).
        unfold live. rewrite deref_store_other by done.
        rewrite Hframe; [|done|by eapply sides_disjoint].
        eapply Forall_forall in Hl; [|exact Hq']. exact Hl.
    + rewrite own_other, Hopp.
      split; [done|].
      apply Forall_forall. intros q Hq'.
      assert (q <> order) by (by intros ->).
      unfold live. rewrite deref_store_other by done.
      eapply Forall_forall in Hl2; [|exact Hq']. exact Hl2.
  - split; [by apply Hkeep|]. split; [apply Hframe'|].
    split; [by rewrite Hsf|]. split; [rewrite Hsf; lia|done].
  - split; [by apply Hkeep|]. split; [apply Hframe'|].
    split; [by rewrite Hsf|]. split; [rewrite Hsf; lia|done].
Qed.

(** How [add_order] leaves the incoming order: rejected without a fill,
    booked with part of its quantity left, filled in full, or, for an IOC
    order, cancelled with the part that found no match. *)
Lemma add_order_outcome w b order :
  book_wf w b -> book_live w b -> valid w order ->
  (forall s, order ∉ resting (own s b)) ->
  0 <= Order.filled_quantity (deref w order) <= Order.quantity (deref w order) ->
  Order.status (deref w order) <> REJECTED ->
  let s := Order.side (deref w order) in
  let res := OrderBook.add_order clock w b order in
  let o' := deref res.1.1 order in
  (Order.status o' = REJECTED /\ Order.post_only (deref w order) = true /\ res.2 = [] /\
   own s res.1.2 = own s b) \/
  (Order.status o' = (if 0 <? Order.filled_quantity o' then PARTIAL else PENDING) /\
   Order.filled_quantity o' < Order.quantity (deref w order) /\
   Order.tif (deref w order) <> IOC /\
   own s res.1.2
   = level_push (own_before s) (Order.price (deref w order)) order (own s b)) \/
  (Order.status o' = FILLED /\
   Order.filled_quantity o' = Order.quantity (deref w order) /\
   own s res.1.2 = own s b) \/
  (Order.status o' = CANCELLED /\
   Order.filled_quantity o' < Order.quantity (deref w order) /\
   Order.tif (deref w order) = IOC /\
   own s res.1.2 = own s b).
Proof.
  intros Hwf Hlive Hv Hfresh Hq Hst s res o'. subst o' res.
  destruct (add_order_cases w b order) as (w1 & b2 & fills & Hml & Hcase).
  fold s in Hml. set (b1 := OrderBook.set_orders_ _ b) in Hml.
  assert (OrderBook.opposite s b1 = OrderBook.opposite s b) as Hb1 by (by destruct s).
  assert (own s b1 = own s b) as Hown1 by (by destruct s).
  pose proof (proj1 (book_wf_sides _ _) Hwf) as Hsides.
  pose proof (proj1 (book_live_sides _ _) Hlive) as Hls.
  set (R0 := resting (OrderBook.opposite s b)).
  assert (NoDup R0) as Hnd.
  { unfold R0. rewrite <- own_other, <- queue_snd. by destruct (Hsides (other s)) as (_ & ? & _). }
  assert (order ∉ R0) as Hord by (unfold R0; rewrite <- own_other; apply Hfresh).
  assert (fill_inv w R0 order w1 (resting (OrderBook.opposite s b2)) fills) as HI.
  { eapply (match_levels_fill_inv w R0 order Hnd Hord); [exact Hml|].
    rewrite Hb1. apply fill_inv_init; [|lia].
    unfold R0. rewrite <- own_other. by destruct (Hls (other s)). }
  pose proof (match_levels_own _ _ _ _ _ _ _ _ _ _ Hml) as Hown. rewrite Hown1 in Hown.
  destruct HI as ([Hlen Hsame] & _ & _ & _ & _ & Hfill & _ & Hnone & Hst1).
  destruct (Hsame order) as (_ & _ & _ & Hside & Hprice & Hqty & Htif & Hpo & _).
  assert (valid w1 order) as Hv1 by (unfold valid in *; lia).
  assert (Order.side (deref w1 order) = s) as Hs1 by done.
  pose proof (add_to_book_own w1 b2 order) as Hpush.
  rewrite Hs1, Hprice, Hown in Hpush.
  destruct Hcase as [[Hr ->]|[(Hr & Hun & Hi & ->)|[(Hr & Hge & ->)|(Hr & Hun & Hi & ->)]]];
    cbn [fst snd]; rewrite ?deref_store_same by done; simpl.
  - left. rewrite own_set_orders_.
    destruct Hst1 as [Hs0|[_ Hp]]; [congruence|]. auto.
  - right. left. apply Z.ltb_lt in Hun. rewrite <- Hqty, <- Htif. auto.
  - right. right. left. split; [done|]. split; [lia|done].
  - right. right. right. apply Z.ltb_lt in Hun. rewrite <- Hqty, <- Htif. auto.
Qed.

End Live.

(** ** What [add_order] and [cancel_order] do to the book *)
Section BookFrame.
Variable clock : nat -> Timestamp.
Implicit Types (w : World.t) (b : OrderBook.t) (q order passive : ptr).
Implicit Types (lvl L : list ptr) (fills : list Fill.t) (m : Levels) (s : Side).

Lemma match_level_orders fuel (price : Price) order w b lvl fills w' b' lvl' fills' :
  OrderBook.match_level clock fuel price order w b lvl fills = Some (w', b', lvl', fills') ->
  forall k q, OrderBook.orders_ b' !! k = Some q -> OrderBook.orders_ b !! k = Some q.
Proof.
  intros Heq.
  set (I := fun (_ : World.t) b1 (_ : list ptr) (_ : list Fill.t) =>
              forall k q, OrderBook.orders_ b1 !! k = Some q ->
                          OrderBook.orders_ b !! k = Some q).
  assert (I w' b' lvl' fills') as H; [|exact H].
  eapply (proj1 (match_level_rule clock price order I _ _ _ _ _ _ _ _ _ _ Heq _)).
  Unshelve.
  - intros w1 b1 passive rest fills1 w2 b2 popped f1 f2 HI _ Hm k q.
    rewrite (match_one_book _ _ _ _ _ _ _ _ _ _ _ Hm). simpl.
    destruct popped; [|apply HI].
    intros [_ Hk]%lookup_delete_Some. by apply HI.
  - by intros k q.
Qed.

(** Matching only erases entries of [orders_]. *)
Lemma match_levels_orders s order fuel w b fills w' b' fills' :
  OrderBook.match_levels clock fuel s order w b fills = Some (w', b', fills') ->
  forall k q, OrderBook.orders_ b' !! k = Some q -> OrderBook.orders_ b !! k = Some q.
Proof.
  intros Heq.
  set (I := fun (_ : World.t) b1 (_ : list Fill.t) =>
              forall k q, OrderBook.orders_ b1 !! k = Some q ->
                          OrderBook.orders_ b !! k = Some q).
  assert (I w' b' fills') as H; [|exact H].
  eapply (match_levels_rule clock s order I); [| |exact Heq|by intros k q].
  - intros w1 b1 price lvl rest fills1 w2 b2 lvl2 fills2 HI _ _ _ _ Hlvl k q Hk.
    apply HI. eapply match_level_orders; [exact Hlvl|]. by destruct s.
  - done.
Qed.

(** Matching takes resting orders from the front of the opposite side. *)
Lemma match_levels_suffix s order fuel w b fills w' b' fills' :
  OrderBook.match_levels clock fuel s order w b fills = Some (w', b', fills') ->
  resting (OrderBook.opposite s b') `suffix_of` resting (OrderBook.opposite s b).
Proof.
  intros Heq.
  apply (match_levels_rule clock s order
           (fun _ b1 _ => resting (OrderBook.opposite s b1)
                          `suffix_of` resting (OrderBook.opposite s b))) in Heq;
    [done| | |done].
  - intros w1 b1 price lvl rest fills1 w2 b2 lvl2 fills2 HI _ Hopp _ _ Hlvl.
    rewrite opposite_set_opposite, resting_level_tail.
    etrans; [|exact HI]. rewrite Hopp, resting_cons.
    destruct (match_level_suffix _ _ _ _ _ _ _ _ _ _ _ _ Hlvl) as [pre ->].
    rewrite <- app_assoc. by apply suffix_app_r.
  - done.
Qed.

Lemma match_levels_instrument_id s order fuel w b fills w' b' fills' :
  OrderBook.match_levels clock fuel s order w b fills = Some (w', b', fills') ->
  OrderBook.instrument_id_ b' = OrderBook.instrument_id_ b.
Proof.
  intros Heq.
  eapply (match_levels_rule clock s order
            (fun _ b1 _ => OrderBook.instrument_id_ b1 = OrderBook.instrument_id_ b));
    [| |exact Heq|done].
  - intros w1 b1 price lvl rest fills1 w2 b2 lvl2 fills2 HI _ _ _ _ Hlvl.
    rewrite instrument_id_set_opposite.
    by destruct (match_level_book _ _ _ _ _ _ _ _ _ _ _ _ Hlvl) as (-> & _).
  - done.
Qed.

(** The sides, the [orders_] map and the id of the book after [add_order]. *)
Lemma add_order_sides w b order :
  let s := Order.side (deref w order) in
  let b' := (OrderBook.add_order clock w b order).1.2 in
  resting (OrderBook.opposite s b') `suffix_of` resting (OrderBook.opposite s b) /\
  (own s b' = own s b \/
   own s b' = level_push (own_before s) (Order.price (deref w order)) order (own s b)) /\
  (forall k q, OrderBook.orders_ b' !! k = Some q ->
               q = order \/ OrderBook.orders_ b !! k = Some q) /\
  OrderBook.instrument_id_ b' = OrderBook.instrument_id_ b.
Proof.
  intros s b'. subst b'.
  destruct (add_order_cases clock w b order) as (w1 & b2 & fills & Hml & Hcase).
  fold s in Hml. set (b1 := OrderBook.set_orders_ _ b) in Hml.
  assert (OrderBook.opposite s b1 = OrderBook.opposite s b) as Hb1 by (by destruct s).
  assert (own s b1 = own s b) as Hown1 by (by destruct s).
  pose proof (match_levels_suffix _ _ _ _ _ _ _ _ _ Hml) as Hsuf. rewrite Hb1 in Hsuf.
  pose proof (match_levels_own _ _ _ _ _ _ _ _ _ _ Hml) as Hown. rewrite Hown1 in Hown.
  pose proof (match_levels_world _ _ _ _ _ _ _ _ _ _ Hml) as [_ Hsame].
  destruct (Hsame order) as (_ & _ & _ & Hside & Hprice & _).
  assert (forall k q, OrderBook.orders_ b2 !! k = Some q ->
                      q = order \/ OrderBook.orders_ b !! k = Some q) as Hord.
  { intros k q Hk. apply (match_levels_orders _ _ _ _ _ _ _ _ _ Hml) in Hk.
    subst b1. simpl in Hk. apply lookup_insert_Some in Hk as [[_ <-]|[_ Hk]]; auto. }
  pose proof (match_levels_instrument_id _ _ _ _ _ _ _ _ _ Hml) as Hid.
  change (OrderBook.instrument_id_ b1) with (OrderBook.instrument_id_ b) in Hid.
  assert (Order.side (deref w1 order) = s) as Hs1 by done.
  pose proof (add_to_book_own w1 b2 order) as Hpush.
  pose proof (add_to_book_opposite w1 b2 order) as Hopp.
  pose proof (add_to_book_static w1 b2 order) as (Hi2 & Ho2 & _).
  rewrite Hs1, Hprice, Hown in Hpush. rewrite Hs1 in Hopp.
  destruct Hcase as [[Hr ->]|[(Hr & Hun & Hi & ->)|[(Hr & Hge & ->)|(Hr & Hun & Hi & ->)]]];
    cbn [fst snd].
  - rewrite own_set_orders_.
    replace (OrderBook.opposite s (OrderBook.set_orders_ _ b2)) with (OrderBook.opposite s b2)
      by (by destruct s).
    split; [done|]. split; [by left|]. split; [|done].
    simpl. intros k q [_ Hk]%lookup_delete_Some. by apply Hord.
  - rewrite Hopp, Hpush, Hi2, Ho2. split; [done|]. split; [by right|]. done.
  - split; [done|]. split; [by left|]. done.
  - split; [done|]. split; [by left|]. done.
Qed.

(** The handles that rest after [add_order] rested before it, but for the
    incoming one. *)
Lemma add_order_resting w b order sd q :
  q ∈ resting (own sd (OrderBook.add_order clock w b order).1.2) ->
  q = order \/ q ∈ resting (own sd b).
Proof.
  destruct (add_order_sides w b order) as (Hsuf & Hown & _).
  set (s := Order.side (deref w order)) in *.
  assert (sd = s \/ sd = other s) as [->| ->] by (destruct sd, s; auto).
  - destruct Hown as [->| ->]; [by right|].
    rewrite resting_level_push. intros [->|?]%elem_of_cons; auto.
  - rewrite !own_other. intros Hin. right. destruct Hsuf as [pre ->].
    apply elem_of_app. by right.
Qed.

(** [add_order] keeps the orders of the book in its instrument. *)
Lemma add_order_owned w b order :
  book_owned w b -> valid w order ->
  Order.instrument_id (deref w order) = OrderBook.instrument_id_ b ->
  book_owned (OrderBook.add_order clock w b order).1.1 (OrderBook.add_order clock w b order).1.2.
Proof.
  intros [Hrest Hmap] Hv Hinst.
  pose proof (add_order_world_le clock w b order) as [Hlen Hsame].
  destruct (add_order_sides w b order) as (_ & _ & Hord & Hid).
  assert (forall q, Order.instrument_id (deref (OrderBook.add_order clock w b order).1.1 q)
                    = Order.instrument_id (deref w q)) as Hstatic.
  { intros q. by destruct (Hsame q) as (_ & _ & -> & _). }
  split.
  - intros sd. apply Forall_forall. intros q Hq. rewrite Hstatic, Hid.
    apply add_order_resting in Hq as [->|Hq]; [done|].
    specialize (Hrest sd). by eapply Forall_forall in Hrest.
  - intros k q Hk. rewrite Hstatic, Hid. unfold valid. rewrite Hlen.
    apply Hord in Hk as [->|Hk]; [done|]. by apply (Hmap k).
Qed.

Lemma uncrossed_sides b :
  uncrossed b <->
  forall s x y, x ∈ own s b -> y ∈ OrderBook.opposite s b ->
                OrderBook.no_cross s x.1 y.1 = true.
Proof.
  split.
  - intros H s x y Hx Hy. destruct s; simpl in *; apply Z.ltb_lt; by apply H.
  - intros H x y Hx Hy. apply Z.ltb_lt. by apply (H BUY x y).
Qed.

(** Matching stops at a level the order does not cross, so the order that
    is booked is priced apart from everything left opposite it. *)
Lemma add_order_uncrossed w b order :
  book_wf w b -> uncrossed b -> uncrossed (OrderBook.add_order clock w b order).1.2.
Proof.
  intros Hwf Hun.
  pose proof (proj1 (uncrossed_sides b) Hun) as Hs.
  set (s := Order.side (deref w order)).
  assert (forall x y,
            x ∈ own s (OrderBook.add_order clock w b order).1.2 ->
            y ∈ OrderBook.opposite s (OrderBook.add_order clock w b order).1.2 ->
            OrderBook.no_cross s x.1 y.1 = true) as H.
  { destruct (add_order_cases clock w b order) as (w1 & b2 & fills & Hml & Hcase).
    fold s in Hml. set (b1 := OrderBook.set_orders_ _ b) in Hml.
    assert (OrderBook.opposite s b1 = OrderBook.opposite s b) as Hb1 by (by destruct s).
    assert (own s b1 = own s b) as Hown1 by (by destruct s).
    pose proof (match_levels_own _ _ _ _ _ _ _ _ _ _ Hml) as Hown. rewrite Hown1 in Hown.
    pose proof (match_levels_world _ _ _ _ _ _ _ _ _ _ Hml) as [_ Hsame].
    destruct (Hsame order) as (_ & _ & _ & Hside & Hprice & _).
    assert (forall x y, x ∈ own s b -> y ∈ OrderBook.opposite s b2 ->
                        OrderBook.no_cross s x.1 y.1 = true) as Hold.
    { intros x y Hx Hy.
      destruct (match_levels_keys clock (fun k => OrderBook.no_cross s x.1 k = true)
                  _ _ _ _ _ _ _ _ _ Hml) as [Hk _]; [| |by eapply Forall_forall in Hk].
      - rewrite Hb1. apply Forall_forall. intros z Hz. by apply Hs.
      - constructor. }
    assert (Order.side (deref w1 order) = s) as Hs1 by done.
    pose proof (add_to_book_own w1 b2 order) as Hpush.
    pose proof (add_to_book_opposite w1 b2 order) as Hopp.
    rewrite Hs1, Hprice, Hown in Hpush. rewrite Hs1 in Hopp.
    destruct Hcase as [[Hr ->]|[(Hr & Hunf & Hi & ->)|[(Hr & Hge & ->)|(Hr & Hunf & Hi & ->)]]];
      cbn [fst snd].
    - rewrite own_set_orders_, Hown.
      replace (OrderBook.opposite s (OrderBook.set_orders_ _ b2)) with (OrderBook.opposite s b2)
        by (by destruct s).
      done.
    - rewrite Hopp, Hpush. intros x y Hx Hy.
      apply level_push_keys in Hx as [Hx|(x' & Hx' & Hx)]; [|rewrite <- Hx; by apply Hold].
      rewrite Hx.
      destruct (match_levels_wf clock s order _ w b1 [] w1 b2 fills Hml) as ((Hsort & _) & _).
      { rewrite Hb1, <- own_other. apply (proj1 (book_wf_sides _ _) Hwf). }
      rewrite own_before_other in Hsort.
      destruct (match_levels_exit _ _ _ _ _ _ _ _ _ _ Hml) as [Hex|[Hex|Hex]];
        [congruence|done|].
      rewrite Hprice in Hex.
      destruct (OrderBook.opposite s b2) as [|[h lh] rest]; [by apply elem_of_nil in Hy|].
      apply elem_of_cons in Hy as [->|Hy]; [done|].
      apply StronglySorted_inv in Hsort as [_ Hhead].
      eapply Forall_forall in Hhead; [|exact Hy]. simpl in Hhead.
      revert Hex Hhead. unfold OrderBook.no_cross, opposite_before, asks_before, bids_before.
      destruct s; intros ?%Z.ltb_lt ?%Z.ltb_lt; apply Z.ltb_lt; lia.
    - by rewrite Hown.
    - by rewrite Hown. }
  apply uncrossed_sides. intros sd x y Hx Hy.
  assert (sd = s \/ sd = other s) as [->| ->] by (destruct sd, s; auto); [by apply H|].
  rewrite <- own_other in Hy. replace (other (other s)) with s in Hy by (by destruct s).
  rewrite own_other in Hx. specialize (H y x Hy Hx).
  revert H. unfold OrderBook.no_cross. by destruct s.
Qed.

Lemma filter_all {A : Type} (P : A -> Prop) `{!forall x, Decision (P x)} (l : list A) :
  Forall P l -> filter P l = l.
Proof.
  induction 1 as [|x l Hx _ IH]; [done|].
  rewrite filter_cons, decide_True by done. by rewrite IH.
Qed.

Lemma side_wf_tail w s (p : Price) lvl m : side_wf w s ((p, lvl) :: m) -> side_wf w s m.
Proof.
  intros (Hs & Hnd & Hall). rewrite queue_cons in Hnd, Hall.
  rewrite fmap_app in Hnd. apply NoDup_app in Hnd as (_ & _ & Hnd).
  apply Forall_app in Hall as [_ Hall].
  apply StronglySorted_inv in Hs as [Hs _]. done.
Qed.

(** [level_remove] at the price of an order takes the order out of the side
    it rests on, and nothing else. *)
Lemma resting_level_remove w s m q :
  side_wf w s m ->
  resting (level_remove (Order.price (deref w q)) q m) = filter (fun x => x <> q) (resting m).
Proof.
  induction m as [|[p l] m IH]; intros Hwf; [done|].
  pose proof (side_wf_tail _ _ _ _ _ Hwf) as Hwf'.
  destruct Hwf as (Hs & _ & Hall). rewrite queue_cons in Hall.
  apply Forall_app in Hall as [Hl Hm].
  simpl. rewrite resting_cons, filter_app.
  destruct (Z.eqb_spec (Order.price (deref w q)) p) as [Hp|Hp].
  - assert (filter (fun x => x <> q) (resting m) = resting m) as ->.
    { apply filter_all. rewrite <- queue_snd. apply Forall_fmap, Forall_forall.
      intros x Hx Hq. simpl in Hq.
      eapply Forall_forall in Hm; [|exact Hx]. destruct Hm as (_ & _ & Hprice).
      apply StronglySorted_inv in Hs as [_ Hhead].
      assert (exists lx, (x.1, lx) ∈ m) as [lx Hlx].
      { clear -Hx. induction m as [|[p' l'] m IH]; [by apply elem_of_nil in Hx|].
        rewrite queue_cons in Hx. apply elem_of_app in Hx as [Hx|Hx].
        - apply list_elem_of_fmap in Hx as (y & -> & _). exists l'. left.
        - destruct (IH Hx) as [lx ?]. exists lx. by right. }
      eapply Forall_forall in Hhead; [|exact Hlx]. simpl in Hhead.
      rewrite <- Hprice, Hq, Hp in Hhead.
      pose proof (opposite_before_irrefl (other s) p) as Hirr.
      rewrite <- own_before_other in Hirr.
      replace (other (other s)) with s in Hirr by (by destruct s). congruence. }
    by destruct (filter _ l).
  - rewrite resting_cons, IH by done. f_equal. symmetry. apply filter_all.
    apply Forall_forall. intros x Hx ->.
    eapply Forall_forall in Hl; [|by apply (list_elem_of_fmap_2 (pair p))].
    destruct Hl as (_ & _ & Hprice). simpl in Hprice. done.
Qed.

(** [cancel_order] of the book on an id it knows. *)
Lemma cancel_order_found w b order_id order :
  OrderBook.orders_ b !! order_id = Some order ->
  let s := Order.side (deref w order) in
  let res := OrderBook.cancel_order w b order_id in
  res.2 = true /\
  res.1.1 = store w order (Order.set_status CANCELLED (deref w order)) /\
  own s res.1.2 = level_remove (Order.price (deref w order)) order (own s b) /\
  OrderBook.opposite s res.1.2 = OrderBook.opposite s b /\
  OrderBook.orders_ res.1.2 = delete order_id (OrderBook.orders_ b) /\
  OrderBook.instrument_id_ res.1.2 = OrderBook.instrument_id_ b /\
  OrderBook.last_price_ res.1.2 = OrderBook.last_price_ b.
Proof.
  intros Hk s res. subst res. unfold OrderBook.cancel_order. rewrite Hk. fold s.
  by destruct s.
Qed.

Lemma cancel_order_missing w b order_id :
  OrderBook.orders_ b !! order_id = None ->
  OrderBook.cancel_order w b order_id = (w, b, false).
Proof. intros Hk. unfold OrderBook.cancel_order. by rewrite Hk. Qed.

(** After [cancel_order] the order rests nowhere in the book, and the other
    orders rest where they did. *)
Lemma cancel_order_resting w b order_id order sd :
  book_wf w b -> OrderBook.orders_ b !! order_id = Some order ->
  resting (own sd (OrderBook.cancel_order w b order_id).1.2)
  = filter (fun q => q <> order) (resting (own sd b)).
Proof.
  intros Hwf Hk.
  destruct (cancel_order_found w b order_id order Hk) as (_ & _ & Hown & Hopp & _).
  set (s := Order.side (deref w order)) in *.
  pose proof (proj1 (book_wf_sides _ _) Hwf) as Hs.
  assert (sd = s \/ sd = other s) as [->| ->] by (destruct sd, s; auto).
  - rewrite Hown. by apply (resting_level_remove w s).
  - rewrite !own_other, Hopp. symmetry. apply filter_all.
    rewrite <- own_other, <- queue_snd. apply Forall_fmap, Forall_forall.
    intros x Hx Hq. simpl in Hq.
    destruct (Hs (other s)) as (_ & _ & Hall).
    eapply Forall_forall in Hall; [|exact Hx]. destruct Hall as (_ & Hside & _).
    rewrite Hq in Hside. fold s in Hside. by destruct s.
Qed.

Lemma cancel_order_nonempty w b order_id sd :
  Forall (fun x => x.2 <> []) (own sd b) ->
  Forall (fun x => x.2 <> []) (own sd (OrderBook.cancel_order w b order_id).1.2).
Proof.
  intros Hn. unfold OrderBook.cancel_order.
  destruct (OrderBook.orders_ b !! order_id) as [order|]; [|done].
  destruct (Order.side (deref w order)), sd; simpl; try done;
    by apply level_remove_nonempty.
Qed.

Lemma cancel_order_live w b order_id :
  book_wf w b -> book_live w b ->
  book_live (OrderBook.cancel_order w b order_id).1.1 (OrderBook.cancel_order w b order_id).1.2.
Proof.
  intros Hwf Hlive.
  destruct (OrderBook.orders_ b !! order_id) as [order|] eqn:Hk;
    [|by rewrite cancel_order_missing].
  pose proof (proj1 (book_live_sides _ _) Hlive) as Hls.
  apply book_live_sides. intros sd. destruct (Hls sd) as [Hn Hl].
  split; [by apply cancel_order_nonempty|].
  rewrite (cancel_order_resting w b order_id order sd Hwf Hk).
  destruct (cancel_order_found w b order_id order Hk) as (_ & -> & _).
  apply Forall_forall. intros q [Hq Hin]%list_elem_of_filter.
  unfold live. rewrite deref_store_other by done.
  eapply Forall_forall in Hl; [|exact Hin]. exact Hl.
Qed.

Lemma cancel_order_frame w b order_id q :
  (forall order, OrderBook.orders_ b !! order_id = Some order -> q <> order) ->
  deref (OrderBook.cancel_order w b order_id).1.1 q = deref w q.
Proof.
  intros Hq.
  destruct (OrderBook.orders_ b !! order_id) as [order|] eqn:Hk;
    [|by rewrite cancel_order_missing].
  destruct (cancel_order_found w b order_id order Hk) as (_ & -> & _).
  rewrite deref_store_other; [done|]. intros ->. by apply (Hq q).
Qed.

Lemma cancel_order_owned w b order_id :
  book_wf w b -> book_owned w b ->
  book_owned (OrderBook.cancel_order w b order_id).1.1 (OrderBook.cancel_order w b order_id).1.2.
Proof.
  intros Hwf [Hrest Hmap].
  destruct (OrderBook.orders_ b !! order_id) as [order|] eqn:Hk;
    [|by rewrite cancel_order_missing].
  pose proof (cancel_order_world_le w b order_id) as [Hlen Hsame].
  destruct (cancel_order_found w b order_id order Hk) as (_ & _ & _ & _ & Hord & Hid & _).
  assert (forall q, Order.instrument_id (deref (OrderBook.cancel_order w b order_id).1.1 q)
                    = Order.instrument_id (deref w q)) as Hstatic.
  { intros q. by destruct (Hsame q) as (_ & _ & -> & _). }
  split.
  - intros sd. rewrite (cancel_order_resting w b order_id order sd Hwf Hk).
    apply Forall_forall. intros q [_ Hq]%list_elem_of_filter. rewrite Hstatic, Hid.
    specialize (Hrest sd). by eapply Forall_forall in Hrest.
  - intros k q. rewrite Hord, Hstatic, Hid. unfold valid. rewrite Hlen.
    intros [_ Hq]%lookup_delete_Some. by apply (Hmap k).
Qed.

Lemma cancel_order_levels w b order_id sd x :
  x ∈ own sd (OrderBook.cancel_order w b order_id).1.2 ->
  exists y, y ∈ own sd b /\ y.1 = x.1.
Proof.
  unfold OrderBook.cancel_order.
  destruct (OrderBook.orders_ b !! order_id) as [order|]; [|by eauto].
  destruct (Order.side (deref w order)), sd; simpl; eauto using level_remove_keys.
Qed.

Lemma cancel_order_uncrossed w b order_id :
  uncrossed b -> uncrossed (OrderBook.cancel_order w b order_id).1.2.
Proof.
  intros Hun x y Hx Hy.
  apply (cancel_order_levels w b order_id BUY) in Hx as (x' & Hx' & <-).
  apply (cancel_order_levels w b order_id SELL) in Hy as (y' & Hy' & <-).
  by apply Hun.
Qed.

(** *** The last price *)

Lemma match_level_last_price (lp : Price) fuel (price : Price) order w b lvl fills
    w' b' lvl' fills' :
  OrderBook.match_level clock fuel price order w b lvl fills = Some (w', b', lvl', fills') ->
  OrderBook.last_price_ b = default lp (Fill.price <$> last fills) ->
  OrderBook.last_price_ b' = default lp (Fill.price <$> last fills').
Proof.
  intros Heq HI.
  eapply (proj1 (match_level_rule clock price order
                   (fun _ b1 _ fills1 =>
                      OrderBook.last_price_ b1 = default lp (Fill.price <$> last fills1))
                   _ _ _ _ _ _ _ _ _ _ Heq HI)).
  Unshelve.
  intros w1 b1 passive rest fills1 w2 b2 popped f1 f2 _ _ Hm.
  rewrite (match_one_book _ _ _ _ _ _ _ _ _ _ _ Hm).
  destruct (match_one_fills _ _ _ _ _ _ _ _ _ _ _ Hm) as [_ ->].
  replace (fills1 ++ [f1; _]) with ((fills1 ++ [f1]) ++ [Fill.mk
    (Order.id (deref w1 passive)) (Order.user_id (deref w1 passive))
    (OrderBook.instrument_id_ b1) (Order.side (deref w1 passive)) price
    (match_quantity w1 order passive) (clock (S (World.reads w1)))])
    by (by rewrite <- app_assoc).
  by rewrite last_snoc.
Qed.

Lemma match_levels_last_price (lp : Price) s order fuel w b fills w' b' fills' :
  OrderBook.match_levels clock fuel s order w b fills = Some (w', b', fills') ->
  OrderBook.last_price_ b = default lp (Fill.price <$> last fills) ->
  OrderBook.last_price_ b' = default lp (Fill.price <$> last fills').
Proof.
  intros Heq HI.
  eapply (match_levels_rule clock s order
            (fun _ b1 fills1 =>
               OrderBook.last_price_ b1 = default lp (Fill.price <$> last fills1)));
    [| |exact Heq|exact HI].
  - intros w1 b1 price lvl rest fills1 w2 b2 lvl2 fills2 HI1 _ _ _ _ Hlvl.
    replace (OrderBook.last_price_ (OrderBook.set_opposite s _ b2))
      with (OrderBook.last_price_ b2) by (by destruct s).
    by eapply match_level_last_price.
  - done.
Qed.

(** [last_price_] after [add_order] is the price of the last fill it
    returns, and the one before the call when it returns none. *)
Lemma add_order_last_price w b order :
  OrderBook.last_price_ (OrderBook.add_order clock w b order).1.2
  = default (OrderBook.last_price_ b)
      (Fill.price <$> last (OrderBook.add_order clock w b order).2).
Proof.
  destruct (add_order_cases clock w b order) as (w1 & b2 & fills & Hml & Hcase).
  apply (match_levels_last_price (OrderBook.last_price_ b)) in Hml; [|done].
  destruct (add_to_book_static w1 b2 order) as (_ & _ & Hlp).
  destruct Hcase as [[Hr ->]|[(Hr & Hun & Hi & ->)|[(Hr & Hge & ->)|(Hr & Hun & Hi & ->)]]];
    cbn [fst snd]; by rewrite ?Hlp.
Qed.

End BookFrame.

(** ** The books of every reachable engine state *)
Section EngineBooks.
Context {D : Type} `{!DoubleOps D}.
Variable clock : nat -> Timestamp.
Implicit Types (w : World.t) (e : Engine.t D) (b : OrderBook.t) (q order : ptr).

Lemma book_ok_init w id : book_ok w (OrderBook.init id).
Proof.
  split; [apply book_wf_init|]. split; [by repeat split|]. split.
  - split; [by intros []|]. intros k q. simpl. by rewrite lookup_empty.
  - intros x y Hx. by apply elem_of_nil in Hx.
Qed.

(** A book does not depend on the orders of other instruments. *)
Lemma book_ok_frame w w' b :
  book_ok w b ->
  (forall q, valid w q -> Order.instrument_id (deref w q) = OrderBook.instrument_id_ b ->
             valid w' q /\ deref w' q = deref w q) ->
  book_ok w' b.
Proof.
  intros (Hwf & Hlive & [Hrest Hmap] & Hun) Hframe.
  pose proof (proj1 (book_wf_sides _ _) Hwf) as Hs.
  pose proof (proj1 (book_live_sides _ _) Hlive) as Hls.
  assert (forall sd q, q ∈ resting (own sd b) -> valid w' q /\ deref w' q = deref w q) as Hq.
  { intros sd q Hin. apply Hframe.
    - destruct (Hs sd) as (_ & _ & Hall). rewrite <- queue_snd in Hin.
      apply list_elem_of_fmap in Hin as (x & -> & Hx).
      eapply Forall_forall in Hall; [|exact Hx]. tauto.
    - specialize (Hrest sd). by eapply Forall_forall in Hrest. }
  split; [|split; [|split; [|done]]].
  - apply book_wf_sides. intros sd. destruct (Hs sd) as (Hsort & Hnd & Hall).
    split; [done|]. split; [done|].
    apply Forall_forall. intros x Hx.
    destruct (Hq sd x.2) as [Hv ->]; [rewrite <- queue_snd; by apply list_elem_of_fmap_2|].
    eapply Forall_forall in Hall; [|exact Hx]. tauto.
  - apply book_live_sides. intros sd. destruct (Hls sd) as [Hn Hl]. split; [done|].
    apply Forall_forall. intros q Hin. unfold live.
    destruct (Hq sd q Hin) as [_ ->]. by eapply Forall_forall in Hl.
  - split.
    + intros sd. apply Forall_forall. intros q Hin.
      destruct (Hq sd q Hin) as [_ ->]. specialize (Hrest sd). by eapply Forall_forall in Hrest.
    + intros k q Hk. destruct (Hmap k q Hk) as [Hv Hi].
      destruct (Hframe q Hv Hi) as [? ->]. done.
Qed.

Lemma engine_ok_wf w e : engine_ok (w, e) -> engine_wf (w, e).
Proof. intros Hok id b Hb. destruct (Hok id b Hb) as [(? & _) ?]. done. Qed.

Lemma book_of_ok w e id :
  engine_ok (w, e) ->
  book_ok w (Engine.book_of e id) /\ OrderBook.instrument_id_ (Engine.book_of e id) = id.
Proof.
  intros Hok. unfold Engine.book_of.
  destruct (Engine.order_books_ e !! id) as [b|] eqn:Hb; simpl.
  - by apply (Hok id b).
  - split; [apply book_ok_init|done].
Qed.

(** What an accepted request is. *)
Lemma accepted_request e request :
  reject_reason e request = None ->
  0 < OrderRequest.quantity request /\
  exists inst, Engine.instruments_ e !! OrderRequest.instrument_id request = Some inst /\
               InstrumentSpec.is_halted inst = false.
Proof.
  unfold reject_reason.
  destruct (Engine.instruments_ e !! _) as [inst|]; [|done].
  destruct (InstrumentSpec.is_halted inst) eqn:Hh; [done|].
  destruct (negb _); [done|].
  destruct (Z.leb_spec (OrderRequest.quantity request) 0); [done|]. eauto.
Qed.

Lemma engine_ok_submit_order w e request :
  engine_ok (w, e) -> engine_ok (Engine.submit_order clock w e request).1.
Proof.
  intros Hok.
  pose proof (submit_order_accept_or_reject clock w e request) as Hcase.
  destruct (reject_reason e request) as [msg|] eqn:Hrej.
  { rewrite Hcase. done. }
  clear Hcase.
  destruct (submit_order_accepted clock w e request Hrej) as (Hw & _ & _ & Hbooks & _).
  destruct (accepted_request e request Hrej) as [Hqty _].
  set (w1 := World.mk (World.heap w) (S (World.reads w))) in *.
  set (o := new_order e request (clock (World.reads w))) in *.
  set (iid := OrderRequest.instrument_id request) in *.
  set (order := length (World.heap w)) in *.
  set (w2 := (make_shared w1 o).2) in *.
  destruct (book_of_ok w e iid Hok) as [Hb0 Hbid].
  set (b0 := Engine.book_of e iid) in *.
  assert (forall q, valid w q -> valid w2 q /\ deref w2 q = deref w q) as Hw2.
  { intros q Hq. split; [by apply valid_make_shared|].
    unfold w2. rewrite deref_make_shared by done. apply deref_reads. }
  assert (book_ok w2 b0) as (Hwf2 & Hlive2 & Hown2 & Hun2).
  { eapply book_ok_frame; [exact Hb0|]. intros q Hq _. by apply Hw2. }
  assert (valid w2 order) as Hvo.
  { unfold valid, w2, make_shared. simpl. rewrite length_app. simpl. unfold order. lia. }
  assert (deref w2 order = o) as Ho by apply deref_make_shared_new.
  assert (forall sd, order ∉ resting (own sd b0)) as Hfresh.
  { intros sd Hin. destruct Hb0 as (Hwf0 & _).
    destruct (proj1 (book_wf_sides _ _) Hwf0 sd) as (_ & _ & Hall).
    rewrite <- queue_snd in Hin. apply list_elem_of_fmap in Hin as (x & Hx & Hin).
    eapply Forall_forall in Hall; [|exact Hin]. destruct Hall as [Hv _].
    unfold valid in Hv. rewrite <- Hx in Hv. unfold order in Hv. lia. }
  destruct (add_order_wf clock w2 b0 order) as (Hwf3 & Hle3 & Hid3); [done|done| |].
  { rewrite queue_snd. apply Hfresh. }
  destruct (add_order_live clock w2 b0 order) as (Hlive3 & Hframe3 & _);
    [done|done|done|done|rewrite Ho; simpl; lia|].
  pose proof (add_order_owned clock w2 b0 order Hown2 Hvo) as Hown3.
  rewrite Ho in Hown3. specialize (Hown3 (eq_sym Hbid)).
  pose proof (add_order_uncrossed clock w2 b0 order Hwf2 Hun2) as Hun3.
  intros id b. cbn [fst snd]. rewrite Hbooks, Hw.
  destruct (decide (iid = id)) as [<-|Hne].
  - rewrite lookup_insert_eq. intros [= <-]. split; [done|].
    etrans; [exact Hid3|exact Hbid].
  - rewrite lookup_insert_ne by done. intros Hb.
    destruct (Hok id b Hb) as [Hbok Hid]. split; [|done].
    eapply book_ok_frame; [exact Hbok|]. cbn [fst]. intros q Hq Hi.
    destruct (Hw2 q Hq) as [Hq2 Hd2].
    split; [by apply (world_le_valid _ _ _ Hle3)|].
    rewrite <- Hd2. apply Hframe3.
    + intros ->. unfold valid, order in Hq. lia.
    + intros Hin. destruct Hown2 as [Hrest2 _].
      rewrite <- own_other in Hin. specialize (Hrest2 (other (Order.side (deref w2 order)))).
      eapply Forall_forall in Hrest2; [|exact Hin].
      rewrite Hd2, Hi, Hbid, Hid in Hrest2. done.
Qed.

Lemma engine_ok_cancel_order w e order_id user_id :
  engine_ok (w, e) -> engine_ok (Engine.cancel_order w e order_id user_id).1.
Proof.
  intros Hok.
  destruct (cancel_order_fields w e order_id user_id) as (_ & _ & _ & [->|(inst & Hw & Hb)]);
    [done|].
  destruct (book_of_ok w e inst Hok) as [(Hwf0 & Hlive0 & Hown0 & Hun0) Hbid].
  set (b0 := Engine.book_of e inst) in *.
  destruct (cancel_order_wf w b0 order_id Hwf0) as (Hwf' & Hle & Hid).
  intros id b. rewrite Hb, Hw.
  destruct (decide (inst = id)) as [<-|Hne].
  - rewrite lookup_insert_eq. intros [= <-]. split; [|etrans; [exact Hid|exact Hbid]].
    split; [done|]. split; [by apply cancel_order_live|].
    split; [by apply cancel_order_owned|by apply cancel_order_uncrossed].
  - rewrite lookup_insert_ne by done. intros Hb'.
    destruct (Hok id b Hb') as [Hbok Hid']. split; [|done].
    eapply book_ok_frame; [exact Hbok|]. cbn [fst]. intros q Hq Hi.
    split; [by apply (world_le_valid _ _ _ Hle)|].
    apply cancel_order_frame. intros order Hk ->.
    destruct Hown0 as [_ Hmap]. destruct (Hmap _ _ Hk) as [_ Hi0]. congruence.
Qed.

Lemma engine_ok_step s op : engine_ok s -> engine_ok (step clock s op).
Proof.
  apply (step_preserves clock engine_ok (fun _ => True) (fun _ _ => True)).
  - intros w e spec _ Hok. unfold Engine.add_instrument.
    destruct (Engine.instruments_ e !! InstrumentSpec.id spec); [done|].
    intros id b. simpl.
    destruct (decide (InstrumentSpec.id spec = id)) as [<-|Hne].
    + rewrite lookup_insert_eq. intros [= <-]. split; [apply book_ok_init|done].
    + rewrite lookup_insert_ne by done. apply Hok.
  - intros w e id halted Hok. unfold Engine.halt_instrument.
    by destruct (Engine.instruments_ e !! id).
  - intros w e request _. apply engine_ok_submit_order.
  - intros. by apply engine_ok_cancel_order.
  - intros w e n Hok id b Hb. destruct (Hok id b Hb) as [Hbok Hid]. split; [|done].
    eapply book_ok_frame; [exact Hbok|]. intros q Hq _. split; [done|apply deref_reads].
  - intros w e id v Hok. unfold Engine.settle_instrument.
    by destruct (Engine.instruments_ e !! id).
  - done.
  - by destruct op.
Qed.

(** Every state an execution reaches keeps its books in order. *)
Lemma run_books_ok ops : engine_ok (run clock ops).
Proof.
  unfold run. apply (run_from_preserves clock engine_ok (fun _ => True) (fun _ _ => True)).
  - intros s op _. apply engine_ok_step.
  - apply run_ok_trivial.
  - intros id b. simpl. by rewrite lookup_empty.
Qed.

End EngineBooks.

(** ** Properties of every reachable state *)
Section Reachable.
Context {D : Type} `{!DoubleOps D}.
Variable clock : nat -> Timestamp.
Implicit Types (w : World.t) (e : Engine.t D) (b : OrderBook.t) (q order : ptr).
Implicit Types (ops : list (Op.t D)) (m : Levels).

Lemma elem_of_queue m (price : Price) (lvl : list ptr) q :
  (price, lvl) ∈ m -> q ∈ lvl -> (price, q) ∈ queue m.
Proof.
  induction m as [|[p l] m IH]; intros Hin Hq; [by apply elem_of_nil in Hin|].
  rewrite queue_cons. apply elem_of_app.
  apply elem_of_cons in Hin as [[= -> ->]|Hin]; [left|right; by apply IH].
  by apply (list_elem_of_fmap_2 (pair p)).
Qed.

(** X1.  In every state an execution reaches, an order that rests in a book
    is an order of the book's instrument, on the side and at the price of
    its level, with part of its quantity left, and its status tells whether
    any of it was filled: PENDING while nothing is, PARTIAL after. *)
Theorem resting_order_state ops id b sd (price : Price) (lvl : list ptr) q :
  Engine.order_books_ (run clock ops).2 !! id = Some b ->
  (price, lvl) ∈ own sd b -> q ∈ lvl ->
  let o := deref (run clock ops).1 q in
  Order.instrument_id o = id /\ Order.side o = sd /\ Order.price o = price /\
  0 <= Order.filled_quantity o < Order.quantity o /\
  Order.status o = (if 0 <? Order.filled_quantity o then PARTIAL else PENDING).
Proof.
  intros Hb Hlvl Hq o. subst o.
  destruct (run_books_ok clock ops id b Hb) as [(Hwf & Hlive & [Hrest _] & _) Hid].
  pose proof (elem_of_queue _ _ _ _ Hlvl Hq) as Hin.
  assert (q ∈ resting (own sd b)) as Hr.
  { rewrite <- queue_snd. by apply (list_elem_of_fmap_2 snd _ (price, q)). }
  destruct (proj1 (book_wf_sides _ _) Hwf sd) as (_ & _ & Hall).
  eapply Forall_forall in Hall; [|exact Hin]. destruct Hall as (_ & Hside & Hprice).
  destruct (proj1 (book_live_sides _ _) Hlive sd) as [_ Hl].
  eapply Forall_forall in Hl; [|exact Hr]. destruct Hl as [Hfq Hst].
  specialize (Hrest sd). eapply Forall_forall in Hrest; [|exact Hr].
  rewrite Hrest, Hid. done.
Qed.

Lemma sorted_head before (x : Price * list ptr) m y :
  levels_sorted before (x :: m) -> y ∈ x :: m -> y = x \/ before x.1 y.1 = true.
Proof.
  intros [_ Hhead]%StronglySorted_inv [->|Hy]%elem_of_cons; [by left|right].
  by eapply Forall_forall in Hhead.
Qed.

(** X2.  In every state an execution reaches no book is crossed: every bid
    level is priced below every ask level, so with orders on both sides
    [get_best_bid] is below [get_best_ask]. *)
Theorem book_never_crossed ops id b :
  Engine.order_books_ (run clock ops).2 !! id = Some b ->
  (forall x y, x ∈ OrderBook.bids_ b -> y ∈ OrderBook.asks_ b -> x.1 < y.1) /\
  (OrderBook.bids_ b <> [] -> OrderBook.asks_ b <> [] ->
   OrderBook.get_best_bid b < OrderBook.get_best_ask b).
Proof.
  intros Hb. destruct (run_books_ok clock ops id b Hb) as [(_ & _ & _ & Hun) _].
  split; [exact Hun|]. intros Hbids Hasks. unfold OrderBook.get_best_bid, OrderBook.get_best_ask.
  destruct (OrderBook.bids_ b) as [|[pb lb] bids] eqn:Hb1; [done|].
  destruct (OrderBook.asks_ b) as [|[pa la] asks] eqn:Ha1; [done|].
  apply (Hun (pb, lb) (pa, la)); rewrite ?Hb1, ?Ha1; left.
Qed.

(** X3.  In every state an execution reaches [get_best_bid] is the highest
    price at which a BUY order rests and [get_best_ask] the lowest at which
    a SELL order rests; each is 0 when its side is empty, and otherwise the
    limit price of an order that rests. *)
Theorem best_prices_extreme ops id b :
  Engine.order_books_ (run clock ops).2 !! id = Some b ->
  let w := (run clock ops).1 in
  (forall q, q ∈ resting (OrderBook.bids_ b) ->
             Order.price (deref w q) <= OrderBook.get_best_bid b) /\
  (forall q, q ∈ resting (OrderBook.asks_ b) ->
             OrderBook.get_best_ask b <= Order.price (deref w q)) /\
  (OrderBook.bids_ b = [] -> OrderBook.get_best_bid b = 0) /\
  (OrderBook.asks_ b = [] -> OrderBook.get_best_ask b = 0) /\
  (OrderBook.bids_ b <> [] ->
   exists q, q ∈ resting (OrderBook.bids_ b) /\
             Order.price (deref w q) = OrderBook.get_best_bid b) /\
  (OrderBook.asks_ b <> [] ->
   exists q, q ∈ resting (OrderBook.asks_ b) /\
             Order.price (deref w q) = OrderBook.get_best_ask b).
Proof.
  intros Hb w. subst w.
  destruct (run_books_ok clock ops id b Hb) as [(Hwf & Hlive & _) _].
  pose proof (proj1 (book_wf_sides _ _) Hwf) as Hs.
  pose proof (proj1 (book_live_sides _ _) Hlive) as Hls.
  assert (forall sd q, q ∈ resting (own sd b) ->
            exists lvl, (Order.price (deref (run clock ops).1 q), lvl) ∈ own sd b) as Hlevel.
  { intros sd q Hq. destruct (Hs sd) as (_ & _ & Hall).
    rewrite <- queue_snd in Hq. apply list_elem_of_fmap in Hq as ([p q'] & -> & Hx).
    eapply Forall_forall in Hall; [|exact Hx]. destruct Hall as (_ & _ & ->). simpl.
    clear -Hx. induction (own sd b) as [|[p' l'] m IH]; [by apply elem_of_nil in Hx|].
    rewrite queue_cons in Hx. apply elem_of_app in Hx as [Hx|Hx].
    - apply list_elem_of_fmap in Hx as (y & [= -> ->] & _). exists l'. left.
    - destruct (IH Hx) as [lvl ?]. exists lvl. by right. }
  assert (forall sd p l m, own sd b = (p, l) :: m ->
            exists q, q ∈ resting (own sd b) /\ Order.price (deref (run clock ops).1 q) = p)
    as Hhead.
  { intros sd p l m Hm. destruct (Hs sd) as (_ & _ & Hall). destruct (Hls sd) as [Hn _].
    rewrite Hm in Hn, Hall |- *. apply Forall_cons in Hn as [Hl _]. simpl in Hl.
    destruct l as [|q l]; [done|]. exists q. rewrite resting_cons. split; [left|].
    rewrite queue_cons in Hall. simpl in Hall. apply Forall_cons in Hall as [(_ & _ & ?) _].
    done. }
  unfold OrderBook.get_best_bid, OrderBook.get_best_ask.
  split; [|split; [|split; [by intros ->|split; [by intros ->|split]]]].
  - intros q Hq. destruct (Hlevel BUY q Hq) as [lvl Hl]. simpl in Hl.
    destruct (Hs BUY) as (Hsort & _). simpl in Hsort.
    destruct (OrderBook.bids_ b) as [|[pb lb] bids]; [by apply elem_of_nil in Hl|].
    destruct (sorted_head _ _ _ _ Hsort Hl) as [[= -> _]|Hlt]; [done|].
    simpl in Hlt. apply Z.ltb_lt in Hlt. lia.
  - intros q Hq. destruct (Hlevel SELL q Hq) as [lvl Hl]. simpl in Hl.
    destruct (Hs SELL) as (Hsort & _). simpl in Hsort.
    destruct (OrderBook.asks_ b) as [|[pa la] asks]; [by apply elem_of_nil in Hl|].
    destruct (sorted_head _ _ _ _ Hsort Hl) as [[= -> _]|Hlt]; [done|].
    simpl in Hlt. apply Z.ltb_lt in Hlt. lia.
  - intros Hne. destruct (OrderBook.bids_ b) as [|[pb lb] bids] eqn:Hm; [done|].
    destruct (Hhead BUY pb lb bids Hm) as (q & Hq & Hp). simpl in Hq. rewrite Hm in Hq. eauto.
  - intros Hne. destruct (OrderBook.asks_ b) as [|[pa la] asks] eqn:Hm; [done|].
    destruct (Hhead SELL pa la asks Hm) as (q & Hq & Hp). simpl in Hq. rewrite Hm in Hq. eauto.
Qed.

Lemma level_size_mono w (lvl : list ptr) a :
  Forall (live w) lvl ->
  a <= foldl (fun acc order =>
                acc + (Order.quantity (deref w order)
                       - Order.filled_quantity (deref w order))) a lvl /\
  (lvl <> [] ->
   a < foldl (fun acc order =>
                acc + (Order.quantity (deref w order)
                       - Order.filled_quantity (deref w order))) a lvl).
Proof.
  intros Hl. revert a. induction Hl as [|q l [Hq _] _ IH]; intros a; [done|].
  simpl. destruct (IH (a + (Order.quantity (deref w q) - Order.filled_quantity (deref w q))))
    as [H1 _].
  split; [lia|intros _; lia].
Qed.

Lemma level_size_live w (lvl : list ptr) :
  Forall (live w) lvl -> lvl <> [] -> 0 < level_size w lvl.
Proof. intros Hl Hne. by apply (level_size_mono w lvl 0 Hl). Qed.

(** The total [get_snapshot] accumulates for a level of live orders is its
    size, as long as that is a value of [int64_t]. *)
Lemma total_size_exact w (lvl : list ptr) :
  Forall (live w) lvl -> level_size w lvl < 2 ^ 63 ->
  foldl (fun acc order =>
           i64 (acc + i64 (Order.quantity (deref w order)
                           - Order.filled_quantity (deref w order)))) 0 lvl
  = level_size w lvl.
Proof.
  unfold level_size. intros Hl.
  assert (forall a, 0 <= a ->
            foldl (fun acc order =>
                     acc + (Order.quantity (deref w order)
                            - Order.filled_quantity (deref w order))) a lvl < 2 ^ 63 ->
            foldl (fun acc order =>
                     i64 (acc + i64 (Order.quantity (deref w order)
                                     - Order.filled_quantity (deref w order)))) a lvl
            = foldl (fun acc order =>
                       acc + (Order.quantity (deref w order)
                              - Order.filled_quantity (deref w order))) a lvl) as H;
    [|by apply H].
  induction Hl as [|q l Hq Hl IH]; intros a Ha Hlt; [done|].
  cbn [foldl] in *.
  pose proof (level_size_mono w l
                (a + (Order.quantity (deref w q) - Order.filled_quantity (deref w q))) Hl)
    as [Hle _].
  destruct Hq as [Hq _].
  rewrite (i64_id (Order.quantity (deref w q) - Order.filled_quantity (deref w q)))
    by (unfold int64; lia).
  rewrite (i64_id (a + _)) by (unfold int64; lia).
  apply IH; [lia|done].
Qed.

Lemma side_live_cons w (x : Price * list ptr) m :
  side_live w (x :: m) <-> (x.2 <> [] /\ Forall (live w) x.2) /\ side_live w m.
Proof.
  unfold side_live. destruct x as [p l]. rewrite Forall_cons, resting_cons, Forall_app. tauto.
Qed.

(** On a side with live orders only, whose level sizes are values of
    [int64_t], [get_snapshot] skips no level. *)
Lemma snapshot_side_live w depth m :
  side_live w m -> Forall (fun x => level_size w x.2 < 2 ^ 63) m ->
  OrderBook.snapshot_side w depth m = take depth (level_summary w <$> m).
Proof.
  revert depth. induction m as [|[p l] m IH]; intros depth Hl Hfit; [by destruct depth|].
  apply side_live_cons in Hl as [[Hne Hall] Hm]. simpl in Hne, Hall.
  apply Forall_cons in Hfit as [Hfit1 Hfit]. simpl in Hfit1.
  destruct depth as [|d]; [done|]. simpl.
  rewrite (total_size_exact w l Hall Hfit1).
  pose proof (level_size_live w l Hall Hne) as Hpos.
  rewrite (proj2 (Z.ltb_lt 0 _)) by exact Hpos.
  unfold level_summary at 1. simpl. f_equal. by apply IH.
Qed.

Lemma StronglySorted_take {A : Type} (R : relation A) (l : list A) n :
  StronglySorted R l -> StronglySorted R (take n l).
Proof.
  intros Hs. revert n. induction Hs as [|x l Hs IH Hall]; intros [|n]; simpl; try constructor.
  - apply IH.
  - by apply Forall_take.
Qed.

(** X4.  In every state an execution reaches, and for a book in which the
    quantities left at each price level add up to less than [2^63],
    [OrderBook::get_snapshot] lists, for each side of the book, its first
    [depth] price levels in priority order, none left out: each with its
    price and the sum of what is left of its orders, which is positive; bid
    prices strictly descend and ask prices strictly ascend.  It carries the
    book's instrument id and last price and the time of the call.  (The
    program adds the quantities up modulo [2^64], and skips a level whose
    total comes out as zero or negative.) *)
Theorem snapshot_top_levels ops id b depth :
  Engine.order_books_ (run clock ops).2 !! id = Some b ->
  sizes_fit (run clock ops).1 b ->
  let w := (run clock ops).1 in
  let snap := (OrderBook.get_snapshot clock w b depth).1 in
  MarketSnapshot.bids snap = take depth (level_summary w <$> OrderBook.bids_ b) /\
  MarketSnapshot.asks snap = take depth (level_summary w <$> OrderBook.asks_ b) /\
  Forall (fun l => 0 < PriceLevel.size l) (MarketSnapshot.bids snap ++ MarketSnapshot.asks snap) /\
  StronglySorted (fun x y => PriceLevel.price y < PriceLevel.price x) (MarketSnapshot.bids snap) /\
  StronglySorted (fun x y => PriceLevel.price x < PriceLevel.price y) (MarketSnapshot.asks snap) /\
  MarketSnapshot.instrument_id snap = id /\
  MarketSnapshot.last_price snap = OrderBook.last_price_ b /\
  MarketSnapshot.timestamp snap = clock (World.reads w).
Proof.
  intros Hb Hfit w snap.
  destruct (run_books_ok clock ops id b Hb) as [(Hwf & Hlive & _) Hid].
  fold w in Hwf, Hlive, Hfit.
  apply Forall_app in Hfit as [Hfb Hfa].
  destruct Hlive as [Hlb Hla]. destruct Hwf as [(Hsb & _) (Hsa & _)].
  assert (snap = MarketSnapshot.mk id (take depth (level_summary w <$> OrderBook.bids_ b))
                   (take depth (level_summary w <$> OrderBook.asks_ b))
                   (OrderBook.last_price_ b) (clock (World.reads w))) as ->.
  { subst snap. unfold OrderBook.get_snapshot. simpl.
    rewrite !snapshot_side_live by done. by rewrite Hid. }
  simpl. repeat split.
  - assert (forall m, side_live w m ->
              Forall (fun l => 0 < PriceLevel.size l) (take depth (level_summary w <$> m)))
      as H.
    { intros m Hm. apply Forall_take, Forall_fmap. clear -Hm.
      induction m as [|x m IH]; [constructor|].
      apply side_live_cons in Hm as [[Hne Hall] Hm]. constructor; [|by apply IH].
      simpl. by apply level_size_live. }
    apply Forall_app. split; by apply H.
  - apply StronglySorted_take.
    eapply StronglySorted_fmap; [|exact Hsb]. intros x y Hxy. simpl in *.
    by apply Z.ltb_lt in Hxy.
  - apply StronglySorted_take.
    eapply StronglySorted_fmap; [|exact Hsa]. intros x y Hxy. simpl in *.
    by apply Z.ltb_lt in Hxy.
Qed.

End Reachable.

(** ** What an accepted order leaves behind *)
Section Submit.
Context {D : Type} `{!DoubleOps D}.
Variable clock : nat -> Timestamp.
Implicit Types (w : World.t) (e : Engine.t D) (b : OrderBook.t) (q order : ptr).
Implicit Types (ops : list (Op.t D)) (fills : list Fill.t).

Lemma u64_add_l (a k : N) : u64 (u64 a + k) = u64 (a + k).
Proof. unfold u64. by rewrite N.Div0.add_mod_idemp_l. Qed.

Lemma u64_idemp (a : N) : u64 (u64 a) = u64 a.
Proof. unfold u64. by rewrite N.Div0.mod_mod. Qed.

Lemma u64_iter (a : N) (n : nat) :
  Nat.iter n (fun t => u64 (t + 1)) (u64 a) = u64 (a + N.of_nat n).
Proof.
  induction n as [|n IH]; [by rewrite N.add_0_r|].
  rewrite Nat.iter_succ, IH, u64_add_l. f_equal. lia.
Qed.

(** The histories and the counters after the fills of one order. *)
Lemma process_fills_history e fills :
  let e' := Engine.process_fills e fills in
  Engine.fill_history_ e' = Engine.fill_history_ e ++ fills /\
  Engine.trade_history_ e' = Engine.trade_history_ e ++ trades_of fills /\
  Stats.total_fills (Engine.stats_ e')
  = Nat.iter (length fills) (fun t => u64 (t + 1)) (Stats.total_fills (Engine.stats_ e)) /\
  Stats.total_orders (Engine.stats_ e') = Stats.total_orders (Engine.stats_ e) /\
  Stats.total_cancels (Engine.stats_ e') = Stats.total_cancels (Engine.stats_ e) /\
  Stats.total_rejects (Engine.stats_ e') = Stats.total_rejects (Engine.stats_ e).
Proof.
  revert e. induction fills as [|f|f1 f2 fills IH] using pairs_ind; intros e.
  - simpl. by rewrite !app_nil_r.
  - simpl. by rewrite app_nil_r.
  - cbn [Engine.process_fills]. cbv zeta.
    destruct (IH (Engine.set_trade_history_
                    (Engine.trade_history_ (Engine.record_fill (Engine.record_fill e f1) f2)
                     ++ [Engine.trade_of f1 f2])
                    (Engine.record_fill (Engine.record_fill e f1) f2)))
      as (-> & -> & -> & -> & -> & ->).
    simpl. rewrite <- !app_assoc. simpl. repeat split.
    set (f := fun t : N => u64 (t + 1)).
    change (Nat.iter (length fills) f (f (f (Stats.total_fills (Engine.stats_ e))))
            = f (f (Nat.iter (length fills) f (Stats.total_fills (Engine.stats_ e))))).
    by rewrite !Nat.iter_swap.
Qed.

(** The rest of an accepted [submit_order]: the id it returns, the registers
    of active orders, the histories and the counters. *)
Lemma submit_order_registers w e request :
  reject_reason e request = None ->
  let w2 := (make_shared (World.mk (World.heap w) (S (World.reads w)))
               (new_order e request (clock (World.reads w)))).2 in
  let order := length (World.heap w) in
  let id := Engine.next_order_id_ e in
  let added := OrderBook.add_order clock w2
                 (Engine.book_of e (OrderRequest.instrument_id request)) order in
  let active := bool_decide (Order.status (deref added.1.1 order) = PENDING)
                || bool_decide (Order.status (deref added.1.1 order) = PARTIAL) in
  let res := Engine.submit_order clock w e request in
  OrderResult.order_id res.2 = id /\
  OrderResult.error_message res.2 = EmptyString /\
  Engine.next_order_id_ res.1.2 = u64 (id + 1) /\
  Engine.active_orders_ res.1.2
  = (if active then <[Order.id (deref added.1.1 order) := order]> (Engine.active_orders_ e)
     else Engine.active_orders_ e) /\
  Engine.user_orders_ res.1.2
  = (if active
     then <[OrderRequest.user_id request :=
              default ∅ (Engine.user_orders_ e !! OrderRequest.user_id request)
              ∪ {[Order.id (deref added.1.1 order)]}]> (Engine.user_orders_ e)
     else Engine.user_orders_ e) /\
  Engine.fill_history_ res.1.2 = Engine.fill_history_ e ++ added.2 /\
  Engine.trade_history_ res.1.2 = Engine.trade_history_ e ++ trades_of added.2 /\
  Stats.total_fills (Engine.stats_ res.1.2)
  = Nat.iter (length added.2) (fun t => u64 (t + 1)) (Stats.total_fills (Engine.stats_ e)) /\
  Stats.total_orders (Engine.stats_ res.1.2) = u64 (Stats.total_orders (Engine.stats_ e) + 1) /\
  Stats.total_cancels (Engine.stats_ res.1.2) = Stats.total_cancels (Engine.stats_ e) /\
  Stats.total_rejects (Engine.stats_ res.1.2) = Stats.total_rejects (Engine.stats_ e).
Proof.
  intros Hacc w2 order id added active res. subst res.
  unfold reject_reason in Hacc. unfold Engine.submit_order.
  destruct (Engine.instruments_ e !! _) as [inst|]; [|done].
  destruct (InstrumentSpec.is_halted inst); [done|].
  destruct (negb _); [done|].
  destruct (_ <=? 0); [done|].
  cbv zeta. unfold OrderBook.now, make_shared. cbn [World.heap World.reads].
  fold (new_order e request (clock (World.reads w))).
  change (OrderBook.add_order clock _ _ (length (World.heap w))) with added.
  subst active. destruct added as [[w3 book] fills]. cbn [fst snd].
  match goal with |- context [Engine.process_fills ?x fills] =>
    pose proof (process_fills_frame x fills) as (_ & _ & _ & Ha & Hu & Hn);
    pose proof (process_fills_history x fills) as (Hf & Ht & Hs & Ho & Hc & Hr) end.
  cbn [fst snd OrderResult.order_id OrderResult.error_message Engine.next_order_id_
       Engine.active_orders_ Engine.user_orders_ Engine.fill_history_ Engine.trade_history_
       Engine.stats_ Engine.set_stats_ Stats.incr_orders Stats.total_fills Stats.total_orders
       Stats.total_cancels Stats.total_rejects].
  rewrite Ha, Hu, Hn, Hf, Ht, Hs, Ho, Hc, Hr.
  by destruct (_ || _).
Qed.

(** The book and the new order as an accepted [submit_order] hands them to
    [add_order]. *)
Lemma accepted_setup w e request :
  engine_ok (w, e) -> reject_reason e request = None ->
  let o := new_order e request (clock (World.reads w)) in
  let w2 := (make_shared (World.mk (World.heap w) (S (World.reads w))) o).2 in
  let order := length (World.heap w) in
  let b0 := Engine.book_of e (OrderRequest.instrument_id request) in
  book_ok w2 b0 /\ OrderBook.instrument_id_ b0 = OrderRequest.instrument_id request /\
  valid w2 order /\ deref w2 order = o /\
  (forall sd, order ∉ resting (own sd b0)) /\
  (forall q, valid w q -> valid w2 q /\ deref w2 q = deref w q).
Proof.
  intros Hok Hrej o w2 order b0.
  destruct (book_of_ok w e (OrderRequest.instrument_id request) Hok) as [Hb0 Hbid].
  fold b0 in Hb0, Hbid.
  assert (forall q, valid w q -> valid w2 q /\ deref w2 q = deref w q) as Hw2.
  { intros q Hq. split; [by apply valid_make_shared|].
    unfold w2. rewrite deref_make_shared by done. apply deref_reads. }
  split; [eapply book_ok_frame; [exact Hb0|]; intros q Hq _; by apply Hw2|].
  split; [done|]. split.
  { unfold valid, w2, make_shared. simpl. rewrite length_app. simpl. unfold order. lia. }
  split; [apply deref_make_shared_new|]. split; [|done].
  intros sd Hin. destruct Hb0 as (Hwf0 & _).
  destruct (proj1 (book_wf_sides _ _) Hwf0 sd) as (_ & _ & Hall).
  rewrite <- queue_snd in Hin. apply list_elem_of_fmap in Hin as (x & Hx & Hin).
  eapply Forall_forall in Hall; [|exact Hin]. destruct Hall as [Hv _].
  unfold valid in Hv. rewrite <- Hx in Hv. unfold order in Hv. lia.
Qed.

Lemma success_accepted w e request :
  OrderResult.success (Engine.submit_order clock w e request).2 = true ->
  reject_reason e request = None.
Proof.
  intros Hs. pose proof (submit_order_accept_or_reject clock w e request) as Hcase.
  destruct (reject_reason e request) as [msg|]; [|done]. by rewrite Hcase in Hs.
Qed.

(** X5.  An order accepted in a state an execution reaches gets the next
    order id and the fields of its request.  The fills returned are all of
    positive quantity and add up to twice what the order was filled, which
    is never more than it asked for.  The order ends REJECTED (post-only,
    no fill), resting (GFD with quantity left; PENDING if nothing was
    filled, PARTIAL otherwise; registered as active and in the book), FILLED
    (all of its quantity), or CANCELLED (IOC with quantity left); in the
    last two cases, as when rejected, it is not registered as active. *)
Theorem submit_order_outcome ops request :
  let s := run clock ops in
  let res := Engine.submit_order clock s.1 s.2 request in
  OrderResult.success res.2 = true ->
  let order := length (World.heap s.1) in
  let o := deref res.1.1 order in
  let book := Engine.book_of res.1.2 (OrderRequest.instrument_id request) in
  OrderResult.order_id res.2 = Engine.next_order_id_ s.2 /\
  same_order (new_order s.2 request (clock (World.reads s.1))) o /\
  fill_volume (OrderResult.fills res.2) = 2 * Order.filled_quantity o /\
  0 <= Order.filled_quantity o <= OrderRequest.quantity request /\
  Forall (fun f => 0 < Fill.quantity f) (OrderResult.fills res.2) /\
  ((Order.status o = REJECTED /\ OrderRequest.post_only request = true /\
    OrderResult.fills res.2 = [] /\
    Engine.active_orders_ res.1.2 = Engine.active_orders_ s.2) \/
   (Order.status o = (if 0 <? Order.filled_quantity o then PARTIAL else PENDING) /\
    Order.filled_quantity o < OrderRequest.quantity request /\
    OrderRequest.tif request <> IOC /\
    Engine.active_orders_ res.1.2 !! Engine.next_order_id_ s.2 = Some order /\
    order ∈ resting (own (OrderRequest.side request) book)) \/
   (Order.status o = FILLED /\
    Order.filled_quantity o = OrderRequest.quantity request /\
    Engine.active_orders_ res.1.2 = Engine.active_orders_ s.2) \/
   (Order.status o = CANCELLED /\
    Order.filled_quantity o < OrderRequest.quantity request /\
    OrderRequest.tif request = IOC /\
    Engine.active_orders_ res.1.2 = Engine.active_orders_ s.2)).
Proof.
  intros s res Hsucc order o book. subst o book res.
  pose proof (run_books_ok clock ops) as Hok. fold s in Hok.
  destruct s as [w e]. cbn [fst snd] in *.
  pose proof (success_accepted w e request Hsucc) as Hrej.
  destruct (accepted_request e request Hrej) as [Hqty _].
  destruct (submit_order_accepted clock w e request Hrej) as (Hw & Hfills & _ & Hbooks & _).
  destruct (submit_order_registers w e request Hrej) as (Hid & _ & _ & Hact & _).
  destruct (accepted_setup w e request Hok Hrej)
    as ((Hwf2 & Hlive2 & _) & Hbid & Hvo & Ho & Hfresh & _).
  subst order.
  set (o0 := new_order e request (clock (World.reads w))) in *.
  set (w2 := (make_shared _ o0).2) in *.
  set (b0 := Engine.book_of e (OrderRequest.instrument_id request)) in *.
  set (order := length (World.heap w)) in *.
  destruct (add_order_live clock w2 b0 order) as (_ & _ & Hvol & Hle & Hpos);
    [done|done|done|done|rewrite Ho; simpl; lia|].
  pose proof (add_order_outcome clock w2 b0 order Hwf2 Hlive2 Hvo Hfresh) as Hout.
  rewrite Ho in Hout, Hvol, Hle. simpl in Hout, Hvol, Hle.
  specialize (Hout ltac:(lia) ltac:(done)).
  pose proof (add_order_world_le clock w2 b0 order) as [_ Hsame].
  specialize (Hsame order). rewrite Ho in Hsame.
  assert (Engine.book_of (Engine.submit_order clock w e request).1.2
            (OrderRequest.instrument_id request)
          = (OrderBook.add_order clock w2 b0 order).1.2) as Hbook.
  { unfold Engine.book_of. by rewrite Hbooks, lookup_insert_eq. }
  rewrite Hw, Hfills, Hid, Hact, Hbook.
  set (added := OrderBook.add_order clock w2 b0 order) in *.
  assert (Order.id (deref added.1.1 order) = Engine.next_order_id_ e) as Hoid
    by (by destruct Hsame as (-> & _)).
  pose proof (fill_volume_nonneg _ Hpos) as Hnn.
  split; [done|]. split; [done|]. split; [lia|]. split; [lia|]. split; [done|].
  destruct Hout as [(Hst & Hp & Hf & _)|[(Hst & Hlt & Htif & Hown)|
                    [(Hst & Heq & _)|(Hst & Hlt & Htif & _)]]].
  - left. rewrite Hst. simpl. auto.
  - right. left. split; [done|]. split; [done|]. split; [done|].
    assert (bool_decide (Order.status (deref added.1.1 order) = PENDING)
            || bool_decide (Order.status (deref added.1.1 order) = PARTIAL) = true) as ->.
    { rewrite Hst. by destruct (0 <? _). }
    rewrite Hoid, lookup_insert_eq. split; [done|].
    rewrite Hown, resting_level_push. left.
  - right. right. left. rewrite Hst. simpl. auto.
  - right. right. right. rewrite Hst. simpl. auto.
Qed.

(** *** The histories *)

Lemma paired_append (P : Fill.t -> Fill.t -> Prop) fills fills' :
  paired P fills -> paired P fills' -> paired P (fills ++ fills').
Proof.
  induction fills as [|f|a p fills IH] using pairs_ind; simpl; [done|done|].
  intros [Hap H] H'. split; [done|]. by apply IH.
Qed.

Lemma trades_of_app (P : Fill.t -> Fill.t -> Prop) fills fills' :
  paired P fills -> trades_of (fills ++ fills') = trades_of fills ++ trades_of fills'.
Proof.
  induction fills as [|f|a p fills IH] using pairs_ind; simpl; [done|done|].
  intros [_ H]. by rewrite IH.
Qed.

Lemma paired_Forall (P P' : Fill.t -> Fill.t -> Prop) (Q : Fill.t -> Prop) fills :
  (forall a p, P a p -> Q a -> Q p -> P' a p) ->
  paired P fills -> Forall Q fills -> paired P' fills.
Proof.
  intros HP. induction fills as [|f|a p fills IH] using pairs_ind; simpl; [done|done|].
  intros [Hap H] [Ha [Hp Hall]%Forall_cons]%Forall_cons. split; [by apply HP|by apply IH].
Qed.

Lemma cancel_order_history w e order_id user_id :
  let e' := (Engine.cancel_order w e order_id user_id).1.2 in
  Engine.fill_history_ e' = Engine.fill_history_ e /\
  Engine.trade_history_ e' = Engine.trade_history_ e /\
  Engine.next_order_id_ e' = Engine.next_order_id_ e /\
  Stats.total_fills (Engine.stats_ e') = Stats.total_fills (Engine.stats_ e) /\
  Stats.total_orders (Engine.stats_ e') = Stats.total_orders (Engine.stats_ e) /\
  Stats.total_rejects (Engine.stats_ e') = Stats.total_rejects (Engine.stats_ e).
Proof.
  unfold Engine.cancel_order.
  destruct (Engine.active_orders_ e !! order_id) as [order|]; [|done].
  destruct (negb _); [done|].
  destruct (OrderBook.cancel_order _ _ _) as [[w1 book] ok]. by destruct ok.
Qed.

Lemma history_ok_submit_order w e request :
  engine_ok (w, e) -> history_ok e ->
  history_ok (Engine.submit_order clock w e request).1.2.
Proof.
  intros Hok (Hpairs & Htrades & Hfills & Hnext).
  pose proof (submit_order_accept_or_reject clock w e request) as Hcase.
  destruct (reject_reason e request) as [msg|] eqn:Hrej.
  { rewrite Hcase. done. }
  clear Hcase.
  destruct (accepted_request e request Hrej) as [Hqty _].
  destruct (submit_order_registers w e request Hrej)
    as (_ & _ & Hn & _ & _ & Hf & Ht & Hs & Ho & _).
  destruct (accepted_setup w e request Hok Hrej)
    as ((Hwf2 & Hlive2 & _) & Hbid & Hvo & Hnew & Hfresh & _).
  set (o0 := new_order e request (clock (World.reads w))) in *.
  set (w2 := (make_shared _ o0).2) in *.
  set (b0 := Engine.book_of e (OrderRequest.instrument_id request)) in *.
  set (order := length (World.heap w)) in *.
  destruct (add_order_live clock w2 b0 order) as (_ & _ & _ & _ & Hpos);
    [done|done|done|done|rewrite Hnew; simpl; lia|].
  pose proof (add_order_balanced clock w2 b0 order Hwf2) as Hbal.
  set (fills := (OrderBook.add_order clock w2 b0 order).2) in *.
  assert (paired matched_pair fills) as Hm.
  { eapply paired_Forall; [|exact Hbal|exact Hpos].
    intros a p (Ha & Hp & Hprice & Hq & Hside) Hqa _. unfold matched_pair.
    rewrite Ha, Hp. done. }
  split; [rewrite Hf; by apply paired_append|].
  split; [rewrite Ht, Hf, Htrades; symmetry; by eapply trades_of_app|].
  split.
  - rewrite Hs, Hf, Hfills, u64_iter, length_app. f_equal. lia.
  - rewrite Hn, Ho, Hnext. done.
Qed.

Lemma history_ok_step s op :
  engine_ok s /\ history_ok s.2 ->
  engine_ok (step clock s op) /\ history_ok (step clock s op).2.
Proof.
  intros [Hok Hh]. split; [by apply engine_ok_step|]. revert Hok Hh.
  assert (op_ok (fun _ : InstrumentSpec.t D => True) (fun _ _ => True) s op) as Hop
    by (by destruct op).
  revert s op Hop.
  assert (forall s op,
            op_ok (fun _ : InstrumentSpec.t D => True) (fun _ _ => True) s op ->
            engine_ok s /\ history_ok s.2 ->
            engine_ok (step clock s op) /\ history_ok (step clock s op).2) as H;
    [|intros s op Hop Hok Hh; by apply (H s op Hop)].
  apply (step_preserves clock (fun s => engine_ok s /\ history_ok s.2)).
  - intros w e spec _ [Hok Hh].
    split; [apply (engine_ok_step clock (w, e) (Op.AddInstrument spec) Hok)|].
    simpl. unfold Engine.add_instrument.
    by destruct (Engine.instruments_ e !! InstrumentSpec.id spec).
  - intros w e id halted [Hok Hh].
    split; [apply (engine_ok_step clock (w, e) (Op.HaltInstrument id halted) Hok)|].
    simpl. unfold Engine.halt_instrument. by destruct (Engine.instruments_ e !! id).
  - intros w e request _ [Hok Hh].
    split; [by apply engine_ok_submit_order|by apply history_ok_submit_order].
  - intros w e order_id user_id [Hok Hh]. split; [by apply engine_ok_cancel_order|].
    destruct Hh as (Hp & Ht & Hf & Hn).
    destruct (cancel_order_history w e order_id user_id) as (H1 & H2 & H3 & H4 & H5 & _).
    unfold history_ok. cbn [fst snd] in *. rewrite H1, H2, H3, H4, H5. done.
  - intros w e n [Hok Hh]. split; [|done].
    intros id b Hb. destruct (Hok id b Hb) as [Hbok Hid]. split; [|done].
    eapply book_ok_frame; [exact Hbok|]. intros q Hq _. split; [done|apply deref_reads].
  - intros w e id v [Hok Hh].
    split; [apply (engine_ok_step clock (w, e) (Op.SettleInstrument id v) Hok)|].
    simpl. unfold Engine.settle_instrument. by destruct (Engine.instruments_ e !! id).
  - intros w e user_id limits [Hok Hh]. done.
Qed.

(** X6.  In every state an execution reaches the fill history is a
    sequence of pairs, the two fills of a match next to each other: same
    instrument, price and quantity, the quantity positive, the sides
    opposite.  The trade history holds one record per pair, in the same
    order; [total_fills] is the length of the fill history modulo [2^64],
    and [next_order_id_] is [total_orders + 1] modulo [2^64]. *)
Theorem histories_agree ops :
  let e := (run clock ops).2 in
  paired matched_pair (Engine.get_fill_history e) /\
  Engine.get_trade_history e = trades_of (Engine.get_fill_history e) /\
  length (Engine.get_fill_history e) = (2 * length (Engine.get_trade_history e))%nat /\
  Stats.total_fills (Engine.get_stats e)
  = u64 (N.of_nat (length (Engine.get_fill_history e))) /\
  Engine.next_order_id_ e = u64 (Stats.total_orders (Engine.get_stats e) + 1).
Proof.
  intros e.
  assert (engine_ok (run clock ops) /\ history_ok (run clock ops).2) as [_ H].
  { unfold run.
    apply (run_from_preserves clock (fun s => engine_ok s /\ history_ok s.2)
             (fun _ => True) (fun _ _ => True)).
    - intros s op _. apply history_ok_step.
    - apply run_ok_trivial.
    - split; [intros id b; simpl; by rewrite lookup_empty|]. by repeat split. }
  fold e in H. destruct H as (Hp & Ht & Hf & Hn).
  unfold Engine.get_fill_history, Engine.get_trade_history, Engine.get_stats.
  split; [done|]. split; [done|]. split; [|done].
  rewrite Ht. clear -Hp.
  induction (Engine.fill_history_ e) as [|f|a p fills IH] using pairs_ind; simpl in *;
    [done|done|].
  destruct Hp as [_ Hp]. rewrite (IH Hp). lia.
Qed.

End Submit.

(** ** The ledger within the range of [int64_t] *)
Section LedgerRange.
Context {D : Type} `{!DoubleOps D}.
Variable clock : nat -> Timestamp.
Implicit Types (w : World.t) (e : Engine.t D) (b : OrderBook.t).
Implicit Types (P : gmap UserId (gmap InstrumentId (Position.t D))).
Implicit Types (ops : list (Op.t D)) (fills h : list Fill.t) (pos : Position.t D).

Lemma notional_app fills fills' : notional (fills ++ fills') = notional fills + notional fills'.
Proof.
  unfold notional. rewrite fmap_app.
  induction ((fun f => Fill.price f * Fill.quantity f) <$> fills) as [|x l IH]; simpl; lia.
Qed.

Lemma notional_nonneg fills :
  Forall (fun f => 0 <= Fill.price f) fills -> Forall (fun f => 0 < Fill.quantity f) fills ->
  0 <= notional fills.
Proof.
  unfold notional. induction 1 as [|f fills Hp _ IH]; [done|].
  intros [Hq Hall]%Forall_cons. rewrite fmap_cons. cbn [foldr]. specialize (IH Hall). nia.
Qed.

Lemma paired_positive fills :
  paired matched_pair fills -> Forall (fun f => 0 < Fill.quantity f) fills.
Proof.
  induction fills as [|f|a p fills IH] using pairs_ind; simpl; [done|done|].
  intros [(_ & _ & Hq & Ha & _) H]. constructor; [done|]. constructor; [lia|by apply IH].
Qed.

(** What one fill does to a net quantity bounded by [V], with room for the
    fill. *)
Lemma update_position_at_net pos fill V :
  Z.abs (Position.net_qty pos) <= V -> 0 < Fill.quantity fill ->
  V + Fill.quantity fill < 2 ^ 63 ->
  Position.net_qty (Engine.update_position_at pos fill)
  = Position.net_qty pos + signed_quantity fill /\
  Z.abs (Position.net_qty (Engine.update_position_at pos fill)) <= V + Fill.quantity fill.
Proof.
  intros Hnet Hq Hroom.
  assert (Z.abs (signed_quantity fill) = Fill.quantity fill) as Habs
    by (unfold signed_quantity; destruct (Fill.side fill); lia).
  destruct (update_position_at_cases pos fill) as (H0 & Hs & Ho); [lia|lia|].
  assert (Position.net_qty (Engine.update_position_at pos fill)
          = Position.net_qty pos + signed_quantity fill) as Heq.
  { destruct (decide (Position.net_qty pos = 0)) as [Hz|Hnz].
    - destruct (H0 Hz) as (-> & _). lia.
    - destruct (decide (same_sign (Position.net_qty pos) (signed_quantity fill))) as [Hsame|Hdiff].
      + by destruct (Hs Hsame) as (-> & _); [lia|].
      + destruct Ho as (-> & _); [|done]. unfold same_sign, opposite_sign in *. lia. }
  split; [done|]. rewrite Heq. lia.
Qed.

(** What one fill does to an entry price that is not negative, with room
    for the fill in the volume [V] and the notional value [N]. *)
Lemma update_position_at_entry pos fill V N :
  Z.abs (Position.net_qty pos) <= V -> 0 <= N ->
  0 <= Position.vwap pos ->
  Position.vwap pos * Z.abs (Position.net_qty pos) <= N ->
  0 <= Fill.price fill -> 0 < Fill.quantity fill ->
  V + Fill.quantity fill < 2 ^ 63 ->
  N + Fill.price fill * Fill.quantity fill < 2 ^ 63 ->
  0 <= Position.vwap (Engine.update_position_at pos fill) /\
  Position.vwap (Engine.update_position_at pos fill)
  * Z.abs (Position.net_qty (Engine.update_position_at pos fill))
  <= N + Fill.price fill * Fill.quantity fill.
Proof.
  intros Hnet HN Hv Hval Hp Hq HV HNroom.
  assert (Z.abs (signed_quantity fill) = Fill.quantity fill) as Habs
    by (unfold signed_quantity; destruct (Fill.side fill); lia).
  destruct (update_position_at_net pos fill V Hnet Hq HV) as [Hnet' _].
  destruct (update_position_at_cases pos fill) as (H0 & Hs & Ho); [lia|lia|].
  rewrite Hnet'. rewrite Habs in *.
  set (net := Position.net_qty pos) in *. set (q := signed_quantity fill) in *.
  set (vwap := Position.vwap pos) in *. set (price := Fill.price fill) in *.
  set (n := Fill.quantity fill) in *.
  destruct (decide (net = 0)) as [Hz|Hnz].
  { destruct (H0 Hz) as (_ & -> & _). split; [done|]. rewrite Hz. nia. }
  destruct (decide (same_sign net q)) as [Hsame|Hdiff].
  - destruct (Hs Hsame) as (_ & _ & Hvw); [lia|].
    rewrite Hvw by (unfold int64; nia).
    assert (Z.abs (net + q) = Z.abs net + n) as -> by (unfold same_sign in Hsame; lia).
    assert (0 <= vwap * Z.abs net + price * n) as Hsum by nia.
    assert (0 < Z.abs net + n) as Hden by lia.
    split; [by apply Z.quot_pos|].
    assert (Z.abs net + n <> 0) as Hnz' by lia.
    pose proof (Z.mul_quot_le _ _ Hsum Hnz'). nia.
  - assert (opposite_sign net q) as Hopp by (unfold same_sign, opposite_sign in *; lia).
    destruct (Ho Hopp) as (_ & Hkeep & Hflip & _).
    destruct (Z.le_gt_cases n (Z.abs net)) as [Hle|Hgt].
    + rewrite (Hkeep Hle). split; [done|].
      assert (Z.abs (net + q) <= Z.abs net) by (unfold opposite_sign in Hopp; lia). nia.
    + rewrite (Hflip Hgt). split; [done|].
      assert (Z.abs (net + q) <= n) by (unfold opposite_sign in Hopp; lia). nia.
Qed.

(** *** The ledger fill by fill *)

Lemma update_positions_lookup P fill u m i pos :
  update_positions P fill !! u = Some m -> m !! i = Some pos ->
  (u = Fill.user_id fill /\ i = Fill.instrument_id fill /\
   pos = Engine.update_position_at
           (default Position.init
              (default ∅ (P !! Fill.user_id fill) !! Fill.instrument_id fill)) fill) \/
  (exists m0, P !! u = Some m0 /\ m0 !! i = Some pos).
Proof.
  unfold update_positions.
  destruct (decide (Fill.user_id fill = u)) as [<-|Hu].
  - rewrite lookup_insert_eq. intros [= <-].
    destruct (decide (Fill.instrument_id fill = i)) as [<-|Hi].
    + rewrite lookup_insert_eq. intros [= <-]. by left.
    + rewrite lookup_insert_ne by done. intros Hpos. right.
      destruct (P !! Fill.user_id fill) as [m0|]; simpl in *; [eauto|].
      by rewrite lookup_empty in Hpos.
  - rewrite lookup_insert_ne by done. intros Hm Hpos. right. eauto.
Qed.

Lemma nets_bounded_old V P fill :
  nets_bounded V P ->
  Z.abs (Position.net_qty
           (default Position.init
              (default ∅ (P !! Fill.user_id fill) !! Fill.instrument_id fill))) <= V.
Proof.
  intros [HV HP].
  destruct (P !! Fill.user_id fill) as [m0|] eqn:Hu; simpl.
  - destruct (m0 !! Fill.instrument_id fill) as [pos0|] eqn:Hi; simpl; [by eapply HP|lia].
  - rewrite lookup_empty. simpl. lia.
Qed.

Lemma nets_bounded_update V P fill :
  nets_bounded V P -> 0 < Fill.quantity fill -> V + Fill.quantity fill < 2 ^ 63 ->
  nets_bounded (V + Fill.quantity fill) (update_positions P fill).
Proof.
  intros HB Hq Hroom. pose proof HB as [HV HP]. split; [lia|].
  intros u m i pos Hm Hpos.
  destruct (update_positions_lookup P fill u m i pos Hm Hpos)
    as [(_ & _ & ->)|(m0 & Hm0 & Hpos0)].
  - apply (update_position_at_net _ fill V); [by apply nets_bounded_old|done|done].
  - specialize (HP u m0 i pos Hm0 Hpos0). lia.
Qed.

Lemma nets_bounded_fills V P fills :
  nets_bounded V P -> Forall (fun f => 0 < Fill.quantity f) fills ->
  V + fill_volume fills < 2 ^ 63 ->
  nets_bounded (V + fill_volume fills) (foldl update_positions P fills).
Proof.
  intros HB Hall. revert V P HB.
  induction Hall as [|f fills Hq Hall IH]; intros V P HB Hroom.
  { unfold fill_volume. simpl. by rewrite Z.add_0_r. }
  pose proof (fill_volume_nonneg fills Hall) as Hnn.
  unfold fill_volume in *. rewrite fmap_cons in *. cbn [foldr foldl] in *.
  rewrite Z.add_assoc. apply IH; [|lia].
  apply nets_bounded_update; [done|done|lia].
Qed.

Lemma entries_bounded_update V N P fill :
  nets_bounded V P -> entries_bounded N P ->
  0 <= Fill.price fill -> 0 < Fill.quantity fill ->
  V + Fill.quantity fill < 2 ^ 63 ->
  N + Fill.price fill * Fill.quantity fill < 2 ^ 63 ->
  entries_bounded (N + Fill.price fill * Fill.quantity fill) (update_positions P fill).
Proof.
  intros HB [HN HE] Hp Hq HV HNroom. split; [nia|].
  intros u m i pos Hm Hpos.
  destruct (update_positions_lookup P fill u m i pos Hm Hpos)
    as [(_ & _ & ->)|(m0 & Hm0 & Hpos0)].
  - apply (update_position_at_entry _ fill V N); try done.
    + by apply nets_bounded_old.
    + destruct (P !! Fill.user_id fill) as [m0|] eqn:Hu; simpl.
      * destruct (m0 !! Fill.instrument_id fill) as [pos0|] eqn:Hi; simpl; [|done].
        by destruct (HE _ _ _ _ Hu Hi).
      * by rewrite lookup_empty.
    + destruct (P !! Fill.user_id fill) as [m0|] eqn:Hu; simpl.
      * destruct (m0 !! Fill.instrument_id fill) as [pos0|] eqn:Hi; simpl; [|lia].
        by destruct (HE _ _ _ _ Hu Hi).
      * rewrite lookup_empty. simpl. lia.
  - destruct (HE u m0 i pos Hm0 Hpos0). split; [done|nia].
Qed.

Lemma entries_bounded_fills V N P fills :
  nets_bounded V P -> entries_bounded N P ->
  Forall (fun f => 0 <= Fill.price f) fills ->
  Forall (fun f => 0 < Fill.quantity f) fills ->
  V + fill_volume fills < 2 ^ 63 -> N + notional fills < 2 ^ 63 ->
  entries_bounded (N + notional fills) (foldl update_positions P fills).
Proof.
  intros HB HE Hprices Hall. revert V N P HB HE Hprices.
  induction Hall as [|f fills Hq Hall IH]; intros V N P HB HE Hprices HV HN.
  { unfold notional. simpl. by rewrite Z.add_0_r. }
  apply Forall_cons in Hprices as [Hp Hprices].
  pose proof (fill_volume_nonneg fills Hall) as Hvn.
  pose proof (notional_nonneg fills Hprices Hall) as Hnn.
  unfold fill_volume, notional in *. rewrite !fmap_cons in *. cbn [foldr foldl] in *.
  rewrite Z.add_assoc.
  apply (IH (V + Fill.quantity f)); [| |done|lia|lia].
  - apply nets_bounded_update; [done|done|lia].
  - apply (entries_bounded_update V); [done|done|done|done|lia|lia].
Qed.

(** [settle_instrument] resets positions: every bound stays. *)
Lemma settle_user_lookup (inst : InstrumentSpec.t D) id v P u m i pos :
  (Engine.settle_user inst id v <$> P) !! u = Some m -> m !! i = Some pos ->
  (Position.net_qty pos = 0 /\ Position.vwap pos = 0) \/
  (exists m0, P !! u = Some m0 /\ m0 !! i = Some pos).
Proof.
  rewrite lookup_fmap. destruct (P !! u) as [m0|] eqn:Hu; [|done].
  simpl. intros [= <-]. unfold Engine.settle_user.
  destruct (m0 !! id) as [pos0|] eqn:Hid; [|eauto].
  destruct (Position.net_qty pos0 =? 0); [eauto|].
  destruct (decide (i = id)) as [->|Hne].
  - rewrite lookup_insert_eq. intros [= <-]. by left.
  - rewrite lookup_insert_ne by done. eauto.
Qed.

Lemma nets_bounded_settle V P (inst : InstrumentSpec.t D) id v :
  nets_bounded V P -> nets_bounded V (Engine.settle_user inst id v <$> P).
Proof.
  intros [HV HP]. split; [done|]. intros u m i pos Hm Hpos.
  destruct (settle_user_lookup inst id v P u m i pos Hm Hpos) as [[-> _]|(m0 & ? & ?)];
    [lia|by eapply HP].
Qed.

Lemma entries_bounded_settle N P (inst : InstrumentSpec.t D) id v :
  entries_bounded N P -> entries_bounded N (Engine.settle_user inst id v <$> P).
Proof.
  intros [HN HP]. split; [done|]. intros u m i pos Hm Hpos.
  destruct (settle_user_lookup inst id v P u m i pos Hm Hpos) as [[-> ->]|(m0 & ? & ?)];
    [lia|by eapply HP].
Qed.

(** *** The ledger of an execution *)

(** What an accepted order adds to the fill history and to the ledger. *)
Lemma accepted_fills w e request :
  engine_ok (w, e) -> reject_reason e request = None ->
  exists fills,
    paired matched_pair fills /\
    Engine.fill_history_ (Engine.submit_order clock w e request).1.2
    = Engine.fill_history_ e ++ fills /\
    Engine.positions_ (Engine.submit_order clock w e request).1.2
    = foldl update_positions (Engine.positions_ e) fills.
Proof.
  intros Hok Hrej.
  destruct (accepted_request e request Hrej) as [Hqty _].
  destruct (submit_order_accepted clock w e request Hrej) as (_ & _ & _ & _ & Hpos & _).
  destruct (submit_order_registers clock w e request Hrej)
    as (_ & _ & _ & _ & _ & Hf & _).
  destruct (accepted_setup clock w e request Hok Hrej)
    as ((Hwf2 & Hlive2 & _) & Hbid & Hvo & Hnew & Hfresh & _).
  cbv zeta in *.
  set (o0 := new_order e request (clock (World.reads w))) in *.
  set (w2 := (make_shared _ o0).2) in *.
  set (b0 := Engine.book_of e (OrderRequest.instrument_id request)) in *.
  set (order := length (World.heap w)) in *.
  destruct (add_order_live clock w2 b0 order) as (_ & _ & _ & _ & Hpositive);
    [done|done|done|done|rewrite Hnew; simpl; lia|].
  pose proof (add_order_balanced clock w2 b0 order Hwf2) as Hbal.
  exists (OrderBook.add_order clock w2 b0 order).2. split; [|by split].
  eapply paired_Forall; [|exact Hbal|exact Hpositive].
  intros a p (Ha & Hp & Hprice & Hq & Hside) Hqa _. unfold matched_pair.
  rewrite Ha, Hp. done.
Qed.

(** A relation between the fill history and the ledger that starts out, is
    kept when the fills of an order are processed and when an instrument
    is settled, holds in every state an execution reaches. *)
Lemma run_ledger_rule (J : list Fill.t -> gmap UserId (gmap InstrumentId (Position.t D)) -> Prop) :
  J [] ∅ ->
  (forall h P fills,
     J h P -> paired matched_pair h -> paired matched_pair fills ->
     J (h ++ fills) (foldl update_positions P fills)) ->
  (forall h P (inst : InstrumentSpec.t D) id v,
     J h P -> paired matched_pair h -> J h (Engine.settle_user inst id v <$> P)) ->
  forall ops,
    J (Engine.fill_history_ (run clock ops).2) (Engine.positions_ (run clock ops).2).
Proof.
  intros Hinit Hfills Hsettle ops.
  set (I := fun s : World.t * Engine.t D =>
              (engine_ok s /\ history_ok s.2)
              /\ J (Engine.fill_history_ s.2) (Engine.positions_ s.2)).
  assert (I (run clock ops)) as [_ HJ]; [|exact HJ].
  unfold run. apply (run_from_preserves clock I (fun _ => True) (fun _ _ => True)).
  - intros s op Hop [Hok HJ].
    split; [by apply history_ok_step|]. revert s op Hop Hok HJ.
    assert (forall s op,
              op_ok (fun _ : InstrumentSpec.t D => True) (fun _ _ => True) s op ->
              I s -> I (step clock s op)) as Hstep;
      [|intros s op Hop Hok HJ; by apply (Hstep s op Hop (conj Hok HJ))].
    apply (step_preserves clock I).
    + intros w e spec _ [Hok HJ].
      split; [apply (history_ok_step clock (w, e) (Op.AddInstrument spec) Hok)|].
      simpl. unfold Engine.add_instrument.
      by destruct (Engine.instruments_ e !! InstrumentSpec.id spec).
    + intros w e id halted [Hok HJ].
      split; [apply (history_ok_step clock (w, e) (Op.HaltInstrument id halted) Hok)|].
      simpl. unfold Engine.halt_instrument. by destruct (Engine.instruments_ e !! id).
    + intros w e request _ [Hok HJ].
      split; [apply (history_ok_step clock (w, e) (Op.SubmitOrder request) Hok)|].
      pose proof (submit_order_accept_or_reject clock w e request) as Hcase.
      destruct (reject_reason e request) as [msg|] eqn:Hrej.
      { rewrite Hcase. done. }
      destruct (accepted_fills w e request (proj1 Hok) Hrej) as (fills & Hp & -> & ->).
      apply Hfills; [done|apply Hok|done].
    + intros w e order_id user_id [Hok HJ].
      split; [apply (history_ok_step clock (w, e) (Op.CancelOrder order_id user_id) Hok)|].
      destruct (cancel_order_history w e order_id user_id) as (-> & _).
      by destruct (cancel_order_fields w e order_id user_id) as (-> & _).
    + intros w e n [[Hok Hh] HJ]. split; [split; [|done]|done].
      intros id b Hb. destruct (Hok id b Hb) as [Hbok Hid]. split; [|done].
      eapply book_ok_frame; [exact Hbok|]. intros q Hq _. split; [done|apply deref_reads].
    + intros w e id v [Hok HJ].
      split; [apply (history_ok_step clock (w, e) (Op.SettleInstrument id v) Hok)|].
      simpl. unfold Engine.settle_instrument.
      destruct (Engine.instruments_ e !! id); [|done]. simpl.
      apply Hsettle; [done|apply Hok].
    + intros w e user_id limits [Hok HJ]. done.
  - apply run_ok_trivial.
  - split; [split|done].
    + intros id b. simpl. by rewrite lookup_empty.
    + done.
Qed.

(** The fill history of an execution is made of matched pairs. *)
Lemma run_history_paired ops : paired matched_pair (Engine.fill_history_ (run clock ops).2).
Proof.
  apply (run_ledger_rule (fun h _ => paired matched_pair h)).
  - done.
  - intros h P fills Hh _ Hp. by apply paired_append.
  - done.
Qed.

(** In every state an execution reaches whose fills fit the ledger, net
    quantities are bounded by the volume of the fills, entry prices are not
    negative and positions are worth at most the notional value of the
    fills. *)
Lemma run_ledger_bounded ops :
  let e := (run clock ops).2 in
  fill_volume (Engine.fill_history_ e) < 2 ^ 63 ->
  nets_bounded (fill_volume (Engine.fill_history_ e)) (Engine.positions_ e) /\
  (Forall (fun f => 0 <= Fill.price f) (Engine.fill_history_ e) ->
   notional (Engine.fill_history_ e) < 2 ^ 63 ->
   entries_bounded (notional (Engine.fill_history_ e)) (Engine.positions_ e)).
Proof.
  apply (run_ledger_rule
           (fun h P =>
              fill_volume h < 2 ^ 63 ->
              nets_bounded (fill_volume h) P /\
              (Forall (fun f => 0 <= Fill.price f) h -> notional h < 2 ^ 63 ->
               entries_bounded (notional h) P))).
  - intros _. split; [split; [done|]|intros _ _; split; [done|]];
      intros u m i pos; by rewrite lookup_empty.
  - intros h P fills HJ Hh Hp Hvol.
    pose proof (paired_positive _ Hh) as Hhpos. pose proof (paired_positive _ Hp) as Hpos.
    pose proof (fill_volume_nonneg _ Hpos). pose proof (fill_volume_nonneg _ Hhpos).
    rewrite fill_volume_app in *.
    destruct HJ as [HB HE]; [lia|]. split; [by apply nets_bounded_fills|].
    intros [Hph Hpf]%Forall_app Hnot. rewrite notional_app in *.
    pose proof (notional_nonneg _ Hpf Hpos).
    apply (entries_bounded_fills (fill_volume h)); try done. apply HE; [done|lia].
  - intros h P inst id v HJ _ Hvol. destruct (HJ Hvol) as [HB HE].
    split; [by apply nets_bounded_settle|].
    intros Hp Hn. by apply entries_bounded_settle, HE.
Qed.

End LedgerRange.

(** ** The position invariant *)
Section EntryPrices.
Context {D : Type} `{!DoubleOps D}.
Variable clock : nat -> Timestamp.
Implicit Types (e : Engine.t D) (fill : Fill.t).

(** A fill that closes a position exactly leaves its entry price behind. *)
Lemma update_position_at_close (pos : Position.t D) fill :
  Z.abs (Position.net_qty pos) < 2 ^ 63 ->
  Position.net_qty pos <> 0 ->
  Position.net_qty pos + signed_quantity fill = 0 ->
  Position.net_qty (Engine.update_position_at pos fill) = 0 /\
  Position.vwap (Engine.update_position_at pos fill) = Position.vwap pos.
Proof.
  intros Hnet Hnz Hclose.
  destruct (update_position_at_cases pos fill) as (_ & _ & Ho); [done|lia|].
  destruct Ho as (-> & -> & _); [|done|lia].
  unfold opposite_sign. lia.
Qed.

(** C1, as the code has it.  In every state an execution reaches whose
    recorded fills have no negative price and quantities and notional values
    (price times quantity) that add up to less than [2^63], the entry price
    of every position is not negative.  [settle_instrument] keeps the
    invariant [net_qty = 0 => vwap = 0] and [vwap >= 0] of every position.
    [update_position] keeps [vwap >= 0] for a fill at a price that is not
    negative, of a positive quantity, when [|net| + quantity] and
    [vwap * |net| + price * quantity] are below [2^63]; but a fill that
    closes a position exactly leaves [net_qty = 0] with [vwap] still at the
    entry price. *)
Theorem position_invariant_preserved :
  (forall ops u m i pos,
     ledger_fits (Engine.get_fill_history (run clock ops).2) ->
     Engine.positions_ (run clock ops).2 !! u = Some m -> m !! i = Some pos ->
     0 <= Position.vwap pos) /\
  (forall e id v,
     (forall u m i pos, Engine.positions_ e !! u = Some m -> m !! i = Some pos ->
                        position_invariant pos) ->
     forall u m i pos,
       Engine.positions_ (Engine.settle_instrument e id v).1 !! u = Some m ->
       m !! i = Some pos -> position_invariant pos) /\
  (forall e user_id fill,
     let pos := Engine.position_of e user_id (Fill.instrument_id fill) in
     let pos' := Engine.position_of (Engine.update_position e user_id fill) user_id
                   (Fill.instrument_id fill) in
     0 <= Position.vwap pos -> 0 <= Fill.price fill -> 0 < Fill.quantity fill ->
     Z.abs (Position.net_qty pos) + Fill.quantity fill < 2 ^ 63 ->
     Position.vwap pos * Z.abs (Position.net_qty pos)
     + Fill.price fill * Fill.quantity fill < 2 ^ 63 ->
     0 <= Position.vwap pos') /\
  (forall e user_id fill,
     let pos := Engine.position_of e user_id (Fill.instrument_id fill) in
     let pos' := Engine.position_of (Engine.update_position e user_id fill) user_id
                   (Fill.instrument_id fill) in
     Z.abs (Position.net_qty pos) < 2 ^ 63 ->
     Position.net_qty pos <> 0 ->
     Position.net_qty pos + signed_quantity fill = 0 ->
     Position.net_qty pos' = 0 /\ Position.vwap pos' = Position.vwap pos).
Proof.
  split; [|split; [|split]].
  - intros ops u m i pos (Hprices & Hvol & Hnot) Hm Hpos.
    unfold Engine.get_fill_history in *.
    destruct (run_ledger_bounded clock ops Hvol) as [_ HE].
    destruct (HE Hprices Hnot) as [_ HP]. by destruct (HP u m i pos Hm Hpos).
  - apply settle_instrument_invariant.
  - intros e user_id fill pos pos' Hv Hp Hq HV HN. subst pos'.
    rewrite position_of_update_position, decide_True by done. fold pos.
    apply (update_position_at_entry pos fill (Z.abs (Position.net_qty pos))
             (Position.vwap pos * Z.abs (Position.net_qty pos))); try done; nia.
  - intros e user_id fill pos pos' Hnet Hnz Hclose. subst pos'.
    rewrite position_of_update_position, decide_True by done.
    by apply update_position_at_close.
Qed.

End EntryPrices.

(** ** The ledger of net quantities *)
Section NetQuantities.
Context {D : Type} `{!DoubleOps D}.
Variable clock : nat -> Timestamp.
Implicit Types (w : World.t) (e : Engine.t D) (b : OrderBook.t).
Implicit Types (P : gmap UserId (gmap InstrumentId (Position.t D))).
Implicit Types (ops : list (Op.t D)) (fills : list Fill.t) (i : InstrumentId).

Lemma net_in_insert i P u (m' : gmap InstrumentId (Position.t D)) :
  net_in i (<[u := m']> P)
  = net_in i P + from_option Position.net_qty 0 (m' !! i)
    - from_option Position.net_qty 0 (default ∅ (P !! u) !! i).
Proof.
  unfold net_in.
  assert (forall l l' : list (UserId * gmap InstrumentId (Position.t D)),
            l ≡ₚ l' ->
            foldr Z.add 0 ((fun um => from_option Position.net_qty 0 (um.2 !! i)) <$> l)
            = foldr Z.add 0 ((fun um => from_option Position.net_qty 0 (um.2 !! i)) <$> l'))
    as Hperm.
  { intros l l' Hl. apply (sum_perm Z.add 0 Z.add_comm Z.add_assoc).
    by apply fmap_Permutation. }
  assert (map_to_list (<[u := m']> P) ≡ₚ (u, m') :: map_to_list (delete u P)) as HP'.
  { rewrite <- insert_delete_eq. apply map_to_list_insert, lookup_delete_eq. }
  rewrite (Hperm _ _ HP').
  destruct (P !! u) as [m|] eqn:Hu.
  - assert (map_to_list P ≡ₚ (u, m) :: map_to_list (delete u P)) as HP.
    { rewrite <- (insert_id P u m Hu) at 1. rewrite <- insert_delete_eq.
      apply map_to_list_insert, lookup_delete_eq. }
    rewrite (Hperm _ _ HP). rewrite !fmap_cons. simpl. lia.
  - rewrite (delete_id P u Hu). rewrite fmap_cons. simpl. rewrite lookup_empty. simpl. lia.
Qed.

(** A fill moves the net quantities of its instrument by its signed
    quantity, and those of no other instrument, when the ledger has room
    for it. *)
Lemma net_in_update i V P fill :
  nets_bounded V P -> 0 < Fill.quantity fill -> V + Fill.quantity fill < 2 ^ 63 ->
  net_in i (update_positions P fill) = net_in i P + signed_in i fill.
Proof.
  intros HB Hq Hroom.
  unfold update_positions, signed_in. rewrite net_in_insert.
  pose proof (nets_bounded_old V P fill HB) as Hold.
  set (m := default ∅ (P !! Fill.user_id fill)) in *.
  destruct (decide (Fill.instrument_id fill = i)) as [<-|Hne].
  - rewrite lookup_insert_eq. simpl.
    destruct (update_position_at_net _ fill V Hold Hq Hroom) as [-> _].
    destruct (m !! Fill.instrument_id fill); simpl; lia.
  - rewrite lookup_insert_ne by done. lia.
Qed.

Lemma net_in_fills i V P fills :
  nets_bounded V P -> Forall (fun f => 0 < Fill.quantity f) fills ->
  V + fill_volume fills < 2 ^ 63 ->
  net_in i (foldl update_positions P fills)
  = net_in i P + foldr Z.add 0 (signed_in i <$> fills).
Proof.
  intros HB Hall. revert V P HB.
  induction Hall as [|f fills Hq Hall IH]; intros V P HB Hroom; [simpl; lia|].
  pose proof (fill_volume_nonneg fills Hall) as Hnn.
  unfold fill_volume in *. rewrite !fmap_cons in *. cbn [foldl foldr] in *.
  rewrite (IH (V + Fill.quantity f)); [|apply nets_bounded_update; [done|done|lia]|lia].
  rewrite (net_in_update i V) by (done || lia). lia.
Qed.

Lemma signed_in_matched i fills :
  paired matched_pair fills -> foldr Z.add 0 (signed_in i <$> fills) = 0.
Proof.
  induction fills as [|f|a p fills IH] using pairs_ind; [done|done|].
  intros [(Hp & _ & Hq & _ & Hs) H]. rewrite !fmap_cons. cbn [foldr].
  rewrite (IH H). unfold signed_in, signed_quantity.
  rewrite Hp, Hs, Hq. destruct (decide (Fill.instrument_id a = i)); [|lia].
  destruct (Fill.side a); simpl; lia.
Qed.

Lemma net_in_settle i P inst id v :
  net_in i (Engine.settle_user inst id v <$> P) = if decide (i = id) then 0 else net_in i P.
Proof.
  unfold net_in.
  rewrite map_to_list_fmap, <- list_fmap_compose.
  destruct (decide (i = id)) as [->|Hne].
  - induction (map_to_list P) as [|[u m] l IH]; [done|].
    rewrite fmap_cons. cbn [foldr]. rewrite IH. simpl.
    unfold Engine.settle_user. destruct (m !! id) as [pos|] eqn:Hpos; [|by rewrite Hpos].
    destruct (Z.eqb_spec (Position.net_qty pos) 0) as [Hz|Hnz].
    + rewrite Hpos. simpl. lia.
    + by rewrite lookup_insert_eq, settle_position_eq.
  - f_equal. apply list_fmap_ext. intros _ [u m] _. simpl.
    unfold Engine.settle_user. destruct (m !! id) as [pos|]; [|done].
    destruct (Position.net_qty pos =? 0); [done|]. by rewrite lookup_insert_ne.
Qed.

(** X7.  In every state an execution reaches in which the quantities of
    the fills recorded add up to less than [2^63], and for every
    instrument, the net quantities of all users add up to zero: what is
    bought is sold.  ([settle_instrument] keeps it so by resetting every
    position of the instrument to zero.  The bound keeps every net quantity
    a value of [int64_t]; the program adds modulo [2^64].) *)
Theorem net_quantities_cancel ops i :
  fill_volume (Engine.get_fill_history (run clock ops).2) < 2 ^ 63 ->
  net_in i (Engine.positions_ (run clock ops).2) = 0.
Proof.
  unfold Engine.get_fill_history. intros Hvol.
  assert (nets_bounded (fill_volume (Engine.fill_history_ (run clock ops).2))
            (Engine.positions_ (run clock ops).2) /\
          forall j, net_in j (Engine.positions_ (run clock ops).2) = 0) as [_ H];
    [|apply H].
  revert Hvol.
  apply (run_ledger_rule clock
           (fun h P => fill_volume h < 2 ^ 63 ->
                       nets_bounded (fill_volume h) P /\ forall j, net_in j P = 0)).
  - intros _. split; [split; [done|]; intros u m j pos; by rewrite lookup_empty|done].
  - intros h P fills HJ Hh Hp Hvol.
    pose proof (paired_positive _ Hh) as Hhpos. pose proof (paired_positive _ Hp) as Hpos.
    pose proof (fill_volume_nonneg _ Hpos). pose proof (fill_volume_nonneg _ Hhpos).
    rewrite fill_volume_app in *.
    destruct HJ as [HB Hz]; [lia|]. split; [by apply nets_bounded_fills|].
    intros j. rewrite (net_in_fills j (fill_volume h)) by done.
    rewrite signed_in_matched by done. rewrite Hz. lia.
  - intros h P inst id v HJ _ Hvol. destruct (HJ Hvol) as [HB Hz].
    split; [by apply nets_bounded_settle|].
    intros j. rewrite net_in_settle. by destruct (decide (j = id)).
Qed.

End NetQuantities.

(** ** What the views of the ledger show *)
Section Views.
Context {D : Type} `{!DoubleOps D}.
Variable clock : nat -> Timestamp.
Implicit Types (w : World.t) (e : Engine.t D) (s : World.t * Engine.t D).
Implicit Types (m : gmap InstrumentId (Position.t D)) (pos : Position.t D).

Lemma settle_user_again (inst inst' : InstrumentSpec.t D) id v v' m :
  Engine.settle_user inst' id v' (Engine.settle_user inst id v m)
  = Engine.settle_user inst id v m.
Proof.
  unfold Engine.settle_user.
  destruct (m !! id) as [pos|] eqn:Hpos.
  - destruct (Position.net_qty pos =? 0) eqn:Hz.
    + by rewrite Hpos, Hz.
    + by rewrite lookup_insert_eq.
  - by rewrite Hpos.
Qed.

(** X8.  A second [settle_instrument] of the same instrument, at whatever
    value, returns what the first returned and leaves the engine as the
    first left it: the positions were closed by the first, so nothing is
    paid twice. *)
Theorem settle_instrument_twice e id v v' :
  Engine.settle_instrument (Engine.settle_instrument e id v).1 id v'
  = Engine.settle_instrument e id v.
Proof.
  unfold Engine.settle_instrument at 2 3.
  destruct (Engine.instruments_ e !! id) as [inst|] eqn:Hinst; simpl.
  - unfold Engine.settle_instrument. simpl. rewrite lookup_insert_eq.
    f_equal. unfold Engine.set_instruments_, Engine.set_positions_. simpl.
    rewrite insert_insert_eq. f_equal.
    rewrite <- map_fmap_compose. apply map_fmap_ext. intros u m _. simpl.
    apply settle_user_again.
  - unfold Engine.settle_instrument. by rewrite Hinst.
Qed.

(** *** [get_positions] *)

Lemma update_position_at_filed pos fill :
  Position.instrument_id (Engine.update_position_at pos fill) = Fill.instrument_id fill /\
  Position.unrealized_pnl (Engine.update_position_at pos fill) = Position.unrealized_pnl pos.
Proof.
  unfold Engine.update_position_at. cbv zeta.
  destruct (Position.net_qty pos =? 0); [done|].
  destruct (_ || _); [done|].
  by destruct (_ && _).
Qed.

Lemma positions_filed_update P fill :
  positions_filed P -> positions_filed (update_positions P fill).
Proof.
  intros HP u m i pos. unfold update_positions.
  intros [[<- <-]|[Hu Hm]]%lookup_insert_Some; [|by apply (HP u m)].
  intros [[<- <-]|[Hi Hm]]%lookup_insert_Some.
  - destruct (update_position_at_filed
                (default Position.init
                   (default ∅ (P !! Fill.user_id fill) !! Fill.instrument_id fill)) fill)
      as [-> ->].
    split; [done|].
    destruct (P !! Fill.user_id fill) as [m|] eqn:Hm; simpl; [|by rewrite lookup_empty].
    destruct (m !! Fill.instrument_id fill) as [pos|] eqn:Hpos; simpl; [|done].
    by destruct (HP _ m _ pos Hm Hpos).
  - destruct (P !! Fill.user_id fill) as [m|] eqn:HPm; simpl in Hm;
      [|by rewrite lookup_empty in Hm].
    by apply (HP (Fill.user_id fill) m).
Qed.

Lemma positions_filed_settle P (inst : InstrumentSpec.t D) id v :
  positions_filed P -> positions_filed (Engine.settle_user inst id v <$> P).
Proof.
  intros HP u m' i pos. rewrite lookup_fmap.
  destruct (P !! u) as [m|] eqn:Hm; [|done]. simpl. intros [= <-].
  unfold Engine.settle_user.
  destruct (m !! id) as [pos0|] eqn:Hpos0; [|by apply (HP u m)].
  destruct (Position.net_qty pos0 =? 0); [by apply (HP u m)|].
  intros [[<- <-]|[Hi Hpos]]%lookup_insert_Some; [|by apply (HP u m)].
  simpl. split; [|done]. by destruct (HP u m id pos0 Hm Hpos0).
Qed.

Lemma positions_filed_step s op :
  positions_filed (Engine.positions_ s.2) ->
  positions_filed (Engine.positions_ (step clock s op).2).
Proof.
  assert (op_ok (fun _ : InstrumentSpec.t D => True) (fun _ _ => True) s op) as Hop
    by (by destruct op).
  revert s op Hop.
  apply (step_preserves clock (fun s => positions_filed (Engine.positions_ s.2))).
  - intros w e spec _ HP. simpl. unfold Engine.add_instrument.
    by destruct (Engine.instruments_ e !! InstrumentSpec.id spec).
  - intros w e id halted HP. simpl. unfold Engine.halt_instrument.
    by destruct (Engine.instruments_ e !! id).
  - intros w e request _ HP.
    pose proof (submit_order_accept_or_reject clock w e request) as Hcase.
    destruct (reject_reason e request) as [msg|] eqn:Hrej.
    { by rewrite Hcase. }
    destruct (submit_order_accepted clock w e request Hrej) as (_ & _ & _ & _ & -> & _).
    simpl in HP. revert HP. generalize (Engine.positions_ e).
    induction (OrderBook.add_order _ _ _ _).2 as [|f fills IH]; intros P HP; [done|].
    simpl. apply IH. by apply positions_filed_update.
  - intros w e order_id user_id HP.
    by destruct (cancel_order_fields w e order_id user_id) as (-> & _).
  - done.
  - intros w e id v HP. simpl. unfold Engine.settle_instrument.
    destruct (Engine.instruments_ e !! id); [|done]. simpl.
    by apply positions_filed_settle.
  - done.
Qed.

Lemma run_positions_filed ops : positions_filed (Engine.positions_ (run clock ops).2).
Proof.
  unfold run.
  apply (run_from_preserves clock (fun s => positions_filed (Engine.positions_ s.2))
           (fun _ => True) (fun _ _ => True)).
  - intros s op _. apply positions_filed_step.
  - apply run_ok_trivial.
  - intros u m i pos. simpl. by rewrite lookup_empty.
Qed.

#[local] Instance key_le_trans {A : Type} : Transitive (@key_le A).
Proof. intros x y z. unfold key_le. lia. Qed.
#[local] Instance key_le_total {A : Type} : Total (@key_le A).
Proof. intros x y. unfold key_le. lia. Qed.

(** The entries of a map in the order a [std::map] is iterated: each key
    once, ascending. *)
Lemma map_entries_sorted {A : Type} (m : gmap N A) :
  StronglySorted (fun x y => (x.1 < y.1)%N) (merge_sort key_le (map_to_list m)) /\
  forall i x, (i, x) ∈ merge_sort key_le (map_to_list m) <-> m !! i = Some x.
Proof.
  split.
  - assert (NoDup (merge_sort key_le (map_to_list m)).*1) as Hnd.
    { rewrite merge_sort_Permutation. apply NoDup_fst_map_to_list. }
    pose proof (StronglySorted_merge_sort key_le (map_to_list m)) as Hs.
    induction Hs as [|x l Hs IH Hall]; [constructor|].
    rewrite fmap_cons in Hnd. apply NoDup_cons in Hnd as [Hx Hnd].
    constructor; [by apply IH|].
    apply Forall_forall. intros y Hy.
    eapply Forall_forall in Hall; [|exact Hy]. unfold key_le in Hall.
    assert (x.1 <> y.1); [|lia].
    intros Heq. apply Hx. rewrite Heq. by apply list_elem_of_fmap_2.
  - intros i x. rewrite merge_sort_Permutation. apply elem_of_map_to_list.
Qed.

Lemma StronglySorted_filter {A : Type} (R : relation A) (P : A -> Prop)
    `{!forall x, Decision (P x)} (l : list A) :
  StronglySorted R l -> StronglySorted R (filter P l).
Proof.
  induction 1 as [|x l Hs IH Hall]; [constructor|].
  rewrite filter_cons. destruct (decide (P x)); [|done].
  constructor; [done|].
  apply Forall_forall. intros y [_ Hy]%list_elem_of_filter.
  by eapply Forall_forall in Hall.
Qed.

(** The loop of [get_positions] as a filter and a map. *)
Lemma get_positions_eq e u :
  Engine.get_positions e u
  = (fun x => Engine.marked_position e x.1 x.2)
      <$> filter (fun x => Position.net_qty x.2 <> 0)
            (merge_sort key_le (map_to_list (default ∅ (Engine.positions_ e !! u)))).
Proof.
  unfold Engine.get_positions.
  destruct (Engine.positions_ e !! u) as [m|]; simpl; [|by rewrite map_to_list_empty].
  generalize (merge_sort key_le (map_to_list m)). intros l.
  enough (forall acc,
            foldl (fun result '(inst_id, pos) =>
                     if negb (Position.net_qty pos =? 0)
                     then result ++ [Engine.marked_position e inst_id pos]
                     else result) acc l
            = acc ++ ((fun x => Engine.marked_position e x.1 x.2)
                        <$> filter (fun x => Position.net_qty x.2 <> 0) l)) as H
    by apply (H []).
  induction l as [|[i pos] l IH]; intros acc; [by rewrite app_nil_r|].
  cbn [foldl]. rewrite filter_cons. simpl.
  destruct (Z.eqb_spec (Position.net_qty pos) 0) as [Hz|Hz]; simpl; rewrite IH.
  - by destruct (decide (Position.net_qty pos <> 0)).
  - destruct (decide (Position.net_qty pos <> 0)); [|done].
    by rewrite fmap_cons, <- app_assoc.
Qed.

Lemma marked_position_fields e i pos :
  Engine.marked_position e i pos
  = Position.mk (Position.instrument_id pos) (Position.net_qty pos) (Position.vwap pos)
      (Position.realized_pnl pos)
      (if 0 <? Engine.get_mark_price e i
       then unrealized_at (Engine.get_mark_price e i) pos
       else Position.unrealized_pnl pos).
Proof.
  unfold Engine.marked_position, unrealized_at. cbv zeta.
  destruct (0 <? Engine.get_mark_price e i); [done|]. by destruct pos.
Qed.

(** X9.  In every state an execution reaches [get_positions] lists the
    positions of the user whose net quantity is not zero, and no other:
    one per instrument, in ascending order of the instrument, each with
    the net quantity, the entry price and the realized P&L the ledger
    holds for it.  The unrealized P&L listed is computed from the mark
    price of the instrument when that is positive, and zero otherwise. *)
Theorem get_positions_open ops u :
  let e := (run clock ops).2 in
  let held := default ∅ (Engine.positions_ e !! u) in
  StronglySorted (fun p p' => (Position.instrument_id p < Position.instrument_id p')%N)
                 (Engine.get_positions e u) /\
  (forall i pos, held !! i = Some pos -> Position.net_qty pos <> 0 ->
     Position.mk i (Position.net_qty pos) (Position.vwap pos) (Position.realized_pnl pos)
                 (unrealized_at (Engine.get_mark_price e i) pos)
     ∈ Engine.get_positions e u) /\
  (forall p, p ∈ Engine.get_positions e u ->
     Position.net_qty p <> 0 /\
     exists pos, held !! Position.instrument_id p = Some pos /\
       Position.net_qty p = Position.net_qty pos /\
       Position.vwap p = Position.vwap pos /\
       Position.realized_pnl p = Position.realized_pnl pos /\
       Position.unrealized_pnl p
       = unrealized_at (Engine.get_mark_price e (Position.instrument_id p)) pos).
Proof.
  intros e held.
  pose proof (run_positions_filed ops) as HP. fold e in HP.
  assert (forall i pos, held !! i = Some pos ->
            Position.instrument_id pos = i /\ Position.unrealized_pnl pos = d_of_int 0)
    as Hheld.
  { intros i pos. unfold held.
    destruct (Engine.positions_ e !! u) as [m|] eqn:Hm; simpl; [by apply (HP u m)|].
    by rewrite lookup_empty. }
  assert (forall i pos, held !! i = Some pos ->
            Engine.marked_position e i pos
            = Position.mk i (Position.net_qty pos) (Position.vwap pos)
                (Position.realized_pnl pos)
                (unrealized_at (Engine.get_mark_price e i) pos)) as Hmark.
  { intros i pos Hpos. destruct (Hheld i pos Hpos) as [Hi Hu].
    rewrite marked_position_fields, Hi, Hu. f_equal. unfold unrealized_at.
    by destruct (0 <? Engine.get_mark_price e i). }
  rewrite get_positions_eq. fold held.
  destruct (map_entries_sorted held) as [Hsorted Hin].
  split; [|split].
  - apply (StronglySorted_filter _ (fun x => Position.net_qty x.2 <> 0)) in Hsorted.
    assert (Forall (fun x => held !! x.1 = Some x.2)
              (filter (fun x => Position.net_qty x.2 <> 0)
                      (merge_sort key_le (map_to_list held)))) as Hall.
    { apply Forall_forall. intros [i pos] [_ Hx]%list_elem_of_filter. by apply Hin. }
    induction Hsorted as [|[i pos] l Hs IH Hlt]; [constructor|].
    apply Forall_cons in Hall as [Hx Hall]. simpl in Hx.
    rewrite fmap_cons. constructor; [by apply IH|].
    apply Forall_fmap, Forall_forall. intros [j pos'] Hy.
    eapply Forall_forall in Hlt; [|exact Hy].
    eapply Forall_forall in Hall; [|exact Hy]. simpl in *.
    by rewrite (Hmark i pos Hx), (Hmark j pos' Hall).
  - intros i pos Hpos Hne. rewrite <- (Hmark i pos Hpos).
    apply (list_elem_of_fmap_2 (fun x => Engine.marked_position e x.1 x.2) _ (i, pos)).
    apply list_elem_of_filter. split; [done|]. by apply Hin.
  - intros p ([i pos] & -> & [Hne Hpos]%list_elem_of_filter)%list_elem_of_fmap.
    simpl in *. apply Hin in Hpos. rewrite (Hmark i pos Hpos). simpl.
    split; [done|]. by exists pos.
Qed.

End Views.

(** ** The [orders_] map through matching *)
Section Erase.
Variable clock : nat -> Timestamp.
Implicit Types (w : World.t) (b : OrderBook.t) (q order passive : ptr).
Implicit Types (lvl L : list ptr) (fills : list Fill.t) (m : Levels) (s : Side).

Section Fixed.
Variables (w0 : World.t) (R0 : list ptr) (order : ptr) (O1 : gmap OrderId ptr).
Hypothesis R0_nodup : NoDup R0.
Hypothesis R0_order : order ∉ R0.

Lemma erase_inv_step price passive w b L fills w' b' popped f1 f2 :
  fill_inv w0 R0 order w (passive :: L) fills ->
  erase_inv w0 R0 O1 w b (passive :: L) ->
  OrderBook.unfilled w order = true ->
  OrderBook.match_one clock price order passive w b = (w', b', popped, f1, f2) ->
  erase_inv w0 R0 O1 w' b' (if popped then L else passive :: L).
Proof.
  intros (Hle & Hsuf & Hlive & _) [Hgone Hkept] Hun Hm.
  assert (NoDup (passive :: L)) as Hnd.
  { destruct Hsuf as [pre ->]. by apply NoDup_app in R0_nodup as (_ & _ & ?). }
  apply NoDup_cons in Hnd as [HpL _].
  assert (passive ∈ R0) as Hin.
  { destruct Hsuf as [pre ->]. apply elem_of_app. right. left. }
  assert (order <> passive) as Hne by (intros ->; done).
  apply Forall_cons in Hlive as [Hlp _].
  pose proof (unfilled_valid _ _ Hun) as Hvo.
  assert (valid w passive) as Hvp by (by apply live_valid).
  destruct (match_one_world _ _ _ _ _ _ _ _ _ _ _ Hm) as (_ & _ & Hother).
  destruct (match_one_distinct _ _ _ _ _ _ _ _ _ _ _ Hm Hne Hvo Hvp) as (_ & Hp & _).
  rewrite (match_one_book _ _ _ _ _ _ _ _ _ _ _ Hm). cbn [OrderBook.orders_].
  assert (Order.id (deref w passive) = Order.id (deref w0 passive)) as Hid.
  { destruct Hle as [_ Hsame]. by destruct (Hsame passive) as (? & _). }
  assert (forall p, p ∈ R0 -> p <> passive -> deref w' p = deref w p) as Hsame.
  { intros p HpR Hpp. apply Hother; [|done]. by intros ->. }
  destruct popped.
  - split; cbn [OrderBook.orders_].
    + intros p HpR HpL'. destruct (decide (p = passive)) as [->|Hpp].
      * rewrite Hp. simpl. split; [done|]. rewrite <- Hid. apply lookup_delete_eq.
      * rewrite Hsame by done.
        destruct (Hgone p HpR) as [Hst Hnone].
        { intros [->|?]%elem_of_cons; done. }
        split; [done|]. apply lookup_delete_None. by right.
    + intros k Hk. rewrite lookup_delete_ne.
      * apply Hkept. intros p HpR HpL'. apply Hk; [done|].
        intros ?. apply HpL'. by right.
      * rewrite Hid. by apply Hk.
  - split; cbn [OrderBook.orders_].
    + intros p HpR HpL'.
      assert (p <> passive) as Hpp by (intros ->; apply HpL'; left).
      rewrite Hsame by done. by apply Hgone.
    + done.
Qed.

Lemma match_level_erase_inv price (R : list ptr) fuel w b lvl fills w' b' lvl' fills' :
  OrderBook.match_level clock fuel price order w b lvl fills = Some (w', b', lvl', fills') ->
  Order.post_only (deref w0 order) = false ->
  fill_inv w0 R0 order w (lvl ++ R) fills ->
  erase_inv w0 R0 O1 w b (lvl ++ R) ->
  erase_inv w0 R0 O1 w' b' (lvl' ++ R).
Proof.
  intros Heq Hpo HI HE.
  set (I := fun w1 b1 lvl1 fills1 =>
              fill_inv w0 R0 order w1 (lvl1 ++ R) fills1 /\
              erase_inv w0 R0 O1 w1 b1 (lvl1 ++ R)).
  assert (I w' b' lvl' fills') as [_ H]; [|exact H].
  eapply (proj1 (match_level_rule clock price order I _ _ _ _ _ _ _ _ _ _ Heq _)).
  Unshelve.
  - intros w1 b1 passive rest fills1 w2 b2 popped f1 f2 [HI1 HE1] Hun Hm.
    pose proof (fill_inv_step clock w0 R0 order R0_nodup R0_order
                  price passive w1 b1 (rest ++ R) fills1 _ _ _ _ _ HI1 Hpo Hun Hm).
    pose proof (erase_inv_step price passive w1 b1 (rest ++ R) fills1 _ _ _ _ _
                  HI1 HE1 Hun Hm).
    split; by destruct popped.
  - by split.
Qed.

Lemma match_levels_erase_inv s fuel w b fills w' b' fills' :
  OrderBook.match_levels clock fuel s order w b fills = Some (w', b', fills') ->
  fill_inv w0 R0 order w (resting (OrderBook.opposite s b)) fills ->
  erase_inv w0 R0 O1 w b (resting (OrderBook.opposite s b)) ->
  erase_inv w0 R0 O1 w' b' (resting (OrderBook.opposite s b')).
Proof.
  intros Heq HI HE.
  set (I := fun w1 b1 fills1 =>
              fill_inv w0 R0 order w1 (resting (OrderBook.opposite s b1)) fills1 /\
              erase_inv w0 R0 O1 w1 b1 (resting (OrderBook.opposite s b1))).
  assert (I w' b' fills') as [_ H]; [|exact H].
  eapply (match_levels_rule clock s order I); [| |exact Heq|by split].
  - intros w1 b1 price lvl rest fills1 w2 b2 lvl2 fills2 [HI1 HE1] _ Hopp _ Hpo Hlvl.
    assert (Order.post_only (deref w0 order) = false) as Hpo0.
    { destruct HI1 as ([_ Hsame] & _).
      destruct (Hsame order) as (_ & _ & _ & _ & _ & _ & _ & Hp & _). congruence. }
    rewrite Hopp, resting_cons in HI1, HE1.
    unfold I. rewrite opposite_set_opposite, resting_level_tail. split.
    + eapply (match_level_fill_inv clock w0 R0 order R0_nodup R0_order); eauto.
    + assert (erase_inv w0 R0 O1 w2 b2 (lvl2 ++ resting rest)) as HE2
        by (eapply match_level_erase_inv; eauto).
      unfold erase_inv in *.
      by replace (OrderBook.orders_ (OrderBook.set_opposite s _ b2))
        with (OrderBook.orders_ b2) by (by destruct s).
  - intros w1 b1 price lvl rest fills1 [HI1 HE1] Hun _ _ Hpo.
    assert (Order.post_only (deref w0 order) = true) as Hpo0.
    { destruct HI1 as ([_ Hsame] & _).
      destruct (Hsame order) as (_ & _ & _ & _ & _ & _ & _ & Hp & _). congruence. }
    split; [by apply (fill_inv_reject w0 R0 order R0_nodup R0_order)|].
    destruct HE1 as [Hg Hk]. split; [|done].
    intros p HpR HpL. rewrite deref_store_other by (by intros ->). by apply Hg.
Qed.

End Fixed.

(** [add_order] and the [orders_] map: the resting orders it takes off the
    book end FILLED and without an entry; the incoming order has an entry
    unless it was rejected; no other entry changes. *)
Lemma add_order_erase w b order :
  book_wf w b -> book_live w b -> valid w order ->
  (forall s, order ∉ resting (own s b)) ->
  0 <= Order.filled_quantity (deref w order) <= Order.quantity (deref w order) ->
  let s := Order.side (deref w order) in
  let res := OrderBook.add_order clock w b order in
  (forall p, p ∈ resting (OrderBook.opposite s b) ->
     p ∉ resting (OrderBook.opposite s res.1.2) ->
     Order.status (deref res.1.1 p) = FILLED /\
     OrderBook.orders_ res.1.2 !! Order.id (deref w p) = None) /\
  (forall k,
     (forall p, p ∈ resting (OrderBook.opposite s b) ->
        p ∉ resting (OrderBook.opposite s res.1.2) -> Order.id (deref w p) <> k) ->
     OrderBook.orders_ res.1.2 !! k
     = if decide (k = Order.id (deref w order))
       then (if decide (Order.status (deref res.1.1 order) = REJECTED)
             then None else Some order)
       else OrderBook.orders_ b !! k).
Proof.
  intros Hwf Hlive Hv Hfresh Hq s res.
  destruct (add_order_cases clock w b order) as (w1 & b2 & fills & Hml & Hcase).
  fold s in Hml. set (b1 := OrderBook.set_orders_ _ b) in Hml.
  assert (OrderBook.opposite s b1 = OrderBook.opposite s b) as Hb1 by (by destruct s).
  pose proof (proj1 (book_wf_sides _ _) Hwf) as Hsides.
  pose proof (proj1 (book_live_sides _ _) Hlive) as Hls.
  set (R0 := resting (OrderBook.opposite s b)).
  assert (NoDup R0) as Hnd.
  { unfold R0. rewrite <- own_other, <- queue_snd. by destruct (Hsides (other s)) as (_ & ? & _). }
  assert (order ∉ R0) as Hord by (unfold R0; rewrite <- own_other; apply Hfresh).
  assert (fill_inv w R0 order w R0 []) as HI0.
  { apply fill_inv_init; [|lia].
    unfold R0. rewrite <- own_other. by destruct (Hls (other s)). }
  assert (fill_inv w R0 order w1 (resting (OrderBook.opposite s b2)) fills) as HI.
  { eapply (match_levels_fill_inv clock w R0 order Hnd Hord); [exact Hml|]. by rewrite Hb1. }
  assert (erase_inv w R0 (OrderBook.orders_ b1) w1 b2 (resting (OrderBook.opposite s b2)))
    as [Hgone Hkept].
  { eapply (match_levels_erase_inv w R0 order _ Hnd Hord); [exact Hml|by rewrite Hb1|].
    rewrite Hb1. split; [by intros p ? ?|done]. }
  destruct HI as ([Hlen Hsame] & _).
  destruct (Hsame order) as (Hid & _ & _ & Hside & _).
  assert (valid w1 order) as Hv1 by (unfold valid in *; lia).
  assert (Order.side (deref w1 order) = s) as Hs1 by done.
  pose proof (add_to_book_opposite w1 b2 order) as Hopp. rewrite Hs1 in Hopp.
  pose proof (add_to_book_static w1 b2 order) as (_ & Ho2 & _).
  assert (forall k, k <> Order.id (deref w order) ->
            OrderBook.orders_ b1 !! k = OrderBook.orders_ b !! k) as Hne.
  { intros k Hk. subst b1. simpl. by rewrite lookup_insert_ne. }
  assert (OrderBook.orders_ b1 !! Order.id (deref w order) = Some order) as Heq.
  { subst b1. simpl. by rewrite lookup_insert_eq. }
  (* the three endings that leave the entry of the incoming order *)
  assert (forall st b',
            st <> REJECTED ->
            OrderBook.opposite s b' = OrderBook.opposite s b2 ->
            OrderBook.orders_ b' = OrderBook.orders_ b2 ->
            let w' := store w1 order (Order.set_status st (deref w1 order)) in
            (forall p, p ∈ R0 -> p ∉ resting (OrderBook.opposite s b') ->
               Order.status (deref w' p) = FILLED /\
               OrderBook.orders_ b' !! Order.id (deref w p) = None) /\
            (forall k,
               (forall p, p ∈ R0 -> p ∉ resting (OrderBook.opposite s b') ->
                  Order.id (deref w p) <> k) ->
               OrderBook.orders_ b' !! k
               = if decide (k = Order.id (deref w order))
                 then (if decide (Order.status (deref w' order) = REJECTED)
                       then None else Some order)
                 else OrderBook.orders_ b !! k)) as Hkeep.
  { intros st b' Hst Hop Hor w'. rewrite Hop, Hor. split.
    - intros p HpR HpL. unfold w'. rewrite deref_store_other by (by intros ->).
      by apply Hgone.
    - intros k Hk. rewrite (Hkept k Hk). unfold w'. rewrite deref_store_same by done.
      simpl. destruct (decide (k = _)) as [->|Hkk]; [|by apply Hne].
      by destruct (decide (st = REJECTED)). }
  subst res.
  destruct Hcase as [[Hr ->]|[(Hr & Hun & Hi & ->)|[(Hr & Hge & ->)|(Hr & Hun & Hi & ->)]]];
    cbn [fst snd].
  - replace (OrderBook.opposite s (OrderBook.set_orders_ _ b2)) with (OrderBook.opposite s b2)
      by (by destruct s).
    simpl. rewrite Hid. split.
    + intros p HpR HpL. destruct (Hgone p HpR HpL) as [Hst Hnone].
      split; [done|]. apply lookup_delete_None. by right.
    + intros k Hk. destruct (decide (k = _)) as [->|Hkk].
      * rewrite lookup_delete_eq. by destruct (decide (_ = REJECTED)).
      * rewrite lookup_delete_ne by done. rewrite (Hkept k Hk). by apply Hne.
  - apply Hkeep; [by destruct (0 <? _)|done|done].
  - by apply Hkeep.
  - by apply Hkeep.
Qed.

(** What [add_order] does to a book whose resting orders have ids of their
    own, different from the id of the incoming order, and are filed in
    [orders_] under them. *)
Lemma add_order_registry w b order :
  book_wf w b -> book_live w b -> valid w order ->
  (forall s, order ∉ resting (own s b)) ->
  0 <= Order.filled_quantity (deref w order) <= Order.quantity (deref w order) ->
  Order.status (deref w order) <> REJECTED ->
  (forall sd q, q ∈ resting (own sd b) -> Order.id (deref w q) <> Order.id (deref w order)) ->
  (forall sd sd' p q, p ∈ resting (own sd b) -> q ∈ resting (own sd' b) ->
                      Order.id (deref w p) = Order.id (deref w q) -> p = q) ->
  (forall sd q, q ∈ resting (own sd b) ->
                OrderBook.orders_ b !! Order.id (deref w q) = Some q) ->
  let s := Order.side (deref w order) in
  let res := OrderBook.add_order clock w b order in
  let active := Order.status (deref res.1.1 order) = PENDING \/
                Order.status (deref res.1.1 order) = PARTIAL in
  (order ∈ resting (own s res.1.2) <-> active) /\
  (order ∉ resting (OrderBook.opposite s res.1.2)) /\
  (forall sd q, q ∈ resting (own sd b) ->
     q ∈ resting (own sd res.1.2) \/
     (Order.status (deref res.1.1 q) = FILLED /\
      OrderBook.orders_ res.1.2 !! Order.id (deref w q) = None)) /\
  (forall k q, OrderBook.orders_ res.1.2 !! k = Some q ->
     (k = Order.id (deref w order) /\ q = order) \/
     (k <> Order.id (deref w order) /\ OrderBook.orders_ b !! k = Some q)) /\
  (forall sd q, q ∈ resting (own sd res.1.2) ->
     OrderBook.orders_ res.1.2 !! Order.id (deref w q) = Some q).
Proof.
  intros Hwf Hlive Hv Hfresh Hq Hst Hids Hinj Hmap s res active.
  pose proof (add_order_outcome clock w b order Hwf Hlive Hv Hfresh Hq Hst) as Hout.
  destruct (add_order_erase w b order Hwf Hlive Hv Hfresh Hq) as [Hgone Hkept].
  destruct (add_order_sides clock w b order) as (Hsuf & Hown & _).
  fold s in Hout, Hgone, Hkept, Hsuf, Hown. fold res in Hout, Hgone, Hkept, Hsuf, Hown.
  set (R0 := resting (OrderBook.opposite s b)) in *.
  set (L := resting (OrderBook.opposite s res.1.2)) in *.
  assert (order ∉ L) as HoL.
  { intros Hin. apply (Hfresh (other s)). rewrite own_other. fold R0.
    destruct Hsuf as [pre ->]. apply elem_of_app. by right. }
  assert (forall q, q ∈ resting (own s b) -> q ∈ resting (own s res.1.2)) as Hsup.
  { intros q Hin. destruct Hown as [->| ->]; [done|].
    rewrite resting_level_push. by right. }
  assert (order ∈ resting (own s res.1.2) <-> active) as Hact.
  { unfold active.
    destruct Hout as [(Hs & _ & _ & Ho)|[(Hs & _ & _ & Ho)|[(Hs & _ & Ho)|(Hs & _ & _ & Ho)]]];
      rewrite Ho, Hs.
    - split; [by intros ?%Hfresh|by intros [?|?]].
    - rewrite resting_level_push. split; [|intros _; left].
      intros _. destruct (0 <? _); auto.
    - split; [by intros ?%Hfresh|by intros [?|?]].
    - split; [by intros ?%Hfresh|by intros [?|?]]. }
  assert (Order.status (deref res.1.1 order) = REJECTED -> active -> False) as Hrej.
  { unfold active. intros ->. by intros [?|?]. }
  assert (forall p, p ∈ R0 -> p ∉ L -> forall sd q, q ∈ resting (own sd res.1.2) ->
            q <> order -> Order.id (deref w p) <> Order.id (deref w q)) as Hpop.
  { intros p HpR HpL sd q Hin Hqo Heq.
    assert (q ∈ resting (own sd b)) as Hold.
    { destruct (add_order_resting clock w b order sd q Hin); done. }
    assert (p = q) as ->.
    { apply (Hinj (other s) sd); [by rewrite own_other|done|done]. }
    assert (sd = s \/ sd = other s) as [->| ->] by (destruct sd, s; auto).
    - by apply (sides_disjoint w b s q Hwf).
    - rewrite own_other in Hin. done. }
  split; [done|]. split; [done|]. split; [|split].
  - intros sd q Hin.
    assert (sd = s \/ sd = other s) as [->| ->] by (destruct sd, s; auto).
    { left. by apply Hsup. }
    rewrite own_other in Hin. rewrite own_other. fold L.
    destruct (decide (q ∈ L)) as [?|HqL]; [by left|right]. by apply Hgone.
  - intros k q Hk.
    destruct (decide (Exists (fun p => (p ∉ L) /\ Order.id (deref w p) = k) R0)) as [Hex|Hex].
    { apply Exists_exists in Hex as (p & HpR & HpL & <-).
      destruct (Hgone p HpR HpL) as [_ Hnone]. congruence. }
    rewrite Hkept in Hk.
    + destruct (decide (k = _)) as [->|Hkk]; [|by right].
      left. destruct (decide (_ = REJECTED)) as [|Hnr]; [done|].
      by injection Hk as <-.
    + intros p HpR HpL Heq. apply Hex. apply Exists_exists. by exists p.
  - intros sd q Hin.
    destruct (decide (q = order)) as [->|Hqo].
    + assert (active) as Ha.
      { apply Hact. assert (sd = s \/ sd = other s) as [->| ->] by (destruct sd, s; auto);
          [done|]. by rewrite own_other in Hin. }
      rewrite Hkept.
      * rewrite decide_True by done. rewrite decide_False; [done|]. intros Hr. by apply Hrej.
      * intros p HpR HpL. apply (Hids (other s)). by rewrite own_other.
    + assert (q ∈ resting (own sd b)) as Hold.
      { destruct (add_order_resting clock w b order sd q Hin); done. }
      rewrite Hkept.
      * rewrite decide_False by (by apply (Hids sd)). by apply (Hmap sd).
      * intros p HpR HpL. by apply (Hpop p HpR HpL sd q).
Qed.

End Erase.

(** ** The registers of orders in every reachable state *)
Section Registry.
Context {D : Type} `{!DoubleOps D}.
Variable clock : nat -> Timestamp.
Implicit Types (w : World.t) (e : Engine.t D) (b : OrderBook.t) (q order : ptr).
Implicit Types (s : World.t * Engine.t D) (ops : list (Op.t D)).

(** The registers depend on the orders, the registered instruments, the
    books, the two maps of active orders and the id counter only. *)
Lemma registry_ok_ext w e w' e' :
  World.heap w' = World.heap w ->
  Engine.next_order_id_ e' = Engine.next_order_id_ e ->
  (forall id, is_Some (Engine.instruments_ e' !! id) <-> is_Some (Engine.instruments_ e !! id)) ->
  Engine.order_books_ e' = Engine.order_books_ e ->
  Engine.active_orders_ e' = Engine.active_orders_ e ->
  Engine.user_orders_ e' = Engine.user_orders_ e ->
  registry_ok (w, e) -> registry_ok (w', e').
Proof.
  intros Hh Hn Hi Hb Ha Hu ((I1 & I2) & (I3 & I4) & I5 & I6).
  assert (forall q, deref w' q = deref w q) as Hd by (intros q; unfold deref; by rewrite Hh).
  assert (forall q, valid w' q <-> valid w q) as Hv by (intros q; unfold valid; by rewrite Hh).
  assert (forall id, Engine.book_of e' id = Engine.book_of e id) as Hbo
    by (intros id; unfold Engine.book_of; by rewrite Hb).
  unfold registry_ok, ids_ok, instruments_ok, active_ok, orders_ok, rests. cbn [fst snd].
  rewrite Hn, Hb, Ha, Hu.
  setoid_rewrite Hd. setoid_rewrite Hv. setoid_rewrite Hbo. setoid_rewrite Hi.
  done.
Qed.

Lemma registry_ok_add_instrument w e spec :
  registry_ok (w, e) -> registry_ok (w, (Engine.add_instrument e spec).1).
Proof.
  intros HR. unfold Engine.add_instrument.
  destruct (Engine.instruments_ e !! InstrumentSpec.id spec) eqn:Hnew; [done|].
  destruct HR as ((I1 & I2) & (I3 & I4) & I5 & I6). cbn [fst snd] in *.
  set (id0 := InstrumentSpec.id spec) in *.
  assert (Engine.order_books_ e !! id0 = None) as Hnob.
  { apply eq_None_not_Some. rewrite <- I4, Hnew. by intros [? ?]. }
  assert (forall q, valid w q -> Order.instrument_id (deref w q) <> id0) as Hq.
  { intros q Hv Heq. specialize (I3 q Hv). rewrite Heq, Hnew in I3. by destruct I3. }
  split; [done|]. split; [|split].
  - split; simpl.
    + intros q Hv. apply lookup_insert_is_Some. right. split; [by apply not_eq_sym, Hq|by apply I3].
    + intros id. rewrite !lookup_insert_is_Some. split; intros [?|[? ?]]; auto.
      * right. split; [done|]. by apply I4.
      * right. split; [done|]. by apply I4.
  - intros k q Hk. simpl in Hk. destruct (I5 k q Hk) as (Hv & Hid & Hu & Hr).
    split; [done|]. split; [done|]. split; [done|].
    destruct Hr as [Hr|?]; [left|by right].
    unfold rests, Engine.book_of in *. simpl in *.
    rewrite lookup_insert_ne; [done|]. by apply not_eq_sym, Hq.
  - intros id b. simpl.
    intros [[<- <-]|[Hne Hb]]%lookup_insert_Some; [|by apply (I6 id b)].
    simpl. split; [by intros k q; rewrite lookup_empty|].
    split; [intros sd q; by destruct sd; intros ?%elem_of_nil|].
    intros k q. by rewrite lookup_empty.
Qed.

Lemma registry_ok_halt_instrument w e id halted :
  registry_ok (w, e) -> registry_ok (w, (Engine.halt_instrument e id halted).1).
Proof.
  intros HR. unfold Engine.halt_instrument.
  destruct (Engine.instruments_ e !! id) as [inst|] eqn:Hinst; [|done].
  eapply registry_ok_ext; [..|exact HR]; try done.
  intros j. simpl. rewrite lookup_insert_is_Some.
  split; [intros [<-|[_ ?]]; [by rewrite Hinst|done]|].
  intros Hj. destruct (decide (id = j)); auto.
Qed.

Lemma registry_ok_settle_instrument w e id v :
  registry_ok (w, e) -> registry_ok (w, (Engine.settle_instrument e id v).1).
Proof.
  intros HR. unfold Engine.settle_instrument.
  destruct (Engine.instruments_ e !! id) as [inst|] eqn:Hinst; [|done].
  eapply registry_ok_ext; [..|exact HR]; try done.
  intros j. simpl. rewrite lookup_insert_is_Some.
  split; [intros [<-|[_ ?]]; [by rewrite Hinst|done]|].
  intros Hj. destruct (decide (id = j)); auto.
Qed.

(** The ways an [Engine::cancel_order] ends. *)
Lemma cancel_order_cases w e k u :
  let res := Engine.cancel_order w e k u in
  (res = (w, e, false) /\
   forall q, Engine.active_orders_ e !! k = Some q -> Order.user_id (deref w q) <> u) \/
  exists q, Engine.active_orders_ e !! k = Some q /\ Order.user_id (deref w q) = u /\
    let inst := Order.instrument_id (deref w q) in
    let b0 := Engine.book_of e inst in
    (OrderBook.orders_ b0 !! k = None /\
     res = (w, Engine.set_order_books_ (<[inst := b0]> (Engine.order_books_ e)) e, false)) \/
    (exists q0, OrderBook.orders_ b0 !! k = Some q0 /\
       res.2 = true /\
       res.1.1 = (OrderBook.cancel_order w b0 k).1.1 /\
       Engine.order_books_ res.1.2
       = <[inst := (OrderBook.cancel_order w b0 k).1.2]> (Engine.order_books_ e) /\
       Engine.active_orders_ res.1.2 = delete k (Engine.active_orders_ e) /\
       Engine.user_orders_ res.1.2
       = <[u := default ∅ (Engine.user_orders_ e !! u) ∖ {[k]}]> (Engine.user_orders_ e) /\
       Engine.next_order_id_ res.1.2 = Engine.next_order_id_ e /\
       Engine.instruments_ res.1.2 = Engine.instruments_ e /\
       Engine.positions_ res.1.2 = Engine.positions_ e /\
       Engine.risk_limits_ res.1.2 = Engine.risk_limits_ e /\
       Engine.trade_history_ res.1.2 = Engine.trade_history_ e /\
       Engine.fill_history_ res.1.2 = Engine.fill_history_ e /\
       Engine.stats_ res.1.2 = Stats.incr_cancels (Engine.stats_ e)).
Proof.
  intros res. subst res. unfold Engine.cancel_order.
  destruct (Engine.active_orders_ e !! k) as [q|] eqn:Hq; [|by left].
  destruct (decide (Order.user_id (deref w q) = u)) as [Hu|Hu].
  - rewrite bool_decide_eq_true_2 by done. cbn [negb].
    right. exists q. split; [done|]. split; [done|]. cbv zeta.
    set (inst := Order.instrument_id (deref w q)).
    destruct (OrderBook.orders_ (Engine.book_of e inst) !! k) as [q0|] eqn:Hk.
    + right. exists q0. split; [done|].
      destruct (cancel_order_found w (Engine.book_of e inst) k q0 Hk) as (Ht & _).
      destruct (OrderBook.cancel_order w (Engine.book_of e inst) k) as [[w1 b1] ok].
      simpl in Ht. subst ok. done.
    + left. split; [done|]. by rewrite cancel_order_missing.
  - rewrite bool_decide_eq_false_2 by done. left. split; [done|]. by intros ? [= <-].
Qed.

Lemma registry_ok_cancel_order w e k u :
  engine_ok (w, e) -> registry_ok (w, e) ->
  registry_ok (Engine.cancel_order w e k u).1.
Proof.
  intros Hok HR. pose proof HR as ((I1 & I2) & (I3 & I4) & I5 & I6).
  unfold active_ok, orders_ok in I5, I6. cbn [fst snd] in *.
  destruct (cancel_order_cases w e k u) as [[-> _]|(qa & Hqa & Hu & Hcase)]; [done|].
  cbv zeta in Hcase.
  set (inst := Order.instrument_id (deref w qa)) in *.
  set (b0 := Engine.book_of e inst) in *.
  destruct (I5 k qa Hqa) as (Hva & Hida & Huser & Hrest).
  assert (Engine.order_books_ e !! inst = Some b0) as Hb0.
  { destruct (proj1 (I4 inst) (I3 qa Hva)) as [b Hb].
    unfold b0, Engine.book_of. by rewrite Hb. }
  destruct Hcase as [[Hnone ->]|(q0 & Hk & _ & Hw & Hbooks & Hact & Husers & Hnext & Hinst & _)].
  { eapply registry_ok_ext; [..|exact HR]; try done. simpl. by apply insert_id. }
  destruct (Hok inst b0 Hb0) as [(Hwf0 & Hlive0 & Hown0 & _) Hbid]. cbn [fst snd] in *.
  destruct (I6 inst b0 Hb0) as (I6a & I6b & I6c).
  assert (q0 = qa) as ->.
  { destruct (I6c k q0 Hk) as [sd Hsd]; [by rewrite Hqa|].
    destruct (I6b sd q0 Hsd) as [Ha _]. rewrite (I6a k q0 Hk), Hqa in Ha. congruence. }
  destruct (cancel_order_found w b0 k qa Hk) as (_ & Hw' & _ & _ & Hord & _).
  pose proof (fun sd => cancel_order_resting w b0 k qa sd Hwf0 Hk) as Hres.
  pose proof (cancel_order_world_le w b0 k) as Hle.
  destruct (Engine.cancel_order w e k u) as [[w' e'] ok]. cbn [fst snd] in *.
  set (b' := (OrderBook.cancel_order w b0 k).1.2) in *.
  rewrite <- Hw in Hle, Hw'. clear Hw.
  assert (forall q, valid w' q <-> valid w q) as Hv by (intros q; by apply world_le_valid).
  assert (forall q, Order.id (deref w' q) = Order.id (deref w q) /\
                    Order.user_id (deref w' q) = Order.user_id (deref w q) /\
                    Order.instrument_id (deref w' q) = Order.instrument_id (deref w q) /\
                    Order.side (deref w' q) = Order.side (deref w q)) as Hst.
  { intros q. destruct Hle as [_ Hsame].
    by destruct (Hsame q) as (? & ? & ? & ? & _). }
  assert (forall q, q <> qa -> deref w' q = deref w q) as Hother.
  { intros q Hq. rewrite Hw'. by apply deref_store_other. }
  assert (forall id b, Engine.order_books_ e !! id = Some b ->
            forall sd q, q ∈ resting (own sd b) -> Order.instrument_id (deref w q) = id)
    as Hinbook.
  { intros id b Hb sd q Hq. destruct (Hok id b Hb) as [(_ & _ & [Hr _] & _) Hid].
    specialize (Hr sd). eapply Forall_forall in Hr; [|exact Hq]. cbn [fst] in Hr. congruence. }
  split; [|split; [|split]].
  - split; cbn [fst snd].
    + intros q Hq. rewrite Hnext. destruct (Hst q) as (-> & _). by apply I1, Hv.
    + intros p q Hp Hq. destruct (Hst p) as (-> & _). destruct (Hst q) as (-> & _).
      apply I2; by apply Hv.
  - split; cbn [fst snd].
    + intros q Hq. rewrite Hinst. destruct (Hst q) as (_ & _ & -> & _). by apply I3, Hv.
    + intros id. rewrite Hinst, Hbooks, lookup_insert_is_Some, I4.
      split; [intros ?; destruct (decide (inst = id)); by auto|].
      intros [<-|[_ ?]]; [by rewrite Hb0|done].
  - intros k' q. cbn [fst snd]. rewrite Hact, Husers.
    intros [Hkk Hq]%lookup_delete_Some.
    destruct (I5 k' q Hq) as (Hvq & Hidq & Huq & Hrq).
    assert (q <> qa) as Hne by (intros ->; congruence).
    destruct (Hst q) as (Hi1 & Hi2 & Hi3 & Hi4).
    split; [by apply Hv|]. split; [congruence|]. split.
    { rewrite Hi2. destruct (decide (u = Order.user_id (deref w q))) as [Heq|Hnu].
      - rewrite <- Heq in *. rewrite lookup_insert_eq. simpl. apply elem_of_difference.
        split; [done|]. by intros ?%elem_of_singleton.
      - by rewrite lookup_insert_ne. }
    destruct Hrq as [Hrq|Hrq]; [left|right; by rewrite Hother].
    unfold rests in *. cbn [fst snd] in *. rewrite Hi3, Hi4.
    unfold Engine.book_of in *. rewrite Hbooks.
    destruct (decide (inst = Order.instrument_id (deref w q))) as [Heq|Hni].
    + rewrite <- Heq in *. rewrite lookup_insert_eq. simpl. rewrite Hb0 in Hrq. simpl in Hrq.
      fold b'. rewrite Hres. by apply list_elem_of_filter.
    + by rewrite lookup_insert_ne.
  - intros id b. cbn [fst snd]. rewrite Hbooks, Hact.
    intros [[<- <-]|[Hni Hb]]%lookup_insert_Some.
    + split; [|split].
      * intros k' q. rewrite Hord. intros [_ Hq]%lookup_delete_Some.
        destruct (Hst q) as (-> & _). by apply I6a.
      * intros sd q. rewrite Hres. intros [Hne Hq]%list_elem_of_filter.
        destruct (Hst q) as (-> & _). destruct (I6b sd q Hq) as [Ha Ho].
        assert (Order.id (deref w q) <> k) as Hkq by (intros Heq; rewrite Heq, Hqa in Ha; congruence).
        rewrite Hord, !lookup_delete_ne by done. done.
      * intros k' q. rewrite Hord. intros [Hkk Hq]%lookup_delete_Some.
        rewrite lookup_delete_ne by done. intros Ha.
        destruct (I6c k' q Hq Ha) as [sd Hsd]. exists sd. rewrite Hres.
        apply list_elem_of_filter. split; [|done]. intros ->.
        rewrite (I6a k' qa Hq) in Hida. done.
    + destruct (I6 id b Hb) as (J6a & J6b & J6c). split; [|split].
      * intros k' q Hq. destruct (Hst q) as (-> & _). by apply J6a.
      * intros sd q Hq. destruct (Hst q) as (-> & _). destruct (J6b sd q Hq) as [Ha Ho].
        split; [|done]. rewrite lookup_delete_ne; [done|].
        intros Heq. rewrite <- Heq, Hqa in Ha. injection Ha as <-.
        apply Hni. by apply (Hinbook id b Hb sd qa).
      * intros k' q Hq Ha. apply (J6c k' q Hq).
        destruct (decide (k = k')) as [<-|Hkk]; [by rewrite lookup_delete_eq in Ha; destruct Ha|].
        by rewrite lookup_delete_ne in Ha.
Qed.

Lemma u64_small (n : N) : (n < 2 ^ 64)%N -> u64 n = n.
Proof. intros Hn. unfold u64. by apply N.mod_small. Qed.

Lemma resting_valid w b sd q : book_wf w b -> q ∈ resting (own sd b) -> valid w q.
Proof.
  intros Hwf Hin. destruct (proj1 (book_wf_sides _ _) Hwf sd) as (_ & _ & Hall).
  rewrite <- queue_snd in Hin. apply list_elem_of_fmap in Hin as (x & -> & Hx).
  eapply Forall_forall in Hall; [|exact Hx]. by destruct Hall.
Qed.

Lemma registry_ok_submit_order w e request :
  engine_ok (w, e) -> registry_ok (w, e) -> id_room (w, e) ->
  registry_ok (Engine.submit_order clock w e request).1.
Proof.
  intros Hok HR Hroom.
  pose proof (submit_order_accept_or_reject clock w e request) as Hcase.
  destruct (reject_reason e request) as [msg|] eqn:Hrej.
  { rewrite Hcase. eapply registry_ok_ext; [..|exact HR]; done. }
  clear Hcase.
  pose proof HR as ((I1 & I2) & (I3 & I4) & I5 & I6).
  unfold active_ok, orders_ok in I5, I6. unfold id_room in Hroom. cbn [fst snd] in *.
  destruct (submit_order_accepted clock w e request Hrej)
    as (Hw & _ & _ & Hbooks & _ & Hinst & _).
  destruct (submit_order_registers clock w e request Hrej)
    as (_ & _ & Hnext & Hact & Husers & _).
  destruct (accepted_request e request Hrej) as [Hqty [inst [Hreg _]]].
  destruct (accepted_setup clock w e request Hok Hrej)
    as ((Hwf2 & Hlive2 & Hown2 & _) & Hbid & Hvo & Ho & Hfresh & Hw2).
  cbv zeta in *.
  set (o := new_order e request (clock (World.reads w))) in *.
  set (iid := OrderRequest.instrument_id request) in *.
  set (order := length (World.heap w)) in *.
  set (w2 := (make_shared (World.mk (World.heap w) (S (World.reads w))) o).2) in *.
  set (b0 := Engine.book_of e iid) in *.
  set (k0 := Engine.next_order_id_ e) in *.
  assert (Engine.order_books_ e !! iid = Some b0) as Hb0.
  { destruct (proj1 (I4 iid)) as [b Hb]; [by rewrite Hreg|].
    unfold b0, Engine.book_of. by rewrite Hb. }
  destruct (Hok iid b0 Hb0) as [(Hwf0 & _ & Hown0 & _) _]. cbn [fst snd] in *.
  destruct (I6 iid b0 Hb0) as (I6a & I6b & I6c).
  assert (forall sd q, q ∈ resting (own sd b0) -> valid w q) as Hrv
    by (intros sd q; by apply resting_valid).
  assert (Order.id (deref w2 order) = k0) as Hido by (by rewrite Ho).
  destruct (add_order_registry clock w2 b0 order) as (A1 & A2 & A3 & A4 & A5); try done.
  { rewrite Ho. simpl. lia. }
  { by rewrite Ho. }
  { intros sd q Hq. rewrite Hido. destruct (Hw2 q (Hrv sd q Hq)) as [_ ->].
    pose proof (I1 q (Hrv sd q Hq)). lia. }
  { intros sd sd' p q Hp Hq.
    destruct (Hw2 p (Hrv sd p Hp)) as [_ ->]. destruct (Hw2 q (Hrv sd' q Hq)) as [_ ->].
    apply I2; eauto. }
  { intros sd q Hq. destruct (Hw2 q (Hrv sd q Hq)) as [_ ->]. by apply (I6b sd). }
  destruct (add_order_wf clock w2 b0 order) as (_ & Hle3 & _); [done|done| |].
  { rewrite queue_snd. apply Hfresh. }
  destruct (add_order_live clock w2 b0 order) as (_ & Hframe3 & _);
    [done|done|done|done|rewrite Ho; simpl; lia|].
  pose proof (add_order_resting clock w2 b0 order) as Hres3.
  rewrite Hido in A4.
  set (s := Order.side (deref w2 order)) in *.
  set (added := OrderBook.add_order clock w2 b0 order) in *.
  set (w3 := added.1.1) in *. set (b3 := added.1.2) in *.
  destruct (Engine.submit_order clock w e request) as [[w' e'] r]. cbn [fst snd] in *.
  subst w'.
  assert (forall q, valid w3 q <-> valid w q \/ q = order) as Hv3.
  { intros q. rewrite (world_le_valid _ _ _ Hle3).
    unfold valid, w2, make_shared, order. simpl. rewrite length_app. simpl. lia. }
  assert (forall q, valid w q -> q <> order) as Hold.
  { intros q Hq ->. unfold valid, order in Hq. lia. }
  assert (forall q, valid w q -> same_order (deref w q) (deref w3 q)) as Hs3.
  { intros q Hq. destruct Hle3 as [_ Hsame]. specialize (Hsame q).
    by destruct (Hw2 q Hq) as [_ <-]. }
  assert (same_order o (deref w3 order)) as Ho3.
  { destruct Hle3 as [_ Hsame]. specialize (Hsame order). by rewrite Ho in Hsame. }
  assert (Order.id (deref w3 order) = k0) as Hid3 by (by destruct Ho3 as (-> & _)).
  assert (Engine.next_order_id_ e' = (k0 + 1)%N) as Hnext'.
  { rewrite Hnext. by apply u64_small. }
  assert (Engine.active_orders_ e !! k0 = None) as Hfree.
  { destruct (Engine.active_orders_ e !! k0) as [q|] eqn:Hq; [|done].
    destruct (I5 k0 q Hq) as (Hvq & Hidq & _). pose proof (I1 q Hvq). lia. }
  set (act := bool_decide (Order.status (deref w3 order) = PENDING)
              || bool_decide (Order.status (deref w3 order) = PARTIAL)) in *.
  assert (act = true <-> order ∈ resting (own s b3)) as Hactp.
  { rewrite A1. unfold act. rewrite orb_true_iff, !bool_decide_eq_true. done. }
  assert (Engine.book_of e' iid = b3) as Hbook3.
  { unfold Engine.book_of. by rewrite Hbooks, lookup_insert_eq. }
  assert (forall id, id <> iid -> Engine.book_of e' id = Engine.book_of e id) as Hbook.
  { intros id Hne. unfold Engine.book_of. by rewrite Hbooks, lookup_insert_ne. }
  assert (forall k q, Engine.active_orders_ e' !! k = Some q ->
            (k = k0 /\ q = order /\ act = true) \/
            (k <> k0 /\ Engine.active_orders_ e !! k = Some q)) as Hact'.
  { intros k q. rewrite Hact, Hid3. destruct act.
    - intros [[<- <-]|[? ?]]%lookup_insert_Some; auto.
    - intros Hk. right. split; [|done]. intros ->. congruence. }
  assert (forall k q, k <> k0 -> Engine.active_orders_ e !! k = Some q ->
            Engine.active_orders_ e' !! k = Some q) as Hact''.
  { intros k q Hk Hq. rewrite Hact, Hid3. destruct act; [|done].
    by rewrite lookup_insert_ne. }
  assert (forall id b sd q, Engine.order_books_ e !! id = Some b ->
            q ∈ resting (own sd b) ->
            valid w q /\ Order.instrument_id (deref w q) = id) as Hinbook.
  { intros id b sd q Hb Hq. destruct (Hok id b Hb) as [(Hwfb & _ & [Hr _] & _) Hid].
    cbn [fst snd] in *. split; [by eapply resting_valid|].
    specialize (Hr sd). eapply Forall_forall in Hr; [|exact Hq]. congruence. }
  split; [|split; [|split]].
  - (* ids *)
    split; cbn [fst snd].
    + intros q [Hq| ->]%Hv3.
      * destruct (Hs3 q Hq) as (-> & _). pose proof (I1 q Hq). lia.
      * rewrite Hid3. lia.
    + intros p q [Hp| ->]%Hv3 [Hq| ->]%Hv3.
      * destruct (Hs3 p Hp) as (-> & _). destruct (Hs3 q Hq) as (-> & _). by apply I2.
      * destruct (Hs3 p Hp) as (-> & _). rewrite Hid3. pose proof (I1 p Hp). lia.
      * destruct (Hs3 q Hq) as (-> & _). rewrite Hid3. pose proof (I1 q Hq). lia.
      * done.
  - (* instruments *)
    split; cbn [fst snd].
    + intros q [Hq| ->]%Hv3; rewrite Hinst.
      * destruct (Hs3 q Hq) as (_ & _ & -> & _). by apply I3.
      * destruct Ho3 as (_ & _ & -> & _). simpl. fold iid. by rewrite Hreg.
    + intros id. rewrite Hinst, Hbooks, lookup_insert_is_Some, I4.
      split; [intros ?; destruct (decide (iid = id)); by auto|].
      intros [<-|[_ ?]]; [by rewrite Hb0|done].
  - (* active orders *)
    intros k q. cbn [fst snd]. intros [(-> & -> & Ha)|[Hk Hq]]%Hact'.
    + split; [apply Hv3; by right|]. split; [done|].
      destruct Ho3 as (_ & Hu3 & Hi3 & Hsd3 & _). simpl in Hu3, Hi3, Hsd3.
      split.
      { rewrite Husers, Hid3. fold act. rewrite Ha, Hu3, lookup_insert_eq. simpl.
        apply elem_of_union. right. by apply elem_of_singleton. }
      left. unfold rests. cbn [fst snd]. rewrite Hi3, Hsd3. fold iid. rewrite Hbook3.
      apply Hactp in Ha. unfold s in Ha. by rewrite Ho in Ha.
    + destruct (I5 k q Hq) as (Hvq & Hidq & Huq & Hrq).
      destruct (Hs3 q Hvq) as (Hi1 & Hi2 & Hi3 & Hi4 & _).
      split; [apply Hv3; by left|]. split; [congruence|]. split.
      { rewrite Husers, Hi2. fold act. destruct act; [|done].
        destruct (decide (OrderRequest.user_id request = Order.user_id (deref w q)))
          as [Heq|Hnu].
        - rewrite Heq, lookup_insert_eq. simpl. apply elem_of_union. by left.
        - by rewrite lookup_insert_ne. }
      assert (deref w2 q = deref w q) as Hq2 by (by destruct (Hw2 q Hvq)).
      destruct Hrq as [Hrq|Hrq].
      * unfold rests in *. cbn [fst snd] in *. rewrite Hi3, Hi4.
        destruct (decide (Order.instrument_id (deref w q) = iid)) as [Heq|Hni];
          [|left; by rewrite Hbook].
        rewrite Heq in *. rewrite Hbook3. fold b0 in Hrq.
        destruct (A3 _ q Hrq) as [?|[? _]]; auto.
      * right. rewrite Hframe3; [by rewrite Hq2|by apply Hold|].
        intros Hin. rewrite <- own_other in Hin.
        destruct (proj1 (book_live_sides _ _) Hlive2 (other s)) as [_ Hl].
        eapply Forall_forall in Hl; [|exact Hin]. destruct Hl as [_ Hl].
        rewrite Hq2, Hrq in Hl. by destruct (0 <? _).
  - (* books *)
    intros id b. cbn [fst snd]. rewrite Hbooks.
    intros [[<- <-]|[Hni Hb]]%lookup_insert_Some.
    + split; [|split].
      * intros k q [[-> ->]|[Hk Hq]]%A4; [done|].
        destruct (proj2 Hown0 k q Hq) as [Hvq _].
        destruct (Hs3 q Hvq) as (-> & _). by apply I6a.
      * intros sd q Hq. specialize (A5 sd q Hq).
        destruct (Hres3 sd q Hq) as [->|Hq0].
        -- rewrite Hid3. rewrite Hido in A5. split; [|done].
           rewrite Hact, Hid3. fold act.
           assert (act = true) as ->; [|by rewrite lookup_insert_eq].
           apply Hactp. assert (sd = s \/ sd = other s) as [->| ->] by (destruct sd, s; auto);
             [done|]. by rewrite own_other in Hq.
        -- pose proof (Hrv sd q Hq0) as Hvq.
           destruct (Hs3 q Hvq) as (-> & _). destruct (Hw2 q Hvq) as [_ Hq2].
           rewrite Hq2 in A5. split; [|done].
           destruct (I6b sd q Hq0) as [Ha _]. apply Hact''; [|done].
           pose proof (I1 q Hvq). lia.
      * intros k q Hq3 Ha. destruct (A4 k q Hq3) as [[-> ->]|[Hk Hq]].
        -- exists s. apply Hactp. destruct Ha as [q Ha].
           apply Hact' in Ha as [(_ & _ & ?)|[? _]]; done.
        -- destruct (proj2 Hown0 k q Hq) as [Hvq _].
           destruct (I6c k q Hq) as [sd Hsd].
           { destruct Ha as [q' Ha]. apply Hact' in Ha as [(? & _)|[_ Ha]]; [done|by eexists]. }
           destruct (Hw2 q Hvq) as [_ Hq2].
           destruct (A3 sd q Hsd) as [?|[_ Hnone]]; [by exists sd|].
           rewrite Hq2, (I6a k q Hq) in Hnone. congruence.
    + destruct (I6 id b Hb) as (J6a & J6b & J6c).
      destruct (Hok id b Hb) as [(_ & _ & [_ Hm] & _) _]. cbn [fst snd] in *.
      split; [|split].
      * intros k q Hq. destruct (Hm k q Hq) as [Hvq _].
        destruct (Hs3 q Hvq) as (-> & _). by apply J6a.
      * intros sd q Hq. destruct (Hinbook id b sd q Hb Hq) as [Hvq _].
        destruct (Hs3 q Hvq) as (-> & _). destruct (J6b sd q Hq) as [Ha ?].
        split; [|done]. apply Hact''; [|done]. pose proof (I1 q Hvq). lia.
      * intros k q Hq Ha. apply (J6c k q Hq).
        destruct Ha as [q' Ha]. apply Hact' in Ha as [(-> & _)|[_ Ha]]; [|by eexists].
        destruct (Hm k0 q Hq) as [Hvq _]. pose proof (I1 q Hvq) as Hlt.
        rewrite (J6a k0 q Hq) in Hlt. lia.
Qed.

(** *** Executions whose order ids do not wrap around *)

Lemma next_order_id_cancel_order w e k u :
  Engine.next_order_id_ (Engine.cancel_order w e k u).1.2 = Engine.next_order_id_ e.
Proof.
  destruct (cancel_order_cases w e k u) as [[-> _]|(q & _ & _ & [[_ ->]|(q0 & _ & H)])];
    [done|done|]. by destruct H as (_ & _ & _ & _ & _ & -> & _).
Qed.

Lemma next_order_id_submit_order w e request :
  (Engine.next_order_id_ (Engine.submit_order clock w e request).1.2
   <= Engine.next_order_id_ e + 1)%N.
Proof.
  pose proof (submit_order_accept_or_reject clock w e request) as Hcase.
  destruct (reject_reason e request) as [msg|] eqn:Hrej.
  { rewrite Hcase. simpl. lia. }
  destruct (submit_order_registers clock w e request Hrej) as (_ & _ & -> & _).
  unfold u64. apply N.Div0.mod_le.
Qed.

Lemma next_order_id_step s op :
  (Engine.next_order_id_ (step clock s op).2 <= Engine.next_order_id_ s.2 + 1)%N.
Proof.
  destruct s as [w e]. destruct op; simpl.
  - unfold Engine.add_instrument. destruct (_ !! _); simpl; lia.
  - unfold Engine.halt_instrument. destruct (_ !! _); simpl; lia.
  - apply next_order_id_submit_order.
  - rewrite next_order_id_cancel_order. lia.
  - destruct (replace_order_cases clock w e order_id user_id new_price new_qty)
      as [->|[->|(w1 & e1 & request & _ & Hc & ->)]].
    + simpl. lia.
    + rewrite next_order_id_cancel_order. lia.
    + etrans; [apply next_order_id_submit_order|].
      replace e1 with (Engine.cancel_order w e order_id user_id).1.2 by (by rewrite <- Hc).
      by rewrite next_order_id_cancel_order.
  - assert (Engine.next_order_id_ (Engine.cancel_all w e user_id).1.2
            = Engine.next_order_id_ e) as ->; [|lia].
    apply (cancel_all_rule (fun s => Engine.next_order_id_ s.2 = Engine.next_order_id_ e));
      [|done].
    intros w1 e1 k H. by rewrite next_order_id_cancel_order.
  - lia.
  - unfold Engine.settle_instrument. destruct (_ !! _); simpl; lia.
  - lia.
Qed.

Lemma run_ok_id_room ops s :
  (Engine.next_order_id_ s.2 + N.of_nat (length ops) < 2 ^ 64)%N ->
  run_ok clock (fun _ => True) (fun s _ => id_room s) s ops.
Proof.
  revert s. induction ops as [|op ops IH]; intros s Hlen; [done|].
  cbn [length] in Hlen. split.
  - destruct op; try done.
    + unfold op_ok, id_room. lia.
    + intros w e request Hreq. unfold id_room. cbn [snd].
      assert (Engine.next_order_id_ e = Engine.next_order_id_ s.2) as ->; [|lia].
      unfold replace_request in Hreq.
      destruct (Engine.active_orders_ s.2 !! order_id); [|done].
      destruct (negb _); [done|].
      pose proof (next_order_id_cancel_order s.1 s.2 order_id user_id) as Hn.
      destruct (Engine.cancel_order s.1 s.2 order_id user_id) as [[w1 e1] c].
      destruct (negb c); [done|]. by injection Hreq as <- <- <-.
  - apply IH. pose proof (next_order_id_step s op). lia.
Qed.

Lemma registry_ok_init : registry_ok (World.init, Engine.init (D := D)).
Proof.
  assert (forall q, valid World.init q -> False) as Hv by (unfold valid; simpl; lia).
  split; [|split; [|split]].
  - split; intros; by destruct (Hv q).
  - split; [intros; by destruct (Hv q)|].
    intros id. simpl. by rewrite !lookup_empty.
  - intros k q. simpl. by rewrite lookup_empty.
  - intros id b. simpl. by rewrite lookup_empty.
Qed.

Lemma registry_ok_step s op :
  op_ok (fun _ => True) (fun s _ => id_room s) s op ->
  engine_ok s /\ registry_ok s ->
  engine_ok (step clock s op) /\ registry_ok (step clock s op).
Proof.
  revert s op.
  apply (step_preserves clock (fun s => engine_ok s /\ registry_ok s)
           (fun _ => True) (fun s _ => id_room s)).
  - intros w e spec _ [Hok HR].
    split; [apply (engine_ok_step clock (w, e) (Op.AddInstrument spec) Hok)|].
    by apply registry_ok_add_instrument.
  - intros w e id halted [Hok HR].
    split; [apply (engine_ok_step clock (w, e) (Op.HaltInstrument id halted) Hok)|].
    by apply registry_ok_halt_instrument.
  - intros w e request Hroom [Hok HR].
    split; [by apply engine_ok_submit_order|by apply registry_ok_submit_order].
  - intros w e k u [Hok HR].
    split; [by apply engine_ok_cancel_order|by apply registry_ok_cancel_order].
  - intros w e n [Hok HR]. split.
    + intros id b Hb. destruct (Hok id b Hb) as [Hbok Hid]. split; [|done].
      eapply book_ok_frame; [exact Hbok|]. intros q Hq _. split; [done|apply deref_reads].
    + eapply registry_ok_ext; [..|exact HR]; done.
  - intros w e id v [Hok HR].
    split; [apply (engine_ok_step clock (w, e) (Op.SettleInstrument id v) Hok)|].
    by apply registry_ok_settle_instrument.
  - intros w e u limits [Hok HR]. split; [done|].
    eapply registry_ok_ext; [..|exact HR]; done.
Qed.

(** Every state reached before the order ids wrap around keeps its
    registers in order. *)
Lemma run_registry_ok ops :
  ids_suffice ops -> engine_ok (run clock ops) /\ registry_ok (run clock ops).
Proof.
  intros Hlen. unfold run.
  apply (run_from_preserves clock (fun s => engine_ok s /\ registry_ok s)
           (fun _ => True) (fun s _ => id_room s)).
  - apply registry_ok_step.
  - apply run_ok_id_room. unfold ids_suffice in Hlen. simpl. lia.
  - split; [|apply registry_ok_init]. intros id b. simpl. by rewrite lookup_empty.
Qed.

End Registry.

(** ** Cancelling, and the orders the engine lists *)
Section ActiveOrders.
Context {D : Type} `{!DoubleOps D}.
Variable clock : nat -> Timestamp.
Implicit Types (w : World.t) (e : Engine.t D) (b : OrderBook.t) (q order : ptr).
Implicit Types (s : World.t * Engine.t D) (ops : list (Op.t D)).

(** The book of a registered order exists, and an order that rests in it
    is live and filed under its id. *)
Lemma active_book s k q :
  engine_ok s -> registry_ok s ->
  Engine.active_orders_ s.2 !! k = Some q ->
  let b0 := Engine.book_of s.2 (Order.instrument_id (deref s.1 q)) in
  Engine.order_books_ s.2 !! Order.instrument_id (deref s.1 q) = Some b0 /\
  valid s.1 q /\ Order.id (deref s.1 q) = k /\
  (rests s q <-> OrderBook.orders_ b0 !! k = Some q) /\
  (rests s q <-> Order.status (deref s.1 q) <> FILLED) /\
  (forall q0, OrderBook.orders_ b0 !! k = Some q0 -> q0 = q).
Proof.
  intros Hok ((I1 & I2) & (I3 & I4) & I5 & I6) Hq b0.
  destruct (I5 k q Hq) as (Hv & Hid & _ & Hr).
  assert (Engine.order_books_ s.2 !! Order.instrument_id (deref s.1 q) = Some b0) as Hb0.
  { destruct (proj1 (I4 _) (I3 q Hv)) as [b Hb]. unfold b0, Engine.book_of. by rewrite Hb. }
  destruct (I6 _ b0 Hb0) as (I6a & I6b & I6c).
  destruct (Hok _ b0 Hb0) as [(Hwf & Hlive & _) _].
  assert (forall q0, OrderBook.orders_ b0 !! k = Some q0 -> q0 = q /\ rests s q) as Hkey.
  { intros q0 Hk. destruct (I6c k q0 Hk) as [sd Hsd]; [by rewrite Hq|].
    destruct (I6b sd q0 Hsd) as [Ha _]. rewrite (I6a k q0 Hk), Hq in Ha.
    injection Ha as ->. split; [done|]. unfold rests. fold b0.
    destruct (proj1 (book_wf_sides _ _) Hwf sd) as (_ & _ & Hall).
    rewrite <- queue_snd in Hsd. apply list_elem_of_fmap in Hsd as (x & Hx & Hin).
    eapply Forall_forall in Hall; [|exact Hin]. destruct Hall as (_ & Hside & _).
    rewrite Hx, Hside, <- queue_snd. apply list_elem_of_fmap. by exists x. }
  assert (rests s q -> Order.status (deref s.1 q) <> FILLED) as Hnf.
  { unfold rests. fold b0. intros Hin.
    destruct (proj1 (book_live_sides _ _) Hlive (Order.side (deref s.1 q))) as [_ Hl].
    eapply Forall_forall in Hl; [|exact Hin]. destruct Hl as [_ ->]. by destruct (0 <? _). }
  split; [done|]. split; [done|]. split; [done|]. split; [|split].
  - split; [|by intros [_ ?]%Hkey].
    unfold rests. fold b0. intros Hin. destruct (I6b _ q Hin) as [_ Ho]. by rewrite Hid in Ho.
  - split; [done|]. intros Hs. by destruct Hr.
  - intros q0 Hk. by destruct (Hkey q0 Hk).
Qed.

Lemma rests_active s q :
  registry_ok s -> rests s q ->
  Engine.active_orders_ s.2 !! Order.id (deref s.1 q) = Some q.
Proof.
  intros (_ & _ & _ & I6) Hq. unfold rests, Engine.book_of in Hq.
  destruct (Engine.order_books_ s.2 !! Order.instrument_id (deref s.1 q)) as [b|] eqn:Hb;
    simpl in Hq; [|destruct (Order.side _); by apply elem_of_nil in Hq].
  destruct (I6 _ b Hb) as (_ & I6b & _). by destruct (I6b _ q Hq).
Qed.

(** [Engine::cancel_order] in a state whose books and registers are in
    order. *)
Lemma cancel_order_at s k u :
  engine_ok s -> registry_ok s ->
  let res := Engine.cancel_order s.1 s.2 k u in
  (res.2 = true <->
   exists q, Engine.active_orders_ s.2 !! k = Some q /\
             Order.user_id (deref s.1 q) = u /\ Order.status (deref s.1 q) <> FILLED) /\
  (res.2 = false -> res.1 = s) /\
  (forall q, res.2 = true -> Engine.active_orders_ s.2 !! k = Some q ->
     rests s q /\
     deref res.1.1 q = Order.set_status CANCELLED (deref s.1 q) /\
     (forall p, p <> q -> deref res.1.1 p = deref s.1 p) /\
     Engine.active_orders_ res.1.2 = delete k (Engine.active_orders_ s.2) /\
     (forall id sd,
        resting (own sd (Engine.book_of res.1.2 id))
        = filter (fun p => p <> q) (resting (own sd (Engine.book_of s.2 id)))) /\
     Engine.positions_ res.1.2 = Engine.positions_ s.2 /\
     Stats.total_cancels (Engine.get_stats res.1.2)
     = u64 (Stats.total_cancels (Engine.get_stats s.2) + 1)).
Proof.
  intros Hok HR res. subst res.
  destruct s as [w e]. cbn [fst snd] in *.
  destruct (cancel_order_cases w e k u) as [[-> Hno]|(qa & Hqa & Hu & Hcase)].
  { cbn [fst snd]. split; [|done]. split; [done|]. intros (q & Hq & Hqu & _). by destruct (Hno q). }
  destruct (active_book (w, e) k qa Hok HR Hqa) as (Hb0 & Hva & Hida & Hro & Hrs & Hq0).
  cbv zeta in Hcase, Hb0, Hro, Hq0. cbn [fst snd] in *.
  set (inst := Order.instrument_id (deref w qa)) in *.
  set (b0 := Engine.book_of e inst) in *.
  destruct Hcase as [[Hnone ->]|(q0 & Hk & Ht & Hw & Hbooks & Hact & _ & _ & _ & Hpos & _ & _ & _ & Hstats)].
  - cbn [fst snd]. split; [|split; [|done]].
    + split; [done|]. intros (q & Hq & _ & Hnf). rewrite Hqa in Hq. injection Hq as <-.
      apply Hrs, Hro in Hnf. congruence.
    + intros _. f_equal. rewrite insert_id by done. by destruct e.
  - pose proof (Hq0 q0 Hk) as ->.
    destruct (Hok inst b0 Hb0) as [(Hwf0 & _) _]. cbn [fst snd] in *.
    destruct (cancel_order_found w b0 k qa Hk) as (_ & Hw' & _).
    pose proof (fun sd => cancel_order_resting w b0 k qa sd Hwf0 Hk) as Hres.
    destruct (Engine.cancel_order w e k u) as [[w' e'] ok]. cbn [fst snd] in *.
    subst ok. rewrite <- Hw in Hw'. clear Hw.
    split; [|split; [done|]].
    + split; [|done]. intros _. exists qa. split; [done|]. split; [done|]. by apply Hrs, Hro.
    + intros q _ Hq. rewrite Hqa in Hq. injection Hq as <-.
      split; [by apply Hro|]. split; [rewrite Hw'; by apply deref_store_same|].
      split; [intros p Hp; rewrite Hw'; by apply deref_store_other|].
      split; [done|]. split; [|split; [done|]; unfold Engine.get_stats; by rewrite Hstats].
      intros id sd. unfold Engine.book_of at 1. rewrite Hbooks.
      destruct (decide (inst = id)) as [<-|Hne].
      * rewrite lookup_insert_eq. simpl. apply Hres.
      * rewrite lookup_insert_ne by done. fold (Engine.book_of e id).
        symmetry. apply filter_all, Forall_forall. intros p Hp ->.
        unfold Engine.book_of in Hp.
        destruct (Engine.order_books_ e !! id) as [b|] eqn:Hb; simpl in Hp;
          [|destruct sd; by apply elem_of_nil in Hp].
        destruct (Hok id b Hb) as [(_ & _ & [Hr _] & _) Hid]. cbn [fst snd] in *.
        specialize (Hr sd). eapply Forall_forall in Hr; [|exact Hp].
        unfold inst in Hne. congruence.
Qed.

(** X10.  In a state reached before the order ids wrap around,
    [cancel_order(order_id, user_id)] succeeds exactly when the id is that
    of an active order of that user which has not been filled in full.
    A failed call changes nothing.  A successful one marks the order
    CANCELLED, takes it out of its book, where it rested, and out of the
    active orders, and counts one cancel; every other order is as it was
    and rests where it did, in the same queue order, and no position
    changes. *)
Theorem cancel_order_effect ops k u :
  ids_suffice ops ->
  let s := run clock ops in
  let res := Engine.cancel_order s.1 s.2 k u in
  (res.2 = true <->
   exists q, Engine.active_orders_ s.2 !! k = Some q /\
             Order.user_id (deref s.1 q) = u /\ Order.status (deref s.1 q) <> FILLED) /\
  (res.2 = false -> res.1 = s) /\
  (forall q, res.2 = true -> Engine.active_orders_ s.2 !! k = Some q ->
     rests s q /\
     Order.status (deref res.1.1 q) = CANCELLED /\
     same_order (deref s.1 q) (deref res.1.1 q) /\
     Order.filled_quantity (deref res.1.1 q) = Order.filled_quantity (deref s.1 q) /\
     (forall p, p <> q -> deref res.1.1 p = deref s.1 p) /\
     Engine.active_orders_ res.1.2 = delete k (Engine.active_orders_ s.2) /\
     (forall id sd,
        resting (own sd (Engine.book_of res.1.2 id))
        = filter (fun p => p <> q) (resting (own sd (Engine.book_of s.2 id)))) /\
     Engine.positions_ res.1.2 = Engine.positions_ s.2 /\
     Stats.total_cancels (Engine.get_stats res.1.2)
     = u64 (Stats.total_cancels (Engine.get_stats s.2) + 1)).
Proof.
  intros Hlen s res.
  destruct (run_registry_ok clock ops Hlen) as [Hok HR]. fold s in Hok, HR.
  destruct (cancel_order_at s k u Hok HR) as (Hiff & Hfail & Hdone). fold res in Hiff, Hfail, Hdone.
  split; [done|]. split; [done|].
  intros q Ht Hq. destruct (Hdone q Ht Hq) as (Hr & Hd & Hrest).
  split; [done|]. rewrite Hd. split; [done|]. split; [apply same_order_set_status|].
  split; [done|]. exact Hrest.
Qed.

(** X11.  In a state reached before the order ids wrap around,
    [get_orders(id)] lists, in ascending order of their ids, orders of the
    instrument [id] only: every order that rests in its book, and besides
    those only orders that were filled in full while they rested, which
    stay in [active_orders_]. *)
Theorem get_orders_listed ops id :
  ids_suffice ops ->
  let s := run clock ops in
  let listed := Engine.get_orders s.1 s.2 id in
  StronglySorted (fun p q => (Order.id (deref s.1 p) < Order.id (deref s.1 q))%N) listed /\
  (forall sd q, q ∈ resting (own sd (Engine.book_of s.2 id)) -> q ∈ listed) /\
  (forall q, q ∈ listed ->
     Order.instrument_id (deref s.1 q) = id /\
     (rests s q \/ Order.status (deref s.1 q) = FILLED)).
Proof.
  intros Hlen s listed. subst listed.
  destruct (run_registry_ok clock ops Hlen) as [Hok HR]. fold s in Hok, HR.
  pose proof HR as (_ & _ & I5 & I6). unfold active_ok, orders_ok in I5, I6.
  unfold Engine.get_orders.
  destruct (map_entries_sorted (Engine.active_orders_ s.2)) as [Hsorted Hin].
  set (l0 := merge_sort key_le (map_to_list (Engine.active_orders_ s.2))) in *.
  split; [|split].
  - apply StronglySorted_filter.
    assert (Forall (fun x => Engine.active_orders_ s.2 !! x.1 = Some x.2) l0) as Hall.
    { apply Forall_forall. intros [k q] Hx. by apply Hin. }
    clear Hin. induction Hsorted as [|[k q] l Hs IH Hlt]; [constructor|].
    apply Forall_cons in Hall as [Hx Hall]. simpl in Hx.
    rewrite fmap_cons. constructor; [by apply IH|].
    apply Forall_fmap, Forall_forall. intros [k' q'] Hy.
    eapply Forall_forall in Hlt; [|exact Hy].
    eapply Forall_forall in Hall; [|exact Hy]. simpl in *.
    destruct (I5 k q Hx) as (_ & -> & _). by destruct (I5 k' q' Hall) as (_ & -> & _).
  - intros sd q Hq. unfold Engine.book_of in Hq.
    destruct (Engine.order_books_ s.2 !! id) as [b|] eqn:Hb; simpl in Hq;
      [|destruct sd; by apply elem_of_nil in Hq].
    destruct (I6 id b Hb) as (_ & I6b & _). destruct (I6b sd q Hq) as [Ha _].
    destruct (Hok id b Hb) as [(_ & _ & [Hr _] & _) Hid].
    specialize (Hr sd). eapply Forall_forall in Hr; [|exact Hq].
    apply list_elem_of_filter. split; [congruence|].
    apply list_elem_of_fmap. exists (Order.id (deref s.1 q), q). split; [done|]. by apply Hin.
  - intros q [Hi ([k q'] & -> & Hx)%list_elem_of_fmap]%list_elem_of_filter.
    simpl in *. apply Hin in Hx. split; [done|]. by destruct (I5 k q' Hx) as (_ & _ & _ & ?).
Qed.

(** The loop of [cancel_all]. *)
Lemma cancel_all_loop u l s1 :
  engine_ok s1 -> registry_ok s1 ->
  let s2 := foldl (fun '(w, e) order_id =>
                     let '(w, e, _) := Engine.cancel_order w e order_id u in (w, e)) s1 l in
  engine_ok s2 /\ registry_ok s2 /\
  (forall q, same_order (deref s1.1 q) (deref s2.1 q)) /\
  Engine.positions_ s2.2 = Engine.positions_ s1.2 /\
  exists K : list ptr,
    (forall q, q ∈ K -> Order.user_id (deref s1.1 q) = u /\
                        Order.status (deref s2.1 q) = CANCELLED) /\
    (forall q, q ∉ K -> deref s2.1 q = deref s1.1 q) /\
    (forall id sd, resting (own sd (Engine.book_of s2.2 id))
                   = filter (fun q => q ∉ K) (resting (own sd (Engine.book_of s1.2 id)))) /\
    (forall k q, k ∈ l -> Order.user_id (deref s1.1 q) = u -> Order.id (deref s1.1 q) = k ->
                 rests s2 q -> False).
Proof.
  revert s1. induction l as [|k l IH]; intros s1 Hok HR s2.
  { subst s2. simpl. split; [done|]. split; [done|]. split; [intros q; apply same_order_refl|].
    split; [done|]. exists []. split; [by intros q ?%elem_of_nil|]. split; [done|].
    split; [|by intros k q ?%elem_of_nil].
    intros id sd. symmetry. apply filter_all, Forall_forall. by intros q _ ?%elem_of_nil. }
  destruct (cancel_order_at s1 k u Hok HR) as (Hiff & Hfail & Hdone).
  pose proof (engine_ok_cancel_order s1.1 s1.2 k u) as Hok1.
  pose proof (registry_ok_cancel_order s1.1 s1.2 k u) as HR1.
  pose proof (cancel_order_fields s1.1 s1.2 k u) as (Hpos1 & _).
  assert (forall q, same_order (deref s1.1 q)
                      (deref (Engine.cancel_order s1.1 s1.2 k u).1.1 q)) as Hsame1.
  { intros q. destruct (cancel_order_fields s1.1 s1.2 k u) as (_ & _ & _ & [->|(i & -> & _)]).
    - apply same_order_refl.
    - by destruct (cancel_order_world_le s1.1 (Engine.book_of s1.2 i) k) as [_ ?]. }
  destruct s1 as [w e]. cbn [fst snd] in *.
  subst s2. cbn [foldl].
  destruct (Engine.cancel_order w e k u) as [[w1 e1] ok] eqn:Hc. cbn [fst snd] in *.
  specialize (Hok1 Hok). specialize (HR1 Hok HR).
  destruct (IH (w1, e1) Hok1 HR1) as (Hok2 & HR2 & Hsame2 & Hpos2 & K & HK & Hframe & Hrest & Hnone).
  clear IH. cbn [fst snd] in *.
  set (s2 := foldl _ (w1, e1) l) in *.
  split; [done|]. split; [done|].
  split; [intros q; eapply same_order_trans; [apply Hsame1|apply Hsame2]|].
  split; [congruence|].
  assert (forall q, rests s2 q -> rests (w1, e1) q /\ q ∉ K) as Hback.
  { unfold rests. cbn [fst snd]. intros q Hq. rewrite Hrest in Hq.
    apply list_elem_of_filter in Hq as [HqK Hq].
    destruct (Hsame2 q) as (_ & _ & Hi & Hsd & _). rewrite Hi, Hsd in Hq. done. }
  assert (forall q, Order.user_id (deref w q) = u -> Order.id (deref w q) = k ->
            rests (w, e) q ->
            Engine.active_orders_ e !! k = Some q /\ Order.status (deref w q) <> FILLED)
    as Hhead.
  { intros q Hqu Hqid Hq. pose proof (rests_active (w, e) q HR Hq) as Ha.
    cbn [fst snd] in Ha. rewrite Hqid in Ha. split; [done|].
    by apply (active_book (w, e) k q Hok HR Ha). }
  destruct ok.
  - destruct (proj1 Hiff eq_refl) as (qa & Hqa & Hu & _).
    destruct (Hdone qa eq_refl Hqa) as (_ & Hda & Hoth & _ & Hres1 & _).
    exists (qa :: K). split; [|split; [|split]].
    + intros q [->|Hq]%elem_of_cons.
      * split; [done|]. destruct (decide (qa ∈ K)) as [Hin|Hni]; [by apply HK|].
        by rewrite (Hframe qa Hni), Hda.
      * destruct (HK q Hq) as [Hu1 ?]. split; [|done].
        destruct (Hsame1 q) as (_ & Hu2 & _). congruence.
    + intros q [Hne HqK]%not_elem_of_cons. rewrite (Hframe q HqK). by apply Hoth.
    + intros id sd. rewrite Hrest, Hres1, list_filter_filter.
      apply list_filter_iff. intros q. rewrite not_elem_of_cons. tauto.
    + intros k' q [->|Hk']%elem_of_cons Hqu Hqid Hq.
      * destruct (Hback q Hq) as [Hq1 _]. unfold rests in Hq1. cbn [fst snd] in Hq1.
        destruct (Hsame1 q) as (_ & _ & Hi & Hsd & _). rewrite Hi, Hsd, Hres1 in Hq1.
        apply list_elem_of_filter in Hq1 as [Hne Hq0].
        destruct (Hhead q Hqu Hqid Hq0) as [Ha _]. congruence.
      * apply (Hnone k' q Hk'); [| |done]; destruct (Hsame1 q) as (Hi & Hu1 & _); congruence.
  - injection (Hfail eq_refl) as -> ->.
    exists K. split; [done|]. split; [done|]. split; [done|].
    intros k' q [->|Hk']%elem_of_cons Hqu Hqid Hq; [|by apply (Hnone k' q)].
    destruct (Hback q Hq) as [Hq1 _]. destruct (Hhead q Hqu Hqid Hq1) as [Ha Hnf].
    assert (false = true) as Habs; [|done]. apply Hiff. by exists q.
Qed.

Lemma resting_rests s id sd q :
  engine_ok s -> q ∈ resting (own sd (Engine.book_of s.2 id)) ->
  Order.side (deref s.1 q) = sd /\ Order.instrument_id (deref s.1 q) = id.
Proof.
  intros Hok Hq. unfold Engine.book_of in Hq.
  destruct (Engine.order_books_ s.2 !! id) as [b|] eqn:Hb; simpl in Hq;
    [|destruct sd; by apply elem_of_nil in Hq].
  destruct (Hok id b Hb) as [(Hwf & _ & [Hr _] & _) Hid]. split.
  - destruct (proj1 (book_wf_sides _ _) Hwf sd) as (_ & _ & Hall).
    rewrite <- queue_snd in Hq. apply list_elem_of_fmap in Hq as (x & -> & Hx).
    eapply Forall_forall in Hall; [|exact Hx]. by destruct Hall as (_ & ? & _).
  - specialize (Hr sd). eapply Forall_forall in Hr; [|exact Hq]. congruence.
Qed.

Lemma filter_ext_elem {A : Type} (P Q : A -> Prop)
    `{!forall x, Decision (P x)} `{!forall x, Decision (Q x)} (l : list A) :
  (forall x, x ∈ l -> P x <-> Q x) -> filter P l = filter Q l.
Proof.
  induction l as [|x l IH]; intros Hext; [done|].
  rewrite !filter_cons, IH by (intros y Hy; apply Hext; by right).
  destruct (decide (P x)) as [HP|HP], (decide (Q x)) as [HQ|HQ]; try done.
  - destruct HQ. apply Hext; [left|done].
  - destruct HP. apply Hext; [left|done].
Qed.

(** X12.  In a state reached before the order ids wrap around,
    [cancel_all(user_id)] returns true and leaves in every book exactly the
    resting orders of the other users, in the queue order they had; the
    resting orders of the user end CANCELLED, the orders of the other users
    are untouched, and no position changes. *)
Theorem cancel_all_effect ops u :
  ids_suffice ops ->
  let s := run clock ops in
  let res := Engine.cancel_all s.1 s.2 u in
  res.2 = true /\
  (forall id sd,
     resting (own sd (Engine.book_of res.1.2 id))
     = filter (fun q => Order.user_id (deref s.1 q) <> u)
              (resting (own sd (Engine.book_of s.2 id)))) /\
  (forall id sd q, q ∈ resting (own sd (Engine.book_of s.2 id)) ->
     Order.user_id (deref s.1 q) = u -> Order.status (deref res.1.1 q) = CANCELLED) /\
  (forall q, Order.user_id (deref s.1 q) <> u -> deref res.1.1 q = deref s.1 q) /\
  Engine.positions_ res.1.2 = Engine.positions_ s.2.
Proof.
  intros Hlen s res. subst res.
  destruct (run_registry_ok clock ops Hlen) as [Hok HR]. fold s in Hok, HR.
  pose proof HR as (_ & _ & I5 & _). unfold active_ok in I5.
  assert (forall id sd q, q ∈ resting (own sd (Engine.book_of s.2 id)) ->
            Order.user_id (deref s.1 q) = u ->
            Order.id (deref s.1 q) ∈ default ∅ (Engine.user_orders_ s.2 !! u)) as Hmine.
  { intros id sd q Hq Hu. destruct (resting_rests s id sd q Hok Hq) as [Hsd Hi].
    assert (rests s q) as Hr by (unfold rests; by rewrite Hsd, Hi).
    pose proof (rests_active s q HR Hr) as Ha.
    destruct (I5 _ q Ha) as (_ & _ & Hin & _). by rewrite Hu in Hin. }
  unfold Engine.cancel_all.
  destruct (Engine.user_orders_ s.2 !! u) as [ids|] eqn:Hids; simpl in Hmine.
  - pose proof (cancel_all_loop u (merge_sort N.le (elements ids)) s Hok HR)
      as (Hok2 & _ & Hsame & Hpos & K & HK & Hframe & Hrest & Hnone).
    destruct s as [w e]. cbn [fst snd] in *.
    destruct (foldl _ (w, e) _) as [w2 e2]. cbn [fst snd] in *.
    assert (forall id sd q, q ∈ resting (own sd (Engine.book_of e id)) ->
              q ∉ K <-> Order.user_id (deref w q) <> u) as Hkeep.
    { intros id sd q Hq. split.
      - intros HqK Hu.
        apply (Hnone (Order.id (deref w q)) q); [|done|done|].
        + rewrite merge_sort_Permutation. apply elem_of_elements. by apply (Hmine id sd).
        + destruct (resting_rests (w, e) id sd q Hok Hq) as [Hsd Hi]. cbn [fst snd] in *.
          unfold rests. cbn [fst snd].
          destruct (Hsame q) as (_ & _ & -> & -> & _). rewrite Hsd, Hi, Hrest.
          by apply list_elem_of_filter.
      - intros Hu HqK. by destruct (HK q HqK). }
    split; [done|]. split; [|split; [|split; [|done]]].
    + intros id sd. rewrite Hrest. apply filter_ext_elem. intros q Hq. by apply (Hkeep id sd).
    + intros id sd q Hq Hu. destruct (decide (q ∈ K)) as [HqK|HqK]; [by apply HK|].
      by apply (Hkeep id sd q Hq) in HqK.
    + intros q Hu. apply Hframe. intros HqK. by destruct (HK q HqK).
  - cbn [fst snd]. split; [done|]. split; [|split; [|done]].
    + intros id sd. symmetry. apply filter_all, Forall_forall. intros q Hq Hu.
      by apply (Hmine id sd q Hq) in Hu.
    + intros id sd q Hq Hu. by apply (Hmine id sd q Hq) in Hu.
Qed.

(** X15.  In a state reached before the order ids wrap around,
    [replace_order] is [cancel_order] followed by [submit_order]: when the
    cancel fails nothing changes and the result is false; when it succeeds
    the old order is CANCELLED and out of the book for good, and a new order
    of the same user, instrument, side, time in force and post-only flag is
    submitted, at the new price or else the old one, for the new quantity
    or else what was left of the old one.  The result is the success of
    that submission: when it is rejected the old order stays cancelled, and
    the rejection is counted. *)
Theorem replace_order_effect ops k u new_price new_qty :
  ids_suffice ops ->
  let s := run clock ops in
  let c := Engine.cancel_order s.1 s.2 k u in
  let res := Engine.replace_order clock s.1 s.2 k u new_price new_qty in
  (c.2 = false -> res = (s, false)) /\
  (c.2 = true -> forall q, Engine.active_orders_ s.2 !! k = Some q ->
     let old := deref s.1 q in
     let request :=
       OrderRequest.mk u (Order.instrument_id old) (Order.side old)
         (default (Order.price old) new_price)
         (default (Order.quantity old - Order.filled_quantity old) new_qty)
         (Order.tif old) (Order.post_only old) in
     let sub := Engine.submit_order clock c.1.1 c.1.2 request in
     res = (sub.1, OrderResult.success sub.2) /\
     Order.status (deref res.1.1 q) = CANCELLED /\
     (forall id sd, q ∉ resting (own sd (Engine.book_of res.1.2 id))) /\
     (res.2 = false ->
      res.1 = (c.1.1, Engine.set_stats_ (Stats.incr_rejects (Engine.stats_ c.1.2)) c.1.2))).
Proof.
  intros Hlen s c res.
  destruct (run_registry_ok clock ops Hlen) as [Hok HR]. fold s in Hok, HR.
  destruct (cancel_order_at s k u Hok HR) as (Hiff & Hfail & Hdone).
  pose proof (engine_ok_cancel_order s.1 s.2 k u) as Hok1.
  fold c in Hiff, Hfail, Hdone, Hok1.
  destruct s as [w e]. cbn [fst snd] in *. specialize (Hok1 Hok).
  subst res. unfold Engine.replace_order.
  destruct (Engine.active_orders_ e !! k) as [qa|] eqn:Hqa.
  2:{ split; [done|]. intros Ht. apply Hiff in Ht as (q & ? & _). done. }
  destruct (decide (Order.user_id (deref w qa) = u)) as [Hu|Hu].
  2:{ rewrite bool_decide_eq_false_2 by done. simpl. split; [done|].
      intros Ht. apply Hiff in Ht as (q & [= <-] & ? & _). done. }
  rewrite bool_decide_eq_true_2 by done. cbn [negb]. fold c.
  destruct c as [[w1 e1] ok]. cbn [fst snd] in *.
  destruct ok; cbn [negb].
  2:{ split; [|done]. intros _. by rewrite (Hfail eq_refl). }
  split; [done|]. intros _ q [= <-]. cbv zeta.
  destruct (Hdone qa eq_refl eq_refl) as (_ & Hda & _ & _ & Hres1 & _).
  assert (forall id sd, qa ∉ resting (own sd (Engine.book_of e1 id))) as Hgone.
  { intros id sd. rewrite Hres1. by intros [? _]%list_elem_of_filter. }
  set (request := OrderRequest.mk u (Order.instrument_id (deref w qa)) _ _ _ _ _).
  assert (OrderRequest.mk u (Order.instrument_id (deref w1 qa)) (Order.side (deref w1 qa))
            match new_price with Some p => p | None => Order.price (deref w1 qa) end
            match new_qty with
            | Some q => q
            | None => Order.quantity (deref w1 qa) - Order.filled_quantity (deref w1 qa)
            end
            (Order.tif (deref w1 qa)) (Order.post_only (deref w1 qa)) = request) as ->.
  { rewrite Hda. unfold request. simpl. by destruct new_price, new_qty. }
  assert (Order.status (deref w1 qa) = CANCELLED) as Hst by (by rewrite Hda).
  assert (valid w1 qa) as Hva.
  { destruct (decide (valid w1 qa)) as [|Hn]; [done|].
    rewrite (deref_invalid _ _ Hn) in Hst. done. }
  pose proof (submit_order_accept_or_reject clock w1 e1 request) as Hcase.
  destruct (reject_reason e1 request) as [msg|] eqn:Hrej.
  { rewrite Hcase. cbn [fst snd Engine.reject OrderResult.success Engine.book_of].
    split; [done|]. split; [done|]. split; [|done].
    intros id sd. apply (Hgone id sd). }
  destruct (submit_order_accepted clock w1 e1 request Hrej) as (Hw & _ & _ & Hbooks & _).
  destruct (accepted_request e1 request Hrej) as [Hqty _].
  destruct (accepted_setup clock w1 e1 request Hok1 Hrej)
    as ((Hwf2 & Hlive2 & _) & _ & Hvo & Ho & Hfresh & Hw2).
  cbv zeta in *.
  set (iid := OrderRequest.instrument_id request) in *.
  set (b0 := Engine.book_of e1 iid) in *.
  set (w2 := (make_shared _ _).2) in *.
  set (order := length (World.heap w1)) in *.
  destruct (add_order_live clock w2 b0 order) as (_ & Hframe3 & _);
    [done|done|done|done|rewrite Ho; simpl; simpl in Hqty; lia|].
  pose proof (add_order_resting clock w2 b0 order) as Hres3.
  destruct (Engine.submit_order clock w1 e1 request) as [[w' e'] r]. cbn [fst snd] in *.
  assert (qa <> order) as Hne by (intros ->; unfold valid, order in Hva; lia).
  split; [done|]. split; [|split].
  - rewrite Hw, Hframe3; [|done|rewrite <- own_other; apply Hgone].
    by destruct (Hw2 qa Hva) as [_ ->].
  - intros id sd. unfold Engine.book_of. rewrite Hbooks.
    destruct (decide (iid = id)) as [<-|Hni].
    + rewrite lookup_insert_eq. simpl. intros [?|Hin]%Hres3; [done|]. by apply (Hgone iid sd).
    + rewrite lookup_insert_ne by done. apply (Hgone id sd).
  - intros Hf. by rewrite Hcase in Hf.
Qed.

End ActiveOrders.

(** ** The mark price and the trade history *)
Section Marks.
Context {D : Type} `{!DoubleOps D}.
Variable clock : nat -> Timestamp.
Implicit Types (w : World.t) (e : Engine.t D) (b : OrderBook.t).
Implicit Types (s : World.t * Engine.t D) (ops : list (Op.t D)) (fills : list Fill.t).

Lemma trades_of_balanced i fills :
  paired (balanced_pair i) fills ->
  Forall (fun t => TradeRecord.instrument_id t = i) (trades_of fills) /\
  TradeRecord.price <$> last (trades_of fills) = Fill.price <$> last fills.
Proof.
  induction fills as [|f|a p fills IH] using pairs_ind; [done|done|].
  intros [(Hia & _ & Hpr & _) Hrest]. destruct (IH Hrest) as [Hall Hlast].
  cbn [trades_of]. split.
  - constructor; [|done]. unfold Engine.trade_of. by destruct (Fill.side a).
  - destruct fills as [|a' [|p' fills]]; [|done|].
    + simpl. unfold Engine.trade_of. rewrite Hpr. by destruct (Fill.side a).
    + exact Hlast.
Qed.

Lemma trades_in_app id l l' : trades_in id (l ++ l') = trades_in id l ++ trades_in id l'.
Proof. apply filter_app. Qed.

Lemma trades_in_all id l :
  Forall (fun t => TradeRecord.instrument_id t = id) l -> trades_in id l = l.
Proof. apply filter_all. Qed.

Lemma trades_in_none id l :
  Forall (fun t => TradeRecord.instrument_id t <> id) l -> trades_in id l = [].
Proof.
  induction 1 as [|t l Ht _ IH]; [done|].
  unfold trades_in in *. by rewrite filter_cons, decide_False.
Qed.

Lemma last_app_default {A : Type} (l l' : list A) :
  last (l ++ l') = match last l' with Some x => Some x | None => last l end.
Proof.
  induction l' as [|x l' _] using rev_ind; [by rewrite app_nil_r|].
  by rewrite app_assoc, !last_snoc.
Qed.

Lemma marks_ok_submit_order w e request :
  engine_ok (w, e) -> marks_ok e -> marks_ok (Engine.submit_order clock w e request).1.2.
Proof.
  intros Hok [Hreg Hlast].
  pose proof (submit_order_accept_or_reject clock w e request) as Hcase.
  destruct (reject_reason e request) as [msg|] eqn:Hrej.
  { rewrite Hcase. by split. }
  clear Hcase.
  destruct (submit_order_accepted clock w e request Hrej)
    as (_ & _ & _ & Hbooks & _ & Hinst & _).
  destruct (submit_order_registers clock w e request Hrej)
    as (_ & _ & _ & _ & _ & _ & Htrades & _).
  destruct (accepted_request e request Hrej) as [_ [inst [Hi _]]].
  destruct (accepted_setup clock w e request Hok Hrej) as ((Hwf2 & _) & Hbid & _).
  cbv zeta in *.
  set (iid := OrderRequest.instrument_id request) in *.
  set (b0 := Engine.book_of e iid) in *.
  set (w2 := (make_shared _ _).2) in *.
  set (order := length (World.heap w)) in *.
  pose proof (add_order_balanced clock w2 b0 order Hwf2) as Hpairs.
  pose proof (add_order_last_price clock w2 b0 order) as Hlp.
  set (added := OrderBook.add_order clock w2 b0 order) in *.
  rewrite Hbid in Hpairs.
  destruct (trades_of_balanced iid added.2 Hpairs) as [Hall Hpr].
  split.
  - intros t. rewrite Htrades, Hinst, Hbooks. intros [Ht|Ht]%elem_of_app.
    + destruct (Hreg t Ht) as [? ?]. split; [done|].
      apply lookup_insert_is_Some.
      destruct (decide (iid = TradeRecord.instrument_id t)); auto.
    + eapply Forall_forall in Hall; [|exact Ht]. rewrite Hall.
      split; [by rewrite Hi|]. by rewrite lookup_insert_eq.
  - intros id b. rewrite Hbooks, Htrades, trades_in_app.
    intros [[<- <-]|[Hne Hb]]%lookup_insert_Some.
    + rewrite (trades_in_all iid _ Hall), last_app_default, Hlp.
      assert (OrderBook.last_price_ b0
              = default 0 (TradeRecord.price
                             <$> last (trades_in iid (Engine.trade_history_ e)))) as Hb0.
      { unfold b0, Engine.book_of.
        destruct (Engine.order_books_ e !! iid) as [b|] eqn:Hb; simpl; [by apply Hlast|].
        rewrite trades_in_none; [done|]. apply Forall_forall. intros t Ht Heq.
        destruct (Hreg t Ht) as [_ Hsome]. rewrite Heq, Hb in Hsome. by destruct Hsome. }
      destruct (last (trades_of added.2)) as [t|] eqn:Ht; simpl in Hpr.
      * destruct (last added.2) as [f|]; [|done]. simpl in *. congruence.
      * destruct (last added.2) as [f|]; [done|]. simpl. done.
    + rewrite (trades_in_none id (trades_of added.2)), app_nil_r; [by apply Hlast|].
      eapply Forall_impl; [exact Hall|]. simpl. intros t ->. done.
Qed.

Lemma marks_ok_cancel_order w e k u :
  marks_ok e -> marks_ok (Engine.cancel_order w e k u).1.2.
Proof.
  intros [Hreg Hlast].
  destruct (cancel_order_history w e k u) as (_ & Htrades & _).
  destruct (cancel_order_fields w e k u) as (_ & Hinst & _ & Hcase).
  cbv zeta in *.
  destruct Hcase as [Heq|(inst & _ & Hbooks)]; [by rewrite Heq|].
  assert (OrderBook.last_price_ (OrderBook.cancel_order w (Engine.book_of e inst) k).1.2
          = OrderBook.last_price_ (Engine.book_of e inst)) as Hlp.
  { destruct (OrderBook.orders_ (Engine.book_of e inst) !! k) as [q|] eqn:Hk.
    - by destruct (cancel_order_found w _ k q Hk) as (_ & _ & _ & _ & _ & _ & ->).
    - by rewrite cancel_order_missing. }
  split.
  - intros t. rewrite Htrades, Hinst. intros Ht.
    destruct (Hreg t Ht) as [? ?]. split; [done|].
    rewrite Hbooks. apply lookup_insert_is_Some.
    destruct (decide (inst = TradeRecord.instrument_id t)); auto.
  - intros id b. rewrite Hbooks, Htrades.
    intros [[<- <-]|[Hne Hb]]%lookup_insert_Some; [|by apply Hlast].
    rewrite Hlp. unfold Engine.book_of.
    destruct (Engine.order_books_ e !! inst) as [b|] eqn:Hb; simpl; [by apply Hlast|].
    rewrite trades_in_none; [done|]. apply Forall_forall. intros t Ht Heq.
    destruct (Hreg t Ht) as [_ Hsome]. rewrite Heq, Hb in Hsome. by destruct Hsome.
Qed.

Lemma marks_ok_step s op :
  engine_ok s /\ marks_ok s.2 -> engine_ok (step clock s op) /\ marks_ok (step clock s op).2.
Proof.
  assert (op_ok (fun _ : InstrumentSpec.t D => True) (fun _ _ => True) s op) as Hop
    by (by destruct op).
  revert s op Hop.
  apply (step_preserves clock (fun s => engine_ok s /\ marks_ok s.2)).
  - intros w e spec _ [Hok [Hreg Hlast]]. cbn [fst snd] in Hreg, Hlast.
    split; [apply (engine_ok_step clock (w, e) (Op.AddInstrument spec) Hok)|].
    simpl. unfold Engine.add_instrument.
    destruct (Engine.instruments_ e !! InstrumentSpec.id spec) as [inst|] eqn:Hnew; [done|].
    split; simpl.
    + intros t Ht. destruct (Hreg t Ht) as [? ?].
      split; apply lookup_insert_is_Some;
        destruct (decide (InstrumentSpec.id spec = TradeRecord.instrument_id t)); auto.
    + intros id b [[<- <-]|[Hne Hb]]%lookup_insert_Some; [|by apply Hlast].
      simpl. rewrite trades_in_none; [done|]. apply Forall_forall. intros t Ht Heq.
      destruct (Hreg t Ht) as [Hsome _]. rewrite Heq, Hnew in Hsome. by destruct Hsome.
  - intros w e id halted [Hok [Hreg Hlast]]. cbn [fst snd] in Hreg, Hlast.
    split; [apply (engine_ok_step clock (w, e) (Op.HaltInstrument id halted) Hok)|].
    simpl. unfold Engine.halt_instrument.
    destruct (Engine.instruments_ e !! id) as [inst|] eqn:Hinst; [|done].
    split; [|done]. simpl. intros t Ht. destruct (Hreg t Ht) as [? ?]. split; [|done].
    apply lookup_insert_is_Some. destruct (decide (id = TradeRecord.instrument_id t)); auto.
  - intros w e request _ [Hok Hm].
    split; [by apply engine_ok_submit_order|by apply marks_ok_submit_order].
  - intros w e k u [Hok Hm].
    split; [by apply engine_ok_cancel_order|by apply marks_ok_cancel_order].
  - intros w e n [Hok Hm]. split; [|done].
    intros id b Hb. destruct (Hok id b Hb) as [Hbok Hid]. split; [|done].
    eapply book_ok_frame; [exact Hbok|]. intros q Hq _. split; [done|apply deref_reads].
  - intros w e id v [Hok [Hreg Hlast]]. cbn [fst snd] in Hreg, Hlast.
    split; [apply (engine_ok_step clock (w, e) (Op.SettleInstrument id v) Hok)|].
    simpl. unfold Engine.settle_instrument.
    destruct (Engine.instruments_ e !! id) as [inst|] eqn:Hinst; [|done].
    split; [|done]. simpl. intros t Ht. destruct (Hreg t Ht) as [? ?]. split; [|done].
    apply lookup_insert_is_Some. destruct (decide (id = TradeRecord.instrument_id t)); auto.
  - intros w e u limits [Hok Hm]. done.
Qed.


End Marks.

(** ** The registered instruments *)
Section Instruments.
Context {D : Type} `{!DoubleOps D}.
Variable clock : nat -> Timestamp.
Implicit Types (w : World.t) (e : Engine.t D) (b : OrderBook.t).
Implicit Types (s : World.t * Engine.t D) (ops : list (Op.t D)).

(** No operation removes a book. *)
Lemma order_books_submit_order w e request id :
  is_Some (Engine.order_books_ e !! id) ->
  is_Some (Engine.order_books_ (Engine.submit_order clock w e request).1.2 !! id).
Proof.
  intros Hb.
  pose proof (submit_order_accept_or_reject clock w e request) as Hcase.
  destruct (reject_reason e request) as [msg|] eqn:Hrej; [by rewrite Hcase|].
  destruct (submit_order_accepted clock w e request Hrej) as (_ & _ & _ & -> & _).
  apply lookup_insert_is_Some.
  destruct (decide (OrderRequest.instrument_id request = id)); auto.
Qed.

Lemma order_books_cancel_order w e k u id :
  is_Some (Engine.order_books_ e !! id) ->
  is_Some (Engine.order_books_ (Engine.cancel_order w e k u).1.2 !! id).
Proof.
  intros Hb.
  destruct (cancel_order_fields w e k u) as (_ & _ & _ & [->|(inst & _ & ->)]); [done|].
  apply lookup_insert_is_Some. destruct (decide (inst = id)); auto.
Qed.

Lemma instruments_filed_step s op :
  instruments_filed s.2 -> instruments_filed (step clock s op).2.
Proof.
  assert (op_ok (fun _ : InstrumentSpec.t D => True) (fun _ _ => True) s op) as Hop
    by (by destruct op).
  revert s op Hop.
  apply (step_preserves clock (fun s => instruments_filed s.2)).
  - intros w e spec _ HI. cbn [fst snd] in *. unfold Engine.add_instrument.
    destruct (Engine.instruments_ e !! InstrumentSpec.id spec) eqn:Hnew; [done|].
    intros id spec'. simpl.
    intros [[<- <-]|[Hne Hs]]%lookup_insert_Some.
    + split; [done|]. by rewrite lookup_insert_eq.
    + destruct (HI id spec' Hs) as [? ?]. split; [done|]. by rewrite lookup_insert_ne.
  - intros w e id halted HI. cbn [fst snd] in *. unfold Engine.halt_instrument.
    destruct (Engine.instruments_ e !! id) as [inst|] eqn:Hinst; [|done].
    intros id' spec'. simpl.
    intros [[<- <-]|[Hne Hs]]%lookup_insert_Some; [|by apply HI].
    by destruct (HI id inst Hinst).
  - intros w e request _ HI id spec. cbn [fst snd] in *. rewrite submit_order_instruments.
    intros Hs. destruct (HI id spec Hs) as [? ?]. split; [done|].
    by apply order_books_submit_order.
  - intros w e k u HI id spec. cbn [fst snd] in *. rewrite cancel_order_instruments.
    intros Hs. destruct (HI id spec Hs) as [? ?]. split; [done|].
    by apply order_books_cancel_order.
  - done.
  - intros w e id v HI. cbn [fst snd] in *. unfold Engine.settle_instrument.
    destruct (Engine.instruments_ e !! id) as [inst|] eqn:Hinst; [|done].
    intros id' spec'. simpl.
    intros [[<- <-]|[Hne Hs]]%lookup_insert_Some; [|by apply HI].
    by destruct (HI id inst Hinst).
  - done.
Qed.

Lemma set_is_halted_twice (spec : InstrumentSpec.t D) h h' :
  InstrumentSpec.set_is_halted h (InstrumentSpec.set_is_halted h' spec)
  = InstrumentSpec.set_is_halted h spec.
Proof. done. Qed.

Lemma registered_as_step id (spec : InstrumentSpec.t D) s op :
  registered_as id spec s.2 -> registered_as id spec (step clock s op).2.
Proof.
  assert (op_ok (fun _ : InstrumentSpec.t D => True) (fun _ _ => True) s op) as Hop
    by (by destruct op).
  revert s op Hop.
  apply (step_preserves clock (fun s => registered_as id spec s.2)).
  - intros w e spec2 _ [(spec' & Hs & Heq) Hb]. cbn [fst snd] in *.
    unfold Engine.add_instrument.
    destruct (Engine.instruments_ e !! InstrumentSpec.id spec2) eqn:Hnew;
      [by split; [exists spec'|]|].
    assert (InstrumentSpec.id spec2 <> id) as Hne by (intros Hid; congruence).
    split; simpl; [exists spec'|]; by rewrite lookup_insert_ne.
  - intros w e id2 halted [(spec' & Hs & Heq) Hb]. cbn [fst snd] in *.
    unfold Engine.halt_instrument.
    destruct (Engine.instruments_ e !! id2) as [inst|] eqn:Hinst; [|by split; [exists spec'|]].
    split; [|done]. simpl. destruct (decide (id2 = id)) as [->|Hne].
    + rewrite lookup_insert_eq. eexists. split; [done|].
      assert (inst = spec') as -> by congruence. rewrite Heq. simpl.
      by rewrite set_is_halted_twice.
    + exists spec'. by rewrite lookup_insert_ne.
  - intros w e request _ [(spec' & Hs & Heq) Hb]. cbn [fst snd] in *.
    split; [exists spec'; by rewrite submit_order_instruments|].
    by apply order_books_submit_order.
  - intros w e k u [(spec' & Hs & Heq) Hb]. cbn [fst snd] in *.
    split; [exists spec'; by rewrite cancel_order_instruments|].
    by apply order_books_cancel_order.
  - done.
  - intros w e id2 v [(spec' & Hs & Heq) Hb]. cbn [fst snd] in *.
    unfold Engine.settle_instrument.
    destruct (Engine.instruments_ e !! id2) as [inst|] eqn:Hinst; [|by split; [exists spec'|]].
    split; [|done]. simpl. destruct (decide (id2 = id)) as [->|Hne].
    + rewrite lookup_insert_eq. eexists. split; [done|].
      assert (inst = spec') as -> by congruence. rewrite Heq. simpl.
      by rewrite set_is_halted_twice.
    + exists spec'. by rewrite lookup_insert_ne.
  - done.
Qed.

(** X14.  An instrument that [get_instrument] finds is filed under its own
    id and stays registered whatever the engine is asked to do next: it
    keeps every field of its specification but the halted flag, it keeps a
    book, and [add_instrument] with its id again fails and changes
    nothing. *)
Theorem instrument_stays ops ops' id spec :
  Engine.get_instrument (run clock ops).2 id = Some spec ->
  let e' := (run clock (ops ++ ops')).2 in
  InstrumentSpec.id spec = id /\
  (exists spec', Engine.get_instrument e' id = Some spec' /\
     spec' = InstrumentSpec.set_is_halted (InstrumentSpec.is_halted spec') spec) /\
  is_Some (Engine.order_books_ e' !! id) /\
  (forall spec2, InstrumentSpec.id spec2 = id -> Engine.add_instrument e' spec2 = (e', false)).
Proof.
  intros Hs e'. unfold Engine.get_instrument in *.
  assert (instruments_filed (run clock ops).2) as Hfiled.
  { unfold run.
    apply (run_from_preserves clock (fun s => instruments_filed s.2)
             (fun _ => True) (fun _ _ => True)).
    - intros s op _. apply instruments_filed_step.
    - apply run_ok_trivial.
    - intros i sp. simpl. by rewrite lookup_empty. }
  destruct (Hfiled id spec Hs) as [Hid Hbook].
  assert (registered_as id spec e') as [(spec' & Hs' & Heq) Hb'].
  { unfold e', run. rewrite run_from_app.
    apply (run_from_preserves clock (fun s => registered_as id spec s.2)
             (fun _ => True) (fun _ _ => True)).
    - intros s op _. apply registered_as_step.
    - apply run_ok_trivial.
    - split; [|done]. exists spec. split; [done|]. by destruct spec. }
  split; [done|]. split; [by exists spec'|]. split; [done|].
  intros spec2 Hid2. unfold Engine.add_instrument. by rewrite Hid2, Hs'.
Qed.

End Instruments.

(** ** The ledger as a replay of the fill history *)
Section Replay.
Context {D : Type} `{!DoubleOps D}.
Variable clock : nat -> Timestamp.
Implicit Types (w : World.t) (e : Engine.t D) (b : OrderBook.t).
Implicit Types (P R : gmap UserId (gmap InstrumentId (Position.t D))).
Implicit Types (s : World.t * Engine.t D) (ops : list (Op.t D)) (fills : list Fill.t).

(** [positions_[u][i]] as [position_of] reads it, on the ledger alone. *)
Lemma position_of_update e fill u i :
  Engine.position_of (Engine.update_position e (Fill.user_id fill) fill) u i
  = if decide (Fill.user_id fill = u /\ Fill.instrument_id fill = i)
    then Engine.update_position_at (Engine.position_of e u i) fill
    else Engine.position_of e u i.
Proof.
  unfold Engine.update_position, Engine.position_of. simpl.
  destruct (decide (Fill.user_id fill = u)) as [<-|Hu].
  - rewrite lookup_insert_eq. simpl.
    destruct (decide (Fill.instrument_id fill = i)) as [<-|Hi].
    + rewrite lookup_insert_eq, decide_True by done. done.
    + rewrite lookup_insert_ne by done. rewrite decide_False by (by intros [_ ?]). done.
  - rewrite lookup_insert_ne by done. rewrite decide_False by (by intros [? _]). done.
Qed.

Lemma position_of_replayed i e e' fills :
  (forall u, Engine.position_of e u i = Engine.position_of e' u i) ->
  forall u,
    Engine.position_of
      (foldl (fun e fill => Engine.update_position e (Fill.user_id fill) fill) e fills) u i
    = Engine.position_of
        (foldl (fun e fill => Engine.update_position e (Fill.user_id fill) fill) e' fills) u i.
Proof.
  revert e e'. induction fills as [|f fills IH]; intros e e' Heq u; [apply Heq|].
  simpl. apply IH. intros u'. rewrite !position_of_update, Heq. done.
Qed.

Lemma position_of_positions e e' u i :
  Engine.positions_ e = Engine.positions_ e' ->
  Engine.position_of e u i = Engine.position_of e' u i.
Proof. unfold Engine.position_of. by intros ->. Qed.

Lemma update_position_positions e fill :
  Engine.positions_ (Engine.update_position e (Fill.user_id fill) fill)
  = update_positions (Engine.positions_ e) fill.
Proof. done. Qed.

Lemma foldl_update_position e fills :
  Engine.positions_
    (foldl (fun e fill => Engine.update_position e (Fill.user_id fill) fill) e fills)
  = foldl update_positions (Engine.positions_ e) fills.
Proof.
  revert e. induction fills as [|f fills IH]; intros e; [done|].
  simpl. by rewrite IH.
Qed.

Lemma net_fills_app u i fills fills' :
  net_fills u i (fills ++ fills') = net_fills u i fills + net_fills u i fills'.
Proof.
  unfold net_fills. rewrite filter_app, fmap_app.
  induction (signed_quantity <$> filter _ fills) as [|x l IH]; simpl; lia.
Qed.

Lemma net_fills_bounded u i fills :
  Forall (fun f => 0 < Fill.quantity f) fills ->
  Z.abs (net_fills u i fills) <= fill_volume fills.
Proof.
  unfold net_fills, fill_volume. induction 1 as [|f fills Hq _ IH]; [done|].
  rewrite filter_cons, fmap_cons. cbn [foldr].
  destruct (decide (Fill.user_id f = u /\ Fill.instrument_id f = i)).
  - rewrite fmap_cons. cbn [foldr]. unfold signed_quantity at 1.
    destruct (Fill.side f); lia.
  - lia.
Qed.

(** The net quantity of a replayed position is the signed sum of the
    fills, as long as their quantities add up to less than [2^63]. *)
Lemma net_qty_replay u i fills :
  Forall (fun f => 0 < Fill.quantity f) fills -> fill_volume fills < 2 ^ 63 ->
  Position.net_qty (Engine.position_of (replay (D := D) fills) u i) = net_fills u i fills.
Proof.
  induction fills as [|f fills IH] using rev_ind; [done|].
  intros [Hall [Hq _]%Forall_cons]%Forall_app. rewrite fill_volume_app.
  unfold fill_volume at 2. rewrite fmap_cons. cbn [fmap list_fmap foldr].
  pose proof (fill_volume_nonneg fills Hall) as Hnn. intros Hvol.
  specialize (IH Hall ltac:(lia)).
  unfold replay in *. rewrite foldl_app. cbn [foldl].
  rewrite position_of_update, net_fills_app.
  unfold net_fills at 2. rewrite filter_cons, filter_nil.
  destruct (decide (Fill.user_id f = u /\ Fill.instrument_id f = i)); simpl; [|lia].
  pose proof (net_fills_bounded u i fills Hall) as Hb. rewrite <- IH in Hb.
  destruct (update_position_at_net _ f (fill_volume fills) Hb Hq) as [-> _]; lia.
Qed.

Lemma replay_step i s op :
  unsettled i op ->
  (forall u, Engine.position_of s.2 u i
             = Engine.position_of (replay (Engine.fill_history_ s.2)) u i) ->
  forall u, Engine.position_of (step clock s op).2 u i
            = Engine.position_of (replay (Engine.fill_history_ (step clock s op).2)) u i.
Proof.
  intros Hop.
  set (I := fun s : World.t * Engine.t D =>
              forall u, Engine.position_of s.2 u i
                        = Engine.position_of (replay (Engine.fill_history_ s.2)) u i).
  assert (forall w e k u, I (w, e) -> I (Engine.cancel_order w e k u).1) as Hcancel.
  { intros w e k u HI u'. unfold I in HI. cbn [fst snd] in *.
    destruct (cancel_order_history w e k u) as (-> & _).
    destruct (cancel_order_fields w e k u) as (Hpos & _).
    rewrite <- (HI u'). by apply position_of_positions. }
  assert (forall w e request, I (w, e) -> I (Engine.submit_order clock w e request).1)
    as Hsubmit.
  { intros w e request HI u. unfold I in HI. cbn [fst snd] in *.
    pose proof (submit_order_accept_or_reject clock w e request) as Hcase.
    destruct (reject_reason e request) as [msg|] eqn:Hrej.
    { rewrite Hcase. apply HI. }
    destruct (submit_order_accepted clock w e request Hrej) as (_ & _ & _ & _ & Hpos & _).
    destruct (submit_order_registers clock w e request Hrej)
      as (_ & _ & _ & _ & _ & -> & _).
    cbv zeta in *. unfold replay. rewrite foldl_app.
    fold (replay (D := D) (Engine.fill_history_ e)).
    set (fills := (OrderBook.add_order clock _ _ _).2) in *.
    rewrite <- (position_of_replayed i e _ fills HI u).
    apply position_of_positions. by rewrite Hpos, foldl_update_position. }
  change (I s -> I (step clock s op)).
  destruct s as [w e]. destruct op; cbn [step]; intros HI;
    try (intros u; pose proof (HI u) as HIu; unfold I in HIu; cbn [fst snd] in HIu |- *).
  - unfold Engine.add_instrument.
    destruct (Engine.instruments_ e !! InstrumentSpec.id spec); [done|].
    simpl. rewrite <- HIu. by apply position_of_positions.
  - unfold Engine.halt_instrument.
    destruct (Engine.instruments_ e !! id); [|done].
    simpl. rewrite <- HIu. by apply position_of_positions.
  - by apply Hsubmit.
  - by apply Hcancel.
  - clear HIu. revert u. change (I (Engine.replace_order clock w e order_id user_id
                                      new_price new_qty).1).
    destruct (replace_order_cases clock w e order_id user_id new_price new_qty)
      as [->|[->|(w1 & e1 & request & _ & Hc & ->)]].
    + done.
    + by apply Hcancel.
    + apply Hsubmit. rewrite Hc. by apply Hcancel.
  - clear HIu. revert u. change (I (Engine.cancel_all w e user_id).1).
    apply (cancel_all_rule I); [|done]. intros w1 e1 k. apply Hcancel.
  - done.
  - unfold Engine.settle_instrument.
    destruct (Engine.instruments_ e !! id) as [inst|]; [|done]. simpl.
    rewrite <- HIu. unfold Engine.position_of. simpl. rewrite lookup_fmap.
    destruct (Engine.positions_ e !! u) as [m|]; simpl; [|done].
    unfold Engine.settle_user. destruct (m !! id) as [pos|]; [|done].
    destruct (Position.net_qty pos =? 0); [done|]. by rewrite lookup_insert_ne.
  - done.
Qed.

Lemma replay_run_from i ops s :
  Forall (unsettled i) ops ->
  (forall u, Engine.position_of s.2 u i
             = Engine.position_of (replay (Engine.fill_history_ s.2)) u i) ->
  forall u, Engine.position_of (run_from clock s ops).2 u i
            = Engine.position_of (replay (Engine.fill_history_ (run_from clock s ops).2)) u i.
Proof.
  intros Hops. revert s. induction Hops as [|op ops Hop _ IH]; intros s Hs; [done|].
  simpl. apply IH. by apply replay_step.
Qed.

(** X16.  As long as an instrument has not been settled, the position of
    every user in it is the one [update_position] builds from the fills of
    the fill history, in their order, starting with no position; and when
    the quantities of the fills recorded add up to less than [2^63], its
    net quantity is the sum of the quantities of the user's fills in the
    instrument, bought ones counted positive and sold ones negative (the
    program adds them modulo [2^64]). *)
Theorem positions_replay_fills ops i :
  Forall (unsettled i) ops ->
  let e := (run clock ops).2 in
  forall u,
    Engine.position_of e u i = Engine.position_of (replay (Engine.get_fill_history e)) u i /\
    (fill_volume (Engine.get_fill_history e) < 2 ^ 63 ->
     Position.net_qty (Engine.position_of e u i)
     = net_fills u i (Engine.get_fill_history e)).
Proof.
  intros Hops e u.
  assert (Engine.position_of e u i
          = Engine.position_of (replay (Engine.fill_history_ e)) u i) as Heq.
  { subst e. unfold run. by apply replay_run_from. }
  unfold Engine.get_fill_history. split; [done|]. intros Hvol.
  rewrite Heq. apply net_qty_replay; [|done].
  apply paired_positive, run_history_paired.
Qed.

End Replay.

(** ** The fill history accounts for the filled quantities *)
Section Account.
Context {D : Type} `{!DoubleOps D}.
Variable clock : nat -> Timestamp.
Implicit Types (w : World.t) (e : Engine.t D) (b : OrderBook.t) (q order passive : ptr).
Implicit Types (lvl L : list ptr) (fills : list Fill.t) (s : Side).

Lemma filled_in_app k fills fills' :
  filled_in k (fills ++ fills') = filled_in k fills + filled_in k fills'.
Proof.
  unfold filled_in. rewrite filter_app, fmap_app.
  induction (Fill.quantity <$> filter _ fills) as [|x l IH]; simpl; lia.
Qed.

Lemma filled_in_fresh (k : OrderId) fills :
  Forall (fun f => Fill.order_id f <> k) fills -> filled_in k fills = 0.
Proof.
  induction 1 as [|f fills Hf _ IH]; [done|].
  unfold filled_in in *. by rewrite filter_cons, decide_False.
Qed.

Section Fixed.
Variables (w0 : World.t) (R0 : list ptr) (order : ptr).
Hypothesis R0_nodup : NoDup R0.
Hypothesis R0_order : order ∉ R0.
Hypothesis ids_distinct :
  forall p q, valid w0 p -> valid w0 q ->
              Order.id (deref w0 p) = Order.id (deref w0 q) -> p = q.

Lemma account_inv_step price passive w b L fills w' b' popped f1 f2 :
  fill_inv w0 R0 order w (passive :: L) fills ->
  account_inv w0 w fills ->
  OrderBook.unfilled w order = true ->
  OrderBook.match_one clock price order passive w b = (w', b', popped, f1, f2) ->
  account_inv w0 w' (fills ++ [f1; f2]).
Proof.
  intros (Hle & Hsuf & Hlive & _) [Hacc Hids] Hun Hm.
  assert (passive ∈ R0) as Hin.
  { destruct Hsuf as [pre ->]. apply elem_of_app. right. left. }
  assert (order <> passive) as Hne by (intros ->; done).
  apply Forall_cons in Hlive as [Hlp _].
  pose proof (unfilled_valid _ _ Hun) as Hvo.
  assert (valid w passive) as Hvp by (by apply live_valid).
  assert (valid w0 order) as Hvo0 by (by apply (world_le_valid _ _ _ Hle)).
  assert (valid w0 passive) as Hvp0 by (by apply (world_le_valid _ _ _ Hle)).
  destruct (match_one_fills _ _ _ _ _ _ _ _ _ _ _ Hm) as [Hf1 Hf2].
  destruct (match_one_world _ _ _ _ _ _ _ _ _ _ _ Hm) as (_ & _ & Hother).
  destruct (match_one_distinct _ _ _ _ _ _ _ _ _ _ _ Hm Hne Hvo Hvp) as (Ho & Hp & _).
  assert (forall q, Order.id (deref w q) = Order.id (deref w0 q)) as Hid.
  { intros q. destruct Hle as [_ Hsame]. by destruct (Hsame q) as (? & _). }
  set (mq := match_quantity w order passive) in *.
  assert (forall k, filled_in k [f1; f2]
                    = (if decide (Order.id (deref w0 order) = k) then mq else 0)
                      + (if decide (Order.id (deref w0 passive) = k) then mq else 0)) as Hsum.
  { intros k. unfold filled_in. rewrite !filter_cons, filter_nil, Hf1, Hf2. simpl.
    rewrite !Hid.
    destruct (decide (Order.id (deref w0 order) = k)),
             (decide (Order.id (deref w0 passive) = k)); simpl; lia. }
  split.
  - intros q Hq. rewrite filled_in_app, Hsum.
    destruct (decide (q = order)) as [->|Hqo]; [|destruct (decide (q = passive)) as [->|Hqp]].
    + rewrite Ho. simpl. rewrite (Hacc order Hq), decide_True by done.
      rewrite decide_False; [lia|]. intros Heq. apply Hne. symmetry. by apply ids_distinct.
    + rewrite Hp. simpl. rewrite (Hacc passive Hq), (decide_True _ _ eq_refl).
      rewrite decide_False; [lia|]. intros Heq. apply Hne. by apply ids_distinct.
    + rewrite Hother, (Hacc q Hq) by done.
      rewrite !decide_False; [lia| |]; intros Heq; [apply Hqp|apply Hqo];
        symmetry; by apply ids_distinct.
  - apply Forall_app. split; [done|].
    constructor; [|constructor; [|constructor]].
    + exists order. split; [done|]. by rewrite Hf1, <- Hid.
    + exists passive. split; [done|]. by rewrite Hf2, <- Hid.
Qed.

Lemma match_level_account_inv price (R : list ptr) fuel w b lvl fills w' b' lvl' fills' :
  OrderBook.match_level clock fuel price order w b lvl fills = Some (w', b', lvl', fills') ->
  Order.post_only (deref w0 order) = false ->
  fill_inv w0 R0 order w (lvl ++ R) fills ->
  account_inv w0 w fills ->
  account_inv w0 w' fills'.
Proof.
  intros Heq Hpo HI HA.
  set (I := fun w1 (b1 : OrderBook.t) lvl1 fills1 =>
              fill_inv w0 R0 order w1 (lvl1 ++ R) fills1 /\ account_inv w0 w1 fills1).
  assert (I w' b' lvl' fills') as [_ H]; [|exact H].
  eapply (proj1 (match_level_rule clock price order I _ _ _ _ _ _ _ _ _ _ Heq _)).
  Unshelve.
  - intros w1 b1 passive rest fills1 w2 b2 popped f1 f2 [HI1 HA1] Hun Hm.
    pose proof (fill_inv_step clock w0 R0 order R0_nodup R0_order
                  price passive w1 b1 (rest ++ R) fills1 _ _ _ _ _ HI1 Hpo Hun Hm).
    pose proof (account_inv_step price passive w1 b1 (rest ++ R) fills1 _ _ _ _ _
                  HI1 HA1 Hun Hm).
    split; [by destruct popped|done].
  - by split.
Qed.

Lemma match_levels_account_inv s fuel w b fills w' b' fills' :
  OrderBook.match_levels clock fuel s order w b fills = Some (w', b', fills') ->
  fill_inv w0 R0 order w (resting (OrderBook.opposite s b)) fills ->
  account_inv w0 w fills ->
  account_inv w0 w' fills'.
Proof.
  intros Heq HI HA.
  set (I := fun w1 b1 fills1 =>
              fill_inv w0 R0 order w1 (resting (OrderBook.opposite s b1)) fills1 /\
              account_inv w0 w1 fills1).
  assert (I w' b' fills') as [_ H]; [|exact H].
  eapply (match_levels_rule clock s order I); [| |exact Heq|by split].
  - intros w1 b1 price lvl rest fills1 w2 b2 lvl2 fills2 [HI1 HA1] _ Hopp _ Hpo Hlvl.
    assert (Order.post_only (deref w0 order) = false) as Hpo0.
    { destruct HI1 as ([_ Hsame] & _).
      destruct (Hsame order) as (_ & _ & _ & _ & _ & _ & _ & Hp & _). congruence. }
    rewrite Hopp, resting_cons in HI1.
    unfold I. rewrite opposite_set_opposite, resting_level_tail. split.
    + eapply (match_level_fill_inv clock w0 R0 order R0_nodup R0_order); eauto.
    + eapply match_level_account_inv; eauto.
  - intros w1 b1 price lvl rest fills1 [HI1 HA1] Hun _ _ Hpo.
    assert (Order.post_only (deref w0 order) = true) as Hpo0.
    { destruct HI1 as ([_ Hsame] & _).
      destruct (Hsame order) as (_ & _ & _ & _ & _ & _ & _ & Hp & _). congruence. }
    split; [by apply (fill_inv_reject w0 R0 order R0_nodup R0_order)|].
    destruct HA1 as [Hacc Hids]. split; [|done].
    intros q Hq. rewrite <- (Hacc q Hq).
    destruct (decide (q = order)) as [->|Hne].
    + rewrite deref_store_same; [done|]. by apply unfilled_valid.
    + by rewrite deref_store_other.
Qed.

End Fixed.

(** [add_order] advances every order by the quantities of the fills it
    returns under the id of the order. *)
Lemma add_order_account w b order :
  book_wf w b -> book_live w b -> valid w order ->
  (forall s, order ∉ resting (own s b)) ->
  0 <= Order.filled_quantity (deref w order) <= Order.quantity (deref w order) ->
  (forall p q, valid w p -> valid w q ->
               Order.id (deref w p) = Order.id (deref w q) -> p = q) ->
  account_inv w (OrderBook.add_order clock w b order).1.1 (OrderBook.add_order clock w b order).2.
Proof.
  intros Hwf Hlive Hv Hfresh Hq Hinj.
  destruct (add_order_cases clock w b order) as (w1 & b2 & fills & Hml & Hcase).
  set (s := Order.side (deref w order)) in *.
  set (b1 := OrderBook.set_orders_ _ b) in Hml.
  assert (OrderBook.opposite s b1 = OrderBook.opposite s b) as Hb1 by (by destruct s).
  pose proof (proj1 (book_wf_sides _ _) Hwf) as Hsides.
  pose proof (proj1 (book_live_sides _ _) Hlive) as Hls.
  set (R0 := resting (OrderBook.opposite s b)).
  assert (NoDup R0) as Hnd.
  { unfold R0. rewrite <- own_other, <- queue_snd. by destruct (Hsides (other s)) as (_ & ? & _). }
  assert (order ∉ R0) as Hord by (unfold R0; rewrite <- own_other; apply Hfresh).
  assert (fill_inv w R0 order w R0 []) as HI0.
  { apply fill_inv_init; [|lia].
    unfold R0. rewrite <- own_other. by destruct (Hls (other s)). }
  assert (account_inv w w1 fills) as [Hacc Hids].
  { eapply (match_levels_account_inv w R0 order Hnd Hord Hinj); [exact Hml|by rewrite Hb1|].
    split; [|constructor]. intros q _. unfold filled_in. simpl. lia. }
  assert (forall st, account_inv w (store w1 order (Order.set_status st (deref w1 order))) fills)
    as Hkeep.
  { intros st. split; [|done]. intros q Hq'. rewrite <- (Hacc q Hq').
    destruct (decide (q = order)) as [->|Hne]; [|by rewrite deref_store_other].
    rewrite deref_store_same; [done|].
    pose proof (match_levels_world _ _ _ _ _ _ _ _ _ _ Hml) as Hle.
    by apply (world_le_valid _ _ _ Hle). }
  destruct Hcase as [[Hr ->]|[(Hr & Hun & Hi & ->)|[(Hr & Hge & ->)|(Hr & Hun & Hi & ->)]]];
    cbn [fst snd]; [by split|apply Hkeep..].
Qed.

Lemma account_ok_ext w e w' e' :
  World.heap w' = World.heap w ->
  Engine.fill_history_ e' = Engine.fill_history_ e ->
  account_ok (w, e) -> account_ok (w', e').
Proof.
  intros Hh Hf [Hacc Hids].
  assert (forall q, deref w' q = deref w q) as Hd by (intros q; unfold deref; by rewrite Hh).
  assert (forall q, valid w' q <-> valid w q) as Hv by (intros q; unfold valid; by rewrite Hh).
  split; cbn [fst snd] in *; rewrite Hf.
  - intros q Hq. rewrite Hd. by apply Hacc, Hv.
  - eapply Forall_impl; [exact Hids|]. simpl. intros f (q & Hq & ->).
    exists q. split; [by apply Hv|by rewrite Hd].
Qed.

Lemma cancel_order_filled w b k q :
  let w' := (OrderBook.cancel_order w b k).1.1 in
  Order.filled_quantity (deref w' q) = Order.filled_quantity (deref w q) /\
  Order.id (deref w' q) = Order.id (deref w q) /\
  (valid w' q <-> valid w q).
Proof.
  unfold OrderBook.cancel_order.
  destruct (OrderBook.orders_ b !! k) as [order|]; simpl; [|done].
  split; [|split; [|apply valid_store]].
  - destruct (decide (q = order)) as [->|Hne]; [|by rewrite deref_store_other].
    destruct (decide (valid w order)) as [Hv|Hv].
    + by rewrite deref_store_same.
    + by rewrite store_invalid.
  - destruct (decide (q = order)) as [->|Hne]; [|by rewrite deref_store_other].
    destruct (decide (valid w order)) as [Hv|Hv].
    + by rewrite deref_store_same.
    + by rewrite store_invalid.
Qed.

Lemma account_ok_cancel_order w e k u :
  account_ok (w, e) -> account_ok (Engine.cancel_order w e k u).1.
Proof.
  intros [Hacc Hids]. cbn [fst snd] in *.
  destruct (cancel_order_history w e k u) as (Hf & _).
  destruct (cancel_order_fields w e k u) as (_ & _ & _ & Hcase). cbv zeta in *.
  destruct (Engine.cancel_order w e k u) as [[w' e'] ok]. cbn [fst snd] in *.
  split; cbn [fst snd]; rewrite Hf.
  - destruct Hcase as [[= -> ->]|(inst & -> & _)]; [done|].
    intros q Hq.
    destruct (cancel_order_filled w (Engine.book_of e inst) k q) as (-> & -> & Hv).
    by apply Hacc, Hv.
  - eapply Forall_impl; [exact Hids|]. simpl. intros f (q & Hq & ->).
    exists q. destruct Hcase as [[= -> ->]|(inst & -> & _)]; [done|].
    destruct (cancel_order_filled w (Engine.book_of e inst) k q) as (_ & -> & Hv).
    split; [by apply Hv|done].
Qed.

Lemma account_ok_submit_order w e request :
  engine_ok (w, e) -> registry_ok (w, e) -> account_ok (w, e) ->
  account_ok (Engine.submit_order clock w e request).1.
Proof.
  intros Hok ((I1 & I2) & _) [Hacc Hids]. cbn [fst snd] in *.
  pose proof (submit_order_accept_or_reject clock w e request) as Hcase.
  destruct (reject_reason e request) as [msg|] eqn:Hrej.
  { rewrite Hcase. by split. }
  clear Hcase.
  destruct (submit_order_accepted clock w e request Hrej) as (Hw & _).
  destruct (submit_order_registers clock w e request Hrej)
    as (_ & _ & _ & _ & _ & Hhist & _).
  destruct (accepted_request e request Hrej) as [Hqty _].
  destruct (accepted_setup clock w e request Hok Hrej)
    as ((Hwf2 & Hlive2 & _) & _ & Hvo & Ho & Hfresh & Hw2).
  cbv zeta in *.
  set (o := new_order e request (clock (World.reads w))) in *.
  set (order := length (World.heap w)) in *.
  set (w2 := (make_shared (World.mk (World.heap w) (S (World.reads w))) o).2) in *.
  set (b0 := Engine.book_of e (OrderRequest.instrument_id request)) in *.
  set (k0 := Engine.next_order_id_ e) in *.
  assert (forall q, valid w2 q <-> valid w q \/ q = order) as Hv2.
  { intros q. unfold valid, w2, make_shared, order. simpl. rewrite length_app. simpl. lia. }
  assert (forall p q, valid w2 p -> valid w2 q ->
            Order.id (deref w2 p) = Order.id (deref w2 q) -> p = q) as Hinj.
  { intros p q [Hp| ->]%Hv2 [Hq| ->]%Hv2; [| | |done].
    - destruct (Hw2 p Hp) as [_ ->]. destruct (Hw2 q Hq) as [_ ->]. by apply I2.
    - destruct (Hw2 p Hp) as [_ ->]. rewrite Ho. simpl. pose proof (I1 p Hp). fold k0. lia.
    - destruct (Hw2 q Hq) as [_ ->]. rewrite Ho. simpl. pose proof (I1 q Hq). fold k0. lia. }
  destruct (add_order_account w2 b0 order) as [Hacc3 Hids3];
    [done|done|done|done|rewrite Ho; simpl; lia|done|].
  destruct (add_order_wf clock w2 b0 order) as (_ & Hle3 & _); [done|done| |].
  { rewrite queue_snd. apply Hfresh. }
  set (added := OrderBook.add_order clock w2 b0 order) in *.
  destruct (Engine.submit_order clock w e request) as [[w' e'] r]. cbn [fst snd] in *.
  subst w'.
  assert (forall q, Order.id (deref added.1.1 q) = Order.id (deref w2 q)) as Hid3.
  { intros q. destruct Hle3 as [_ Hsame]. by destruct (Hsame q) as (? & _). }
  split; cbn [fst snd]; rewrite Hhist.
  - intros q Hq. apply (world_le_valid _ _ _ Hle3) in Hq.
    rewrite (Hacc3 q Hq), Hid3, filled_in_app. f_equal.
    apply Hv2 in Hq as [Hq| ->].
    + destruct (Hw2 q Hq) as [_ ->]. by apply Hacc.
    + rewrite Ho. simpl. symmetry. apply filled_in_fresh.
      eapply Forall_impl; [exact Hids|]. simpl. intros f (q & Hq & ->).
      pose proof (I1 q Hq). fold k0. lia.
  - apply Forall_app. split.
    + eapply Forall_impl; [exact Hids|]. simpl. intros f (q & Hq & ->).
      exists q. split; [apply (world_le_valid _ _ _ Hle3), Hv2; by left|].
      rewrite Hid3. by destruct (Hw2 q Hq) as [_ ->].
    + eapply Forall_impl; [exact Hids3|]. simpl. intros f (q & Hq & ->).
      exists q. split; [by apply (world_le_valid _ _ _ Hle3)|by rewrite Hid3].
Qed.

Lemma account_ok_step (s : World.t * Engine.t D) op :
  op_ok (fun _ => True) (fun st _ => id_room st) s op ->
  (engine_ok s /\ registry_ok s) /\ account_ok s ->
  (engine_ok (step clock s op) /\ registry_ok (step clock s op)) /\ account_ok (step clock s op).
Proof.
  revert s op.
  apply (step_preserves clock
           (fun st => (engine_ok st /\ registry_ok st) /\ account_ok st)
           (fun _ => True) (fun st _ => id_room st)).
  - intros w e spec Hop [HR HA].
    split; [apply (registry_ok_step clock (w, e) (Op.AddInstrument spec) Hop HR)|].
    simpl. unfold Engine.add_instrument.
    destruct (Engine.instruments_ e !! InstrumentSpec.id spec); [done|].
    eapply account_ok_ext; [..|exact HA]; done.
  - intros w e id halted [HR HA].
    split; [apply (registry_ok_step clock (w, e) (Op.HaltInstrument id halted) I HR)|].
    simpl. unfold Engine.halt_instrument.
    destruct (Engine.instruments_ e !! id); [|done].
    eapply account_ok_ext; [..|exact HA]; done.
  - intros w e request Hroom [[Hok HR] HA].
    split; [apply (registry_ok_step clock (w, e) (Op.SubmitOrder request) Hroom (conj Hok HR))|].
    by apply account_ok_submit_order.
  - intros w e k u [HR HA].
    split; [apply (registry_ok_step clock (w, e) (Op.CancelOrder k u) I HR)|].
    by apply account_ok_cancel_order.
  - intros w e n [[Hok HR] HA]. split; [split|].
    + intros id b Hb. destruct (Hok id b Hb) as [Hbok Hid]. split; [|done].
      eapply book_ok_frame; [exact Hbok|]. intros q Hq _. split; [done|apply deref_reads].
    + eapply registry_ok_ext; [..|exact HR]; done.
    + eapply account_ok_ext; [..|exact HA]; done.
  - intros w e id v [HR HA].
    split; [apply (registry_ok_step clock (w, e) (Op.SettleInstrument id v) I HR)|].
    simpl. unfold Engine.settle_instrument.
    destruct (Engine.instruments_ e !! id); [|done].
    eapply account_ok_ext; [..|exact HA]; done.
  - intros w e u limits [HR HA].
    split; [apply (registry_ok_step clock (w, e) (Op.SetRiskLimits u limits) I HR)|].
    eapply account_ok_ext; [..|exact HA]; done.
Qed.

(** X17.  In a state reached before the order ids wrap around, what an
    order was filled is the sum of the quantities of the fills of the fill
    history that carry its id, whether it was filled as the incoming order
    or while it rested; and every fill of the history carries the id of an
    order. *)
Theorem fills_account_for_orders ops :
  ids_suffice ops ->
  let s := run clock ops in
  (forall q, valid s.1 q ->
     Order.filled_quantity (deref s.1 q)
     = filled_in (Order.id (deref s.1 q)) (Engine.get_fill_history s.2)) /\
  (forall f, f ∈ Engine.get_fill_history s.2 ->
     exists q, valid s.1 q /\ Fill.order_id f = Order.id (deref s.1 q)).
Proof.
  intros Hlen s.
  assert ((engine_ok s /\ registry_ok s) /\ account_ok s) as [_ [Hacc Hids]].
  { subst s. unfold run.
    apply (run_from_preserves clock
             (fun st => (engine_ok st /\ registry_ok st) /\ account_ok st)
             (fun _ => True) (fun st _ => id_room st)).
    - apply account_ok_step.
    - apply run_ok_id_room. unfold ids_suffice in Hlen. simpl. lia.
    - split; [split; [|apply registry_ok_init]|].
      + intros id b. simpl. by rewrite lookup_empty.
      + split; [|constructor]. intros q Hq. unfold valid in Hq. simpl in Hq. lia. }
  split; [done|].
  intros f Hf. unfold Engine.get_fill_history in Hf.
  by eapply Forall_forall in Hids.
Qed.

End Account.

(** ** Finished orders *)
Section Finished.
Context {D : Type} `{!DoubleOps D}.
Variable clock : nat -> Timestamp.
Implicit Types (w : World.t) (e : Engine.t D) (b : OrderBook.t) (q order : ptr).
Implicit Types (s : World.t * Engine.t D) (ops : list (Op.t D)).

Lemma live_unfinished w q : live w q -> finished (deref w q) -> False.
Proof.
  intros [_ Hst] [Hf|[Hf|Hf]]; rewrite Hst in Hf; by destruct (0 <? _).
Qed.

Lemma next_order_id_run_from s ops :
  (Engine.next_order_id_ (run_from clock s ops).2
   <= Engine.next_order_id_ s.2 + N.of_nat (length ops))%N.
Proof.
  revert s. induction ops as [|op ops IH]; intros s; [simpl; lia|].
  simpl. pose proof (IH (step clock s op)). pose proof (next_order_id_step clock s op).
  unfold run_from in *. lia.
Qed.

Lemma finished_submit_order w e request q :
  engine_ok (w, e) -> valid w q -> finished (deref w q) ->
  valid (Engine.submit_order clock w e request).1.1 q /\
  deref (Engine.submit_order clock w e request).1.1 q = deref w q.
Proof.
  intros Hok Hq Hfin.
  pose proof (submit_order_accept_or_reject clock w e request) as Hcase.
  destruct (reject_reason e request) as [msg|] eqn:Hrej.
  { by rewrite Hcase. }
  clear Hcase.
  destruct (submit_order_accepted clock w e request Hrej) as (-> & _).
  destruct (accepted_request e request Hrej) as [Hqty _].
  destruct (accepted_setup clock w e request Hok Hrej)
    as ((Hwf2 & Hlive2 & _) & _ & Hvo & Ho & Hfresh & Hw2).
  cbv zeta in *.
  set (w2 := (make_shared _ _).2) in *.
  set (order := length (World.heap w)) in *.
  set (b0 := Engine.book_of e (OrderRequest.instrument_id request)) in *.
  destruct (add_order_live clock w2 b0 order) as (_ & Hframe3 & _);
    [done|done|done|done|rewrite Ho; simpl; lia|].
  destruct (add_order_wf clock w2 b0 order) as (_ & Hle3 & _); [done|done| |].
  { rewrite queue_snd. apply Hfresh. }
  destruct (Hw2 q Hq) as [Hq2 Hd2].
  split; [by apply (world_le_valid _ _ _ Hle3)|].
  rewrite <- Hd2. apply Hframe3.
  - intros ->. unfold valid, order in Hq. lia.
  - intros Hin. rewrite <- own_other in Hin.
    destruct (proj1 (book_live_sides _ _) Hlive2 (other (Order.side (deref w2 order))))
      as [_ Hl].
    eapply Forall_forall in Hl; [|exact Hin].
    apply (live_unfinished w2 q Hl). by rewrite Hd2.
Qed.

Lemma finished_cancel_order w e k u q :
  engine_ok (w, e) -> registry_ok (w, e) -> valid w q -> finished (deref w q) ->
  valid (Engine.cancel_order w e k u).1.1 q /\
  deref (Engine.cancel_order w e k u).1.1 q = deref w q.
Proof.
  intros Hok HR Hq Hfin.
  destruct (cancel_order_at (w, e) k u Hok HR) as (Hiff & Hfail & Hdone).
  pose proof (engine_ok_cancel_order w e k u Hok) as Hok1.
  cbn [fst snd] in *.
  assert (valid (Engine.cancel_order w e k u).1.1 q) as Hv.
  { destruct (cancel_order_fields w e k u) as (_ & _ & _ & [->|(i & -> & _)]); [done|].
    by apply (world_le_valid _ _ _ (cancel_order_world_le w (Engine.book_of e i) k)). }
  split; [done|].
  destruct (Engine.cancel_order w e k u) as [[w1 e1] ok]. cbn [fst snd] in *.
  destruct ok; [|by injection (Hfail eq_refl) as -> _].
  destruct (proj1 Hiff eq_refl) as (qa & Hqa & _).
  destruct (Hdone qa eq_refl Hqa) as (Hr & _ & Hoth & _).
  apply Hoth. intros ->. unfold rests in Hr. cbn [fst snd] in Hr.
  destruct (book_of_ok w e (Order.instrument_id (deref w qa)) Hok) as [(_ & Hlive & _) _].
  destruct (proj1 (book_live_sides _ _) Hlive (Order.side (deref w qa))) as [_ Hl].
  eapply Forall_forall in Hl; [|exact Hr]. by apply (live_unfinished w qa).
Qed.

Lemma finished_step q (o : Order.t) s op :
  finished o ->
  op_ok (fun _ => True) (fun s _ => id_room s) s op ->
  (engine_ok s /\ registry_ok s) /\ (valid s.1 q /\ deref s.1 q = o) ->
  (engine_ok (step clock s op) /\ registry_ok (step clock s op)) /\
  (valid (step clock s op).1 q /\ deref (step clock s op).1 q = o).
Proof.
  intros Hfin. revert s op.
  apply (step_preserves clock
           (fun s => (engine_ok s /\ registry_ok s) /\ (valid s.1 q /\ deref s.1 q = o))
           (fun _ => True) (fun s _ => id_room s)).
  - intros w e spec Hop [HR HA].
    split; [apply (registry_ok_step clock (w, e) (Op.AddInstrument spec) Hop HR)|done].
  - intros w e id halted [HR HA].
    split; [apply (registry_ok_step clock (w, e) (Op.HaltInstrument id halted) I HR)|done].
  - intros w e request Hroom [[Hok HR] [Hq Hd]]. cbn [fst snd] in *.
    split; [apply (registry_ok_step clock (w, e) (Op.SubmitOrder request) Hroom (conj Hok HR))|].
    destruct (finished_submit_order w e request q Hok Hq) as [? ->]; [by rewrite Hd|done].
  - intros w e k u [[Hok HR] [Hq Hd]]. cbn [fst snd] in *.
    split; [apply (registry_ok_step clock (w, e) (Op.CancelOrder k u) I (conj Hok HR))|].
    destruct (finished_cancel_order w e k u q Hok HR Hq) as [? ->]; [by rewrite Hd|done].
  - intros w e n [[Hok HR] [Hq Hd]]. cbn [fst snd] in *. split; [split|].
    + intros id b Hb. destruct (Hok id b Hb) as [Hbok Hid]. split; [|done].
      eapply book_ok_frame; [exact Hbok|]. intros p Hp _. split; [done|apply deref_reads].
    + eapply registry_ok_ext; [..|exact HR]; done.
    + split; [done|]. by rewrite deref_reads.
  - intros w e id v [HR HA].
    split; [apply (registry_ok_step clock (w, e) (Op.SettleInstrument id v) I HR)|done].
  - intros w e u limits [HR HA].
    split; [apply (registry_ok_step clock (w, e) (Op.SetRiskLimits u limits) I HR)|done].
Qed.

(** X18.  Before the order ids wrap around, an order that has ended
    FILLED, CANCELLED or REJECTED is never touched again: whatever the
    engine is asked to do next, the order keeps every one of its fields. *)
Theorem finished_orders_frozen ops ops' q :
  ids_suffice (ops ++ ops') ->
  let s := run clock ops in
  let s' := run clock (ops ++ ops') in
  valid s.1 q -> finished (deref s.1 q) ->
  valid s'.1 q /\ deref s'.1 q = deref s.1 q.
Proof.
  intros Hlen s s' Hq Hfin.
  unfold ids_suffice in Hlen. rewrite length_app in Hlen.
  destruct (run_registry_ok clock ops) as [Hok HR]; [unfold ids_suffice; lia|].
  fold s in Hok, HR.
  assert ((engine_ok s' /\ registry_ok s') /\ (valid s'.1 q /\ deref s'.1 q = deref s.1 q))
    as [_ H]; [|exact H].
  subst s'. unfold run. rewrite run_from_app. fold (run clock ops). fold s.
  apply (run_from_preserves clock
           (fun s' => (engine_ok s' /\ registry_ok s')
                      /\ (valid s'.1 q /\ deref s'.1 q = deref s.1 q))
           (fun _ => True) (fun s _ => id_room s)).
  - intros s1 op. by apply finished_step.
  - apply run_ok_id_room.
    pose proof (next_order_id_run_from (World.init, Engine.init) ops) as Hn.
    fold (run clock ops) in Hn. fold s in Hn. simpl in Hn. lia.
  - done.
Qed.

End Finished.

(** ** Time priority *)
Section Fifo.
Context {D : Type} `{!DoubleOps D}.
Variable clock : nat -> Timestamp.
Implicit Types (w : World.t) (e : Engine.t D) (b : OrderBook.t) (q order : ptr).
Implicit Types (m : Levels) (l lvl : list ptr) (sd : Side).

Lemma by_arrival_ext w w' l :
  (forall p, p ∈ l -> Order.id (deref w' p) = Order.id (deref w p)) ->
  by_arrival w l -> by_arrival w' l.
Proof.
  unfold by_arrival. intros Hid Hs. induction Hs as [|p l Hs IH Hall]; [constructor|].
  constructor.
  - apply IH. intros x Hx. apply Hid. by right.
  - apply Forall_forall. intros x Hx. eapply Forall_forall in Hall; [|exact Hx].
    rewrite !Hid; [done|by right|by left].
Qed.

Lemma by_arrival_suffix w l l' : l' `suffix_of` l -> by_arrival w l -> by_arrival w l'.
Proof.
  unfold by_arrival. intros [k ->]. induction k as [|x k IH]; [done|].
  intros [Hs _]%StronglySorted_inv. by apply IH.
Qed.

Lemma by_arrival_snoc w l q :
  by_arrival w l ->
  (forall p, p ∈ l -> (Order.id (deref w p) < Order.id (deref w q))%N) ->
  by_arrival w (l ++ [q]).
Proof.
  unfold by_arrival. intros Hs Hlt. induction Hs as [|p l Hs IH Hall]; simpl.
  - repeat constructor.
  - constructor.
    + apply IH. intros x Hx. apply Hlt. by right.
    + apply Forall_app. split; [done|]. constructor; [|done]. apply Hlt. by left.
Qed.

Lemma book_fifo_sides w b : book_fifo w b <-> forall sd, side_fifo w (own sd b).
Proof.
  split.
  - intros [Hb Ha] []; done.
  - intros H. split; [apply (H BUY)|apply (H SELL)].
Qed.

Lemma side_fifo_ext w w' m :
  (forall p, p ∈ resting m -> Order.id (deref w' p) = Order.id (deref w p)) ->
  side_fifo w m -> side_fifo w' m.
Proof.
  unfold side_fifo. induction m as [|[price l] m IH]; intros Hid Hf; [done|].
  rewrite resting_cons in Hid. apply Forall_cons in Hf as [Hl Hm]. constructor.
  - eapply by_arrival_ext; [|exact Hl]. intros p Hp. apply Hid, elem_of_app. by left.
  - apply IH; [|done]. intros p Hp. apply Hid, elem_of_app. by right.
Qed.

Lemma book_fifo_ext w w' b :
  (forall sd p, p ∈ resting (own sd b) -> Order.id (deref w' p) = Order.id (deref w p)) ->
  book_fifo w b -> book_fifo w' b.
Proof.
  intros Hid Hf. apply book_fifo_sides. intros sd.
  eapply side_fifo_ext; [apply Hid|by apply book_fifo_sides].
Qed.

Lemma book_fifo_world_le w w' b : world_le w w' -> book_fifo w b -> book_fifo w' b.
Proof.
  intros [_ Hsame]. apply book_fifo_ext. intros sd p _. by destruct (Hsame p) as [? _].
Qed.

(** [add_to_book] puts the order at the back of the queue of its price. *)
Lemma side_fifo_level_push w before (price : Price) q m :
  side_fifo w m ->
  (forall p, p ∈ resting m -> (Order.id (deref w p) < Order.id (deref w q))%N) ->
  side_fifo w (level_push before price q m).
Proof.
  unfold side_fifo. induction m as [|[p l] rest IH]; intros Hf Hlt; simpl.
  - constructor; [|done]. simpl. repeat constructor.
  - apply Forall_cons in Hf as [Hl Hrest]. rewrite resting_cons in Hlt.
    destruct (price =? p).
    + constructor; [|done]. simpl. apply by_arrival_snoc; [done|].
      intros x Hx. apply Hlt, elem_of_app. by left.
    + destruct (before price p).
      * constructor; [simpl; repeat constructor|]. by constructor.
      * constructor; [done|]. apply IH; [done|].
        intros x Hx. apply Hlt, elem_of_app. by right.
Qed.

(** [cancel_order] takes one order out of the queue of its price. *)
Lemma by_arrival_filter w (P : ptr -> Prop) `{!forall x, Decision (P x)} l :
  by_arrival w l -> by_arrival w (filter P l).
Proof.
  unfold by_arrival. induction 1 as [|x l Hs IH Hall]; [constructor|].
  rewrite filter_cons. destruct (decide (P x)); [|done].
  constructor; [done|].
  apply Forall_forall. intros y [_ Hy]%list_elem_of_filter.
  by eapply Forall_forall in Hall.
Qed.

Lemma side_fifo_level_remove w (price : Price) q m :
  side_fifo w m -> side_fifo w (level_remove price q m).
Proof.
  unfold side_fifo. induction m as [|[p l] rest IH]; intros Hf; simpl; [done|].
  apply Forall_cons in Hf as [Hl Hrest].
  destruct (price =? p).
  - pose proof (by_arrival_filter w (fun x => x <> q) l Hl) as Hfil. simpl in Hl.
    destruct (filter _ l); [done|by constructor].
  - constructor; [done|by apply IH].
Qed.

(** Matching takes orders from the front of the queues. *)
Lemma match_levels_fifo w0 s order fuel w b fills w' b' fills' :
  OrderBook.match_levels clock fuel s order w b fills = Some (w', b', fills') ->
  side_fifo w0 (OrderBook.opposite s b) -> side_fifo w0 (OrderBook.opposite s b').
Proof.
  intros Heq Hf.
  apply (match_levels_rule clock s order
           (fun _ b1 _ => side_fifo w0 (OrderBook.opposite s b1))) in Heq; [done| | |done].
  - intros w1 b1 price lvl rest fills1 w2 b2 lvl2 fills2 HI _ Hopp _ _ Hlvl.
    rewrite opposite_set_opposite. rewrite Hopp in HI. apply Forall_cons in HI as [Hl Hrest].
    pose proof (match_level_suffix _ _ _ _ _ _ _ _ _ _ _ _ Hlvl) as Hsuf.
    destruct lvl2 as [|x lvl2]; [done|]. constructor; [|done].
    by apply (by_arrival_suffix _ lvl).
  - done.
Qed.

Lemma add_order_fifo w b order :
  book_fifo w b ->
  (forall sd p, p ∈ resting (own sd b) ->
                (Order.id (deref w p) < Order.id (deref w order))%N) ->
  book_fifo (OrderBook.add_order clock w b order).1.1 (OrderBook.add_order clock w b order).1.2.
Proof.
  intros Hf Hlt.
  destruct (add_order_shape clock w b order)
    as (w1 & b2 & fills & Hml & _ & Hopp & _ & Hown & _).
  pose proof (add_order_world_le clock w b order) as Hle.
  set (s := Order.side (deref w order)) in *.
  set (b1 := OrderBook.set_orders_ _ b) in Hml.
  pose proof (match_levels_own _ _ _ _ _ _ _ _ _ _ Hml) as Hown2.
  assert (own s b1 = own s b) as Hb1 by (by destruct s).
  assert (OrderBook.opposite s b1 = OrderBook.opposite s b) as Hb1' by (by destruct s).
  eapply book_fifo_world_le; [exact Hle|].
  apply book_fifo_sides. intros sd.
  destruct (decide (sd = s)) as [->|Hne].
  - destruct Hown as [->| ->]; rewrite Hown2, Hb1.
    + by apply book_fifo_sides.
    + apply side_fifo_level_push; [by apply book_fifo_sides|apply Hlt].
  - assert (sd = other s) as -> by (by destruct sd, s).
    rewrite own_other, Hopp. apply (match_levels_fifo w _ _ _ _ _ _ _ _ _ Hml).
    rewrite Hb1', <- own_other. by apply book_fifo_sides.
Qed.

Lemma cancel_order_fifo w b k :
  book_fifo w b ->
  book_fifo (OrderBook.cancel_order w b k).1.1 (OrderBook.cancel_order w b k).1.2.
Proof.
  intros Hf. eapply book_fifo_world_le; [apply cancel_order_world_le|].
  unfold OrderBook.cancel_order.
  destruct (OrderBook.orders_ b !! k) as [order|]; [|done]. simpl.
  destruct Hf as [Hb Ha].
  destruct (Order.side (deref w order)); split; simpl; try done;
    by apply side_fifo_level_remove.
Qed.

Lemma book_of_fifo w e id : engine_fifo (w, e) -> book_fifo w (Engine.book_of e id).
Proof.
  intros Hf. unfold Engine.book_of.
  destruct (Engine.order_books_ e !! id) as [b|] eqn:Hb; simpl; [by apply (Hf id b)|].
  split; constructor.
Qed.

(** *** Every reachable book is in arrival order *)

Lemma engine_fifo_submit_order w e request :
  engine_ok (w, e) -> registry_ok (w, e) -> engine_fifo (w, e) ->
  engine_fifo (Engine.submit_order clock w e request).1.
Proof.
  intros Hok HR Hfifo.
  pose proof (submit_order_accept_or_reject clock w e request) as Hcase.
  destruct (reject_reason e request) as [msg|] eqn:Hrej.
  { rewrite Hcase. done. }
  clear Hcase.
  destruct (submit_order_accepted clock w e request Hrej) as (Hw & _ & _ & Hbooks & _).
  destruct (accepted_setup clock w e request Hok Hrej)
    as ((Hwf2 & _) & _ & Hvo & Ho & Hfresh & Hw2).
  cbv zeta in *.
  set (w2 := (make_shared _ _).2) in *.
  set (order := length (World.heap w)) in *.
  set (iid := OrderRequest.instrument_id request) in *.
  set (b0 := Engine.book_of e iid) in *.
  pose proof (add_order_world_le clock w2 b0 order) as Hle3.
  destruct HR as ([Hids _] & _). cbn [fst snd] in Hids.
  intros id b. cbn [fst snd]. rewrite Hbooks, Hw.
  destruct (decide (iid = id)) as [<-|Hne].
  - rewrite lookup_insert_eq. intros [= <-]. apply add_order_fifo.
    + eapply book_fifo_ext; [|exact (book_of_fifo w e iid Hfifo)].
      intros sd p Hp. fold b0 in Hp.
      destruct (book_of_ok w e iid Hok) as [(Hwf0 & _) _].
      by destruct (Hw2 p (resting_valid w _ sd p Hwf0 Hp)) as [_ ->].
    + intros sd p Hp. rewrite Ho. simpl.
      destruct (book_of_ok w e iid Hok) as [(Hwf0 & _) _].
      pose proof (resting_valid w _ sd p Hwf0 Hp) as Hv.
      destruct (Hw2 p Hv) as [_ ->]. by apply Hids.
  - rewrite lookup_insert_ne by done. intros Hb.
    destruct (Hok id b Hb) as [(Hwf & _) _]. cbn [fst] in Hwf.
    eapply book_fifo_ext; [|exact (Hfifo id b Hb)].
    intros sd p Hp. cbn [fst].
    destruct (Hw2 p (resting_valid w b sd p Hwf Hp)) as [_ <-].
    destruct Hle3 as [_ Hsame]. by destruct (Hsame p) as [? _].
Qed.

Lemma engine_fifo_cancel_order w e k u :
  engine_fifo (w, e) -> engine_fifo (Engine.cancel_order w e k u).1.
Proof.
  intros Hfifo.
  destruct (cancel_order_fields w e k u) as (_ & _ & _ & [->|(inst & Hw & Hb)]); [done|].
  intros id b. rewrite Hb, Hw.
  destruct (decide (inst = id)) as [<-|Hne].
  - rewrite lookup_insert_eq. intros [= <-]. by apply cancel_order_fifo, book_of_fifo.
  - rewrite lookup_insert_ne by done. intros Hb'.
    eapply book_fifo_world_le; [apply cancel_order_world_le|]. by apply (Hfifo id b).
Qed.

Lemma engine_fifo_step s op :
  op_ok (fun _ => True) (fun s _ => id_room s) s op ->
  (engine_ok s /\ registry_ok s) /\ engine_fifo s ->
  (engine_ok (step clock s op) /\ registry_ok (step clock s op)) /\
  engine_fifo (step clock s op).
Proof.
  revert s op.
  apply (step_preserves clock (fun s => (engine_ok s /\ registry_ok s) /\ engine_fifo s)
           (fun _ => True) (fun s _ => id_room s)).
  - intros w e spec Hop [HR Hf].
    split; [apply (registry_ok_step clock (w, e) (Op.AddInstrument spec) Hop HR)|].
    unfold Engine.add_instrument.
    destruct (Engine.instruments_ e !! InstrumentSpec.id spec); [done|].
    intros id b. simpl.
    destruct (decide (InstrumentSpec.id spec = id)) as [<-|Hne].
    + rewrite lookup_insert_eq. intros [= <-]. split; constructor.
    + rewrite lookup_insert_ne by done. apply Hf.
  - intros w e id halted [HR Hf].
    split; [apply (registry_ok_step clock (w, e) (Op.HaltInstrument id halted) I HR)|].
    unfold Engine.halt_instrument. by destruct (Engine.instruments_ e !! id).
  - intros w e request Hroom [[Hok HR] Hf].
    split; [apply (registry_ok_step clock (w, e) (Op.SubmitOrder request) Hroom (conj Hok HR))|].
    by apply engine_fifo_submit_order.
  - intros w e k u [[Hok HR] Hf].
    split; [apply (registry_ok_step clock (w, e) (Op.CancelOrder k u) I (conj Hok HR))|].
    by apply engine_fifo_cancel_order.
  - intros w e n [[Hok HR] Hf]. split; [split|].
    + intros id b Hb. destruct (Hok id b Hb) as [Hbok Hid]. split; [|done].
      eapply book_ok_frame; [exact Hbok|]. intros p Hp _. split; [done|apply deref_reads].
    + eapply registry_ok_ext; [..|exact HR]; done.
    + intros id b Hb. eapply book_fifo_ext; [|exact (Hf id b Hb)].
      intros sd p _. cbn [fst]. by rewrite deref_reads.
  - intros w e id v [HR Hf].
    split; [apply (registry_ok_step clock (w, e) (Op.SettleInstrument id v) I HR)|].
    unfold Engine.settle_instrument. by destruct (Engine.instruments_ e !! id).
  - intros w e u limits [HR Hf].
    split; [apply (registry_ok_step clock (w, e) (Op.SetRiskLimits u limits) I HR)|done].
Qed.

Lemma run_fifo ops : ids_suffice ops -> engine_fifo (run clock ops).
Proof.
  intros Hlen.
  assert ((engine_ok (run clock ops) /\ registry_ok (run clock ops))
          /\ engine_fifo (run clock ops)) as [_ H]; [|exact H].
  unfold run.
  apply (run_from_preserves clock (fun s => (engine_ok s /\ registry_ok s) /\ engine_fifo s)
           (fun _ => True) (fun s _ => id_room s)).
  - intros s op. apply engine_fifo_step.
  - apply run_ok_id_room. unfold ids_suffice in Hlen. simpl. lia.
  - split; [split; [|apply registry_ok_init]|].
    + intros id b. simpl. by rewrite lookup_empty.
    + intros id b. simpl. by rewrite lookup_empty.
Qed.

(** *** Booked first, filled first *)

Lemma own_before_irrefl sd (x : Price) : own_before sd x x = false.
Proof. destruct sd; unfold own_before, asks_before, bids_before; lia. Qed.

(** A sorted price map has one level per price. *)
Lemma level_unique sd m (price : Price) (l1 l2 : list ptr) :
  levels_sorted (own_before sd) m -> (price, l1) ∈ m -> (price, l2) ∈ m -> l1 = l2.
Proof.
  unfold levels_sorted. induction 1 as [|x m Hs IH Hall]; [by intros ?%elem_of_nil|].
  intros [E1|H1]%elem_of_cons [E2|H2]%elem_of_cons.
  - congruence.
  - eapply Forall_forall in Hall; [|exact H2]. subst x. simpl in Hall.
    by rewrite own_before_irrefl in Hall.
  - eapply Forall_forall in Hall; [|exact H1]. subst x. simpl in Hall.
    by rewrite own_before_irrefl in Hall.
  - by apply IH.
Qed.

Lemma resting_level m q :
  q ∈ resting m -> exists (price : Price) (lvl : list ptr), (price, lvl) ∈ m /\ q ∈ lvl.
Proof.
  induction m as [|[p l] m IH]; [by intros ?%elem_of_nil|].
  rewrite resting_cons. intros [H|H]%elem_of_app.
  - exists p, l. split; [left|done].
  - destruct (IH H) as (price & lvl & ? & ?). exists price, lvl. split; [by right|done].
Qed.

(** Two orders of one level are in the priority queue in the order of the
    level. *)
Lemma queue_lookup_level m (price : Price) (lvl : list ptr) (a c : nat) p q :
  (price, lvl) ∈ m -> lvl !! a = Some p -> lvl !! c = Some q -> (a < c)%nat ->
  exists i j, queue m !! i = Some (price, p) /\ queue m !! j = Some (price, q) /\ (i < j)%nat.
Proof.
  induction m as [|[p0 l0] m IH]; [by intros ?%elem_of_nil|].
  rewrite queue_cons. change (map (pair p0) l0) with (pair p0 <$> l0).
  intros [E|Hin]%elem_of_cons Ha Hc Hlt.
  - injection E as <- <-. exists a, c.
    split; [|split; [|done]]; apply lookup_app_l_Some; rewrite list_lookup_fmap.
    + by rewrite Ha.
    + by rewrite Hc.
  - destruct (IH Hin Ha Hc Hlt) as (i & j & Hi & Hj & Hij).
    exists (length (pair p0 <$> l0) + i)%nat, (length (pair p0 <$> l0) + j)%nat.
    rewrite !lookup_app_r by lia.
    replace (length (pair p0 <$> l0) + i - length (pair p0 <$> l0))%nat with i by lia.
    replace (length (pair p0 <$> l0) + j - length (pair p0 <$> l0))%nat with j by lia.
    split; [done|]. split; [done|lia].
Qed.

(** In a well-formed side in arrival order, of two resting orders at one
    price the one with the smaller id is ahead in the priority queue. *)
Lemma queue_ahead w sd m p q :
  side_wf w sd m -> side_fifo w m ->
  p ∈ resting m -> q ∈ resting m ->
  Order.price (deref w p) = Order.price (deref w q) ->
  (Order.id (deref w p) < Order.id (deref w q))%N ->
  exists i j A B, queue m !! i = Some A /\ queue m !! j = Some B /\ (i < j)%nat /\
                  A.2 = p /\ B.2 = q.
Proof.
  intros (Hsorted & _ & Hall) Hfifo Hp Hq Hprice Hid.
  destruct (resting_level m p Hp) as (pp & lp & Hlp & Hpin).
  destruct (resting_level m q Hq) as (pq & lq & Hlq & Hqin).
  assert (pp = Order.price (deref w p)) as Hpp.
  { pose proof (elem_of_queue m pp lp p Hlp Hpin) as Hx.
    eapply Forall_forall in Hall; [|exact Hx]. simpl in Hall. by destruct Hall as (_ & _ & ->). }
  assert (pq = Order.price (deref w q)) as Hpq.
  { pose proof (elem_of_queue m pq lq q Hlq Hqin) as Hx.
    eapply Forall_forall in Hall; [|exact Hx]. simpl in Hall. by destruct Hall as (_ & _ & ->). }
  assert (pq = pp) as -> by congruence.
  assert (lq = lp) as -> by (by eapply level_unique).
  assert (by_arrival w lp) as Hsort.
  { unfold side_fifo in Hfifo. eapply Forall_forall in Hfifo; [|exact Hlp]. done. }
  apply list_elem_of_lookup in Hpin as (a & Ha). apply list_elem_of_lookup in Hqin as (c & Hc).
  assert (a < c)%nat as Hlt.
  { destruct (Nat.lt_trichotomy a c) as [?|[->|Hgt]]; [done| |].
    - rewrite Ha in Hc. injection Hc as ->. lia.
    - pose proof (StronglySorted_lookup _ lp c a q p Hsort Hc Ha Hgt) as Hlt. simpl in Hlt. lia. }
  destruct (queue_lookup_level m pp lp a c p q Hlp Ha Hc Hlt) as (i & j & Hi & Hj & Hij).
  exists i, j, (pp, p), (pp, q). done.
Qed.

(** C8.  Price-time priority, in three parts.

    One call of [add_order]: let [Q] be the priority queue of the side an
    incoming order matches against, its resting orders, best level first in
    map order and front to back within a level, all distinct live objects
    other than the incoming one.  [add_order] matches the first [n] orders
    of [Q], in that order and each at the price of its level; the first [k]
    of them ([k = n] or [k = n - 1]) are exhausted and leave the book, the
    orders from [n] on are untouched; every fill is at a price the incoming
    limit crosses; matching leaves an unfilled, unrejected order only when
    the opposite side is empty or its best price does not cross; and when
    the map is sorted by its comparator no order left in the book has a
    strictly better price than any fill.

    Booked first, filled first: in every state an execution reaches before
    the order ids wrap around, let [p] and [q] rest in one book on one side
    at one price, [p] with the smaller order id.  Whatever order is
    submitted next, if it fills any of [q] (or changes it at all), then [p]
    is filled in full.

    Order ids follow arrival: an accepted [submit_order] gives its order an
    id greater than the id of every order submitted before. *)
Theorem price_time_priority :
  (forall w b order,

     let o := deref w order in
     let s := Order.side o in
     let Q := queue (OrderBook.opposite s b) in
     NoDup Q.*2 -> Forall (valid w) Q.*2 -> order ∉ Q.*2 ->
     let res := OrderBook.add_order clock w b order in
     let w' := res.1.1 in
     let b' := res.1.2 in
     let fills := res.2 in
     exists n k : nat,
       (k <= n <= S k)%nat /\
       length fills = (2 * n)%nat /\
       fill_key <$> passive_fills fills = queue_key w <$> take n Q /\
       queue (OrderBook.opposite s b') = drop k Q /\
       (forall i x, Q !! i = Some x -> (i < k)%nat -> is_filled w' x.2) /\
       (forall i x, Q !! i = Some x -> (n <= i)%nat -> deref w' x.2 = deref w x.2) /\
       (forall i j A B,
          Q !! i = Some A -> Q !! j = Some B -> (i < j)%nat ->
          deref w' B.2 <> deref w B.2 -> is_filled w' A.2) /\
       Forall (fun f => OrderBook.no_cross s (Order.price o) (Fill.price f) = false) fills /\
       (Order.status (deref w' order) <> REJECTED ->
        OrderBook.unfilled w' order = true ->
        match OrderBook.opposite s b' with
        | [] => True
        | (price, _) :: _ => OrderBook.no_cross s (Order.price o) price = true
        end) /\
       (levels_sorted (opposite_before s) (OrderBook.opposite s b) ->
        forall f x, f ∈ passive_fills fills -> x ∈ queue (OrderBook.opposite s b') ->
                    opposite_before s x.1 (Fill.price f) = false)) /\
  (forall ops request p q,
     ids_suffice ops ->
     let s := run clock ops in
     let res := Engine.submit_order clock s.1 s.2 request in
     rests s p -> rests s q ->
     Order.instrument_id (deref s.1 p) = Order.instrument_id (deref s.1 q) ->
     Order.side (deref s.1 p) = Order.side (deref s.1 q) ->
     Order.price (deref s.1 p) = Order.price (deref s.1 q) ->
     (Order.id (deref s.1 p) < Order.id (deref s.1 q))%N ->
     deref res.1.1 q <> deref s.1 q ->
     is_filled res.1.1 p) /\
  (forall ops request,
     ids_suffice ops ->
     let s := run clock ops in
     let res := Engine.submit_order clock s.1 s.2 request in
     OrderResult.success res.2 = true ->
     Order.id (deref res.1.1 (length (World.heap s.1))) = OrderResult.order_id res.2 /\
     forall q, valid s.1 q ->
               (Order.id (deref s.1 q) < OrderResult.order_id res.2)%N).
Proof.
  split; [exact (add_order_priority clock)|]. split.
  - intros ops request p q Hlen s res Hp Hq Hinst Hside Hprice Hid Hch.
    destruct (run_registry_ok clock ops Hlen) as [Hok HR].
    pose proof (run_fifo ops Hlen) as Hfifo.
    pose proof (run_queue_wf clock ops request) as (Hnd & Hval & Hord & _).
    cbv zeta in Hnd, Hval, Hord.
    fold s in Hok, HR, Hfifo, Hnd, Hval, Hord. subst res. destruct s as [w e].
    cbn [fst snd] in *.
    pose proof (submit_order_accept_or_reject clock w e request) as Hcase.
    destruct (reject_reason e request) as [msg|] eqn:Hrej.
    { rewrite Hcase in Hch. done. }
    clear Hcase.
    destruct (submit_order_accepted clock w e request Hrej) as (Hw & _).
    destruct (accepted_request e request Hrej) as [Hqty _].
    destruct (accepted_setup clock w e request Hok Hrej)
      as ((Hwf2 & Hlive2 & Hown2 & _) & Hbid & Hvo & Ho & Hfresh & Hw2).
    cbv zeta in *. rewrite Hw in *. clear Hw.
    set (w2 := (make_shared _ _).2) in *.
    set (order := length (World.heap w)) in *.
    set (iid := OrderRequest.instrument_id request) in *.
    set (b0 := Engine.book_of e iid) in *.
    set (so := Order.side (deref w2 order)) in *.
    unfold rests in Hp, Hq. cbn [fst snd] in Hp, Hq.
    assert (valid w p /\ valid w q) as [Hvp Hvq].
    { split.
      - destruct (book_of_ok w e (Order.instrument_id (deref w p)) Hok) as [(Hwf & _) _].
        by eapply resting_valid.
      - destruct (book_of_ok w e (Order.instrument_id (deref w q)) Hok) as [(Hwf & _) _].
        by eapply resting_valid. }
    destruct (Hw2 p Hvp) as [_ Hdp]. destruct (Hw2 q Hvq) as [_ Hdq].
    destruct (add_order_live clock w2 b0 order) as (_ & Hframe & _);
      [done|done|done|done|rewrite Ho; simpl; lia|]. fold so in Hframe.
    assert (q ∈ resting (OrderBook.opposite so b0)) as Hqin.
    { destruct (decide (q ∈ resting (OrderBook.opposite so b0))) as [|Hnot]; [done|].
      exfalso. apply Hch. rewrite <- Hdq. apply Hframe; [|done].
      intros ->. unfold valid, order in Hvq. lia. }
    rewrite <- own_other in Hqin.
    pose proof (proj1 (book_wf_sides _ _) Hwf2 (other so)) as Hswf.
    assert (Order.instrument_id (deref w q) = iid /\ Order.side (deref w q) = other so)
      as [Hqi Hqs].
    { split.
      - destruct Hown2 as [Hrest _]. specialize (Hrest (other so)).
        eapply Forall_forall in Hrest; [|exact Hqin]. by rewrite Hdq, Hbid in Hrest.
      - destruct Hswf as (_ & _ & Hall). rewrite <- queue_snd in Hqin.
        apply list_elem_of_fmap in Hqin as (x & -> & Hx).
        eapply Forall_forall in Hall; [|exact Hx]. destruct Hall as (_ & Hs & _).
        by rewrite Hdq in Hs. }
    rewrite Hinst, Hqi, Hside, Hqs in Hp. fold b0 in Hp.
    rewrite Hqi, Hqs in Hq. fold b0 in Hq.
    destruct (queue_ahead w2 (other so) (own (other so) b0) p q) as (i & j & A & B & Hi & Hj & Hij & HA & HB).
    + done.
    + eapply side_fifo_ext; [|exact (proj1 (book_fifo_sides _ _) (book_of_fifo w e iid Hfifo)
                                      (other so))].
      intros x Hx. fold b0 in Hx.
      destruct (book_of_ok w e iid Hok) as [(Hwf0 & _) _].
      by destruct (Hw2 x (resting_valid w _ _ x Hwf0 Hx)) as [_ ->].
    + done.
    + done.
    + by rewrite Hdp, Hdq.
    + by rewrite Hdp, Hdq.
    + rewrite own_other in Hi, Hj.
      destruct (add_order_priority clock w2 b0 order Hnd Hval Hord)
        as (n & k & _ & _ & _ & _ & _ & _ & Hfirst & _).
      fold so in Hfirst. rewrite <- HA.
      apply (Hfirst i j A B Hi Hj Hij). rewrite HB, Hdq. exact Hch.
  - intros ops request Hlen s res Hsucc.
    destruct (run_registry_ok clock ops Hlen) as [Hok HR]. fold s in Hok, HR.
    subst res. destruct s as [w e]. cbn [fst snd] in *.
    pose proof (success_accepted clock w e request Hsucc) as Hrej.
    destruct (submit_order_accepted clock w e request Hrej) as (Hw & _).
    destruct (submit_order_registers clock w e request Hrej) as (Hid & _).
    destruct (accepted_setup clock w e request Hok Hrej) as (_ & _ & _ & Ho & _).
    cbv zeta in *. rewrite Hw, Hid.
    set (w2 := (make_shared _ _).2) in *.
    set (order := length (World.heap w)) in *.
    split.
    + destruct (add_order_world_le clock w2
                  (Engine.book_of e (OrderRequest.instrument_id request)) order) as [_ Hsame].
      destruct (Hsame order) as [-> _]. by rewrite Ho.
    + intros q Hq. destruct HR as ([Hids _] & _). by apply Hids.
Qed.

End Fifo.

(** * The scenarios, evaluated *)

(** C4, at three fills: opening a flat position, adding to it, and a sale
    that takes a long position short. *)
Lemma update_position_cases_witness :
  let bought := Fill.mk 1 1 1 BUY 10000 100 0 in
  let more := Fill.mk 3 1 1 BUY 11000 100 0 in
  let sold := Fill.mk 5 1 1 SELL 10500 150 0 in
  let e1 := Engine.update_position (Engine.init (D := float)) 1 bought in
  let e2 := Engine.update_position e1 1 more in
  let e3 := Engine.update_position e1 1 sold in
  (Position.net_qty (Engine.position_of e1 1 1) = 100 /\
   Position.vwap (Engine.position_of e1 1 1) = 10000) /\
  (Position.net_qty (Engine.position_of e2 1 1) = 200 /\
   Position.vwap (Engine.position_of e2 1 1) = 10500) /\
  (Position.net_qty (Engine.position_of e3 1 1) = -50 /\
   Position.vwap (Engine.position_of e3 1 1) = 10500 /\
   Position.realized_pnl (Engine.position_of e3 1 1) = 500%float).
Proof.
  intros bought more sold e1 e2 e3. split; [|split].
  - destruct (update_position_cases (Engine.init (D := float)) 1 bought)
      as ((H1 & H2 & _) & _); [reflexivity|reflexivity|reflexivity|].
    exact (conj H1 H2).
  - destruct (update_position_cases e1 1 more) as (_ & Hs & _);
      [reflexivity|reflexivity|].
    destruct Hs as (H1 & _ & H2); [left; split; reflexivity|reflexivity|].
    split; [exact H1|]. apply H2; split; (discriminate || reflexivity).
  - destruct (update_position_cases e1 1 sold) as (_ & _ & Ho & _);
      [reflexivity|reflexivity|].
    destruct Ho as (H1 & _ & H2 & H3); [left; split; reflexivity|].
    split; [exact H1|]. split; [apply H2; reflexivity|].
    apply H3. split; (discriminate || reflexivity).
Defined.

(** C4, the claim as stated fails where a result leaves the range of
    [int64_t].  User 1 is long 1 at the price [5 * 10^18] and buys 1 more
    at the same price: the sum of the two products wraps around, and the
    entry price stored is not their average.  User 1 is long 1 at
    [-5 * 10^18] and sells 1 at [5 * 10^18]: the difference of the prices
    wraps around, and the gain is booked as a loss.  User 1 is short
    [2^63], whose absolute value is no [int64_t], and buys 5 at 1.01 against
    an entry price of 0.01: instead of a loss of 5.0 a gain of [2^63] is
    booked. *)
Lemma ledger_arithmetic_wraps :
  (let e := (run Scenario.clk (take 3 Scenario.large_prices)).2 in
   let fill := Fill.mk 4 1 1 BUY 5000000000000000000 1 0 in
   let pos := Engine.position_of e 1 1 in
   let pos' := Engine.position_of (Engine.update_position e 1 fill) 1 1 in
   same_sign (Position.net_qty pos) (signed_quantity fill) /\
   Z.quot (Position.vwap pos * Z.abs (Position.net_qty pos)
           + Fill.price fill * Z.abs (signed_quantity fill))
          (Z.abs (Position.net_qty pos) + Z.abs (signed_quantity fill))
   = 5000000000000000000 /\
   Position.vwap pos' = -4223372036854775808) /\
  (let e := Engine.update_position (Engine.init (D := float)) 1
              (Fill.mk 1 1 1 BUY (-5000000000000000000) 1 0) in
   let fill := Fill.mk 2 1 1 SELL 5000000000000000000 1 0 in
   let pos := Engine.position_of e 1 1 in
   let pos' := Engine.position_of (Engine.update_position e 1 fill) 1 1 in
   opposite_sign (Position.net_qty pos) (signed_quantity fill) /\
   Position.vwap pos < Fill.price fill /\
   Position.realized_pnl pos = 0%float /\
   d_ltb (Position.realized_pnl pos') 0%float = true) /\
  (let e := Engine.update_position
              (Engine.update_position (Engine.init (D := float)) 1
                 (Fill.mk 1 1 1 SELL 1 9223372036854775807 0))
              1 (Fill.mk 2 1 1 SELL 1 1 0) in
   let fill := Fill.mk 3 1 1 BUY 101 5 0 in
   let pos := Engine.position_of e 1 1 in
   let pos' := Engine.position_of (Engine.update_position e 1 fill) 1 1 in
   Position.net_qty pos = - 2 ^ 63 /\ Position.vwap pos = 1 /\
   opposite_sign (Position.net_qty pos) (signed_quantity fill) /\
   d_add (Position.realized_pnl pos)
     (d_mul (d_neg (d_div (d_of_int (Fill.price fill - Position.vwap pos)) (d_of_int 100)))
            (d_of_int (Z.min (Z.abs (Position.net_qty pos)) (Z.abs (signed_quantity fill)))))
   = (-5)%float /\
   Position.realized_pnl pos' = 9223372036854775808%float).
Proof.
  split; [|split].
  - vm_compute. split; [left; split; reflexivity|split; reflexivity].
  - vm_compute. split; [left; split; reflexivity|repeat split; reflexivity].
  - vm_compute. split; [reflexivity|]. split; [reflexivity|].
    split; [right; split; reflexivity|split; reflexivity].
Qed.

(** C2, the request the risk gate lets through: user 1 has [max_position = 100]
    and no position entry yet; a BUY of 1000 passes [check_risk], is accepted
    and filled, and leaves the user long 1000. *)
Lemma risk_gate_skips_first_position :
  let s := run Scenario.clk Scenario.limited in
  let request := Scenario.request 1 1 BUY 10000 1000 in
  let res := Engine.submit_order Scenario.clk s.1 s.2 request in
  RiskLimits.max_position <$> (Engine.risk_limits_ s.2 !! 1%N) = Some 100 /\
  Engine.positions_ s.2 !! 1%N = None /\
  Engine.check_risk s.2 1 1 BUY 1000 = true /\
  OrderResult.success res.2 = true /\
  Position.net_qty (Engine.position_of res.1.2 1 1) = 1000.
Proof. vm_compute. repeat split. Qed.

(** C3, at the resting bid of test [PostOnlyNoMatch]. *)
Lemma post_only_rejected_witness :
  let s := Scenario.resting_bid true in
  let res := OrderBook.add_order Scenario.clk s.1 s.2 1 in
  res.2 = [] /\ Order.status (deref res.1.1 1) = REJECTED /\ res.1.2 = s.2.
Proof.
  intros s res.
  destruct (post_only_rejected Scenario.clk s.1 s.2 1 10000 [0%nat] [])
    as (H1 & H2 & H3 & _); try reflexivity.
  exact (conj H1 (conj H2 H3)).
Defined.



(** C7, the claim as stated fails: with a clock that advances at every read
    the two fills of the single match of test [SimpleMatch] carry different
    timestamps. *)
Lemma fill_pair_timestamps_differ :
  let s := Scenario.resting_bid false in
  ~ paired identical_pair (OrderBook.add_order Scenario.clk s.1 s.2 1).2.
Proof. vm_compute. intros [(_ & _ & _ & H) _]. discriminate H. Qed.

(** C8, at the three bids of test [PriorityFIFO]: the aggressor reaches the
    second bid, so the first one, booked before it, is exhausted.  And at
    the two bids of [two_bids]: a sale of 150 fills the bid of user 1,
    submitted first, in full before it fills 50 of the bid of user 2. *)
Lemma price_time_priority_witness :
  (let s := Scenario.three_bids in
   let res := OrderBook.add_order Scenario.clk s.1 s.2 3 in
   deref res.1.1 1 <> deref s.1 1 /\ is_filled res.1.1 0 /\ deref res.1.1 2 = deref s.1 2) /\
  (let s := run Scenario.clk Scenario.two_bids in
   let res := Engine.submit_order Scenario.clk s.1 s.2 (Scenario.request 3 1 SELL 10000 150) in
   Order.filled_quantity (deref res.1.1 1) = 50 /\ is_filled res.1.1 0).
Proof.
  split.
  - intros s res.
    assert (deref res.1.1 1 <> deref s.1 1) as Htouched by (vm_compute; discriminate).
    destruct (proj1 (price_time_priority (D := float) Scenario.clk) s.1 s.2 3%nat)
      as (n & k & _ & Hlen & _ & _ & _ & Hrest & Hfifo & _).
    + apply (bool_decide_unpack _). vm_compute. exact I.
    + apply (bool_decide_unpack _). vm_compute. exact I.
    + apply (bool_decide_unpack _). vm_compute. exact I.
    + split; [exact Htouched|]. split.
      * apply (Hfifo 0%nat 1%nat (10000, 0%nat) (10000, 1%nat));
          [reflexivity|reflexivity|lia|exact Htouched].
      * assert (length (OrderBook.add_order Scenario.clk s.1 s.2 3).2 = 4%nat) as Hl
          by (vm_compute; reflexivity).
        assert (n = 2%nat) as -> by (rewrite Hl in Hlen; lia).
        apply (Hrest 2%nat (10000, 2%nat)); [reflexivity|lia].
  - cbv zeta. set (req := Scenario.request 3 1 SELL 10000 150).
    assert (ids_suffice Scenario.two_bids) as H0 by (vm_compute; reflexivity).
    assert (rests (run Scenario.clk Scenario.two_bids) 0) as H1
      by (unfold rests; apply (bool_decide_unpack _); vm_compute; exact I).
    assert (rests (run Scenario.clk Scenario.two_bids) 1) as H2
      by (unfold rests; apply (bool_decide_unpack _); vm_compute; exact I).
    assert (Order.instrument_id (deref (run Scenario.clk Scenario.two_bids).1 0)
            = Order.instrument_id (deref (run Scenario.clk Scenario.two_bids).1 1)) as H3
      by (vm_compute; reflexivity).
    assert (Order.side (deref (run Scenario.clk Scenario.two_bids).1 0)
            = Order.side (deref (run Scenario.clk Scenario.two_bids).1 1)) as H4
      by (vm_compute; reflexivity).
    assert (Order.price (deref (run Scenario.clk Scenario.two_bids).1 0)
            = Order.price (deref (run Scenario.clk Scenario.two_bids).1 1)) as H5
      by (vm_compute; reflexivity).
    assert (Order.id (deref (run Scenario.clk Scenario.two_bids).1 0)
            < Order.id (deref (run Scenario.clk Scenario.two_bids).1 1))%N as H6
      by (vm_compute; reflexivity).
    assert (deref (Engine.submit_order Scenario.clk (run Scenario.clk Scenario.two_bids).1
                     (run Scenario.clk Scenario.two_bids).2 req).1.1 1
            <> deref (run Scenario.clk Scenario.two_bids).1 1) as H7
      by (vm_compute; discriminate).
    split; [vm_compute; reflexivity|].
    exact (proj1 (proj2 (price_time_priority Scenario.clk)) Scenario.two_bids req 0%nat 1%nat
             H0 H1 H2 H3 H4 H5 H6 H7).
Defined.

(** C1, at the purchase and the sale of test [RealizedPnL]. *)
Lemma position_invariant_preserved_witness :
  let e := (run Scenario.clk Scenario.round_trip).2 in
  ledger_fits (Engine.get_fill_history e) /\
  0 <= Position.vwap (Engine.position_of e 1 1).
Proof.
  intros e.
  assert (ledger_fits (Engine.get_fill_history e)) as Hfits.
  { split; [apply (bool_decide_unpack _); vm_compute; exact I|].
    split; vm_compute; reflexivity. }
  split; [exact Hfits|].
  apply (proj1 (position_invariant_preserved Scenario.clk) Scenario.round_trip 1%N
           (default ∅ (Engine.positions_ e !! 1%N)) 1%N); [exact Hfits| |];
    vm_compute; reflexivity.
Defined.

(** C1, the claim as stated fails, in three ways.  In test [RealizedPnL]
    user 1 buys 100 and sells 100; the position is flat afterwards and still
    carries the entry price 100.00.  The engine accepts a negative price,
    which becomes the entry price of the buyer.  And two purchases of 1 at
    the price [5 * 10^18] leave an entry price that is negative, their sum
    being beyond the range of [int64_t]. *)
Lemma position_invariant_fails :
  (let e := (run Scenario.clk Scenario.round_trip).2 in
   let pos := Engine.position_of e 1 1 in
   (Engine.positions_ e !! 1%N) ≫= (fun m => m !! 1%N) = Some pos /\
   Position.net_qty pos = 0 /\ Position.vwap pos = 10000 /\
   ~ position_invariant pos) /\
  (let e := (run Scenario.clk Scenario.negative_price).2 in
   let pos := Engine.position_of e 1 1 in
   (Engine.positions_ e !! 1%N) ≫= (fun m => m !! 1%N) = Some pos /\
   Position.net_qty pos = 1 /\ Position.vwap pos = -1 /\
   ~ position_invariant pos) /\
  (let e := (run Scenario.clk Scenario.large_prices).2 in
   let pos := Engine.position_of e 1 1 in
   (Engine.positions_ e !! 1%N) ≫= (fun m => m !! 1%N) = Some pos /\
   Position.net_qty pos = 2 /\ Position.vwap pos = -4223372036854775808 /\
   Forall (fun f => 0 <= Fill.price f) (Engine.get_fill_history e) /\
   ~ position_invariant pos).
Proof.
  split; [|split].
  - intros e pos.
    assert (Position.net_qty pos = 0) as Hnet by (vm_compute; reflexivity).
    assert (Position.vwap pos = 10000) as Hvwap by (vm_compute; reflexivity).
    split; [vm_compute; reflexivity|]. split; [exact Hnet|]. split; [exact Hvwap|].
    intros [Hflat _]. specialize (Hflat Hnet). rewrite Hvwap in Hflat. discriminate Hflat.
  - intros e pos.
    assert (Position.vwap pos = -1) as Hvwap by (vm_compute; reflexivity).
    split; [vm_compute; reflexivity|]. split; [vm_compute; reflexivity|].
    split; [exact Hvwap|]. intros [_ Hpos]. rewrite Hvwap in Hpos. by apply Hpos.
  - intros e pos.
    assert (Position.vwap pos = -4223372036854775808) as Hvwap by (vm_compute; reflexivity).
    split; [vm_compute; reflexivity|]. split; [vm_compute; reflexivity|].
    split; [exact Hvwap|].
    split; [apply (bool_decide_unpack _); vm_compute; exact I|].
    intros [_ Hpos]. rewrite Hvwap in Hpos. by apply Hpos.
Qed.

(** C6, at the failing input: user 1 buys 100 at 1.00 from user 2 and 200
    at 1.01 from user 3.  The average entry price 1.0066.. is stored as
    1.00, and after the settlement at 100.00 the totals of the three users,
    29700.0, -9900.0 and -19798.0, add up to 2.0, outside the tolerance. *)
Lemma zero_sum_fails_after_truncation :
  let e0 := (run Scenario.clk Scenario.averaged).2 in
  let e := (run Scenario.clk (Scenario.averaged ++ [Op.SettleInstrument 1 10000])).2 in
  Position.vwap (Engine.position_of e0 1 1) = 100 /\
  Engine.get_total_pnl e 1 = 29700%float /\
  Engine.get_total_pnl e 2 = (-9900)%float /\
  Engine.get_total_pnl e 3 = (-19798)%float /\
  total_pnl_sum e = 2%float /\ within_tolerance (total_pnl_sum e) = false.
Proof. vm_compute. repeat split; reflexivity. Qed.

(** * The further properties, at the scenarios *)

(** X1, at the better of the two bids of [two_sided], of which 10 of 30
    were sold. *)
Lemma resting_order_state_witness :
  let o := deref (run Scenario.clk Fixture.two_sided).1 2 in
  Order.instrument_id o = 1%N /\ Order.side o = BUY /\ Order.price o = 10000 /\
  0 <= Order.filled_quantity o < Order.quantity o /\
  Order.status o = (if 0 <? Order.filled_quantity o then PARTIAL else PENDING).
Proof.
  assert (Engine.order_books_ (run Scenario.clk Fixture.two_sided).2 !! 1%N
          = Some (Engine.book_of (run Scenario.clk Fixture.two_sided).2 1)) as H1
    by (vm_compute; reflexivity).
  assert ((10000, [2%nat]) ∈ own BUY (Engine.book_of (run Scenario.clk Fixture.two_sided).2 1))
    as H2 by (apply (bool_decide_unpack _); vm_compute; exact I).
  assert (2%nat ∈ [2%nat]) as H3 by (apply (bool_decide_unpack _); vm_compute; exact I).
  exact (resting_order_state Scenario.clk Fixture.two_sided 1 _ BUY 10000 [2%nat] 2%nat H1 H2 H3).
Defined.

(** X2, at the book of [two_sided]: the best bid 100.00 is below the best
    offer 101.00. *)
Lemma book_never_crossed_witness :
  OrderBook.get_best_bid (Engine.book_of (run Scenario.clk Fixture.two_sided).2 1)
  < OrderBook.get_best_ask (Engine.book_of (run Scenario.clk Fixture.two_sided).2 1).
Proof.
  assert (Engine.order_books_ (run Scenario.clk Fixture.two_sided).2 !! 1%N
          = Some (Engine.book_of (run Scenario.clk Fixture.two_sided).2 1)) as H1
    by (vm_compute; reflexivity).
  apply (proj2 (book_never_crossed Scenario.clk Fixture.two_sided 1 _ H1)).
  - vm_compute. discriminate.
  - vm_compute. discriminate.
Defined.

(** X3, at the worse of the two bids of [two_sided]. *)
Lemma best_prices_extreme_witness :
  Order.price (deref (run Scenario.clk Fixture.two_sided).1 0)
  <= OrderBook.get_best_bid (Engine.book_of (run Scenario.clk Fixture.two_sided).2 1).
Proof.
  assert (Engine.order_books_ (run Scenario.clk Fixture.two_sided).2 !! 1%N
          = Some (Engine.book_of (run Scenario.clk Fixture.two_sided).2 1)) as H1
    by (vm_compute; reflexivity).
  apply (proj1 (best_prices_extreme Scenario.clk Fixture.two_sided 1 _ H1)).
  apply (bool_decide_unpack _). vm_compute. exact I.
Defined.

(** X4, at the book of [two_sided] and a depth of one level. *)
Lemma snapshot_top_levels_witness :
  MarketSnapshot.bids
    (OrderBook.get_snapshot Scenario.clk (run Scenario.clk Fixture.two_sided).1
       (Engine.book_of (run Scenario.clk Fixture.two_sided).2 1) 1).1
  = take 1 (level_summary (run Scenario.clk Fixture.two_sided).1
              <$> OrderBook.bids_ (Engine.book_of (run Scenario.clk Fixture.two_sided).2 1)).
Proof.
  assert (Engine.order_books_ (run Scenario.clk Fixture.two_sided).2 !! 1%N
          = Some (Engine.book_of (run Scenario.clk Fixture.two_sided).2 1)) as H1
    by (vm_compute; reflexivity).
  assert (sizes_fit (run Scenario.clk Fixture.two_sided).1
            (Engine.book_of (run Scenario.clk Fixture.two_sided).2 1)) as H2
    by (apply (bool_decide_unpack _); vm_compute; exact I).
  exact (proj1 (snapshot_top_levels Scenario.clk Fixture.two_sided 1 _ 1 H1 H2)).
Defined.

(** X5, at a purchase of 20 of the 50 offered in [two_sided]. *)
Lemma submit_order_outcome_witness :
  fill_volume
    (OrderResult.fills
       (Engine.submit_order Scenario.clk (run Scenario.clk Fixture.two_sided).1
          (run Scenario.clk Fixture.two_sided).2 (Scenario.request 5 1 BUY 10100 20)).2)
  = 2 * Order.filled_quantity
          (deref (Engine.submit_order Scenario.clk (run Scenario.clk Fixture.two_sided).1
                    (run Scenario.clk Fixture.two_sided).2
                    (Scenario.request 5 1 BUY 10100 20)).1.1
             (length (World.heap (run Scenario.clk Fixture.two_sided).1))).
Proof.
  assert (OrderResult.success
            (Engine.submit_order Scenario.clk (run Scenario.clk Fixture.two_sided).1
               (run Scenario.clk Fixture.two_sided).2
               (Scenario.request 5 1 BUY 10100 20)).2 = true) as H1
    by (vm_compute; reflexivity).
  exact (proj1 (proj2 (proj2 (submit_order_outcome Scenario.clk Fixture.two_sided
                (Scenario.request 5 1 BUY 10100 20) H1)))).
Defined.

(** X7, at the instrument of [two_sided], where 10 were traded. *)
Lemma net_quantities_cancel_witness :
  net_in 1 (Engine.positions_ (run Scenario.clk Fixture.two_sided).2) = 0.
Proof.
  apply (net_quantities_cancel Scenario.clk Fixture.two_sided 1).
  vm_compute. reflexivity.
Defined.

(** X10, at the cancellation by user 1 of the first bid of [two_sided]. *)
Lemma cancel_order_effect_witness :
  let s := run Scenario.clk Fixture.two_sided in
  let res := Engine.cancel_order s.1 s.2 1 1 in
  res.2 = true <->
  exists q, Engine.active_orders_ s.2 !! 1%N = Some q /\
            Order.user_id (deref s.1 q) = 1%N /\ Order.status (deref s.1 q) <> FILLED.
Proof.
  assert (ids_suffice Fixture.two_sided) as H by (vm_compute; reflexivity).
  exact (proj1 (cancel_order_effect Scenario.clk Fixture.two_sided 1 1 H)).
Defined.

(** X11, at the orders of [two_sided]. *)
Lemma get_orders_listed_witness :
  let s := run Scenario.clk Fixture.two_sided in
  StronglySorted (fun p q => (Order.id (deref s.1 p) < Order.id (deref s.1 q))%N)
                 (Engine.get_orders s.1 s.2 1).
Proof.
  assert (ids_suffice Fixture.two_sided) as H by (vm_compute; reflexivity).
  exact (proj1 (get_orders_listed Scenario.clk Fixture.two_sided 1 H)).
Defined.

(** X12, at the cancellation of the orders of user 1 in [two_sided]. *)
Lemma cancel_all_effect_witness :
  let s := run Scenario.clk Fixture.two_sided in
  (Engine.cancel_all s.1 s.2 1).2 = true.
Proof.
  assert (ids_suffice Fixture.two_sided) as H by (vm_compute; reflexivity).
  exact (proj1 (cancel_all_effect Scenario.clk Fixture.two_sided 1 H)).
Defined.

(** X14, at the instrument of [two_sided] and its settlement. *)
Lemma instrument_stays_witness :
  InstrumentSpec.id (Scenario.instrument 1 SCALAR 0) = 1%N /\
  is_Some (Engine.order_books_
             (run Scenario.clk (Fixture.two_sided ++ [Op.SettleInstrument 1 10000])).2
           !! 1%N).
Proof.
  assert (Engine.get_instrument (run Scenario.clk Fixture.two_sided).2 1
          = Some (Scenario.instrument 1 SCALAR 0)) as H by (vm_compute; reflexivity).
  pose proof (instrument_stays Scenario.clk Fixture.two_sided
                [Op.SettleInstrument 1 10000] 1 (Scenario.instrument 1 SCALAR 0) H)
    as (H1 & _ & H3 & _).
  exact (conj H1 H3).
Defined.

(** X15, at the replacement of the first bid of [two_sided] by user 2,
    who does not own it. *)
Lemma replace_order_effect_witness :
  let s := run Scenario.clk Fixture.two_sided in
  Engine.replace_order Scenario.clk s.1 s.2 1 2 (Some 9950) None = (s, false).
Proof.
  assert (ids_suffice Fixture.two_sided) as H by (vm_compute; reflexivity).
  apply (proj1 (replace_order_effect Scenario.clk Fixture.two_sided 1 2 (Some 9950) None H)).
  vm_compute. reflexivity.
Defined.

(** X16, at the position of user 3 in [two_sided], who bought 10. *)
Lemma positions_replay_fills_witness :
  let e := (run Scenario.clk Fixture.two_sided).2 in
  Position.net_qty (Engine.position_of e 3 1) = net_fills 3 1 (Engine.get_fill_history e).
Proof.
  assert (Forall (unsettled 1) Fixture.two_sided) as H by (repeat constructor).
  apply (proj2 (positions_replay_fills Scenario.clk Fixture.two_sided 1 H 3%N)).
  vm_compute. reflexivity.
Defined.

(** X17, at the better bid of [two_sided], of which 10 were sold. *)
Lemma fills_account_for_orders_witness :
  let s := run Scenario.clk Fixture.two_sided in
  Order.filled_quantity (deref s.1 2)
  = filled_in (Order.id (deref s.1 2)) (Engine.get_fill_history s.2).
Proof.
  assert (ids_suffice Fixture.two_sided) as H by (vm_compute; reflexivity).
  apply (proj1 (fills_account_for_orders Scenario.clk Fixture.two_sided H)).
  apply (bool_decide_unpack _). vm_compute. exact I.
Defined.

(** X18, at the sale of [two_sided], filled in full, when its owner then
    asks to cancel it and another order trades. *)
Lemma finished_orders_frozen_witness :
  let later := [Op.CancelOrder 4 4; Scenario.submit 1 1 BUY 10100 5] in
  Order.status (deref (run Scenario.clk Fixture.two_sided).1 3) = FILLED /\
  deref (run Scenario.clk (Fixture.two_sided ++ later)).1 3
  = deref (run Scenario.clk Fixture.two_sided).1 3.
Proof.
  intros later.
  assert (ids_suffice (Fixture.two_sided ++ later)) as H by (vm_compute; reflexivity).
  assert (valid (run Scenario.clk Fixture.two_sided).1 3) as Hv
    by (apply (bool_decide_unpack _); vm_compute; exact I).
  assert (Order.status (deref (run Scenario.clk Fixture.two_sided).1 3) = FILLED) as Hs
    by (vm_compute; reflexivity).
  exact (conj Hs (proj2 (finished_orders_frozen Scenario.clk Fixture.two_sided later 3
                           H Hv (or_introl Hs)))).
Defined.
